(* ===== verification/_CoqProject ===== *)
-Q . S2P
Prelude.v
Float64.v
Base64.v
Protocol.v
Governor.v
GovernorFacts.v
Lifecycle.v
GovernorProps.v
GovernorTick.v
GovernorRefinement.v
Storage.v
StorageProps.v
Search.v
Json.v
Wire.v
Envelope.v
EnvelopeProps.v
ItemStore.v
StorageTrait.v
Replication.v
ReplicationProps.v
PeerPool.v
Config.v
SwarmTask.v
SwarmProps.v
WireProps.v
ReplicationTask.v
SyncRound.v
ReplicationTaskProps.v
Api.v
ApiProps.v
EndToEnd.v
RelayPath.v
Culture.v
AntiEntropy.v
GovernorTask.v
GovernorTaskProps.v
Startup.v
StartupProps.v
Node.v
NodeProps.v
NodeRounds.v
Cluster.v
ClusterProps.v
Isolation.v
Shutdown.v
Convergence.v
Sha256.v
Testing.v
TestGovernor.v
TestStorage.v
TestReplication.v
TestNode.v
TestCrypto.v
Mesh.v
TestIntegration.v
