(* ===== verification/Prelude.v ===== *)
(** * Verification of the Cordelia node

    Cordelia is a peer-to-peer node that keeps encrypted memory items in an
    SQLite store and replicates them, group by group, to other nodes.  Its Rust
    code is under [crates/].  This library models the node's own logic and
    proves what makes it correct.

    ** The parts and where they are modelled

    - Peer governor ([cordelia-governor/src/lib.rs], [Governor]): the table of
      known peers and the periodic [tick] that unbans, reaps, promotes, demotes,
      churns and evicts.  [Governor.v] has the data and every operation,
      [GovernorFacts.v] the lemmas per phase of a tick, [Lifecycle.v] the
      abstract life cycle of a peer (from docs/architecture/network-model.md) as
      a labelled machine over the states of all peers, [GovernorRefinement.v] the
      refinement of it, [GovernorProps.v] and [GovernorTick.v] the other
      theorems.  Scores are IEEE doubles ([Float64.v]).
    - Protocol ([cordelia-protocol]): era parameters, limits, messages and group
      descriptors, in [Protocol.v].  SHA-256, hexadecimal and Ed25519 are the
      class [Crypto].  [Wire.v] has the JSON documents of the messages as the
      derived serialisers of [messages.rs] write and read them, over the base64
      interface of [Base64.v]; theorems in [WireProps.v].
    - Storage ([cordelia-storage], [SqliteStorage] and the schema files): the
      tables as finite maps, each method as a state transformer with errors, in
      [Storage.v]; theorems in [StorageProps.v].
    - Replication engine ([cordelia-replication], [ReplicationEngine]): in
      [Replication.v], against the interface [ItemStore] ([ItemStore.v]) that
      states what the engine may rely on; the SQLite store is an instance.
      Theorems in [ReplicationProps.v] hold for every store with these laws.
    - Peer pool ([cordelia-node/src/peer_pool.rs]): the connected peers as the
      other tasks see them, and how the governor's actions change it, in
      [PeerPool.v].
    - Governor task ([cordelia-node/src/governor_task.rs]): the loop that feeds
      the swarm's notices to governor and pool, bootnodes, group exchange and
      discovery, in [GovernorTask.v]; theorems in [GovernorTaskProps.v].
    - Configuration ([cordelia-node/src/config.rs]): roles, relay postures, the
      sections with their defaults, loading, and the targets that follow, in
      [Config.v].
    - Swarm task ([cordelia-node/src/swarm_task.rs]): commands, network events,
      request handlers, descriptor signing and merging, relay acceptance and
      forwarding, in [SwarmTask.v]; theorems in [SwarmProps.v].
    - Replication task ([cordelia-node/src/replication_task.rs]): write
      coalescing, batched push and retries, anti-entropy rounds, bootstrap and
      garbage collection, in [ReplicationTask.v]; [SyncRound.v] cuts the rounds
      of [run_anti_entropy] where they await an answer.  Theorems in
      [ReplicationTaskProps.v] and [AntiEntropy.v].
    - Full-text search and the storage trait ([cordelia-storage],
      [fts_search] and [Storage]; [cordelia-node/src/lib.rs], [StorageClone]):
      [Search.v] builds the match expression, [StorageTrait.v] has the trait as
      a record of operations with its two implementations.
    - HTTP API ([cordelia-api/src/lib.rs]): the shared state, the token check,
      the request types and every handler of [router], in [Api.v], over the JSON
      values and number formats of [Json.v]; theorems in [ApiProps.v], in
      [EndToEnd.v] from one node's API to another's, in [RelayPath.v] to a node
      behind a relay, and in [Culture.v] on the culture of a group, which the
      API stores as text and the replication task reads.
    - Encryption envelope and identity ([cordelia-crypto]): the AES-256-GCM
      provider, the payload format, the key file and the extraction of the seed,
      in [Envelope.v]; theorems in [EnvelopeProps.v].
    - Start and command line ([cordelia-node/src/main.rs] and the helpers of
      [lib.rs]): [run_node] from the files to the initial states of the tasks,
      and the commands, in [Startup.v]; theorems in [StartupProps.v].
    - The running node ([run_node]'s tasks over what they share): [Node.v] is
      the state with the views of the tasks and one [step] function over labels
      that say what happens next; theorems in [NodeProps.v], in
      [NodeRounds.v] on the channels between a waiting round and the swarm task,
      in [Isolation.v] on the groups that a node keeps out, and in [Shutdown.v]
      on the end of the tasks.
    - Several nodes: [Cluster.v] puts nodes on a network that loses, repeats,
      delays and reorders what it carries; theorems in [ClusterProps.v].
      [Convergence.v] runs full anti-entropy rounds between several stores.
      [Mesh.v] runs started nodes on a network that delivers.
    - The unit tests of the crates, translated to checks that run on the model:
      [Testing.v], [TestGovernor.v], [TestStorage.v], [TestReplication.v],
      [TestNode.v], [TestCrypto.v] (with [Sha256.v] as the hash); and the
      scenarios of the integration tests on meshes of up to three nodes, in
      [TestIntegration.v].

    The governor decides, the pool mirrors its decisions, the swarm task talks
    to the network and the store, and the replication task drives pushes and
    syncs through the swarm task; received items reach the store only through
    [on_receive] of the engine; the API writes to the store and tells the
    replication task.

    ** How the code is read

    State is passed explicitly; a task is its state record with one function
    per arm of its loop, returning the commands, responses and events it hands
    out.  Storage methods return a value or an error and the store after it.
    Integers have the width of the code where they can wrap ([wrap_u32],
    [wrap_u64], saturation in the backoff); code that can panic on the inputs it
    gets has its panic as a value ([Run]: the indexing of the key document, the
    cutting of the needed items into chunks), and a task that panics stays where
    it was, its receivers dropped; instants and durations are
    nanoseconds in [Z]; timestamps are texts compared as texts, as in the code.
    The order in which hash maps and unordered queries are traversed is the
    class [HashIter], so every theorem holds for every order.  Clocks, random
    indices, network answers and failures of SQL statements are arguments.

    ** What the theorems show

    - Governor: every operation is one step of the peer life cycle with its label;
      the table stays
      well formed; a tick reports exactly what it did, ends within the targets,
      promotes healthy peers, respects bans, demotes in the documented order
      and dials the right peers; the reconnect backoff has its closed form.
    - Storage: integrity of keys, checks, references and checksums under any sequence
      of operations and failures; durability of writes; exact paging; soft
      deletion; exact garbage collection; migration of older databases.
    - Replication: outcome and effect of a received item; no entry goes back in
      time; idempotence; agreement of replicas whatever the order and number of
      deliveries of items without ties and tombstones; a broadcast item arrives
      unchanged; exact header comparison.
    - Governor task and pool: in every orderly run the pool shows exactly
      the peers that the governor has as connected; placeholders of bootnodes
      get their identity; gossip only adds entries; bootnodes that resolve within
      six ticks are kept and dialled again; the best class of sync partners is chosen.
    - Swarm task: only valid descriptors are merged; own groups are signed
      validly; relays accept exactly what their posture admits, count it
      exactly, and do not forward pushes of ordinary items twice; fetched items are faithful; each request is
      answered once; connection notices alternate; what a node sends is read by
      its peer as it was meant.
    - Replication task: batches carry everything within the limit; a flush
      pushes everything to the peers concerned and nobody else; retries are
      bounded; an anti-entropy round with a peer that runs the same code catches
      up with the served page.
    - API: no request without the token changes or learns anything; a write is
      all or nothing and is read back as written; a deleted group is hidden and
      its members removed; a search asks the index for phrases only and answers
      with items of the group.
    - From node to node: an item accepted by the API of one node is readable
      through the API of a peer after notification, flush, push and receive, with
      the writing node as its author; a deletion arrives in the same way.  A relay forwards what it stores, so the
      item is readable at a member that is connected to the relay only; a
      deletion is not stored as an item and stops there.  The culture that a
      group is created with decides whether its writes are pushed.
    - Envelope and identity: encryption round-trips, decryption accepts exactly
      what was sealed, the seed search never panics and is the structural one, a key file gives
      the same identity at every start.
    - Start: well-formed initial states with targets within the bounds of the role,
      the same node after a restart, commands that reach a node whose API is on HTTP.
    - The whole node: integrity of store, groups, channel and identity through
      every step of every task; agreement of pool and governor in orderly runs,
      the order of connection notices being proved there; a
      round that waits for an answer goes on unless the batch size is zero, and
      ends when the swarm task does; no peer can make a node store items of a group that it keeps out.
    - Networks: every item in any store or on the wire comes from an authorised
      request; repeated full rounds of a group without ties that fits a batch bring
      the stores to the newest versions.
    - Tests: every translated unit test and scenario passes on the model.
    - Some theorems and lemmas state what the code does where it departs
      from its documentation: [new_database_lacks_devices],
      [tombstone_crosses_groups], [keyless_descriptor_replaces_signed_group],
      [merged_descriptor_is_not_relayed], [page_boundary_skips_ties],
      [stale_dial_hides_peer], [banned_peer_enters_pool],
      [posture_update_revives_removed], [group_search_limit_wraps],
      [restart_revives_deleted_group], [restart_joins_heard_group],
      [keeper_dials_untrusted_bootnode], [absent_and_empty_tables],
      [decrypt_ignores_boundary], [tied_versions_stay_apart],
      [anti_entropy_revives_deleted], [fetch_serves_any_row],
      [stored_push_forwarded], [tombstone_stops_at_relay],
      [deleted_group_refilled], [unreadable_culture_pushes],
      [pushed_copy_changes_author], [item_with_tombstone_circulates],
      [zero_batch_panics], [cli_misses_default_transport]; so does the part of
      [bootnodes_kept_and_redialled] on bootnodes that do not resolve.

    ** Bounds and fuel

    [chunks_aux] has the length of its list as fuel, enough because every call
    drops at least one element ([chunks_concat]).  The text functions of
    [Search.v] and [Startup.v] ([take_word], [words_aux], [blank_aux],
    [trim_start_aux]) have the length of their text, enough because every call
    consumes a character ([strip_space_shorter], [words_blank]); [seed_loop]
    counts the rounds of the code's loop; the fuel of [drive] bounds the requests
    of a tick, and some fuel is enough whatever the answers
    ([sync_tick_in_pieces], with which [SyncRound.v] ties the rounds cut at their
    await points to [on_sync_tick]); when the node shuts down the number of groups
    that are left is enough ([groups_fail], [sent_round_fails]).  In the mesh [close_all] counts connections and
    [settle] has [SETTLE] events, [wait] the rounds of the tests' deadlines; the
    scenarios reach their conclusions within them.  Other loops are folds.  [mesh_converges] needs more
    than n (n + 1) passes over all pairs of n nodes.  The number of
    delivered or pushed items is bounded only where a 32-bit counter is read
    ([relay_push_acceptance]).

    ** What is not modelled

    The libp2p swarm and its transports ([build_swarm], of which only the
    mini-protocols are modelled), SQLite and its FTS5 index, ring, the text
    forms of JSON and TOML, axum, clap and tokio are third-party: their behaviour
    enters as inputs, as class parameters ([Crypto], [CryptoLib], [KeyLib],
    [WireFormats], [Base64]) or as the SQL model; that an HTTP call to the address on
    which the node listens reaches the router is the hypothesis [delivers].  Logging, the serving of
    connections are left out, and of the shutdown everything but its effect on the
    tasks.  The arms of a task are single
    steps, except that sync rounds and what the governor task spawns are split at
    their await points; the handlers of the API await only locks and are single
    steps; the back-pressure of the command channel is not modelled.  The
    integration tests bind sockets and wait in real time: their scenarios run on
    [Mesh.v] instead, with smaller meshes.  The unit tests of TOML printing, JSON
    parsing and ring's signatures are left out.

    This first file is the prelude: results, machine integers, text order, hash
    traversal, sorting, counting, and the development's tactics and hints. *)

From stdpp Require Export base list gmap strings sorting.
From Stdlib Require Export ZArith Lia.


#[global] Open Scope Z_scope.

(** ** Rust's [Result] *)

Inductive result (A E : Type) : Type :=
| Ok (a : A)
| Err (e : E).

Arguments Ok {A E} _.
Arguments Err {A E} _.

Definition is_ok {A E} (r : result A E) : bool :=
  match r with Ok _ => true | Err _ => false end.

(** ** Panics *)

(** Code that may panic: it finishes with a value, or it panics and nothing after it runs. *)
Inductive Run (A : Type) : Type :=
| Finished (a : A)
| Panic.

Arguments Finished {A} _.
Arguments Panic {A}.

Definition run_bind {A B} (r : Run A) (f : A -> Run B) : Run B :=
  match r with Finished a => f a | Panic => Panic end.

(** The value of code that is known not to panic. *)
Definition from_finished {A} (r : Run A) : r <> Panic -> A :=
  match r return r <> Panic -> A with
  | Finished a => fun _ => a
  | Panic => fun H => False_rect A (H eq_refl)
  end.

(** [l[i]] and [&l[a..b]] panic out of bounds. *)
Definition index {A} (l : list A) (i : nat) : Run A :=
  match l !! i with Some x => Finished x | None => Panic end.

Definition slice {A} (l : list A) (a b : nat) : Run (list A) :=
  if (a <=? b)%nat && (b <=? length l)%nat then Finished (take (b - a) (drop a l)) else Panic.

(** The value of a result that is known to be [Ok]. *)
Definition from_ok {A E} (r : result A E) : is_ok r = true -> A :=
  match r return is_ok r = true -> A with
  | Ok a => fun _ => a
  | Err _ => fun H => False_rect A (diff_false_true H)
  end.

(** [unwrap_or_default] and friends. *)
Definition unwrap_or {A E} (d : A) (r : result A E) : A :=
  match r with Ok a => a | Err _ => d end.

Declare Scope result_scope.
Delimit Scope result_scope with result.

(** The [?] operator. *)
Notation "'let?' x := c 'in' k" :=
  (match c with Ok x => k | Err e => Err e end)
  (at level 10, x name, c at level 200, k at level 200) : result_scope.

(** ** Machine integers: the wrap-around of release builds *)

Definition u32_max : Z := 2 ^ 32 - 1.
Definition u64_max : Z := 2 ^ 64 - 1.
Definition usize_max : Z := u64_max.

Definition wrap_u32 (z : Z) : Z := z mod 2 ^ 32.
Definition wrap_u64 (z : Z) : Z := z mod 2 ^ 64.

Definition is_u32 (z : Z) : Prop := 0 <= z <= u32_max.

(** [x as i32] for a [u32], and back. *)
Definition u32_as_i32 (z : Z) : Z := if z <? 2 ^ 31 then z else z - 2 ^ 32.
Definition i32_as_u32 (z : Z) : Z := z mod 2 ^ 32.

(** [u64::saturating_mul] *)
Definition u64_saturating_mul (a b : Z) : Z := Z.min (a * b) u64_max.

Lemma pair_ok {A B E} (p : A * result B E) (H : is_ok p.2 = true) : p = (p.1, Ok (from_ok p.2 H)).
Proof. destruct p as [a [b|e]]; [reflexivity|discriminate H]. Qed.

Lemma wrap_u32_range z : is_u32 (wrap_u32 z).
Proof. unfold is_u32, wrap_u32, u32_max. pose proof (Z.mod_pos_bound z (2 ^ 32)). lia. Qed.

Lemma i32_u32_roundtrip z : is_u32 z -> i32_as_u32 (u32_as_i32 z) = z.
Proof.
  unfold is_u32, u32_max, u32_as_i32, i32_as_u32; intros Hz.
  destruct (Z.ltb_spec z (2 ^ 31)).
  - rewrite Z.mod_small; lia.
  - rewrite <- (Z_mod_plus_full (z - 2 ^ 32) 1 (2 ^ 32)), Z.mod_small; lia.
Qed.

(** ** Time: [Instant] and [Duration] in nanoseconds *)

Abbreviation Instant := Z (only parsing).
Abbreviation Duration := Z (only parsing).

Definition nanos_per_sec : Z := 1000000000.
Definition from_secs (s : Z) : Duration := s * nanos_per_sec.

(** [Instant::duration_since] and [Instant::elapsed] saturate at zero. *)
Definition duration_since (now earlier : Instant) : Duration := Z.max 0 (now - earlier).

(** ** Text: byte-wise order of Rust [String]s and of SQLite's BINARY collation *)

Definition str_le (a b : string) : bool := String.leb a b.
Definition str_lt (a b : string) : bool := String.ltb a b.

Lemma str_le_refl a : str_le a a = true.
Proof. by destruct (String.leb_total a a). Qed.

Lemma str_le_total a b : str_le a b = true \/ str_le b a = true.
Proof. apply String.leb_total. Qed.

Lemma str_le_antisym a b : str_le a b = true -> str_le b a = true -> a = b.
Proof. apply String.leb_antisym. Qed.

Lemma str_le_trans a b c : str_le a b = true -> str_le b c = true -> str_le a c = true.
Proof.
  unfold str_le; intros H1 H2.
  assert (String.le a c) as H; [ | by apply Is_true_eq_true in H].
  transitivity b; by apply Is_true_eq_left.
Qed.

Lemma str_lt_not_le a b : str_lt a b = negb (str_le b a).
Proof.
  unfold str_lt, str_le, String.ltb, String.leb.
  rewrite (String.compare_antisym b a). by destruct (String.compare a b).
Qed.

Lemma str_lt_irrefl a : str_lt a a = false.
Proof. by rewrite str_lt_not_le, str_le_refl. Qed.

Lemma str_lt_le a b : str_lt a b = true -> str_le a b = true.
Proof.
  rewrite str_lt_not_le, negb_true_iff. intros H.
  destruct (str_le_total a b) as [|H']; congruence.
Qed.

Lemma str_lt_le_trans a b c : str_lt a b = true -> str_le b c = true -> str_lt a c = true.
Proof.
  rewrite !str_lt_not_le, !negb_true_iff. intros H1 H2.
  destruct (str_le c a) eqn:E; [|done].
  rewrite (str_le_trans b c a) in H1; congruence.
Qed.

(** [Vec<u8>] *)
Abbreviation bytes := (list Byte.byte) (only parsing).

#[export] Instance byte_eq_decision : EqDecision Byte.byte := Byte.byte_eq_dec.

(** [Vec::contains] *)
Definition contains {A} `{EqDecision A} (l : list A) (x : A) : bool := bool_decide (x ∈ l).

Lemma contains_true {A} `{EqDecision A} (l : list A) x : contains l x = true <-> x ∈ l.
Proof. unfold contains. apply bool_decide_eq_true. Qed.

Lemma contains_false {A} `{EqDecision A} (l : list A) x : contains l x = false <-> x ∉ l.
Proof. unfold contains. apply bool_decide_eq_false. Qed.

(** ** Filtering by a boolean test *)

Abbreviation filterb P l := (filter (fun x => P x = true) l).

Lemma elem_of_filterb {A} (P : A -> bool) (l : list A) x :
  x ∈ filterb P l <-> P x = true /\ x ∈ l.
Proof. by rewrite list_elem_of_filter. Qed.

Definition indicator (b : bool) : nat := if b then 1%nat else 0%nat.

Lemma length_filterb_cons {A} (P : A -> bool) x (l : list A) :
  length (filterb P (x :: l)) = (indicator (P x) + length (filterb P l))%nat.
Proof. rewrite filter_cons. unfold indicator. case_decide as H; destruct (P x); done. Qed.

Lemma length_filterb_mono {A} (P Q : A -> bool) (l : list A) :
  (forall x, P x = true -> Q x = true) -> (length (filterb P l) <= length (filterb Q l))%nat.
Proof.
  intros HPQ. induction l as [|x l IH]; [done|]. rewrite !length_filterb_cons. unfold indicator.
  destruct (P x) eqn:E; [rewrite (HPQ x E); lia|]. destruct (Q x); lia.
Qed.

Lemma length_filterb_lt {A} (P Q : A -> bool) (l : list A) y :
  (forall x, P x = true -> Q x = true) -> y ∈ l -> Q y = true -> P y = false ->
  (length (filterb P l) < length (filterb Q l))%nat.
Proof.
  intros HPQ Hy HQ HP. induction l as [|x l IH]; [by apply elem_of_nil in Hy|]. rewrite !length_filterb_cons.
  pose proof (length_filterb_mono P Q l HPQ) as Hm. apply elem_of_cons in Hy as [<-|Hy].
  - rewrite HQ, HP. cbn. lia.
  - specialize (IH Hy). unfold indicator. destruct (P x) eqn:E; [rewrite (HPQ x E); lia|]. destruct (Q x); lia.
Qed.

Lemma filterb_false {A} (P : A -> bool) (l : list A) :
  (forall x, x ∈ l -> P x = false) -> filterb P l = [].
Proof.
  induction l as [|x l IH]; intros H; [done|].
  rewrite filter_cons_False by (rewrite H; [done | left]).
  apply IH. intros y Hy. apply H. by right.
Qed.

Lemma filterb_true {A} (P : A -> bool) (l : list A) :
  (forall x, x ∈ l -> P x = true) -> filterb P l = l.
Proof.
  induction l as [|x l IH]; intros H; [done|].
  rewrite filter_cons_True by (apply H; left).
  f_equal. apply IH. intros y Hy. apply H. by right.
Qed.

Lemma filterb_ext {A} (P Q : A -> bool) (l : list A) :
  (forall x, x ∈ l -> P x = Q x) -> filterb P l = filterb Q l.
Proof.
  induction l as [|x l IH]; intros H; [done|].
  rewrite !filter_cons. rewrite (H x) by left.
  rewrite IH by (intros; apply H; by right). done.
Qed.

Lemma elem_of_take_in {A} n (l : list A) x : x ∈ take n l -> x ∈ l.
Proof. intros Hx. rewrite <- (take_drop n l), elem_of_app. by left. Qed.

Lemma not_in_take {A} n (l : list A) x : x ∈ l -> x ∉ take n l -> x ∈ drop n l.
Proof. rewrite <- (take_drop n l) at 1. rewrite elem_of_app. tauto. Qed.

Lemma StronglySorted_weaken {A} (R R' : A -> A -> Prop) l :
  (forall x y, R x y -> R' x y) -> StronglySorted R l -> StronglySorted R' l.
Proof.
  intros HR. induction 1 as [|x l Hs IH Hall]; constructor; [done|].
  eapply Forall_impl; [exact Hall|]. apply HR.
Qed.

(** ** Stable sorting ([slice::sort_by] and [slice::sort_by_key]) *)

Section sorting.
Context {A : Type} (cmp : A -> A -> comparison).

Fixpoint insert_by (x : A) (l : list A) : list A :=
  match l with
  | [] => [x]
  | y :: l' => match cmp x y with Gt => y :: insert_by x l' | _ => x :: l end
  end.

Definition sort_by (l : list A) : list A := foldr insert_by [] l.

Definition cmp_le (x y : A) : Prop := cmp x y <> Gt.

Lemma insert_by_perm x l : insert_by x l ≡ₚ x :: l.
Proof.
  induction l as [|y l IH]; simpl; [done|].
  destruct (cmp x y); [done | done |]. rewrite IH. apply Permutation_swap.
Qed.

Lemma sort_by_perm l : sort_by l ≡ₚ l.
Proof. induction l as [|x l IH]; simpl; [done|]. by rewrite insert_by_perm, IH. Qed.

Lemma elem_of_sort_by x l : x ∈ sort_by l <-> x ∈ l.
Proof. by rewrite sort_by_perm. Qed.

Lemma length_sort_by l : length (sort_by l) = length l.
Proof. by rewrite sort_by_perm. Qed.

Lemma insert_by_sorted (Htotal : Total cmp_le) (Htrans : Transitive cmp_le) x l :
  StronglySorted cmp_le l -> StronglySorted cmp_le (insert_by x l).
Proof.
  induction 1 as [|y l Hs IH Hall]; simpl; [repeat constructor|].
  assert (cmp_le x y -> StronglySorted cmp_le (x :: y :: l)) as Hle.
  { intros Hxy. constructor; [by constructor|]. constructor; [done|].
    eapply Forall_impl; [exact Hall|]. intros z. by transitivity y. }
  destruct (cmp x y) eqn:E; try (apply Hle; unfold cmp_le; congruence).
  constructor; [done|]. rewrite insert_by_perm. constructor; [|done].
  destruct (Htotal x y) as [Hc|]; [|done]. unfold cmp_le in Hc. by rewrite E in Hc.
Qed.

Lemma sort_by_sorted (Htotal : Total cmp_le) (Htrans : Transitive cmp_le) l :
  StronglySorted cmp_le (sort_by l).
Proof. induction l; simpl; [constructor | by apply insert_by_sorted]. Qed.

(** The first [n] elements of the sorted list come before all the others. *)
Lemma sort_by_take_le (Htotal : Total cmp_le) (Htrans : Transitive cmp_le) l n x y :
  x ∈ take n (sort_by l) -> y ∈ drop n (sort_by l) -> cmp_le x y.
Proof.
  intros Hx Hy. pose proof (sort_by_sorted Htotal Htrans l) as Hs.
  rewrite <- (take_drop n (sort_by l)) in Hs.
  by eapply (StronglySorted_app_1_elem_of cmp_le); eauto.
Qed.

End sorting.

(** Sorting by an integer key. *)
Definition key_cmp {A} (key : A -> Z) (x y : A) : comparison := key x ?= key y.

#[export] Instance key_cmp_total {A} (key : A -> Z) : Total (cmp_le (key_cmp key)).
Proof.
  intros x y. unfold cmp_le, key_cmp.
  destruct (Z.compare_spec (key x) (key y)), (Z.compare_spec (key y) (key x)); auto; lia.
Qed.

#[export] Instance key_cmp_trans {A} (key : A -> Z) : Transitive (cmp_le (key_cmp key)).
Proof.
  intros x y z. unfold cmp_le, key_cmp.
  destruct (Z.compare_spec (key x) (key y)), (Z.compare_spec (key y) (key z)),
    (Z.compare_spec (key x) (key z)); auto; lia.
Qed.

(** ** Iteration over [HashMap] and [HashSet]

    The order in which Rust's hash containers are traversed is unspecified;
    the only promise is that every entry is visited exactly once.  The
    operations of the model are written against this interface, so that their
    theorems hold for every traversal order. *)

Class HashIter := {
  hash_iter : forall {V : Type}, gmap string V -> list (string * V);
  hash_iter_perm : forall {V : Type} (m : gmap string V), hash_iter m ≡ₚ map_to_list m;
  hash_set_iter : gset string -> list string;
  hash_set_iter_perm : forall s : gset string, hash_set_iter s ≡ₚ elements s;
}.

(** One traversal order, for running the model. *)
Definition sorted_iter : HashIter := {|
  hash_iter V m := map_to_list m;
  hash_iter_perm V m := Permutation_refl _;
  hash_set_iter s := elements s;
  hash_set_iter_perm s := Permutation_refl _;
|}.

(** [HashMap::values] *)
Definition values `{HashIter} {V} (m : gmap string V) : list V := (hash_iter m).*2.

Section hash_iter_lemmas.
Context `{HI : HashIter} {V : Type}.
Implicit Types m : gmap string V.

Lemma elem_of_hash_iter m k v : (k, v) ∈ hash_iter m <-> m !! k = Some v.
Proof. by rewrite hash_iter_perm, elem_of_map_to_list. Qed.

Lemma elem_of_values m v : v ∈ values m <-> exists k, m !! k = Some v.
Proof.
  unfold values. rewrite list_elem_of_fmap. split.
  - intros ([k w] & -> & Hin). exists k. by apply elem_of_hash_iter.
  - intros [k Hk]. exists (k, v). by rewrite elem_of_hash_iter.
Qed.

Lemma values_perm m : values m ≡ₚ (map_to_list m).*2.
Proof. unfold values. by rewrite hash_iter_perm. Qed.

End hash_iter_lemmas.

(** ** Counting the entries of a map *)

Definition map_count {V} (P : V -> bool) (m : gmap string V) : nat :=
  length (filterb P (map_to_list m).*2).

Lemma values_count `{HashIter} {V} (P : V -> bool) (m : gmap string V) :
  length (filterb P (values m)) = map_count P m.
Proof. unfold map_count. by rewrite values_perm. Qed.

(** No more entries than keys they may have. *)
Lemma map_count_le_size {V} (P : V -> bool) (m : gmap string V) (ks : gset string) :
  (forall k v, m !! k = Some v -> P v = true -> k ∈ ks) -> (map_count P m <= size ks)%nat.
Proof.
  intros H. unfold map_count.
  assert (length (filterb P (map_to_list m).*2) = length (filter (fun kv => P kv.2 = true) (map_to_list m)).*1) as ->.
  { induction (map_to_list m) as [|[k v] l IH]; [done|]. rewrite fmap_cons, length_filterb_cons, IH, filter_cons. unfold indicator. cbn [snd].
    case_decide as HP; destruct (P v); done. }
  rewrite <- (size_list_to_set (C := gset string)).
  - apply subseteq_size. intros k (kv & -> & Hkv)%elem_of_list_to_set%list_elem_of_fmap. apply list_elem_of_filter in Hkv as [HP Hin].
    destruct kv as [k v]. apply elem_of_map_to_list in Hin. by eapply H.
  - eapply sublist_NoDup; [apply (NoDup_fst_map_to_list m)|]. apply fmap_sublist, sublist_filter.
Qed.

Lemma map_count_insert_None {V} (P : V -> bool) (m : gmap string V) k v :
  m !! k = None -> map_count P (<[k:=v]> m) = (indicator (P v) + map_count P m)%nat.
Proof.
  intros Hk. unfold map_count. rewrite map_to_list_insert by done. simpl.
  apply length_filterb_cons.
Qed.

Lemma map_count_delete {V} (P : V -> bool) (m : gmap string V) k v :
  m !! k = Some v -> map_count P m = (indicator (P v) + map_count P (delete k m))%nat.
Proof.
  intros Hk. rewrite <- (insert_id m k v) at 1 by done. rewrite <- insert_delete_eq.
  apply map_count_insert_None, lookup_delete_eq.
Qed.

Lemma map_count_insert_Some {V} (P : V -> bool) (m : gmap string V) k v w :
  m !! k = Some v ->
  (map_count P (<[k:=w]> m) + indicator (P v) = indicator (P w) + map_count P m)%nat.
Proof.
  intros Hk. rewrite <- insert_delete_eq, map_count_insert_None by apply lookup_delete_eq.
  rewrite (map_count_delete P m k v) by done. lia.
Qed.

Lemma map_count_ext {V} (P Q : V -> bool) (m : gmap string V) :
  (forall k v, m !! k = Some v -> P v = Q v) -> map_count P m = map_count Q m.
Proof.
  intros H. unfold map_count. f_equal. apply filterb_ext.
  intros v ([k w] & -> & Hin)%list_elem_of_fmap. apply (H k). by apply elem_of_map_to_list.
Qed.

(** ** Automation shared by the components *)

(** Case analysis on every [match] and [if] of the goal. *)
Ltac case_all := repeat (case_match; simplify_eq/=).

Create HintDb cordelia.
#[export] Hint Resolve str_le_refl str_lt_le wrap_u32_range : cordelia.
#[export] Hint Resolve -> contains_true contains_false elem_of_filterb : cordelia.
