(* ===== verification/Float64.v ===== *)
(** * IEEE-754 binary64 arithmetic, as the governor's scores use it

    Rust's [f64] is modelled by the Standard Library's executable
    specification of floating-point arithmetic ([SpecFloat], with a 53-bit
    mantissa and emax = 1024), so that scores round exactly as on the machine.
    The file ends with the fact the sorting code relies on: away from NaN,
    [partial_cmp] is a total preorder. *)

From S2P Require Import Prelude.
From Stdlib Require Import SpecFloat.

Abbreviation f64 := spec_float (only parsing).

Definition f64_add (x y : f64) : f64 := SFadd 53 1024 x y.
Definition f64_mul (x y : f64) : f64 := SFmul 53 1024 x y.
Definition f64_div (x y : f64) : f64 := SFdiv 53 1024 x y.

(** [n as f64] for an unsigned integer. *)
Definition f64_of_Z (n : Z) : f64 := binary_normalize 53 1024 n 0 false.

Definition f64_MAX : f64 := SFmax_float 53 1024.

Definition f64_is_nan (x : f64) : bool :=
  match x with S754_nan => true | _ => false end.

(** [f64::max]: a NaN operand is ignored. *)
Definition f64_max (x y : f64) : f64 :=
  match SFcompare x y with
  | Some Lt => y
  | Some _ => x
  | None => if f64_is_nan x then y else x
  end.

(** [a > b] *)
Definition f64_gt (x y : f64) : bool :=
  match SFcompare x y with Some Gt => true | _ => false end.

(** [a.partial_cmp(b).unwrap_or(Ordering::Equal)] *)
Definition f64_cmp (x y : f64) : comparison :=
  match SFcompare x y with Some c => c | None => Eq end.

(** [Duration::as_secs_f64] *)
Definition as_secs_f64 (d : Duration) : f64 :=
  f64_add (f64_of_Z (d / nanos_per_sec))
    (f64_div (f64_of_Z (d mod nanos_per_sec)) (f64_of_Z nanos_per_sec)).

(** [x.ceil() as usize]: the cast saturates and sends NaN to zero. *)
Definition f64_ceil_as_usize (x : f64) : Z :=
  match x with
  | S754_finite false m e =>
      Z.min usize_max
        (if 0 <=? e then Zpos m * 2 ^ e else (Zpos m + 2 ^ (- e) - 1) / 2 ^ (- e))
  | S754_infinity false => usize_max
  | _ => 0
  end.

(** ** The order of the non-NaN values *)

Definition lex3 (x y : Z * Z * Z) : comparison :=
  match x.1.1 ?= y.1.1 with
  | Eq => match x.1.2 ?= y.1.2 with Eq => x.2 ?= y.2 | c => c end
  | c => c
  end.

(** Position of a value in the order: sign class, then exponent, then mantissa. *)
Definition f64_key (x : f64) : Z * Z * Z :=
  match x with
  | S754_nan => (0, 0, 0)
  | S754_zero _ => (0, 0, 0)
  | S754_infinity s => (if s then -2 else 2, 0, 0)
  | S754_finite false m e => (1, e, Zpos m)
  | S754_finite true m e => (-1, - e, Zneg m)
  end.

Lemma SFcompare_key x y :
  f64_is_nan x = false -> f64_is_nan y = false -> SFcompare x y = Some (lex3 (f64_key x) (f64_key y)).
Proof.
  unfold lex3.
  destruct x as [[]|[]| |[] m e], y as [[]|[]| |[] m' e']; intros Hx Hy; try done; cbn -[Z.compare].
  rewrite Z.compare_opp, (Z.compare_antisym e e'). by destruct (e ?= e').
Qed.

Lemma f64_cmp_key x y :
  f64_is_nan x = false -> f64_is_nan y = false -> f64_cmp x y = lex3 (f64_key x) (f64_key y).
Proof. intros Hx Hy. unfold f64_cmp. by rewrite SFcompare_key. Qed.

Lemma lex3_le x y :
  lex3 x y <> Gt <->
  x.1.1 < y.1.1 \/ x.1.1 = y.1.1 /\ (x.1.2 < y.1.2 \/ x.1.2 = y.1.2 /\ x.2 <= y.2).
Proof.
  unfold lex3.
  destruct (Z.compare_spec x.1.1 y.1.1), (Z.compare_spec x.1.2 y.1.2), (Z.compare_spec x.2 y.2);
    split; intros; try done; try lia.
Qed.
