(* ===== verification/Base64.v ===== *)
(** * Base64

    The standard alphabet with padding (RFC 4648), as the engine
    [base64::engine::general_purpose::STANDARD] that [messages.rs], the envelope
    and the API use: three bytes make four digits, the last group is padded
    with [=], and decoding refuses other characters, missing padding and
    trailing bits.  [Base64] is the interface that the wire format uses; this
    codec is an instance, and shows that the law can hold. *)

From S2P Require Import Prelude.

Class Base64 := {
  base64_enc : bytes -> string;
  base64_dec : string -> option bytes;
}.

Class Base64Laws `{Base64} := { base64_roundtrip b : base64_dec (base64_enc b) = Some b }.

(** ** Digits and bytes *)

Definition byte_val (b : Byte.byte) : Z := Z.of_N (Byte.to_N b).
Definition byte_of (z : Z) : Byte.byte := default Byte.x00 (Byte.of_N (Z.to_N z)).

Definition char_of (z : Z) : Ascii.ascii := Ascii.ascii_of_N (Z.to_N z).
Definition char_val (c : Ascii.ascii) : Z := Z.of_N (Ascii.N_of_ascii c).

(** A-Z, a-z, 0-9, +, / *)
Definition digit (n : Z) : Ascii.ascii :=
  char_of (if n <? 26 then n + 65 else if n <? 52 then n + 71 else if n <? 62 then n - 4 else if n =? 62 then 43 else 47).

Definition digit_val (c : Ascii.ascii) : option Z :=
  let n := char_val c in
  if (65 <=? n) && (n <=? 90) then Some (n - 65)
  else if (97 <=? n) && (n <=? 122) then Some (n - 71)
  else if (48 <=? n) && (n <=? 57) then Some (n + 4)
  else if n =? 43 then Some 62
  else if n =? 47 then Some 63
  else None.

Definition pad : Ascii.ascii := char_of 61.

(** ** The codec *)

Fixpoint encode64 (l : bytes) : string :=
  match l with
  | [] => EmptyString
  | [a] =>
      let a := byte_val a in
      String (digit (a / 4)) (String (digit (a mod 4 * 16)) (String pad (String pad EmptyString)))
  | [a; b] =>
      let a := byte_val a in let b := byte_val b in
      String (digit (a / 4)) (String (digit (a mod 4 * 16 + b / 16)) (String (digit (b mod 16 * 4)) (String pad EmptyString)))
  | a :: b :: c :: rest =>
      let a := byte_val a in let b := byte_val b in let c := byte_val c in
      String (digit (a / 4)) (String (digit (a mod 4 * 16 + b / 16))
        (String (digit (b mod 16 * 4 + c / 64)) (String (digit (c mod 64)) (encode64 rest))))
  end.

Definition is_pad (c : Ascii.ascii) : bool := Ascii.eqb c pad.
Definition is_empty (s : string) : bool := match s with EmptyString => true | _ => false end.

Fixpoint decode64 (s : string) : option bytes :=
  match s with
  | EmptyString => Some []
  | String c1 (String c2 (String c3 (String c4 rest))) =>
      match digit_val c1, digit_val c2, digit_val c3, digit_val c4 with
      | Some x, Some y, Some z, Some w =>
          (fun l => byte_of (x * 4 + y / 16) :: byte_of (y mod 16 * 16 + z / 4) :: byte_of (z mod 4 * 64 + w) :: l) <$> decode64 rest
      | Some x, Some y, Some z, None =>
          if is_pad c4 && is_empty rest && (z mod 4 =? 0)
          then Some [byte_of (x * 4 + y / 16); byte_of (y mod 16 * 16 + z / 4)] else None
      | Some x, Some y, None, None =>
          if is_pad c3 && is_pad c4 && is_empty rest && (y mod 16 =? 0) then Some [byte_of (x * 4 + y / 16)] else None
      | _, _, _, _ => None
      end
  | _ => None
  end.

(** ** The round trip *)

Lemma byte_val_range b : 0 <= byte_val b < 256.
Proof. unfold byte_val. pose proof (Byte.to_N_bounded b). lia. Qed.

Lemma byte_of_val b z : z = byte_val b -> byte_of z = b.
Proof. intros ->. unfold byte_of, byte_val. by rewrite N2Z.id, Byte.of_to_N. Qed.

Lemma digit_roundtrip n : 0 <= n < 64 -> digit_val (digit n) = Some n.
Proof.
  intros Hn. assert (forallb (fun k => bool_decide (digit_val (digit k) = Some k)) (seqZ 0 64) = true) as H by by vm_compute.
  rewrite forallb_forall in H. apply (bool_decide_eq_true_1 _), H, list_elem_of_In, elem_of_seqZ. lia.
Qed.

Lemma pad_no_digit : digit_val pad = None.
Proof. done. Qed.

#[local] Ltac Zify.zify_post_hook ::= Z.to_euclidean_division_equations.

(** Three elements at a time. *)
Lemma triples_ind (P : bytes -> Prop) :
  P [] -> (forall a, P [a]) -> (forall a b, P [a; b]) -> (forall a b c l, P l -> P (a :: b :: c :: l)) -> forall l, P l.
Proof.
  intros H0 H1 H2 H3. fix IH 1. intros [|a [|b [|c l]]]; [exact H0|exact (H1 a)|exact (H2 a b)|]. apply H3, IH.
Qed.

Lemma decode_encode64 l : decode64 (encode64 l) = Some l.
Proof.
  induction l as [|a|a b|a b c l IH] using triples_ind; [done|..]; cbn [encode64 decode64].
  - pose proof (byte_val_range a). rewrite !digit_roundtrip, pad_no_digit by lia. cbn.
    rewrite (proj2 (Z.eqb_eq _ _)) by lia. by rewrite (byte_of_val a) by lia.
  - pose proof (byte_val_range a). pose proof (byte_val_range b). rewrite !digit_roundtrip, pad_no_digit by lia. cbn.
    rewrite (proj2 (Z.eqb_eq _ _)) by lia. by rewrite (byte_of_val a), (byte_of_val b) by lia.
  - pose proof (byte_val_range a). pose proof (byte_val_range b). pose proof (byte_val_range c).
    rewrite !digit_roundtrip, IH by lia. cbn. by rewrite (byte_of_val a), (byte_of_val b), (byte_of_val c) by lia.
Qed.

Definition standard_base64 : Base64 := {| base64_enc := encode64; base64_dec := decode64 |}.

#[export] Instance standard_base64_laws : @Base64Laws standard_base64.
Proof. split. exact decode_encode64. Qed.

(** The examples of the RFC, and texts that are refused. *)
Example rfc_4648 :
  (fun t => encode64 (String.list_byte_of_string t)) <$> [EmptyString; "f"; "fo"; "foo"; "foob"; "fooba"; "foobar"]%string
  = [EmptyString; "Zg=="; "Zm8="; "Zm9v"; "Zm9vYg=="; "Zm9vYmE="; "Zm9vYmFy"]%string
  /\ decode64 <$> ["Zg"; "Zh=="; "Zm8"; "Zg==Zg=="; "Z!=="]%string = [None; None; None; None; None].
Proof. by vm_compute. Qed.
