(* ===== verification/Protocol.v ===== *)
(** * Wire protocol: eras, message types, group descriptors

    Models [crates/cordelia-protocol]: the era parameters of [era.rs], the
    constants of [lib.rs] and the message types of [messages.rs].  SHA-256, hex
    and Ed25519 are third-party code and enter as the class [Crypto]. *)

From S2P Require Import Prelude.

(** ** Third-party cryptography *)

Class Crypto := {
  sha256 : bytes -> bytes;
  hex_encode : bytes -> string;
  hex_decode : string -> option bytes;
  (** [UnparsedPublicKey::new(&ED25519, key).verify(msg, sig).is_ok()] *)
  ed25519_verify : bytes -> bytes -> bytes -> bool;
}.

(** [cordelia_crypto::sha256_hex] *)
Definition sha256_hex `{Crypto} (data : bytes) : string := hex_encode (sha256 data).

(** ** Eras *)

Record ProtocolEra := {
  era_id : Z;
  keepalive_interval_secs : Z;
  keepalive_miss_limit : Z;
  tick_interval_secs : Z;
  dead_timeout_secs : Z;
  stale_timeout_secs : Z;
  ban_base_duration_secs : Z;
  reconnect_backoff_base_secs : Z;
  reconnect_backoff_max_secs : Z;
  churn_interval_secs : Z;
  churn_per_mille : Z;
  peer_share_interval_secs : Z;
  quic_idle_timeout_secs : Z;
  max_message_bytes : Z;
  max_item_bytes : Z;
  max_batch_size : Z;
  pong_timeout_secs : Z;
  eager_push_interval_secs : Z;
  sync_interval_moderate_secs : Z;
  sync_interval_taciturn_secs : Z;
  tombstone_retention_days : Z;
  push_retry_backoffs : list Z;
  push_retry_count : Z;
  group_exchange_ticks : Z;
  peer_discovery_ticks : Z;
  bootnode_retry_ticks : Z;
  backoff_saturation_count : Z;
}.

Definition ERA_0 : ProtocolEra := {|
  era_id := 0;
  keepalive_interval_secs := 15;
  keepalive_miss_limit := 3;
  tick_interval_secs := 10;
  dead_timeout_secs := 90;
  stale_timeout_secs := 6 * 3600;
  ban_base_duration_secs := 3600;
  reconnect_backoff_base_secs := 30;
  reconnect_backoff_max_secs := 15 * 60;
  churn_interval_secs := 3600;
  churn_per_mille := 200;
  peer_share_interval_secs := 300;
  quic_idle_timeout_secs := 300;
  max_message_bytes := 512 * 1024;
  max_item_bytes := 16 * 1024;
  max_batch_size := 100;
  pong_timeout_secs := 10;
  eager_push_interval_secs := 60;
  sync_interval_moderate_secs := 300;
  sync_interval_taciturn_secs := 900;
  tombstone_retention_days := 7;
  push_retry_backoffs := [5; 15; 60; 300];
  push_retry_count := 4;
  group_exchange_ticks := 6;
  peer_discovery_ticks := 3;
  bootnode_retry_ticks := 30;
  backoff_saturation_count := 5;
|}.

Definition CURRENT_ERA : ProtocolEra := ERA_0.

Definition MAX_BATCH_SIZE : Z := max_batch_size ERA_0.
Definition MAX_MESSAGE_BYTES : Z := max_message_bytes ERA_0.
Definition MAX_ITEM_BYTES : Z := max_item_bytes ERA_0.
Definition EAGER_PUSH_INTERVAL_SECS : Z := eager_push_interval_secs ERA_0.
Definition SYNC_INTERVAL_TACITURN_SECS : Z := sync_interval_taciturn_secs ERA_0.
Definition TOMBSTONE_RETENTION_DAYS : Z := tombstone_retention_days ERA_0.
Definition GROUP_EXCHANGE_TICKS : Z := group_exchange_ticks ERA_0.
Definition PEER_DISCOVERY_TICKS : Z := peer_discovery_ticks ERA_0.

(** A group identifier is opaque text; a node identifier ([libp2p::PeerId]) is
    represented by its base58 text. *)
Abbreviation GroupId := string (only parsing).
Abbreviation NodeId := string (only parsing).

(** ** Messages *)

Record PeerShareRequest := { psr_max_peers : Z }.

Record PeerAddress := {
  pa_peer_id : string;
  pa_addrs : list string;
  pa_last_seen : Z;
  pa_groups : list GroupId;
  pa_role : string;
}.

Record SyncRequest := {
  sr_group_id : GroupId;
  sr_since : option string;
  sr_limit : Z;
}.

Record ItemHeader := {
  ih_item_id : string;
  ih_item_type : string;
  ih_checksum : string;
  ih_updated_at : string;
  ih_author_id : string;
  ih_is_deletion : bool;
}.

Record SyncResponse := {
  srs_items : list ItemHeader;
  srs_has_more : bool;
}.

Record FetchRequest := { fr_item_ids : list string }.

Record FetchedItem := {
  fi_item_id : string;
  fi_item_type : string;
  fi_encrypted_blob : bytes;
  fi_checksum : string;
  fi_author_id : string;
  fi_group_id : GroupId;
  fi_key_version : Z;
  fi_parent_id : option string;
  fi_is_copy : bool;
  fi_updated_at : string;
}.

Record FetchResponse := { frs_items : list FetchedItem }.

Record MemoryPushRequest := { mpr_items : list FetchedItem }.

Record PushAck := { ack_stored : Z; ack_rejected : Z }.

Record GroupDescriptor := {
  gd_id : string;
  gd_culture : string;
  gd_updated_at : string;
  gd_checksum : string;
  gd_owner_id : option string;
  gd_owner_pubkey : option string;
  gd_signature : option string;
}.

Record GroupExchange := {
  gx_groups : list GroupId;
  gx_descriptors : option (list GroupDescriptor);
}.

(** Request and response of the group exchange carry the same fields. *)
Record GroupExchangeResponse := {
  gxr_groups : list GroupId;
  gxr_descriptors : option (list GroupDescriptor);
}.

(** ** Group descriptors *)

Definition GROUP_TOMBSTONE_CULTURE : string := "__deleted__".

Definition newline : string := String (Ascii.ascii_of_nat 10) EmptyString.

Definition str_bytes (s : string) : bytes := String.list_byte_of_string s.

Definition is_tombstone (d : GroupDescriptor) : bool :=
  String.eqb (gd_culture d) GROUP_TOMBSTONE_CULTURE.

Definition compute_checksum `{Crypto} (gid culture : string) : string :=
  sha256_hex (str_bytes (String.append gid (String.append newline culture))).

Definition verify_checksum `{Crypto} (d : GroupDescriptor) : bool :=
  String.eqb (gd_checksum d) (compute_checksum (gd_id d) (gd_culture d)).

(** The text that [format!] builds, and its bytes. *)
Definition signing_text (d : GroupDescriptor) : string :=
  String.append (gd_id d) (String.append newline
    (String.append (gd_culture d) (String.append newline (gd_updated_at d)))).

Definition signing_payload (d : GroupDescriptor) : bytes := str_bytes (signing_text d).

(** ** The signed payload determines what was signed *)

Fixpoint has_newline (s : string) : bool :=
  match s with
  | EmptyString => false
  | String c s' => Ascii.eqb c (Ascii.ascii_of_nat 10) || has_newline s'
  end.

Lemma str_bytes_inj s t : str_bytes s = str_bytes t -> s = t.
Proof.
  intros H. rewrite <- (String.string_of_list_byte_of_string s), <- (String.string_of_list_byte_of_string t).
  by unfold str_bytes in H; rewrite H.
Qed.

Lemma append_newline_inj_l s s' t t' :
  has_newline s = false -> has_newline s' = false ->
  String.append s (String.append newline t) = String.append s' (String.append newline t') ->
  s = s' /\ t = t'.
Proof.
  revert s'. induction s as [|c s IH]; intros [|c' s'] Hs Hs'; simpl in *; intros Heq; simplify_eq; try done.
  apply orb_false_iff in Hs as [Hc Hs]. apply orb_false_iff in Hs' as [_ Hs'].
  destruct (IH s') as [-> ->]; auto.
Qed.

Lemma append_newline_inj_r s s' t t' :
  has_newline t = false -> has_newline t' = false ->
  String.append s (String.append newline t) = String.append s' (String.append newline t') ->
  s = s' /\ t = t'.
Proof.
  intros Ht Ht'. revert s'.
  assert (forall u v w, has_newline w = false ->
    String.append u (String.append newline v) = w -> False) as Hno.
  { intros u v. induction u as [|c u IH]; intros w Hw <-; simpl in *.
    - done.
    - apply orb_false_iff in Hw as [_ Hw]. by eapply IH. }
  induction s as [|c s IH]; intros [|c' s'] Heq; simpl in *; simplify_eq; try done.
  - exfalso. eapply Hno; [exact Ht|]. done.
  - exfalso. eapply Hno; [exact Ht'|]. done.
  - by destruct (IH s') as [-> ->].
Qed.

Lemma signing_payload_inj d e :
  has_newline (gd_id d) = false -> has_newline (gd_id e) = false ->
  has_newline (gd_updated_at d) = false -> has_newline (gd_updated_at e) = false ->
  signing_payload d = signing_payload e ->
  gd_id d = gd_id e /\ gd_culture d = gd_culture e /\ gd_updated_at d = gd_updated_at e.
Proof.
  intros Hi Hi' Ht Ht' Heq. apply str_bytes_inj in Heq. unfold signing_text in Heq.
  apply append_newline_inj_l in Heq as [-> Heq]; [|done|done].
  apply append_newline_inj_r in Heq as [-> ->]; done.
Qed.

(** ** Addresses

    Of [libp2p::Multiaddr] the node uses equality, iteration over the protocol
    components and the IPv4 component. *)

Inductive AddrProtocol :=
| Ip4 (a b c d : Z)
| OtherProto (text : string).

Abbreviation Multiaddr := (list AddrProtocol) (only parsing).

#[export] Instance AddrProtocol_eq_dec : EqDecision AddrProtocol.
Proof. solve_decision. Defined.

#[export] Instance AddrProtocol_countable : Countable AddrProtocol.
Proof.
  refine (inj_countable'
    (fun p => match p with Ip4 a b c d => inl (a, b, c, d) | OtherProto t => inr t end)
    (fun s => match s with inl (a, b, c, d) => Ip4 a b c d | inr t => OtherProto t end) _).
  by intros [].
Defined.

(** ** A concrete instance of the cryptography, for running the model *)

Definition toy_crypto : Crypto := {|
  sha256 b := b;
  hex_encode b := String.string_of_list_byte b;
  hex_decode s := Some (String.list_byte_of_string s);
  ed25519_verify key msg sig := bool_decide (sig = key ++ msg);
|}.
