(* ===== verification/Governor.v ===== *)
(** * The peer governor

    Models [crates/cordelia-governor/src/lib.rs]: the peer state machine
    (Cold, Warm, Hot, Banned), its event handlers and the seven phases of
    [Governor::tick].  Every handler takes the reading of the monotonic clock
    it would obtain from [Instant::now]; [tick] takes one reading per phase. *)

From S2P Require Import Prelude Float64 Protocol.

(** ** Data *)

Definition DEAD_TIMEOUT : Duration := from_secs (dead_timeout_secs ERA_0).
Definition STALE_TIMEOUT : Duration := from_secs (stale_timeout_secs ERA_0).
Definition DEFAULT_BAN_DURATION : Duration := from_secs (ban_base_duration_secs ERA_0).

Inductive DialPolicy :=
| DialAll
| RelaysOnly
| TrustedOnly (trusted : list NodeId).

Record GovernorTargets := {
  hot_min : nat;
  hot_max : nat;
  warm_min : nat;
  warm_max : nat;
  cold_max : nat;
  gt_churn_interval_secs : Z;
  churn_fraction : f64;
}.

(** [ProtocolEra::churn_fraction] *)
Definition era_churn_fraction (e : ProtocolEra) : f64 :=
  f64_div (f64_of_Z (churn_per_mille e)) (f64_of_Z 1000).

Definition default_targets : GovernorTargets := {|
  hot_min := 2;
  hot_max := 20;
  warm_min := 10;
  warm_max := 50;
  cold_max := 100;
  gt_churn_interval_secs := churn_interval_secs ERA_0;
  churn_fraction := era_churn_fraction ERA_0;
|}.

Inductive PeerState :=
| Cold
| Warm
| Hot
| Banned (until : Instant) (reason : string) (escalation : Z).

#[export] Instance PeerState_eq_dec : EqDecision PeerState.
Proof. solve_decision. Defined.

Definition is_active (s : PeerState) : bool :=
  match s with Warm | Hot => true | _ => false end.

Definition is_banned (s : PeerState) : bool :=
  match s with Banned _ _ _ => true | _ => false end.

Definition state_name (s : PeerState) : string :=
  match s with
  | Cold => "cold"
  | Warm => "warm"
  | Hot => "hot"
  | Banned _ _ _ => "banned"
  end.

(** [p.state == PeerState::Hot] and the other comparisons and [matches!]. *)
Definition is_hot (s : PeerState) : bool := match s with Hot => true | _ => false end.
Definition is_warm (s : PeerState) : bool := match s with Warm => true | _ => false end.
Definition is_cold (s : PeerState) : bool := match s with Cold => true | _ => false end.

Record PeerInfo := {
  node_id : NodeId;
  addrs : list Multiaddr;
  state : PeerState;
  groups : list GroupId;
  rtt_ms : option f64;
  last_activity : Instant;
  items_delivered : Z;
  connected_since : option Instant;
  demoted_at : option Instant;
  disconnect_count : Z;
  last_disconnected : option Instant;
  is_relay : bool;
}.

(** Field assignments. *)

Definition set_node_id (x : NodeId) (p : PeerInfo) : PeerInfo :=
  {| node_id := x; addrs := addrs p; state := state p; groups := groups p; rtt_ms := rtt_ms p;
     last_activity := last_activity p; items_delivered := items_delivered p; connected_since :=
     connected_since p; demoted_at := demoted_at p; disconnect_count := disconnect_count p;
     last_disconnected := last_disconnected p; is_relay := is_relay p |}.

Definition set_addrs (x : list Multiaddr) (p : PeerInfo) : PeerInfo :=
  {| node_id := node_id p; addrs := x; state := state p; groups := groups p; rtt_ms := rtt_ms p;
     last_activity := last_activity p; items_delivered := items_delivered p; connected_since :=
     connected_since p; demoted_at := demoted_at p; disconnect_count := disconnect_count p;
     last_disconnected := last_disconnected p; is_relay := is_relay p |}.

Definition set_state (x : PeerState) (p : PeerInfo) : PeerInfo :=
  {| node_id := node_id p; addrs := addrs p; state := x; groups := groups p; rtt_ms := rtt_ms p;
     last_activity := last_activity p; items_delivered := items_delivered p; connected_since :=
     connected_since p; demoted_at := demoted_at p; disconnect_count := disconnect_count p;
     last_disconnected := last_disconnected p; is_relay := is_relay p |}.

Definition set_groups (x : list GroupId) (p : PeerInfo) : PeerInfo :=
  {| node_id := node_id p; addrs := addrs p; state := state p; groups := x; rtt_ms := rtt_ms p;
     last_activity := last_activity p; items_delivered := items_delivered p; connected_since :=
     connected_since p; demoted_at := demoted_at p; disconnect_count := disconnect_count p;
     last_disconnected := last_disconnected p; is_relay := is_relay p |}.

Definition set_rtt_ms (x : option f64) (p : PeerInfo) : PeerInfo :=
  {| node_id := node_id p; addrs := addrs p; state := state p; groups := groups p; rtt_ms := x;
     last_activity := last_activity p; items_delivered := items_delivered p; connected_since :=
     connected_since p; demoted_at := demoted_at p; disconnect_count := disconnect_count p;
     last_disconnected := last_disconnected p; is_relay := is_relay p |}.

Definition set_last_activity (x : Instant) (p : PeerInfo) : PeerInfo :=
  {| node_id := node_id p; addrs := addrs p; state := state p; groups := groups p; rtt_ms :=
     rtt_ms p; last_activity := x; items_delivered := items_delivered p; connected_since :=
     connected_since p; demoted_at := demoted_at p; disconnect_count := disconnect_count p;
     last_disconnected := last_disconnected p; is_relay := is_relay p |}.

Definition set_items_delivered (x : Z) (p : PeerInfo) : PeerInfo :=
  {| node_id := node_id p; addrs := addrs p; state := state p; groups := groups p; rtt_ms :=
     rtt_ms p; last_activity := last_activity p; items_delivered := x; connected_since :=
     connected_since p; demoted_at := demoted_at p; disconnect_count := disconnect_count p;
     last_disconnected := last_disconnected p; is_relay := is_relay p |}.

Definition set_connected_since (x : option Instant) (p : PeerInfo) : PeerInfo :=
  {| node_id := node_id p; addrs := addrs p; state := state p; groups := groups p; rtt_ms :=
     rtt_ms p; last_activity := last_activity p; items_delivered := items_delivered p;
     connected_since := x; demoted_at := demoted_at p; disconnect_count := disconnect_count p;
     last_disconnected := last_disconnected p; is_relay := is_relay p |}.

Definition set_demoted_at (x : option Instant) (p : PeerInfo) : PeerInfo :=
  {| node_id := node_id p; addrs := addrs p; state := state p; groups := groups p; rtt_ms :=
     rtt_ms p; last_activity := last_activity p; items_delivered := items_delivered p;
     connected_since := connected_since p; demoted_at := x; disconnect_count := disconnect_count
     p; last_disconnected := last_disconnected p; is_relay := is_relay p |}.

Definition set_disconnect_count (x : Z) (p : PeerInfo) : PeerInfo :=
  {| node_id := node_id p; addrs := addrs p; state := state p; groups := groups p; rtt_ms :=
     rtt_ms p; last_activity := last_activity p; items_delivered := items_delivered p;
     connected_since := connected_since p; demoted_at := demoted_at p; disconnect_count := x;
     last_disconnected := last_disconnected p; is_relay := is_relay p |}.

Definition set_last_disconnected (x : option Instant) (p : PeerInfo) : PeerInfo :=
  {| node_id := node_id p; addrs := addrs p; state := state p; groups := groups p; rtt_ms :=
     rtt_ms p; last_activity := last_activity p; items_delivered := items_delivered p;
     connected_since := connected_since p; demoted_at := demoted_at p; disconnect_count :=
     disconnect_count p; last_disconnected := x; is_relay := is_relay p |}.

Definition set_is_relay (x : bool) (p : PeerInfo) : PeerInfo :=
  {| node_id := node_id p; addrs := addrs p; state := state p; groups := groups p; rtt_ms :=
     rtt_ms p; last_activity := last_activity p; items_delivered := items_delivered p;
     connected_since := connected_since p; demoted_at := demoted_at p; disconnect_count :=
     disconnect_count p; last_disconnected := last_disconnected p; is_relay := x |}.

Definition new_peer (now : Instant) (nid : NodeId) (a : list Multiaddr) (gs : list GroupId) : PeerInfo := {|
  node_id := nid;
  addrs := a;
  state := Cold;
  groups := gs;
  rtt_ms := None;
  last_activity := now;
  items_delivered := 0;
  connected_since := None;
  demoted_at := None;
  disconnect_count := 0;
  last_disconnected := None;
  is_relay := false;
|}.

Definition score (now : Instant) (p : PeerInfo) : f64 :=
  let elapsed :=
    f64_max
      match connected_since p with
      | Some s => as_secs_f64 (duration_since now s)
      | None => f64_of_Z 1
      end (f64_of_Z 1) in
  let throughput := f64_div (f64_of_Z (items_delivered p)) elapsed in
  let rtt_factor :=
    match rtt_ms p with
    | Some r => f64_div (f64_of_Z 1) (f64_add (f64_of_Z 1) (f64_div r (f64_of_Z 100)))
    | None => f64_div (f64_of_Z 1) (f64_of_Z 2)
    end in
  f64_mul throughput rtt_factor.

Definition has_group_overlap (p : PeerInfo) (gs : list GroupId) : bool :=
  existsb (fun g => contains gs g) (groups p).

Record Governor := {
  peers : gmap NodeId PeerInfo;
  targets : GovernorTargets;
  our_groups : list GroupId;
  last_churn : Instant;
  dial_policy : DialPolicy;
}.

Definition set_peers (m : gmap NodeId PeerInfo) (g : Governor) : Governor :=
  {| peers := m; targets := targets g; our_groups := our_groups g;
     last_churn := last_churn g; dial_policy := dial_policy g |}.

Record GovernorActions := {
  connect : list NodeId;
  disconnect : list NodeId;
  transitions : list (NodeId * string * string);
}.

Definition no_actions : GovernorActions :=
  {| connect := []; disconnect := []; transitions := [] |}.

Definition push_connect (id : NodeId) (a : GovernorActions) : GovernorActions :=
  {| connect := connect a ++ [id]; disconnect := disconnect a; transitions := transitions a |}.

Definition push_disconnect (id : NodeId) (a : GovernorActions) : GovernorActions :=
  {| connect := connect a; disconnect := disconnect a ++ [id]; transitions := transitions a |}.

Definition push_transition (t : NodeId * string * string) (a : GovernorActions) : GovernorActions :=
  {| connect := connect a; disconnect := disconnect a; transitions := transitions a ++ [t] |}.

(** ** Event handlers *)

Definition with_dial_policy (now : Instant) (t : GovernorTargets) (gs : list GroupId)
    (pol : DialPolicy) : Governor :=
  {| peers := ∅; targets := t; our_groups := gs; last_churn := now; dial_policy := pol |}.

Definition new_governor (now : Instant) (t : GovernorTargets) (gs : list GroupId) : Governor :=
  with_dial_policy now t gs DialAll.

Definition set_groups_gov (gs : list GroupId) (g : Governor) : Governor :=
  {| peers := peers g; targets := targets g; our_groups := gs;
     last_churn := last_churn g; dial_policy := dial_policy g |}.

(** [if let Some(peer) = self.peers.get_mut(node_id) { f(peer) }] *)
Definition modify_peer (id : NodeId) (f : PeerInfo -> PeerInfo) (g : Governor) : Governor :=
  match peers g !! id with
  | Some p => set_peers (<[id := f p]> (peers g)) g
  | None => g
  end.

Definition add_peer (now : Instant) (id : NodeId) (a : list Multiaddr) (gs : list GroupId)
    (g : Governor) : Governor :=
  match peers g !! id with
  | Some p => set_peers (<[id := set_groups gs (set_addrs a p)]> (peers g)) g
  | None => set_peers (<[id := new_peer now id a gs]> (peers g)) g
  end.

Definition record_activity (now : Instant) (id : NodeId) (rtt : option f64) : Governor -> Governor :=
  modify_peer id (fun p =>
    let p := set_last_activity now p in
    match rtt with Some r => set_rtt_ms (Some r) p | None => p end).

Definition record_items_delivered (now : Instant) (id : NodeId) (count : Z) : Governor -> Governor :=
  modify_peer id (fun p =>
    set_last_activity now (set_items_delivered (wrap_u64 (items_delivered p + count)) p)).

Definition mark_connected (now : Instant) (id : NodeId) : Governor -> Governor :=
  modify_peer id (fun p =>
    if is_cold (state p)
    then set_last_activity now (set_connected_since (Some now) (set_state Warm p))
    else p).

Definition mark_disconnected (now : Instant) (id : NodeId) : Governor -> Governor :=
  modify_peer id (fun p =>
    if is_active (state p)
    then set_last_disconnected (Some now)
           (set_disconnect_count (wrap_u32 (disconnect_count p + 1))
              (set_connected_since None (set_state Cold p)))
    else p).

Definition mark_dial_failed (now : Instant) (id : NodeId) : Governor -> Governor :=
  modify_peer id (fun p =>
    set_last_disconnected (Some now)
      (set_disconnect_count (wrap_u32 (disconnect_count p + 1)) p)).

Definition reconnect_backoff (count : Z) : Duration :=
  if count =? 0 then 0
  else
    let base := reconnect_backoff_base_secs ERA_0 in
    let max := reconnect_backoff_max_secs ERA_0 in
    let secs := u64_saturating_mul base (Z.shiftl 1 (Z.min count (backoff_saturation_count ERA_0))) in
    from_secs (Z.min secs max).

Definition replace_node_id (old new : NodeId) (gs : list GroupId) (g : Governor) : Governor * bool :=
  let target_active :=
    match peers g !! new with Some e => is_active (state e) | None => false end in
  if target_active then
    match peers g !! old with
    | Some old_peer =>
        let m := delete old (peers g) in
        let m :=
          if is_relay old_peer then
            match m !! new with
            | Some t => <[new := set_is_relay true t]> m
            | None => m
            end
          else m in
        (set_peers m g, true)
    | None => (g, true)
    end
  else
    match peers g !! old with
    | Some p =>
        (set_peers (<[new := set_groups gs (set_node_id new p)]> (delete old (peers g))) g, true)
    | None => (g, false)
    end.

Definition ban_peer (now : Instant) (id : NodeId) (why : string) : Governor -> Governor :=
  modify_peer id (fun p =>
    let escalation :=
      match state p with Banned _ _ e => wrap_u32 (e + 1) | _ => 1 end in
    let duration := DEFAULT_BAN_DURATION * escalation in
    set_connected_since None (set_state (Banned (now + duration) why escalation) p)).

Definition set_peer_relay (id : NodeId) (r : bool) : Governor -> Governor :=
  modify_peer id (set_is_relay r).

Definition is_dialable (g : Governor) (p : PeerInfo) : bool :=
  match dial_policy g with
  | DialAll => true
  | RelaysOnly => is_relay p
  | TrustedOnly trusted => contains trusted (node_id p)
  end.

Definition peer_state (g : Governor) (id : NodeId) : option PeerState := state <$> peers g !! id.

Definition peer_info (g : Governor) (id : NodeId) : option PeerInfo := peers g !! id.

Section iteration.
Context `{HI : HashIter}.

Definition all_peers (g : Governor) : list PeerInfo := values (peers g).

Definition hot_peers_for_group (g : Governor) (gid : GroupId) : list PeerInfo :=
  filterb (fun p => is_hot (state p) && contains (groups p) gid) (values (peers g)).

(** [counts]: hot, warm, cold, banned. *)
Definition count_step (acc : nat * nat * nat * nat) (p : PeerInfo) : nat * nat * nat * nat :=
  let '(hot, warm, cold, banned) := acc in
  match state p with
  | Hot => (S hot, warm, cold, banned)
  | Warm => (hot, S warm, cold, banned)
  | Cold => (hot, warm, S cold, banned)
  | Banned _ _ _ => (hot, warm, cold, S banned)
  end.

Definition counts (g : Governor) : nat * nat * nat * nat :=
  foldl count_step (0, 0, 0, 0)%nat (values (peers g)).

Definition hot_count (g : Governor) : nat := (counts g).1.1.1.
Definition warm_count (g : Governor) : nat := (counts g).1.1.2.
Definition cold_count (g : Governor) : nat := (counts g).1.2.

(** ** The phases of a tick *)

(** [for id in ids { if let Some(peer) = self.peers.get_mut(&id) { .. } }] *)
Definition for_peers
    (f : NodeId -> PeerInfo -> GovernorActions -> PeerInfo * GovernorActions)
    (ids : list NodeId) (g : Governor) (a : GovernorActions) : Governor * GovernorActions :=
  foldl (fun '(g, a) id =>
      match peers g !! id with
      | Some p => let '(p', a') := f id p a in (set_peers (<[id := p']> (peers g)) g, a')
      | None => (g, a)
      end) (g, a) ids.

(** 1. Unban expired bans *)
Definition ban_expired (now : Instant) (p : PeerInfo) : bool :=
  match state p with Banned until _ _ => until <=? now | _ => false end.

Definition unban_expired (now : Instant) (g : Governor) (a : GovernorActions) : Governor * GovernorActions :=
  (set_peers ((fun p => if ban_expired now p then set_state Cold p else p) <$> peers g) g,
   foldl (fun a p =>
       if ban_expired now p
       then push_transition (node_id p, state_name (state p), "cold") a
       else a) a (values (peers g))).

(** 2. Reap dead peers *)
Definition is_dead (now : Instant) (p : PeerInfo) : bool :=
  is_active (state p) && (DEAD_TIMEOUT <? duration_since now (last_activity p)).

Definition reap_one (now : Instant) (id : NodeId) (p : PeerInfo) (a : GovernorActions) : PeerInfo * GovernorActions :=
  let from := state_name (state p) in
  match state p with
  | Hot =>
      (set_demoted_at (Some now) (set_connected_since None (set_state Warm p)),
       push_transition (id, from, "warm") a)
  | Warm =>
      (set_connected_since None (set_state Cold p),
       push_transition (id, from, "cold") (push_disconnect id a))
  | _ => (p, a)
  end.

Definition reap_dead (now : Instant) (g : Governor) (a : GovernorActions) : Governor * GovernorActions :=
  let dead_ids := node_id <$> filterb (is_dead now) (values (peers g)) in
  for_peers (reap_one now) dead_ids g a.

(** 3. Promote Cold to Warm: the peers to dial *)
Definition backoff_elapsed (now : Instant) (p : PeerInfo) : bool :=
  match last_disconnected p with
  | None => true
  | Some t => reconnect_backoff (disconnect_count p) <=? duration_since now t
  end.

Definition dial_candidate (now : Instant) (g : Governor) (p : PeerInfo) : bool :=
  is_cold (state p) && is_dialable g p && backoff_elapsed now p.

(** Key order of [Reverse(overlap)]: overlapping peers first. *)
Definition reverse_bool_cmp (x y : bool) : comparison :=
  match x, y with true, false => Lt | false, true => Gt | _, _ => Eq end.

Definition promote_cold_to_warm (now : Instant) (g : Governor) (a : GovernorActions) : Governor * GovernorActions :=
  let '(hot, warm, cold, _) := counts g in
  let active := (warm + hot)%nat in
  if (warm_max (targets g) <=? active)%nat then (g, a)
  else
    let needed := (warm_max (targets g) - active)%nat in
    let candidates :=
      take needed
        (sort_by (fun x y => reverse_bool_cmp x.2 y.2)
           ((fun p => (node_id p, has_group_overlap p (our_groups g)))
              <$> filterb (dial_candidate now g) (values (peers g)))).*1 in
    let candidates :=
      if bool_decide (candidates = []) then
        node_id <$> take needed (filterb (dial_candidate now g) (values (peers g)))
      else candidates in
    (g, foldl (fun a id => push_connect id a) a candidates).

(** 4. Promote Warm to Hot *)
Definition promotable (now : Instant) (p : PeerInfo) : bool :=
  is_warm (state p)
  && match demoted_at p with None => true | Some d => DEAD_TIMEOUT <? duration_since now d end.

(** [Iterator::min_by] keeps the first of several minima, [max_by] the last maximum. *)
Definition min_by {A} (cmp : A -> A -> comparison) (l : list A) : option A :=
  match l with
  | [] => None
  | x :: l => Some (foldl (fun x y => match cmp x y with Gt => y | _ => x end) x l)
  end.

Definition max_by {A} (cmp : A -> A -> comparison) (l : list A) : option A :=
  match l with
  | [] => None
  | x :: l => Some (foldl (fun x y => match cmp x y with Gt => x | _ => y end) x l)
  end.

Definition promote_one (id : NodeId) (p : PeerInfo) (a : GovernorActions) : PeerInfo * GovernorActions :=
  (set_disconnect_count 0 (set_state Hot p), push_transition (id, "warm", "hot") a).

Definition promote_warm_to_hot (now : Instant) (g : Governor) (a : GovernorActions) : Governor * GovernorActions :=
  let '(hot, _, _, _) := counts g in
  if (hot_min (targets g) <=? hot)%nat then
    let worst_hot_score :=
      default f64_MAX
        (min_by f64_cmp (score now <$> filterb (fun p => is_hot (state p)) (values (peers g)))) in
    let best_warm :=
      max_by (fun p q => f64_cmp (score now p) (score now q))
        (filterb (promotable now) (values (peers g))) in
    match best_warm with
    | Some warm =>
        if (hot <? hot_max (targets g))%nat && f64_gt (score now warm) worst_hot_score
        then for_peers promote_one [node_id warm] g a
        else (g, a)
    | None => (g, a)
    end
  else
    let needed := (hot_min (targets g) - hot)%nat in
    let warm_peers :=
      sort_by (fun x y => f64_cmp y.2 x.2)
        ((fun p => (node_id p, score now p)) <$> filterb (promotable now) (values (peers g))) in
    for_peers promote_one (take needed warm_peers).*1 g a.

(** 5. Demote excess Hot to Warm *)
Definition is_stale (now : Instant) (p : PeerInfo) : bool :=
  STALE_TIMEOUT <? duration_since now (last_activity p).

(** [b.2.cmp(&a.2).then(a.1.partial_cmp(&b.1)..)] on (id, score, is_stale). *)
Definition demotion_cmp (x y : NodeId * f64 * bool) : comparison :=
  match reverse_bool_cmp x.2 y.2 with
  | Eq => f64_cmp x.1.2 y.1.2
  | c => c
  end.

Definition demote_one (id : NodeId) (p : PeerInfo) (a : GovernorActions) : PeerInfo * GovernorActions :=
  (set_state Warm p, push_transition (id, "hot", "warm") a).

Definition demote_excess_hot (now : Instant) (g : Governor) (a : GovernorActions) : Governor * GovernorActions :=
  let '(hot, _, _, _) := counts g in
  if (hot <=? hot_max (targets g))%nat then (g, a)
  else
    let excess := (hot - hot_max (targets g))%nat in
    let hot_peers :=
      sort_by demotion_cmp
        ((fun p => (node_id p, score now p, is_stale now p))
           <$> filterb (fun p => is_hot (state p)) (values (peers g))) in
    for_peers demote_one (take excess hot_peers).*1.*1 g a.

(** 6. Periodic churn *)
Definition set_last_churn (t : Instant) (g : Governor) : Governor :=
  {| peers := peers g; targets := targets g; our_groups := our_groups g;
     last_churn := t; dial_policy := dial_policy g |}.

Definition churn_one (id : NodeId) (p : PeerInfo) (a : GovernorActions) : PeerInfo * GovernorActions :=
  (set_connected_since None (set_state Cold p),
   push_transition (id, "warm", "cold") (push_disconnect id a)).

Definition churn (now : Instant) (g : Governor) (a : GovernorActions) : Governor * GovernorActions :=
  if duration_since now (last_churn g) <? from_secs (gt_churn_interval_secs (targets g)) then (g, a)
  else
    let g := set_last_churn now g in
    let '(_, warm, cold, _) := counts g in
    let churn_count :=
      f64_ceil_as_usize (f64_mul (f64_of_Z (Z.of_nat warm)) (churn_fraction (targets g))) in
    if (churn_count =? 0) || (cold =? 0)%nat then (g, a)
    else
      let n := Z.to_nat churn_count in
      let warm_ids := node_id <$> take n (filterb (fun p => is_warm (state p)) (values (peers g))) in
      let '(g, a) := for_peers churn_one warm_ids g a in
      let cold_ids :=
        node_id <$> take n
          (filterb (fun p => is_cold (state p) && is_dialable g p) (values (peers g))) in
      (g, foldl (fun a id => push_connect id a) a cold_ids).

(** 7. Evict excess cold *)
Definition evict_excess_cold (g : Governor) (a : GovernorActions) : Governor * GovernorActions :=
  let '(_, _, cold, _) := counts g in
  if (cold <=? cold_max (targets g))%nat then (g, a)
  else
    let excess := (cold - cold_max (targets g))%nat in
    let cold_peers :=
      sort_by (key_cmp snd)
        ((fun p => (node_id p, last_activity p))
           <$> filterb (fun p => is_cold (state p)) (values (peers g))) in
    (set_peers (foldl (fun m id => delete id m) (peers g) (take excess cold_peers).*1) g, a).

(** The clock readings of one tick, one per phase that reads the clock. *)
Record TickClock := {
  at_unban : Instant;
  at_reap : Instant;
  at_cold : Instant;
  at_hot : Instant;
  at_demote : Instant;
  at_churn : Instant;
}.

Definition tick (c : TickClock) (g : Governor) : Governor * GovernorActions :=
  let '(g, a) := unban_expired (at_unban c) g no_actions in
  let '(g, a) := reap_dead (at_reap c) g a in
  let '(g, a) := promote_cold_to_warm (at_cold c) g a in
  let '(g, a) := promote_warm_to_hot (at_hot c) g a in
  let '(g, a) := demote_excess_hot (at_demote c) g a in
  let '(g, a) := churn (at_churn c) g a in
  evict_excess_cold g a.

End iteration.
