(* ===== verification/GovernorFacts.v ===== *)
(** * Lemmas on the governor's loops

    Well-formedness of the peer table, the effect of one loop over selected
    peers, and the record that every phase of a tick keeps of what it did
    ([phase]).  [GovernorProps] states the properties. *)

From S2P Require Import Prelude Float64 Protocol Governor.

(** ** Well-formed peer tables *)

Record peer_wf (id : NodeId) (p : PeerInfo) : Prop := {
  wf_key : node_id p = id;
  wf_connected : is_active (state p) = false -> connected_since p = None;
  wf_count : is_u32 (disconnect_count p);
  wf_escalation : match state p with Banned _ _ e => is_u32 e | _ => True end;
}.

Definition gov_wf (g : Governor) : Prop := map_Forall peer_wf (peers g).

Lemma gov_wf_lookup g id p : gov_wf g -> peers g !! id = Some p -> peer_wf id p.
Proof. intros H. apply H. Qed.

(** ** Counts *)

Lemma count_step_loop l h w c b :
  foldl count_step (h, w, c, b) l =
    (h + length (filterb (fun p => is_hot (state p)) l),
     w + length (filterb (fun p => is_warm (state p)) l),
     c + length (filterb (fun p => is_cold (state p)) l),
     b + length (filterb (fun p => is_banned (state p)) l))%nat.
Proof.
  revert h w c b. induction l as [|p l IH]; intros h w c b; simpl.
  - by rewrite !Nat.add_0_r.
  - rewrite !length_filterb_cons. destruct (state p); simpl; rewrite IH;
      apply pair_eq; rewrite ?pair_eq; rewrite ?pair_eq; lia.
Qed.

Lemma counts_spec `{HashIter} g :
  counts g =
    (map_count (fun p => is_hot (state p)) (peers g),
     map_count (fun p => is_warm (state p)) (peers g),
     map_count (fun p => is_cold (state p)) (peers g),
     map_count (fun p => is_banned (state p)) (peers g)).
Proof. unfold counts. rewrite <- !values_count. apply count_step_loop. Qed.

Lemma hot_count_spec `{HashIter} g : hot_count g = map_count (fun p => is_hot (state p)) (peers g).
Proof. unfold hot_count. by rewrite counts_spec. Qed.

Lemma warm_count_spec `{HashIter} g : warm_count g = map_count (fun p => is_warm (state p)) (peers g).
Proof. unfold warm_count. by rewrite counts_spec. Qed.

Lemma cold_count_spec `{HashIter} g : cold_count g = map_count (fun p => is_cold (state p)) (peers g).
Proof. unfold cold_count. by rewrite counts_spec. Qed.

(** ** Selecting peers *)

(** [ids] are distinct identifiers of peers of [g] that pass the test [P]. *)
Definition selects (P : PeerInfo -> bool) (g : Governor) (ids : list NodeId) : Prop :=
  NoDup ids /\ forall id, id ∈ ids -> exists p, peers g !! id = Some p /\ P p = true.

Lemma selects_mono P Q g ids :
  (forall id p, id ∈ ids -> peers g !! id = Some p -> P p = true -> Q p = true) ->
  selects P g ids -> selects Q g ids.
Proof.
  intros HPQ [Hnd Hin]. split; [done|]. intros id Hid.
  destruct (Hin id Hid) as (p & Hp & HP). exists p. eauto.
Qed.

Lemma selects_perm P g ids ids' : ids ≡ₚ ids' -> selects P g ids' -> selects P g ids.
Proof. intros Hperm. unfold selects. setoid_rewrite Hperm. done. Qed.

Lemma selects_app_l P g ids ids' : selects P g (ids ++ ids') -> selects P g ids.
Proof.
  intros [(Hnd & _ & _)%NoDup_app Hin]. split; [done|].
  intros id Hid. apply Hin. set_solver.
Qed.

Lemma selects_take P g n ids : selects P g ids -> selects P g (take n ids).
Proof. rewrite <- (take_drop n ids) at 1. apply selects_app_l. Qed.

Section with_iter.
Context `{HI : HashIter}.

Lemma NoDup_node_ids g : gov_wf g -> NoDup (node_id <$> values (peers g)).
Proof.
  intros Hwf. rewrite values_perm.
  assert (node_id <$> (map_to_list (peers g)).*2 = (map_to_list (peers g)).*1) as ->.
  { rewrite <- list_fmap_compose. apply list_fmap_ext. intros i [id p] Hi.
    apply list_elem_of_lookup_2, elem_of_map_to_list in Hi.
    simpl. by apply (gov_wf_lookup g id p) in Hi as []. }
  apply NoDup_fst_map_to_list.
Qed.

Lemma selects_values P g : gov_wf g -> selects P g (node_id <$> filterb P (values (peers g))).
Proof.
  intros Hwf. split.
  - eapply sublist_NoDup; [by apply NoDup_node_ids|].
    apply fmap_sublist, sublist_filter.
  - intros id (p & -> & Hp)%list_elem_of_fmap. apply elem_of_filterb in Hp as [HP Hp].
    apply elem_of_values in Hp as [id Hid]. exists p.
    by rewrite (wf_key id p) by (by eapply gov_wf_lookup).
Qed.

(** Selection of the first peers after sorting by some key computed from them. *)
Lemma selects_sorted {B} P g (cmp : B -> B -> comparison) (mk : PeerInfo -> B) (key : B -> NodeId) n :
  gov_wf g -> (forall p, key (mk p) = node_id p) ->
  selects P g (key <$> take n (sort_by cmp (mk <$> filterb P (values (peers g))))).
Proof.
  intros Hwf Hkey. rewrite fmap_take. apply selects_take.
  eapply selects_perm; [|by apply selects_values].
  rewrite sort_by_perm, <- list_fmap_compose. apply Permutation_refl'.
  apply list_fmap_ext. intros; apply Hkey.
Qed.

End with_iter.

(** ** Loops that move the selected peers to another state *)

(** What a loop body records: the transition and, for a peer that leaves the
    pool of connections (Warm to Cold), the disconnect request. *)
Definition log_move (id : NodeId) (p p' : PeerInfo) (a : GovernorActions) : GovernorActions :=
  {| connect := connect a;
     disconnect := disconnect a ++ (if is_warm (state p) && is_cold (state p') then [id] else []);
     transitions := transitions a ++ [(id, state_name (state p), state_name (state p'))] |}.

Definition move_log (u : PeerInfo -> PeerInfo) (m : gmap NodeId PeerInfo) (ids : list NodeId) :
    list (NodeId * string * string) :=
  id ← ids; match m !! id with
            | Some p => [(id, state_name (state p), state_name (state (u p)))]
            | None => []
            end.

Lemma move_log_cons u m id p ids :
  m !! id = Some p ->
  move_log u m (id :: ids) =
    [(id, state_name (state p), state_name (state (u p)))] ++ move_log u m ids.
Proof. intros Hp. unfold move_log. cbn. by rewrite Hp. Qed.

(** The disconnect requests that go with a log of transitions. *)
Definition disconnects (ts : list (NodeId * string * string)) : list NodeId :=
  (filterb (fun t => String.eqb t.1.2 "warm" && String.eqb t.2 "cold") ts).*1.*1.

Lemma disconnects_app ts ts' : disconnects (ts ++ ts') = disconnects ts ++ disconnects ts'.
Proof. unfold disconnects. by rewrite filter_app, !fmap_app. Qed.

Lemma disconnects_move id p p' :
  disconnects [(id, state_name (state p), state_name (state p'))] =
    if is_warm (state p) && is_cold (state p') then [id] else [].
Proof. unfold disconnects. by destruct (state p), (state p'). Qed.

Section loops.
Context (P : PeerInfo -> bool) (u : PeerInfo -> PeerInfo)
  (f : NodeId -> PeerInfo -> GovernorActions -> PeerInfo * GovernorActions)
  (Hf : forall id p a, P p = true -> f id p a = (u p, log_move id p (u p) a)).

Lemma for_peers_spec ids g a :
  selects P g ids ->
  let r := for_peers f ids g a in
  (forall id, peers r.1 !! id = if decide (id ∈ ids) then u <$> peers g !! id else peers g !! id)
  /\ r.1 = set_peers (peers r.1) g
  /\ connect r.2 = connect a
  /\ transitions r.2 = transitions a ++ move_log u (peers g) ids
  /\ disconnect r.2 = disconnect a ++ disconnects (move_log u (peers g) ids).
Proof.
  unfold for_peers. revert g a. induction ids as [|id ids IH]; intros g a [Hnd Hin]; cbn [foldl].
  { simpl. rewrite !app_nil_r. split_and!; try done; by destruct g. }
  apply NoDup_cons in Hnd as [Hid Hnd].
  destruct (Hin id) as (p & Hp & HP); [left|]. rewrite Hp, Hf by done.
  set (g1 := set_peers (<[id:=u p]> (peers g)) g).
  assert (selects P g1 ids) as Hsel1.
  { split; [done|]. intros j Hj. destruct (Hin j) as (q & Hq & HQ); [by right|].
    exists q. split; [|done]. simpl. rewrite lookup_insert_ne; [done|]. by intros ->. }
  assert (move_log u (peers g1) ids = move_log u (peers g) ids) as Hlog.
  { unfold move_log. clear -Hid. induction ids as [|j ids IHl]; [done|]. cbn.
    rewrite lookup_insert_ne by set_solver. f_equal. apply IHl. set_solver. }
  destruct (IH g1 (log_move id p (u p) a) Hsel1) as (Hl & Hg & Hc & Ht & Hd).
  rewrite Hc, Ht, Hd, Hlog. clear IH Hc Ht Hd Hlog.
  split_and!; [|by rewrite Hg|done| |].
  - intros j. rewrite Hl. simpl.
    destruct (decide (id = j)) as [<-|Hne].
    + rewrite decide_False, lookup_insert_eq, decide_True, Hp by (done || by left). done.
    + rewrite lookup_insert_ne by done.
      apply decide_ext. rewrite elem_of_cons. split; [by right | by intros [->|]].
  - rewrite (move_log_cons u _ _ p) by done. simpl. by rewrite <- app_assoc.
  - rewrite (move_log_cons u _ _ p), disconnects_app, disconnects_move by done.
    simpl. by rewrite <- app_assoc.
Qed.

(** The loop changes a count by one for every visited peer whose test changes. *)
Lemma for_peers_count (Q : PeerInfo -> bool) (b b' : bool) ids g a :
  (forall p, P p = true -> Q p = b /\ Q (u p) = b') ->
  selects P g ids ->
  (map_count Q (peers (for_peers f ids g a).1) + indicator b * length ids =
   map_count Q (peers g) + indicator b' * length ids)%nat.
Proof.
  intros HQ. revert g a. induction ids as [|id ids IH]; intros g a [Hnd Hin]; [simpl; lia|].
  apply NoDup_cons in Hnd as [Hid Hnd].
  destruct (Hin id) as (p & Hp & HP); [left|].
  unfold for_peers in *. simpl. rewrite Hp, Hf by done.
  set (g1 := set_peers (<[id:=u p]> (peers g)) g).
  assert (selects P g1 ids) as Hsel1.
  { split; [done|]. intros j Hj. destruct (Hin j) as (q & Hq & HQ'); [by right|].
    exists q. split; [|done]. simpl. rewrite lookup_insert_ne; [done|]. by intros ->. }
  specialize (IH g1 (log_move id p (u p) a) Hsel1).
  pose proof (map_count_insert_Some Q (peers g) id p (u p) Hp) as Hcnt.
  destruct (HQ p HP) as [Hb Hb']. rewrite Hb, Hb' in Hcnt. cbn [peers g1 set_peers] in IH. simpl. lia.
Qed.

End loops.

(** ** What a phase of the tick records *)

(** The log of one peer leads from one state to another. *)
Fixpoint chain (s : string) (l : list (string * string)) (t : string) : Prop :=
  match l with
  | [] => s = t
  | (from, to) :: l => from = s /\ chain to l t
  end.

Lemma chain_app s l t l' u : chain s l t -> chain t l' u -> chain s (l ++ l') u.
Proof.
  revert s. induction l as [|[from to] l IH]; intros s; simpl; [by intros ->|].
  intros [-> Hl] Hl'. eauto.
Qed.

Definition log_of (id : NodeId) (ts : list (NodeId * string * string)) : list (string * string) :=
  (fun t => (t.1.2, t.2)) <$> filterb (fun t => String.eqb t.1.1 id) ts.

Lemma log_of_app id ts ts' : log_of id (ts ++ ts') = log_of id ts ++ log_of id ts'.
Proof. unfold log_of. by rewrite filter_app, fmap_app. Qed.

Lemma log_of_nil id ts : id ∉ ts.*1.*1 -> log_of id ts = [].
Proof.
  intros Hid. unfold log_of. rewrite filterb_false; [done|].
  intros [[j from] to] Hin. simpl. apply String.eqb_neq. intros ->. apply Hid.
  rewrite <- list_fmap_compose. apply list_elem_of_fmap. by exists (id, from, to).
Qed.

(** An entry of the table before and after, and its log in between.  A peer may
    leave the table, but only from Cold; none enters it. *)
Definition peer_log (o : option PeerInfo) (l : list (string * string)) (o' : option PeerInfo) : Prop :=
  match o, o' with
  | None, None => l = []
  | Some p, Some p' => chain (state_name (state p)) l (state_name (state p'))
  | Some p, None => chain (state_name (state p)) l "cold"
  | None, Some _ => False
  end.

Lemma peer_log_trans o l o1 l' o2 :
  peer_log o l o1 -> peer_log o1 l' o2 -> peer_log o (l ++ l') o2.
Proof.
  destruct o as [p|], o1 as [p1|], o2 as [p2|]; simpl; try done; try apply chain_app.
  - intros Hl ->. by rewrite app_nil_r.
  - by intros -> ->.
Qed.

Lemma peer_log_refl o : peer_log o [] o.
Proof. by destruct o. Qed.

(** The transitions a tick may make on its own. *)
Definition legal_transition (t : NodeId * string * string) : Prop :=
  (t.1.2, t.2) ∈ [("banned", "cold"); ("hot", "warm"); ("warm", "cold"); ("warm", "hot")]%string.

Record phase (g : Governor) (a : GovernorActions) (g' : Governor) (a' : GovernorActions) : Prop := {
  ph_targets : targets g' = targets g;
  ph_policy : dial_policy g' = dial_policy g;
  ph_wf : gov_wf g -> gov_wf g';
  ph_log : gov_wf g -> exists ts,
    transitions a' = transitions a ++ ts
    /\ disconnect a' = disconnect a ++ disconnects ts
    /\ Forall legal_transition ts
    /\ forall id, peer_log (peers g !! id) (log_of id ts) (peers g' !! id);
}.

Lemma phase_trans g a g1 a1 g2 a2 : phase g a g1 a1 -> phase g1 a1 g2 a2 -> phase g a g2 a2.
Proof.
  intros [Ht1 Hp1 Hw1 Hl1] [Ht2 Hp2 Hw2 Hl2]. split; [congruence|congruence|auto|].
  intros Hwf. destruct (Hl1 Hwf) as (ts & Ha1 & Hd1 & Hleg1 & Hlog1).
  destruct (Hl2 (Hw1 Hwf)) as (ts' & Ha2 & Hd2 & Hleg2 & Hlog2).
  exists (ts ++ ts'). rewrite Ha2, Hd2, Ha1, Hd1, disconnects_app, !app_assoc.
  split_and!; [done|done|by apply Forall_app|].
  intros id. rewrite log_of_app. eapply peer_log_trans; eauto.
Qed.

Lemma phase_refl g a : phase g a g a.
Proof.
  split; try done. intros _. exists []. rewrite !app_nil_r.
  split_and!; [done|done|constructor|]. intros id. apply peer_log_refl.
Qed.

(** A phase that only adds connection requests. *)
Lemma phase_connect g a a' :
  transitions a' = transitions a -> disconnect a' = disconnect a -> phase g a g a'.
Proof.
  intros Ht Hd. split; try done. intros _. exists []. rewrite Ht, Hd, !app_nil_r.
  split_and!; [done|done|constructor|]. intros id. apply peer_log_refl.
Qed.

Lemma move_log_ids P u g ids : selects P g ids -> (move_log u (peers g) ids).*1.*1 = ids.
Proof.
  intros [_ Hin]. induction ids as [|id ids IH]; [done|].
  destruct (Hin id) as (p & Hp & _); [left|].
  rewrite (move_log_cons u _ _ p) by done. simpl. f_equal. apply IH.
  intros j Hj. apply Hin. by right.
Qed.

Lemma log_of_move_log P u g ids id :
  selects P g ids ->
  log_of id (move_log u (peers g) ids) =
    if decide (id ∈ ids)
    then match peers g !! id with
         | Some p => [(state_name (state p), state_name (state (u p)))]
         | None => []
         end
    else [].
Proof.
  induction ids as [|j ids IH]; intros [Hnd Hin]; [done|].
  apply NoDup_cons in Hnd as [Hj Hnd].
  destruct (Hin j) as (p & Hp & _); [left|].
  rewrite (move_log_cons u _ _ p), log_of_app by done.
  destruct (decide (j = id)) as [<-|Hne].
  - rewrite decide_True by left. rewrite Hp, (log_of_nil j (move_log _ _ ids)).
    + unfold log_of. rewrite filter_cons_True by apply String.eqb_refl. done.
    + rewrite (move_log_ids P); [done|]. split; [done|]. intros; apply Hin. by right.
  - rewrite IH by (split; [done|]; intros; apply Hin; by right).
    unfold log_of at 1. rewrite filter_cons_False by (simpl; by rewrite String.eqb_eq).
    simpl. apply decide_ext. rewrite elem_of_cons. split; [by right | by intros [->|]].
Qed.

Lemma moves_phase P u g a g' a' ids :
  selects P g ids ->
  (forall id, peers g' !! id = if decide (id ∈ ids) then u <$> peers g !! id else peers g !! id) ->
  targets g' = targets g -> dial_policy g' = dial_policy g ->
  transitions a' = transitions a ++ move_log u (peers g) ids ->
  disconnect a' = disconnect a ++ disconnects (move_log u (peers g) ids) ->
  (forall id p, P p = true -> legal_transition (id, state_name (state p), state_name (state (u p)))) ->
  (forall id p, P p = true -> peer_wf id p -> peer_wf id (u p)) ->
  phase g a g' a'.
Proof.
  intros Hsel Hl Ht Hp Htr Hd Hlegal Hwfu. split; [done|done| |].
  - intros Hwf id p. rewrite Hl. case_decide as Hid; [|apply Hwf].
    destruct Hsel as [_ Hin]. destruct (Hin id Hid) as (q & Hq & HQ).
    rewrite Hq. intros [= <-]. apply Hwfu; [done|]. by eapply gov_wf_lookup.
  - intros Hwf. exists (move_log u (peers g) ids). split_and!; [done|done| |].
    + apply Forall_forall. intros [[id from] to] Hin. apply list_elem_of_bind in Hin as (j & Hin & Hj).
      destruct (proj2 Hsel j Hj) as (p & Hpj & HP). rewrite Hpj in Hin.
      apply list_elem_of_singleton in Hin as [= -> -> ->]. by apply Hlegal.
    + intros id. rewrite (log_of_move_log P), Hl by done.
      case_decide; [|by apply peer_log_refl]. by destruct (peers g !! id).
Qed.

Lemma for_peers_phase P u f g a ids :
  (forall id p a, P p = true -> f id p a = (u p, log_move id p (u p) a)) ->
  selects P g ids ->
  (forall id p, P p = true -> legal_transition (id, state_name (state p), state_name (state (u p)))) ->
  (forall id p, P p = true -> peer_wf id p -> peer_wf id (u p)) ->
  phase g a (for_peers f ids g a).1 (for_peers f ids g a).2.
Proof.
  intros Hf Hsel Hlegal Hwfu.
  destruct (for_peers_spec P u f Hf ids g a Hsel) as (Hl & Hg & _ & Ht & Hd).
  eapply moves_phase; eauto; by rewrite Hg.
Qed.

(** ** Every phase of the tick keeps its log *)

Definition push_connects (ids : list NodeId) (a : GovernorActions) : GovernorActions :=
  {| connect := connect a ++ ids; disconnect := disconnect a; transitions := transitions a |}.

Lemma foldl_push_connect ids a :
  foldl (fun a id => push_connect id a) a ids = push_connects ids a.
Proof.
  revert a. induction ids as [|id ids IH]; intros a; simpl.
  - unfold push_connects. rewrite app_nil_r. by destruct a.
  - rewrite IH. unfold push_connects. simpl. by rewrite <- app_assoc.
Qed.

(** What the loop bodies do to a peer. *)
Definition reap_peer (now : Instant) (p : PeerInfo) : PeerInfo :=
  match state p with
  | Hot => set_demoted_at (Some now) (set_connected_since None (set_state Warm p))
  | Warm => set_connected_since None (set_state Cold p)
  | _ => p
  end.

Definition promote_peer (p : PeerInfo) : PeerInfo := set_disconnect_count 0 (set_state Hot p).

Definition churn_peer (p : PeerInfo) : PeerInfo := set_connected_since None (set_state Cold p).

Lemma is_dead_active now p : is_dead now p = true -> is_active (state p) = true.
Proof. unfold is_dead. by intros [? _]%andb_prop. Qed.

Lemma promotable_warm now p : promotable now p = true -> state p = Warm.
Proof. unfold promotable. intros [? _]%andb_prop. by destruct (state p). Qed.

Lemma ban_expired_banned now p : ban_expired now p = true -> is_banned (state p) = true.
Proof. unfold ban_expired. by destruct (state p). Qed.

Lemma reap_one_move now id p a :
  is_dead now p = true -> reap_one now id p a = (reap_peer now p, log_move id p (reap_peer now p) a).
Proof.
  intros Hp%is_dead_active. unfold reap_one, reap_peer, log_move.
  destruct (state p) eqn:E; try done; simpl; by rewrite ?app_nil_r.
Qed.

Lemma promote_one_move now id p a :
  promotable now p = true -> promote_one id p a = (promote_peer p, log_move id p (promote_peer p) a).
Proof.
  intros Hp%promotable_warm. unfold promote_one, promote_peer, log_move.
  rewrite Hp. simpl. by rewrite app_nil_r.
Qed.

Lemma is_hot_eq s : is_hot s = true -> s = Hot.
Proof. by destruct s. Qed.

Lemma is_warm_eq s : is_warm s = true -> s = Warm.
Proof. by destruct s. Qed.

Lemma is_cold_eq s : is_cold s = true -> s = Cold.
Proof. by destruct s. Qed.

Lemma demote_one_move id p a :
  is_hot (state p) = true -> demote_one id p a = (set_state Warm p, log_move id p (set_state Warm p) a).
Proof.
  intros Hp%is_hot_eq. unfold demote_one, log_move. rewrite Hp. simpl. by rewrite app_nil_r.
Qed.

Lemma churn_one_move id p a :
  is_warm (state p) = true -> churn_one id p a = (churn_peer p, log_move id p (churn_peer p) a).
Proof. intros Hp%is_warm_eq. unfold churn_one, log_move, churn_peer. rewrite Hp. done. Qed.

Ltac legal := unfold legal_transition; simpl; rewrite !elem_of_cons; auto.

Lemma zero_is_u32 : is_u32 0.
Proof. unfold is_u32, u32_max. lia. Qed.
#[export] Hint Resolve zero_is_u32 : cordelia.

Section phases.
Context `{HI : HashIter}.

Lemma unban_move_log now g :
  gov_wf g ->
  move_log (set_state Cold) (peers g) (node_id <$> filterb (ban_expired now) (values (peers g))) =
  (fun p => (node_id p, state_name (state p), "cold"%string)) <$> filterb (ban_expired now) (values (peers g)).
Proof.
  intros Hwf.
  assert (forall p, p ∈ filterb (ban_expired now) (values (peers g)) ->
    peers g !! node_id p = Some p) as Hin.
  { intros p [_ Hp]%elem_of_filterb. apply elem_of_values in Hp as [id Hid].
    by rewrite (wf_key id p) by (by eapply gov_wf_lookup). }
  induction (filterb (ban_expired now) (values (peers g))) as [|p l IH]; [done|].
  rewrite fmap_cons, (move_log_cons _ _ _ p) by (apply Hin; left). simpl. f_equal.
  apply IH. intros; apply Hin. by right.
Qed.

Lemma unban_expired_phase now g a :
  gov_wf g -> phase g a (unban_expired now g a).1 (unban_expired now g a).2.
Proof.
  intros Hwf.
  assert (forall l a, let r := foldl (fun a p => if ban_expired now p
      then push_transition (node_id p, state_name (state p), "cold"%string) a else a) a l in
    transitions r = transitions a ++
      ((fun p => (node_id p, state_name (state p), "cold"%string)) <$> filterb (ban_expired now) l)
    /\ disconnect r = disconnect a) as Hloop.
  { induction l as [|p l IH]; intros a0; simpl; [by rewrite app_nil_r|].
    destruct (ban_expired now p) eqn:E; destruct (IH (if ban_expired now p then
       push_transition (node_id p, state_name (state p), "cold"%string) a0 else a0)) as [H1 H2];
      rewrite E in H1, H2; rewrite H1, H2.
    - rewrite filter_cons_True by done. simpl. by rewrite <- app_assoc.
    - rewrite filter_cons_False by congruence. done. }
  destruct (Hloop (values (peers g)) a) as [Ht Hd].
  eapply (moves_phase (ban_expired now) (set_state Cold) _ _ _ _
    (node_id <$> filterb (ban_expired now) (values (peers g)))); try done.
  - by apply selects_values.
  - intros id. simpl. rewrite lookup_fmap.
    destruct (selects_values (ban_expired now) g Hwf) as [_ Hsel].
    case_decide as Hid.
    + destruct (Hsel id Hid) as (p & -> & HP). simpl. by rewrite HP.
    + destruct (peers g !! id) as [p|] eqn:Hp; [|done]. simpl.
      destruct (ban_expired now p) eqn:E; [|done]. destruct Hid.
      apply list_elem_of_fmap. exists p. split; [by rewrite (wf_key id p) by eauto using gov_wf_lookup|].
      apply elem_of_filterb. split; [done|]. apply elem_of_values. eauto.
  - by rewrite unban_move_log.
  - rewrite unban_move_log by done. simpl. rewrite Hd. symmetry.
    unfold disconnects. rewrite filterb_false; [by rewrite app_nil_r|].
    intros t (p & -> & Hp)%list_elem_of_fmap. apply elem_of_filterb in Hp as [Hp%ban_expired_banned _].
    simpl. by destruct (state p).
  - intros id p Hp%ban_expired_banned. destruct (state p); try done. legal.
  - intros id p Hp%ban_expired_banned [Hkey Hconn Hcount Hesc]. split; simpl; try done.
    intros _. apply Hconn. by destruct (state p).
Qed.

Lemma reap_dead_phase now g a :
  gov_wf g -> phase g a (reap_dead now g a).1 (reap_dead now g a).2.
Proof.
  intros Hwf. unfold reap_dead.
  apply (for_peers_phase (is_dead now) (reap_peer now)).
  - intros; by apply reap_one_move.
  - by apply selects_values.
  - intros id p Hp%is_dead_active. unfold reap_peer. destruct (state p) eqn:E; try done; legal.
  - intros id p Hp%is_dead_active [Hkey Hconn Hcount Hesc]. unfold reap_peer.
    destruct (state p) eqn:E; try done; split; simpl in *; done.
Qed.

Lemma promote_cold_to_warm_phase now g a :
  phase g a (promote_cold_to_warm now g a).1 (promote_cold_to_warm now g a).2.
Proof.
  unfold promote_cold_to_warm. rewrite counts_spec. case_match; [apply phase_refl|].
  rewrite foldl_push_connect. by apply phase_connect.
Qed.

Lemma promote_phase now g a ids :
  selects (promotable now) g ids -> phase g a (for_peers promote_one ids g a).1 (for_peers promote_one ids g a).2.
Proof.
  intros Hsel. apply (for_peers_phase (promotable now) promote_peer).
  - intros; by eapply promote_one_move.
  - done.
  - intros id p ->%promotable_warm. legal.
  - intros id p _ [Hkey Hconn Hcount Hesc]. split; simpl; eauto with cordelia; done.
Qed.

Lemma foldl_max_elem {A} (cmp : A -> A -> comparison) (l : list A) x :
  foldl (fun x y => match cmp x y with Gt => x | _ => y end) x l ∈ x :: l.
Proof.
  revert x. induction l as [|y l IH]; intros x; simpl; [left|].
  destruct (cmp x y).
  - right. apply IH.
  - right. apply IH.
  - specialize (IH x). apply elem_of_cons in IH as [Heq|Hin]; [rewrite Heq; left | right; by right].
Qed.

Lemma max_by_elem {A} (cmp : A -> A -> comparison) (l : list A) x : max_by cmp l = Some x -> x ∈ l.
Proof. destruct l; [done|]. intros [= <-]. apply foldl_max_elem. Qed.

Lemma promote_warm_to_hot_phase now g a :
  gov_wf g -> phase g a (promote_warm_to_hot now g a).1 (promote_warm_to_hot now g a).2.
Proof.
  intros Hwf. unfold promote_warm_to_hot. rewrite counts_spec. case_match.
  - destruct (max_by _ _) as [w|] eqn:Hmax; [|apply phase_refl].
    case_match; [|apply phase_refl]. apply (promote_phase now).
    apply max_by_elem in Hmax. destruct (selects_values (promotable now) g Hwf) as [_ Hsel].
    split; [apply NoDup_singleton|]. intros id ->%list_elem_of_singleton.
    apply Hsel. by apply list_elem_of_fmap_2.
  - apply (promote_phase now). by apply selects_sorted.
Qed.

Lemma demote_excess_hot_phase now g a :
  gov_wf g -> phase g a (demote_excess_hot now g a).1 (demote_excess_hot now g a).2.
Proof.
  intros Hwf. unfold demote_excess_hot. rewrite counts_spec. case_match; [apply phase_refl|].
  apply (for_peers_phase (fun p => is_hot (state p)) (set_state Warm)).
  - intros; by apply demote_one_move.
  - rewrite <- list_fmap_compose. by apply (selects_sorted _ _ _ _ (fst ∘ fst)).
  - intros id p ->%is_hot_eq. legal.
  - intros id p Hp%is_hot_eq [Hkey Hconn Hcount Hesc]. split; simpl; done.
Qed.

Lemma set_last_churn_phase t g a : phase g a (set_last_churn t g) a.
Proof.
  split; try done. intros _. exists []. rewrite !app_nil_r.
  split_and!; [done|done|constructor|]. intros id. apply peer_log_refl.
Qed.

Lemma churn_loop_phase n g a :
  gov_wf g ->
  let ids := node_id <$> take n (filterb (fun p => is_warm (state p)) (values (peers g))) in
  phase g a (for_peers churn_one ids g a).1 (for_peers churn_one ids g a).2.
Proof.
  intros Hwf. apply (for_peers_phase (fun p => is_warm (state p)) churn_peer).
  - intros; by apply churn_one_move.
  - rewrite fmap_take. apply selects_take. by apply selects_values.
  - intros id p ->%is_warm_eq. legal.
  - intros id p Hp%is_warm_eq [Hkey Hconn Hcount Hesc]. split; simpl; done.
Qed.

Lemma churn_phase now g a :
  gov_wf g -> phase g a (churn now g a).1 (churn now g a).2.
Proof.
  intros Hwf. unfold churn. case_match; [apply phase_refl|].
  eapply phase_trans; [apply (set_last_churn_phase now)|].
  rewrite counts_spec. case_match; [apply phase_refl|].
  set (n := Z.to_nat _). clearbody n.
  pose proof (churn_loop_phase n (set_last_churn now g) a Hwf) as Hph. cbv zeta in Hph.
  destruct (for_peers churn_one _ (set_last_churn now g) a) as [g1 a1].
  eapply phase_trans; [exact Hph|]. rewrite foldl_push_connect. by apply phase_connect.
Qed.

Lemma delete_ids_lookup {V} (ids : list NodeId) (m : gmap NodeId V) id :
  foldl (fun m id => delete id m) m ids !! id = if decide (id ∈ ids) then None else m !! id.
Proof.
  revert m. induction ids as [|j ids IH]; intros m; [done|]. simpl. rewrite IH.
  destruct (decide (id ∈ ids)); [by rewrite decide_True by (by right)|].
  destruct (decide (j = id)) as [<-|Hne].
  - by rewrite lookup_delete_eq, decide_True by left.
  - rewrite lookup_delete_ne, decide_False; [done| |done]. by intros [->|]%elem_of_cons.
Qed.

Lemma evict_excess_cold_phase g a :
  gov_wf g -> phase g a (evict_excess_cold g a).1 (evict_excess_cold g a).2.
Proof.
  intros Hwf. unfold evict_excess_cold. rewrite counts_spec. case_match; [apply phase_refl|].
  set (ids := (take _ _).*1).
  assert (selects (fun p => is_cold (state p)) g ids) as Hsel by (by apply selects_sorted).
  clearbody ids. split; simpl; try done.
  - intros _ id p. simpl. rewrite delete_ids_lookup. case_decide; [done|]. apply Hwf.
  - intros _. exists []. rewrite !app_nil_r. split_and!; [done|done|constructor|].
    intros id. simpl. rewrite delete_ids_lookup. case_decide as Hid; [|by apply peer_log_refl].
    destruct (proj2 Hsel id Hid) as (p & -> & Hp%is_cold_eq). simpl. by rewrite Hp.
Qed.

(** A whole tick is a phase. *)
(** The phases after the first. *)
Lemma tick_after_unban c g :
  gov_wf g -> phase (unban_expired (at_unban c) g no_actions).1 (unban_expired (at_unban c) g no_actions).2 (tick c g).1 (tick c g).2.
Proof.
  intros Hwf. unfold tick.
  pose proof (ph_wf _ _ _ _ (unban_expired_phase (at_unban c) g no_actions Hwf) Hwf) as W1.
  destruct (unban_expired _ _ _) as [g1 a1]. cbn [fst snd] in *.
  pose proof (reap_dead_phase (at_reap c) g1 a1 W1) as H2. destruct (reap_dead _ _ _) as [g2 a2].
  pose proof (promote_cold_to_warm_phase (at_cold c) g2 a2) as H3.
  destruct (promote_cold_to_warm _ _ _) as [g3 a3]. pose proof (phase_trans _ _ _ _ _ _ H2 H3) as H13.
  pose proof (promote_warm_to_hot_phase (at_hot c) g3 a3 (ph_wf _ _ _ _ H13 W1)) as H4.
  destruct (promote_warm_to_hot _ _ _) as [g4 a4]. pose proof (phase_trans _ _ _ _ _ _ H13 H4) as H14.
  pose proof (demote_excess_hot_phase (at_demote c) g4 a4 (ph_wf _ _ _ _ H14 W1)) as H5.
  destruct (demote_excess_hot _ _ _) as [g5 a5]. pose proof (phase_trans _ _ _ _ _ _ H14 H5) as H15.
  pose proof (churn_phase (at_churn c) g5 a5 (ph_wf _ _ _ _ H15 W1)) as H6.
  destruct (churn _ _ _) as [g6 a6]. pose proof (phase_trans _ _ _ _ _ _ H15 H6) as H16.
  exact (phase_trans _ _ _ _ _ _ H16 (evict_excess_cold_phase g6 a6 (ph_wf _ _ _ _ H16 W1))).
Qed.

Lemma tick_phase c g : gov_wf g -> phase g no_actions (tick c g).1 (tick c g).2.
Proof. intros Hwf. eapply phase_trans; [by apply unban_expired_phase|by apply tick_after_unban]. Qed.

End phases.
