(* ===== verification/Lifecycle.v ===== *)
(** * The abstract peer life cycle

    The state machine that [docs/architecture/network-model.md] (section 6.1)
    prescribes for peers: which state each kind of event may lead from and to.
    Every event is one step; there is no closure under sequences of steps, so
    that a state that could be reached in several steps is still excluded. *)

From S2P Require Import Prelude.

(** A banned peer has the end of its ban and how often it was banned in a row. *)
Inductive kind := KCold | KWarm | KHot | KBanned (until : Instant) (times : Z).

Definition kind_active (k : kind) : bool := match k with KWarm | KHot => true | _ => false end.

(** What happens to the table of peers. *)
Inductive gov_event :=
| GObserve
| GDiscover (id : string)
| GConnect (id : string)
| GDrop (id : string)
| GResolve (old new : string)
| GBan (now : Instant) (id : string)
| GTick (t : Instant).

Abbreviation table := (gmap string kind).

(** Cold to Warm by a connection, and from nowhere else. *)
Definition kconnected (k : kind) : kind := match k with KCold => KWarm | _ => k end.

(** A connection drops. *)
Definition kdropped (k : kind) : kind := if kind_active k then KCold else k.

(** A ban lasts an hour, times the number of bans in a row. *)
Definition kbanned (now : Instant) (k : kind) : kind :=
  let times := match k with KBanned _ n => wrap_u32 (n + 1) | _ => 1 end in
  KBanned (now + from_secs 3600 * times) times.

(** What a tick at time [t] may do to a peer by itself ([None]: not in the table): promote
    Warm to Hot, demote Hot, let go of Warm, and end bans that are over.  It connects nobody
    and bans nobody, and a ban that is not over stands as it was. *)
Inductive ktick (t : Instant) : kind -> kind -> Prop :=
| kt_cold : ktick t KCold KCold
| kt_active k k' : kind_active k = true -> match k' with KBanned _ _ => False | _ => True end -> ktick t k k'
| kt_served until n : until <= t -> ktick t (KBanned until n) KCold
| kt_stands until n : t < until -> ktick t (KBanned until n) (KBanned until n).

(** Only what is Cold is forgotten, and nothing is discovered. *)
Definition otick (t : Instant) (o o' : option kind) : Prop :=
  match o, o' with
  | None, None => True
  | Some k, Some k' => ktick t k k'
  | Some k, None => ktick t k KCold
  | None, Some _ => False
  end.

Definition khot (k : kind) : bool := match k with KHot => true | _ => false end.
Definition kcold (k : kind) : bool := match k with KCold => true | _ => false end.

(** One step of the table.  A placeholder entry whose real identifier becomes known moves
    there, unless that entry is connected; then the placeholder is dropped. *)
Inductive abs_step (hot_max cold_max : nat) : gov_event -> table -> table -> Prop :=
| abs_observe m : abs_step hot_max cold_max GObserve m m
| abs_discover id m :
    abs_step hot_max cold_max (GDiscover id) m (match m !! id with Some _ => m | None => <[id := KCold]> m end)
| abs_connect id m : abs_step hot_max cold_max (GConnect id) m (alter kconnected id m)
| abs_drop id m : abs_step hot_max cold_max (GDrop id) m (alter kdropped id m)
| abs_resolve old new m :
    abs_step hot_max cold_max (GResolve old new) m
      (match m !! old with
       | None => m
       | Some k => if from_option kind_active false (m !! new) then delete old m else <[new := k]> (delete old m)
       end)
| abs_ban now id m : abs_step hot_max cold_max (GBan now id) m (alter (kbanned now) id m)
| abs_tick t m m' :
    (forall id, otick t (m !! id) (m' !! id)) ->
    (map_count khot m' <= hot_max)%nat -> (map_count kcold m' <= cold_max)%nat ->
    abs_step hot_max cold_max (GTick t) m m'.
