(* ===== verification/GovernorProps.v ===== *)
(** * Properties of the governor

    The governor as a transition system ([gov_step]), its well-formedness
    invariant and the reconnect backoff. *)

From S2P Require Import Prelude Float64 Protocol Governor GovernorFacts Lifecycle.

(** ** The governor as a transition system *)

(** The operations, labelled with what they mean for the life cycle of the peers. *)
Inductive gov_step `{HashIter} : gov_event -> Governor -> Governor -> Prop :=
| step_set_groups gs g : gov_step GObserve g (set_groups_gov gs g)
| step_add_peer now id a gs g : gov_step (GDiscover id) g (add_peer now id a gs g)
| step_activity now id rtt g : gov_step GObserve g (record_activity now id rtt g)
| step_delivered now id n g : gov_step GObserve g (record_items_delivered now id n g)
| step_connected now id g : gov_step (GConnect id) g (mark_connected now id g)
| step_disconnected now id g : gov_step (GDrop id) g (mark_disconnected now id g)
| step_dial_failed now id g : gov_step GObserve g (mark_dial_failed now id g)
| step_replace old new gs g : gov_step (GResolve old new) g (replace_node_id old new gs g).1
| step_ban now id why g : gov_step (GBan now id) g (ban_peer now id why g)
| step_relay id r g : gov_step GObserve g (set_peer_relay id r g)
| step_tick c g : gov_step (GTick (at_unban c)) g (tick c g).1.

Inductive gov_reachable `{HashIter} : Governor -> Prop :=
| reach_init now t gs pol : gov_reachable (with_dial_policy now t gs pol)
| reach_step e g g' : gov_reachable g -> gov_step e g g' -> gov_reachable g'.

(** ** Decidability of well-formedness *)

Lemma peer_wf_iff id p :
  peer_wf id p <->
  node_id p = id /\ (is_active (state p) = false -> connected_since p = None)
  /\ (0 <= disconnect_count p /\ disconnect_count p <= u32_max)
  /\ match state p with Banned _ _ e => 0 <= e /\ e <= u32_max | _ => True end.
Proof. split; [intros []|intros (?&?&?&?); split]; done. Qed.

#[export] Instance peer_wf_dec id p : Decision (peer_wf id p).
Proof.
  assert (Decision match state p with Banned _ _ e => 0 <= e /\ e <= u32_max | _ => True end) as D
    by (destruct (state p); apply _).
  destruct (decide (node_id p = id /\ (is_active (state p) = false -> connected_since p = None)
    /\ (0 <= disconnect_count p /\ disconnect_count p <= u32_max)
    /\ match state p with Banned _ _ e => 0 <= e /\ e <= u32_max | _ => True end));
    [left | right]; by rewrite peer_wf_iff.
Defined.

#[export] Instance gov_wf_dec g : Decision (gov_wf g).
Proof. unfold gov_wf. apply _. Defined.

(** ** The invariant is preserved *)

Lemma modify_peer_wf id f g :
  (forall p, peer_wf id p -> peer_wf id (f p)) -> gov_wf g -> gov_wf (modify_peer id f g).
Proof.
  intros Hf Hwf. unfold modify_peer. destruct (peers g !! id) as [p|] eqn:Hp; [|done].
  apply map_Forall_insert_2; [|done]. apply Hf. by eapply gov_wf_lookup.
Qed.

Lemma new_peer_wf now id a gs : peer_wf id (new_peer now id a gs).
Proof. split; simpl; auto with cordelia. Qed.

Lemma add_peer_wf now id a gs g : gov_wf g -> gov_wf (add_peer now id a gs g).
Proof.
  intros Hwf. unfold add_peer. destruct (peers g !! id) as [p|] eqn:Hp;
    (apply map_Forall_insert_2; [|done]); [|apply new_peer_wf].
  by apply (gov_wf_lookup g) in Hp as []; [|done].
Qed.

Lemma replace_node_id_wf old new gs g : gov_wf g -> gov_wf (replace_node_id old new gs g).1.
Proof.
  intros Hwf. unfold replace_node_id.
  assert (gov_wf (set_peers (delete old (peers g)) g)) as Hdel by (by apply map_Forall_delete).
  destruct (match peers g !! new with Some _ => _ | None => _ end).
  - destruct (peers g !! old) as [p|] eqn:Hp; [|done]. simpl.
    destruct (is_relay p); [|done]. destruct (delete old (peers g) !! new) as [q|] eqn:Hq; [|done].
    apply map_Forall_insert_2; [|done]. by apply Hdel in Hq as [].
  - destruct (peers g !! old) as [p|] eqn:Hp; [|done]. apply map_Forall_insert_2; [|done].
    by apply Hwf in Hp as [].
Qed.

Lemma ban_peer_wf now id why g : gov_wf g -> gov_wf (ban_peer now id why g).
Proof.
  apply modify_peer_wf. intros p [Hkey Hconn Hcount Hesc]. split; simpl; try done.
  destruct (state p); auto with cordelia; unfold is_u32, u32_max; lia.
Qed.

Lemma gov_step_wf `{HashIter} e g g' : gov_step e g g' -> gov_wf g -> gov_wf g'.
Proof.
  destruct 1; intros Hwf; auto using add_peer_wf, replace_node_id_wf, ban_peer_wf;
    try (apply modify_peer_wf; [|done]; intros p Hp).
  - destruct rtt; destruct Hp; by split.
  - destruct Hp; by split.
  - destruct (is_cold (state p)); [|done]. destruct Hp; by split.
  - destruct (is_active (state p)); [|done]. destruct Hp; split; simpl; auto with cordelia.
  - destruct Hp; split; simpl; auto with cordelia.
  - destruct Hp; by split.
  - by apply (ph_wf _ _ _ _ (tick_phase c g Hwf)).
Qed.

Lemma gov_reachable_wf `{HashIter} g : gov_reachable g -> gov_wf g.
Proof. induction 1; [apply map_Forall_empty | eauto using gov_step_wf]. Qed.

Lemma legal_log_of id ts :
  Forall legal_transition ts -> Forall (fun e => legal_transition (id, e.1, e.2)) (log_of id ts).
Proof.
  rewrite !Forall_forall. intros Hts e ([[j from] to] & -> & Hin)%list_elem_of_fmap.
  apply elem_of_filterb in Hin as [_ Hin]. by apply (Hts _ Hin).
Qed.

(** The governor's invariant: in every reachable state each entry is filed
    under its own identifier, a peer that is not connected (Cold or Banned) has
    no connection start time, and the disconnect and escalation counters are
    machine integers in range. *)
Theorem governor_invariant `{HashIter} g :
  gov_reachable g ->
  forall id p, peers g !! id = Some p ->
    node_id p = id
    /\ (is_active (state p) = false -> connected_since p = None)
    /\ is_u32 (disconnect_count p)
    /\ (forall until why e, state p = Banned until why e -> is_u32 e).
Proof.
  intros Hwf%gov_reachable_wf id p Hp. destruct (gov_wf_lookup g id p Hwf Hp) as [Hk Hc Hn He].
  split_and!; try done; try apply Hn. intros t why e Hst. by rewrite Hst in He.
Qed.

(** Reconnect backoff: for every disconnect count the shift and the
    saturating product of the code give the documented
    [min(2^count * 30 s, 15 min)] (no delay before the first failure), and the
    delay never decreases as the count grows. *)
Theorem reconnect_backoff_formula n m :
  0 <= n -> n <= m ->
  reconnect_backoff n = (if n =? 0 then 0 else from_secs (Z.min (2 ^ n * 30) (15 * 60)))
  /\ reconnect_backoff n <= reconnect_backoff m.
Proof.
  assert (forall k, 0 <= k ->
    reconnect_backoff k = if k =? 0 then 0 else from_secs (Z.min (2 ^ k * 30) (15 * 60))) as Hspec.
  { intros k Hk. unfold reconnect_backoff. destruct (Z.eqb_spec k 0) as [|Hne]; [done|]. cbn [ERA_0
      reconnect_backoff_base_secs reconnect_backoff_max_secs backoff_saturation_count].
    destruct (Z.le_gt_cases k 5) as [Hle|Hgt].
    - rewrite (Z.min_l k 5), Z.shiftl_mul_pow2 by lia. unfold u64_saturating_mul, u64_max.
      assert (2 ^ k <= 2 ^ 5) by (apply Z.pow_le_mono_r; lia). apply (f_equal from_secs). lia.
    - rewrite (Z.min_r k 5) by lia. assert (2 ^ 5 <= 2 ^ k) by (apply Z.pow_le_mono_r; lia).
      unfold u64_saturating_mul, u64_max. apply (f_equal from_secs). change (Z.shiftl 1 5) with 32. lia. }
  intros Hn Hm. split; [by apply Hspec|]. rewrite !Hspec by lia.
  destruct (Z.eqb_spec n 0) as [->|], (Z.eqb_spec m 0) as [->|]; unfold from_secs, nanos_per_sec; try lia.
  assert (2 ^ n <= 2 ^ m) by (apply Z.pow_le_mono_r; lia). lia.
Qed.

(** ** A concrete table *)

Definition ex_peer (id : NodeId) (s : PeerState) (gs : list GroupId) : PeerInfo :=
  set_state s (new_peer 0 id [] gs).

Definition ex_targets : GovernorTargets := {|
  hot_min := 1; hot_max := 1; warm_min := 1; warm_max := 4; cold_max := 1;
  gt_churn_interval_secs := 3600; churn_fraction := era_churn_fraction ERA_0 |}.

(** Two hot peers (one too many), one warm, two cold (one too many), one banned. *)
Definition ex_gov : Governor := {|
  peers := list_to_map [("h1", ex_peer "h1" Hot ["g"]); ("h2", ex_peer "h2" Hot ["g"]);
    ("w1", ex_peer "w1" Warm ["g"]); ("c1", ex_peer "c1" Cold []); ("c2", ex_peer "c2" Cold ["g"]);
    ("b1", ex_peer "b1" (Banned (from_secs 3600) "spam" 1) ["g"])]%string;
  targets := ex_targets; our_groups := ["g"%string]; last_churn := 0; dial_policy := DialAll |}.

Definition ex_clock (t : Instant) : TickClock :=
  {| at_unban := t; at_reap := t; at_cold := t; at_hot := t; at_demote := t; at_churn := t |}.

Lemma ex_reachable :
  @gov_reachable sorted_iter (mark_connected 1 "a" (add_peer 0 "a" [] ["g"%string]
    (with_dial_policy 0 ex_targets ["g"%string] DialAll))).
Proof.
  eapply (@reach_step sorted_iter); [|apply (@step_connected sorted_iter)].
  eapply (@reach_step sorted_iter); [|apply (@step_add_peer sorted_iter)]. apply (@reach_init sorted_iter).
Qed.

Lemma governor_invariant_witness :
  let g := mark_connected 1 "a" (add_peer 0 "a" [] ["g"%string]
             (with_dial_policy 0 ex_targets ["g"%string] DialAll)) in
  exists p, peers g !! "a"%string = Some p /\ is_u32 (disconnect_count p).
Proof.
  exists (set_last_activity 1 (set_connected_since (Some 1) (ex_peer "a" Warm ["g"%string]))).
  split; [reflexivity|].
  apply (@governor_invariant sorted_iter _ ex_reachable "a"%string). reflexivity.
Defined.

Lemma reconnect_backoff_formula_witness :
  reconnect_backoff 3 = from_secs 240 /\ reconnect_backoff 3 <= reconnect_backoff 70.
Proof. apply (reconnect_backoff_formula 3 70); lia. Defined.
