(* ===== verification/GovernorTick.v ===== *)
(** * The tick of the governor, phase by phase

    Bounds on the table that a tick re-establishes, the recovery of hot peers,
    and which peers each phase picks: whom it dials, whom it demotes, whom it
    evicts, and whom it must leave alone. *)

From S2P Require Import Prelude Float64 Protocol Governor GovernorFacts GovernorProps.

(** ** More on counting and sorting *)

(** Entries that pass [P] survive as entries that pass [Q]. *)
Lemma map_count_mono {V W} (P : V -> bool) (Q : W -> bool) (m : gmap string V) (m' : gmap string W) :
  (forall k v, m !! k = Some v -> P v = true -> exists w, m' !! k = Some w /\ Q w = true) ->
  (map_count P m <= map_count Q m')%nat.
Proof.
  revert m'. induction m as [|k v m Hk IH] using map_ind; intros m' Hrel.
  { unfold map_count at 1. rewrite map_to_list_empty. simpl. lia. }
  rewrite map_count_insert_None by done. destruct (P v) eqn:HP; simpl.
  - destruct (Hrel k v) as (w & Hw & HQ); [by rewrite lookup_insert_eq|done|].
    rewrite (map_count_delete Q m' k w), HQ by done. simpl. apply le_n_S, IH.
    intros j u Hj Hu. assert (k <> j) by congruence. rewrite lookup_delete_ne by done.
    apply (Hrel j u); [by rewrite lookup_insert_ne|done].
  - apply IH. intros j u Hj Hu. apply (Hrel j u); [|done]. rewrite lookup_insert_ne; congruence.
Qed.

(** Two disjoint tests. *)
Lemma map_count_or {V} (P Q : V -> bool) (m : gmap string V) :
  (forall v, P v = true -> Q v = false) ->
  map_count (fun v => P v || Q v) m = (map_count P m + map_count Q m)%nat.
Proof.
  intros Hdis. induction m as [|k v m Hk IH] using map_ind; [done|].
  rewrite !map_count_insert_None, IH by done. specialize (Hdis v).
  destruct (P v), (Q v); simpl; lia.
Qed.

Lemma insert_by_ext {A} (cmp cmp' : A -> A -> comparison) x l :
  (forall y, y ∈ l -> cmp x y = cmp' x y) -> insert_by cmp x l = insert_by cmp' x l.
Proof.
  induction l as [|y l IH]; intros H; [done|]. simpl. rewrite (H y) by left.
  rewrite IH by (intros; apply H; by right). done.
Qed.

(** Only the comparisons between elements of the list matter. *)
Lemma sort_by_ext {A} (cmp cmp' : A -> A -> comparison) l :
  (forall x y, x ∈ l -> y ∈ l -> cmp x y = cmp' x y) -> sort_by cmp l = sort_by cmp' l.
Proof.
  induction l as [|x l IH]; intros H; [done|]. simpl.
  rewrite IH by (intros; apply H; by right). apply insert_by_ext.
  intros y Hy%elem_of_sort_by. apply H; [left | by right].
Qed.

(** ** Loops and counts *)

Lemma delete_ids_count (P Q : PeerInfo -> bool) (b : bool) ids m :
  (forall p, P p = true -> Q p = b) -> NoDup ids ->
  (forall id, id ∈ ids -> exists p, m !! id = Some p /\ P p = true) ->
  (map_count Q (foldl (fun m id => delete id m) m ids) + indicator b * length ids = map_count Q m)%nat.
Proof.
  intros HQ Hnd. revert m. induction Hnd as [|id ids Hid Hnd IH]; intros m Hin; simpl; [lia|].
  destruct (Hin id) as (p & Hp & HP); [left|].
  rewrite (map_count_delete Q m id p), (HQ p HP) by done.
  rewrite <- (IH (delete id m)); [lia|].
  intros j Hj. rewrite lookup_delete_ne by (by intros ->). apply Hin. by right.
Qed.

Section tick.
Context `{HI : HashIter}.

Lemma length_sorted {B} P g (cmp : B -> B -> comparison) (mk : PeerInfo -> B) :
  length (sort_by cmp (mk <$> filterb P (values (peers g)))) = map_count P (peers g).
Proof. by rewrite length_sort_by, length_fmap, values_count. Qed.

(** The states between the phases of a tick. *)
Lemma tick_steps c g :
  gov_wf g -> exists g1 a1 g2 a2 g3 a3 g4 a4 g5 a5 g6 a6,
    unban_expired (at_unban c) g no_actions = (g1, a1)
    /\ reap_dead (at_reap c) g1 a1 = (g2, a2)
    /\ promote_cold_to_warm (at_cold c) g2 a2 = (g3, a3)
    /\ promote_warm_to_hot (at_hot c) g3 a3 = (g4, a4)
    /\ demote_excess_hot (at_demote c) g4 a4 = (g5, a5)
    /\ churn (at_churn c) g5 a5 = (g6, a6)
    /\ tick c g = evict_excess_cold g6 a6
    /\ gov_wf g1 /\ gov_wf g2 /\ gov_wf g3 /\ gov_wf g4 /\ gov_wf g5 /\ gov_wf g6
    /\ targets g6 = targets g /\ targets g5 = targets g /\ targets g4 = targets g
    /\ targets g3 = targets g /\ targets g2 = targets g.
Proof.
  intros Hwf. unfold tick.
  pose proof (unban_expired_phase (at_unban c) g no_actions Hwf) as H1.
  destruct (unban_expired _ _ _) as [g1 a1] eqn:E1. pose proof (ph_wf _ _ _ _ H1 Hwf) as W1.
  pose proof (reap_dead_phase (at_reap c) g1 a1 W1) as H2.
  destruct (reap_dead _ _ _) as [g2 a2] eqn:E2. pose proof (ph_wf _ _ _ _ H2 W1) as W2.
  pose proof (promote_cold_to_warm_phase (at_cold c) g2 a2) as H3.
  destruct (promote_cold_to_warm _ _ _) as [g3 a3] eqn:E3. pose proof (ph_wf _ _ _ _ H3 W2) as W3.
  pose proof (promote_warm_to_hot_phase (at_hot c) g3 a3 W3) as H4.
  destruct (promote_warm_to_hot _ _ _) as [g4 a4] eqn:E4. pose proof (ph_wf _ _ _ _ H4 W3) as W4.
  pose proof (demote_excess_hot_phase (at_demote c) g4 a4 W4) as H5.
  destruct (demote_excess_hot _ _ _) as [g5 a5] eqn:E5. pose proof (ph_wf _ _ _ _ H5 W4) as W5.
  pose proof (churn_phase (at_churn c) g5 a5 W5) as H6.
  destruct (churn _ _ _) as [g6 a6] eqn:E6. pose proof (ph_wf _ _ _ _ H6 W5) as W6.
  exists g1, a1, g2, a2, g3, a3, g4, a4, g5, a5, g6, a6.
  apply ph_targets in H1, H2, H3, H4, H5, H6. simpl in *.
  split_and!; try done; congruence.
Qed.

(** ** Bounds *)

Lemma demote_excess_hot_bound now g a :
  gov_wf g ->
  map_count (fun p => is_hot (state p)) (peers (demote_excess_hot now g a).1) =
    Nat.min (map_count (fun p => is_hot (state p)) (peers g)) (hot_max (targets g)).
Proof.
  intros Hwf. unfold demote_excess_hot. rewrite counts_spec.
  set (hot := map_count (fun p => is_hot (state p)) (peers g)).
  destruct (Nat.leb_spec hot (hot_max (targets g))) as [Hb|Hb]; [simpl; fold hot; lia|]. set (ids := _.*1.*1).
  assert (selects (fun p => is_hot (state p)) g ids) as Hsel.
  { unfold ids. rewrite <- list_fmap_compose. by apply (selects_sorted _ _ _ _ (fst ∘ fst)). }
  assert (length ids = hot - hot_max (targets g))%nat as Hlen.
  { unfold ids. rewrite !length_fmap, length_take, length_sorted. fold hot. lia. }
  pose proof (for_peers_count (fun p => is_hot (state p)) (set_state Warm) demote_one
    (fun id p a H => demote_one_move id p a H) (fun p => is_hot (state p)) true false ids g a) as Hc.
  fold hot in Hc. rewrite Hlen in Hc. simpl in Hc. assert (forall p, is_hot (state p) = true ->
    is_hot (state p) = true /\ is_hot (state (set_state Warm p)) = false) as HQ by done.
  specialize (Hc HQ Hsel). lia.
Qed.

Lemma churn_hot now g a :
  gov_wf g ->
  map_count (fun p => is_hot (state p)) (peers (churn now g a).1) =
    map_count (fun p => is_hot (state p)) (peers g).
Proof.
  intros Hwf. unfold churn. case_match; [done|]. rewrite counts_spec. case_match; [done|].
  set (n := Z.to_nat _). set (ids := node_id <$> take n _). clearbody n.
  assert (selects (fun p => is_warm (state p)) (set_last_churn now g) ids) as Hsel.
  { unfold ids. rewrite fmap_take. apply selects_take. by apply selects_values. }
  pose proof (for_peers_count (fun p => is_warm (state p)) churn_peer churn_one
    (fun id p a H => churn_one_move id p a H) (fun p => is_hot (state p)) false false
    ids (set_last_churn now g) a) as Hc.
  destruct (for_peers churn_one ids (set_last_churn now g) a) as [g1 a1]. simpl in *.
  rewrite !Nat.add_0_r in Hc. apply Hc; [|done]. intros p Hp%is_warm_eq. by rewrite Hp.
Qed.

Lemma evict_excess_cold_count (Q : PeerInfo -> bool) (b : bool) g a :
  gov_wf g -> (forall p, is_cold (state p) = true -> Q p = b) ->
  (map_count Q (peers (evict_excess_cold g a).1)
   + indicator b * (map_count (fun p => is_cold (state p)) (peers g) - cold_max (targets g))
   = map_count Q (peers g))%nat.
Proof.
  intros Hwf HQ. unfold evict_excess_cold. rewrite counts_spec.
  set (cold := map_count (fun p => is_cold (state p)) _).
  destruct (Nat.leb_spec cold (cold_max (targets g))) as [Hb|Hb].
  { simpl. replace (cold - _)%nat with 0%nat; lia. }
  set (ids := (take _ _).*1).
  assert (selects (fun p => is_cold (state p)) g ids) as [Hnd Hin] by (by apply selects_sorted).
  assert (length ids = cold - cold_max (targets g))%nat as Hlen.
  { unfold ids. rewrite length_fmap, length_take, length_sorted. fold cold. lia. }
  pose proof (delete_ids_count (fun p => is_cold (state p)) Q b ids (peers g) HQ Hnd Hin) as Hc.
  rewrite Hlen in Hc. done.
Qed.

Lemma tick_hot_bound c g : gov_wf g -> (hot_count (tick c g).1 <= hot_max (targets g))%nat.
Proof.
  intros Hwf. destruct (tick_steps c g Hwf) as (g1&a1&g2&a2&g3&a3&g4&a4&g5&a5&g6&a6&_&_&_&_&E5&E6&->&_&_&_&W4&W5&W6&_&_&T4&_).
  rewrite hot_count_spec.
  pose proof (evict_excess_cold_count (fun p => is_hot (state p)) false g6 a6 W6) as H7.
  pose proof (churn_hot (at_churn c) g5 a5 W5) as H6. rewrite E6 in H6.
  pose proof (demote_excess_hot_bound (at_demote c) g4 a4 W4) as H5. rewrite E5 in H5.
  rewrite T4 in H5. simpl in *. rewrite <- H7 in H6; [lia|]. intros p Hp%is_cold_eq. by rewrite Hp.
Qed.

Lemma tick_cold_bound c g : gov_wf g -> (cold_count (tick c g).1 <= cold_max (targets g))%nat.
Proof.
  intros Hwf. destruct (tick_steps c g Hwf) as (g1&a1&g2&a2&g3&a3&g4&a4&g5&a5&g6&a6&_&_&_&_&_&_&->&_&_&_&_&_&W6&T6&_).
  rewrite cold_count_spec.
  pose proof (evict_excess_cold_count (fun p => is_cold (state p)) true g6 a6 W6) as H7.
  rewrite T6 in H7. simpl in H7. specialize (H7 (fun p H => H)). lia.
Qed.

(** ** Which entries a phase changes, and which peers it dials *)

(** [g'] is [g] with [u] applied to the peers [ids], all of which pass [P]. *)
Definition updates (P : PeerInfo -> bool) (u : PeerInfo -> PeerInfo) (g g' : Governor) : Prop :=
  exists ids, selects P g ids
    /\ forall id, peers g' !! id = if decide (id ∈ ids) then u <$> peers g !! id else peers g !! id.

Lemma updates_refl P u g : updates P u g g.
Proof.
  exists []. split; [|done]. split; [apply NoDup_nil_2 | by intros id Hid%elem_of_nil].
Qed.

(** Backwards: an entry after the phase comes from an equal entry or a selected one. *)
Lemma updates_inv P u g g' id p' :
  updates P u g g' -> peers g' !! id = Some p' ->
  exists p, peers g !! id = Some p /\ (p' = p \/ P p = true /\ p' = u p).
Proof.
  intros (ids & [_ Hin] & Hl). rewrite Hl. case_decide as Hid; [|by eauto].
  destruct (Hin id Hid) as (p & -> & HP). intros [= <-]. eauto.
Qed.

(** Forwards: an entry that fails the test is left alone. *)
Lemma updates_other P u g g' id p :
  updates P u g g' -> peers g !! id = Some p -> P p = false -> peers g' !! id = Some p.
Proof.
  intros (ids & [_ Hin] & Hl) Hp HP. rewrite Hl. case_decide as Hid; [|done].
  destruct (Hin id Hid) as (q & Hq & HQ). congruence.
Qed.

Lemma for_peers_updates P u f ids g a :
  (forall id p a, P p = true -> f id p a = (u p, log_move id p (u p) a)) ->
  selects P g ids -> updates P u g (for_peers f ids g a).1 /\ connect (for_peers f ids g a).2 = connect a.
Proof.
  intros Hf Hsel. destruct (for_peers_spec P u f Hf ids g a Hsel) as (Hl & _ & Hc & _).
  split; [by exists ids | done].
Qed.

Lemma unban_expired_connect now g a : connect (unban_expired now g a).2 = connect a.
Proof.
  unfold unban_expired. simpl. generalize (values (peers g)) as l. intros l. revert a.
  induction l as [|p l IH]; intros a; [done|]. simpl. rewrite IH. by case_match.
Qed.

Lemma reap_dead_updates now g a :
  gov_wf g -> peers (reap_dead now g a).1 = (fun p => if is_dead now p then reap_peer now p else p) <$> peers g
  /\ connect (reap_dead now g a).2 = connect a.
Proof.
  intros Hwf. unfold reap_dead. pose proof (selects_values (is_dead now) g Hwf) as Hsel.
  destruct (for_peers_spec (is_dead now) (reap_peer now) (reap_one now)
    (fun id p a H => reap_one_move now id p a H) _ g a Hsel) as (Hl & _ & Hc & _).
  split; [|done]. apply map_eq. intros id. rewrite Hl, lookup_fmap.
  destruct (peers g !! id) as [p|] eqn:Hp; [|by case_decide]. simpl. case_decide as Hid.
  - destruct Hsel as [_ Hin]. destruct (Hin id Hid) as (q & Hq & HQ). rewrite Hp in Hq.
    injection Hq as ->. by rewrite HQ.
  - destruct (is_dead now p) eqn:E; [|done]. destruct Hid. apply list_elem_of_fmap.
    exists p. split; [by rewrite (wf_key id p) by (by eapply gov_wf_lookup)|].
    apply elem_of_filterb. split; [done|]. apply elem_of_values. eauto.
Qed.

Lemma promote_warm_to_hot_updates now g a :
  gov_wf g -> updates (promotable now) promote_peer g (promote_warm_to_hot now g a).1
  /\ connect (promote_warm_to_hot now g a).2 = connect a.
Proof.
  intros Hwf. unfold promote_warm_to_hot. rewrite counts_spec.
  pose proof (fun id p a (H : promotable now p = true) => promote_one_move now id p a H) as Hf.
  case_match.
  - destruct (max_by _ _) as [w|] eqn:Hmax; [|split; [apply updates_refl | done]].
    case_match; [|split; [apply updates_refl | done]]. apply for_peers_updates; [done|].
    apply max_by_elem in Hmax. destruct (selects_values (promotable now) g Hwf) as [_ Hsel].
    split; [apply NoDup_singleton|]. intros id ->%list_elem_of_singleton.
    apply Hsel. by apply list_elem_of_fmap_2.
  - apply for_peers_updates; [done|]. by apply selects_sorted.
Qed.

Lemma demote_excess_hot_updates now g a :
  gov_wf g -> updates (fun p => is_hot (state p)) (set_state Warm) g (demote_excess_hot now g a).1
  /\ connect (demote_excess_hot now g a).2 = connect a.
Proof.
  intros Hwf. unfold demote_excess_hot. rewrite counts_spec.
  case_match; [split; [apply updates_refl | done]|].
  apply for_peers_updates; [intros; by apply demote_one_move|].
  rewrite <- list_fmap_compose. by apply (selects_sorted _ _ _ _ (fst ∘ fst)).
Qed.

Lemma churn_updates now g a :
  gov_wf g -> updates (fun p => is_warm (state p)) churn_peer g (churn now g a).1
  /\ exists ids, connect (churn now g a).2 = connect a ++ ids
       /\ selects (fun p => is_cold (state p) && is_dialable g p) (churn now g a).1 ids.
Proof.
  intros Hwf. unfold churn. pose proof (updates_refl (fun p => is_warm (state p)) churn_peer g) as Hr.
  assert (selects (fun p => is_cold (state p) && is_dialable g p) g []) as Hs.
  { split; [apply NoDup_nil_2 | by intros id Hid%elem_of_nil]. }
  case_match; [split; [done|]; exists []; by rewrite app_nil_r|].
  rewrite counts_spec. case_match; [split; [done|]; exists []; by rewrite app_nil_r|].
  set (n := Z.to_nat _). clearbody n. set (g0 := set_last_churn now g). set (ids := node_id <$> take n _).
  assert (selects (fun p => is_warm (state p)) g0 ids) as Hsel.
  { unfold ids. rewrite fmap_take. apply selects_take. by apply selects_values. }
  pose proof (for_peers_updates _ churn_peer churn_one ids g0 a (fun id p a H => churn_one_move id p a H) Hsel) as [Hup Hc].
  pose proof (for_peers_phase _ churn_peer churn_one g0 a ids (fun id p a H => churn_one_move id p a H) Hsel) as Hph.
  assert (gov_wf (for_peers churn_one ids g0 a).1) as Hwf1.
  { apply Hph; [| |done].
    - intros id p ->%is_warm_eq. unfold legal_transition. simpl. rewrite !elem_of_cons. auto.
    - intros id p Hp%is_warm_eq []. split; simpl; done. }
  destruct (for_peers_spec _ churn_peer churn_one (fun id p a H => churn_one_move id p a H) ids g0 a Hsel)
    as (_ & Hg & _).
  destruct (for_peers churn_one ids g0 a) as [g1 a1]. rewrite foldl_push_connect. simpl in *.
  split; [done|]. rewrite Hc. eexists. split; [done|]. rewrite fmap_take. apply selects_take.
  eapply selects_mono; [|by apply selects_values]. intros id p _ _ [-> Hd]%andb_prop. simpl.
  rewrite Hg in Hd. done.
Qed.

Lemma promote_cold_to_warm_connect now g a :
  gov_wf g -> (promote_cold_to_warm now g a).1 = g
  /\ exists ids, connect (promote_cold_to_warm now g a).2 = connect a ++ ids
       /\ selects (dial_candidate now g) g ids.
Proof.
  intros Hwf. unfold promote_cold_to_warm. rewrite counts_spec. case_match.
  { split; [done|]. exists []. rewrite app_nil_r. split; [done|].
    split; [apply NoDup_nil_2 | by intros id Hid%elem_of_nil]. }
  rewrite foldl_push_connect. simpl. split; [done|]. eexists. split; [done|]. case_match.
  - rewrite fmap_take. apply selects_take. by apply selects_values.
  - rewrite <- fmap_take. by apply selects_sorted.
Qed.

Lemma evict_excess_cold_lookup g a id :
  gov_wf g -> connect (evict_excess_cold g a).2 = connect a
  /\ (peers (evict_excess_cold g a).1 !! id = peers g !! id
      \/ peers (evict_excess_cold g a).1 !! id = None
         /\ exists p, peers g !! id = Some p /\ state p = Cold).
Proof.
  intros Hwf. unfold evict_excess_cold. rewrite counts_spec. case_match; [by auto|].
  split; [done|]. simpl. rewrite delete_ids_lookup. case_decide as Hid; [right | by left].
  split; [done|]. assert (selects (fun p => is_cold (state p)) g (take
    (map_count (fun p => is_cold (state p)) (peers g) - cold_max (targets g))
    (sort_by (key_cmp snd) ((fun p => (node_id p, last_activity p)) <$>
       filterb (fun p => is_cold (state p)) (values (peers g))))).*1) as [_ Hin] by (by apply selects_sorted).
  destruct (Hin id Hid) as (p & Hp & HP%is_cold_eq). eauto.
Qed.

(** ** Where the hot peers of a tick come from *)

Lemma reap_not_promotable c p :
  duration_since (at_hot c) (at_reap c) <= DEAD_TIMEOUT -> is_dead (at_reap c) p = true ->
  promotable (at_hot c) (reap_peer (at_reap c) p) = false.
Proof.
  intros Hclk Hd%is_dead_active. unfold promotable, reap_peer. destruct (state p) eqn:E; try done; simpl.
  apply Z.ltb_ge. done.
Qed.

(** A peer that a tick leaves Hot was alive at the start, and Hot or promotable. *)
Definition healthy (c : TickClock) (p : PeerInfo) : bool :=
  negb (is_dead (at_reap c) p) && (is_hot (state p) || promotable (at_hot c) p).

Lemma reap_unban_lookup c g g1 a1 g2 a2 id :
  gov_wf g -> gov_wf g1 -> unban_expired (at_unban c) g no_actions = (g1, a1) ->
  reap_dead (at_reap c) g1 a1 = (g2, a2) ->
  peers g2 !! id = (fun p => let p := if ban_expired (at_unban c) p then set_state Cold p else p in
                      if is_dead (at_reap c) p then reap_peer (at_reap c) p else p) <$> peers g !! id.
Proof.
  intros Hwf W1 E1 E2. destruct (reap_dead_updates (at_reap c) g1 a1 W1) as [Hr _].
  rewrite E2 in Hr. simpl in Hr. rewrite Hr. apply (f_equal fst) in E1. simpl in E1. subst g1. simpl.
  rewrite !lookup_fmap. by destruct (peers g !! id).
Qed.

Lemma tick_hot_from_healthy c g id p' :
  gov_wf g -> duration_since (at_hot c) (at_reap c) <= DEAD_TIMEOUT ->
  peers (tick c g).1 !! id = Some p' -> state p' = Hot ->
  exists p, peers g !! id = Some p /\ healthy c p = true.
Proof.
  intros Hwf Hclk. destruct (tick_steps c g Hwf) as
    (g1&a1&g2&a2&g3&a3&g4&a4&g5&a5&g6&a6&E1&E2&E3&E4&E5&E6&->&W1&W2&W3&W4&W5&W6&_).
  intros Hp' Hhot. pose proof (evict_excess_cold_lookup g6 a6 id W6) as [_ [Hl|[Hl _]]]; [|congruence].
  rewrite Hl in Hp'. clear Hl.
  destruct (churn_updates (at_churn c) g5 a5 W5) as [Hup _]. rewrite E6 in Hup. simpl in Hup.
  destruct (updates_inv _ _ _ _ _ _ Hup Hp') as (p5 & Hp5 & [->|[_ ->]]); [|done].
  destruct (demote_excess_hot_updates (at_demote c) g4 a4 W4) as [Hup5 _]. rewrite E5 in Hup5. simpl in Hup5.
  destruct (updates_inv _ _ _ _ _ _ Hup5 Hp5) as (p4 & Hp4 & [->|[_ ->]]); [|done].
  destruct (promote_warm_to_hot_updates (at_hot c) g3 a3 W3) as [Hup4 _]. rewrite E4 in Hup4. simpl in Hup4.
  destruct (promote_cold_to_warm_connect (at_cold c) g2 a2 W2) as [Heq _]. rewrite E3 in Heq. simpl in Heq. subst g3.
  destruct (updates_inv _ _ _ _ _ _ Hup4 Hp4) as (p2 & Hp2 & Hcase).
  rewrite (reap_unban_lookup c g g1 a1 g2 a2 id Hwf W1 E1 E2) in Hp2.
  destruct (peers g !! id) as [p|] eqn:Hp; [|done]. injection Hp2 as Hp2. exists p. split; [done|].
  unfold healthy. destruct (ban_expired (at_unban c) p) eqn:Hban.
  { unfold is_dead in Hp2. simpl in Hp2. subst p2. destruct Hcase as [->|[Hpr%promotable_warm _]]; done. }
  destruct (is_dead (at_reap c) p) eqn:Hdead; simpl in *; subst p2.
  - rewrite reap_not_promotable in Hcase by done. destruct Hcase as [->|[? _]]; [|done].
    unfold reap_peer in Hhot. by destruct (state p) eqn:E; simpl in Hhot; rewrite ?E in Hhot.
  - destruct Hcase as [->|[-> _]]; [by rewrite Hhot | apply orb_true_r].
Qed.

(** Healthy peers reach the promotion phase as Hot or promotable. *)
Lemma healthy_survives c g g1 a1 g2 a2 :
  gov_wf g -> gov_wf g1 -> unban_expired (at_unban c) g no_actions = (g1, a1) ->
  reap_dead (at_reap c) g1 a1 = (g2, a2) ->
  (map_count (healthy c) (peers g) <=
   map_count (fun p => is_hot (state p)) (peers g2) + map_count (promotable (at_hot c)) (peers g2))%nat.
Proof.
  intros Hwf W1 E1 E2. rewrite <- map_count_or.
  - apply map_count_mono. intros id p Hp Hh. exists p.
    apply andb_prop in Hh as [Hd Hh]. apply negb_true_iff in Hd. split; [|done].
    rewrite (reap_unban_lookup c g g1 a1 g2 a2 id Hwf W1 E1 E2), Hp. simpl.
    assert (ban_expired (at_unban c) p = false) as ->; [|by rewrite Hd].
    unfold ban_expired. unfold promotable in Hh. by destruct (state p).
  - intros p Hp%is_hot_eq. unfold promotable. by rewrite Hp.
Qed.

Lemma promote_warm_to_hot_count now g a :
  gov_wf g ->
  let hot := map_count (fun p => is_hot (state p)) (peers g) in
  (Nat.min (hot_min (targets g)) (hot + map_count (promotable now) (peers g)) <=
   map_count (fun p => is_hot (state p)) (peers (promote_warm_to_hot now g a).1))%nat.
Proof.
  intros Hwf hot. destruct (Nat.leb_spec (hot_min (targets g)) hot) as [Hge|Hlt].
  - transitivity hot; [lia|]. destruct (promote_warm_to_hot_updates now g a Hwf) as [Hup _].
    apply map_count_mono. intros id p Hp Hh. exists p. split; [|done].
    eapply updates_other; [exact Hup|done|]. unfold promotable. by destruct (state p).
  - unfold promote_warm_to_hot. rewrite counts_spec. fold hot.
    destruct (Nat.leb_spec (hot_min (targets g)) hot) as [?|_]; [lia|].
    set (ids := (take _ _).*1). assert (selects (promotable now) g ids) as Hsel by (by apply selects_sorted).
    assert (length ids = Nat.min (hot_min (targets g) - hot) (map_count (promotable now) (peers g))) as Hlen.
    { unfold ids. by rewrite length_fmap, length_take, length_sorted. }
    pose proof (for_peers_count (promotable now) promote_peer promote_one
      (fun id p a H => promote_one_move now id p a H) (fun p => is_hot (state p)) false true ids g a) as Hc.
    fold hot in Hc. rewrite Hlen in Hc. simpl in Hc.
    assert (forall p, promotable now p = true -> is_hot (state p) = false /\ true = true) as HQ.
    { intros p Hp%promotable_warm. by rewrite Hp. }
    specialize (Hc HQ Hsel). lia.
Qed.

Lemma tick_hot_recovery c g :
  gov_wf g ->
  (Nat.min (map_count (healthy c) (peers g)) (Nat.min (hot_min (targets g)) (hot_max (targets g)))
   <= hot_count (tick c g).1)%nat.
Proof.
  intros Hwf. destruct (tick_steps c g Hwf) as
    (g1&a1&g2&a2&g3&a3&g4&a4&g5&a5&g6&a6&E1&E2&E3&E4&E5&E6&->&W1&W2&W3&W4&W5&W6&_&T5&T4&T3&T2).
  pose proof (healthy_survives c g g1 a1 g2 a2 Hwf W1 E1 E2) as Hh.
  destruct (promote_cold_to_warm_connect (at_cold c) g2 a2 W2) as [Heq _]. rewrite E3 in Heq. simpl in Heq. subst g3.
  pose proof (promote_warm_to_hot_count (at_hot c) g2 a3 W2) as H4. rewrite E4 in H4.
  pose proof (demote_excess_hot_bound (at_demote c) g4 a4 W4) as H5. rewrite E5 in H5.
  pose proof (churn_hot (at_churn c) g5 a5 W5) as H6. rewrite E6 in H6.
  pose proof (evict_excess_cold_count (fun p => is_hot (state p)) false g6 a6 W6) as H7.
  rewrite hot_count_spec, T2, T4 in *. simpl in *.
  rewrite <- H7 in H6; [lia|]. intros p Hp%is_cold_eq. by rewrite Hp.
Qed.

(** ** Peers a tick must not touch *)

Lemma chain_to_banned id s l :
  Forall (fun e => legal_transition (id, e.1, e.2)) l -> chain s l "banned" -> l = [].
Proof.
  revert s. induction l as [|[from to] l IH]; intros s Hl Hc; [done|].
  apply Forall_cons in Hl as [Hleg Hl]. destruct Hc as [-> Hc]. rewrite (IH to Hl Hc) in Hc.
  simpl in Hc. subst to. unfold legal_transition in Hleg. simpl in Hleg.
  rewrite !elem_of_cons in Hleg.
  destruct Hleg as [Hn|[Hn|[Hn|[Hn|Hn]]]]; [discriminate Hn..|]. by apply elem_of_nil in Hn.
Qed.

Lemma disconnects_log id ts : id ∈ disconnects ts -> log_of id ts <> [].
Proof.
  unfold disconnects, log_of. intros ([j from] & -> & ([[j' from'] to] & [= -> ->] & Hin)%list_elem_of_fmap)%list_elem_of_fmap.
  apply elem_of_filterb in Hin as [_ Hin]. cbn [fst]. intros Hnil%fmap_nil_inv.
  eapply (filter_nil_not_elem_of _ _ (j', from', to)) in Hnil; [done|apply String.eqb_refl].
Qed.

Lemma tick_connect c g :
  gov_wf g -> exists g2 g6 ids ids',
    connect (tick c g).2 = ids ++ ids'
    /\ (forall id, peers g2 !! id = (fun p => let p := if ban_expired (at_unban c) p then set_state Cold p else p in
          if is_dead (at_reap c) p then reap_peer (at_reap c) p else p) <$> peers g !! id)
    /\ selects (dial_candidate (at_cold c) g2) g2 ids
    /\ selects (fun p => is_cold (state p)) g6 ids'
    /\ (forall id p, peers g !! id = Some p -> is_banned (state p) = true -> ban_expired (at_unban c) p = false ->
          peers g6 !! id = Some p /\ peers (tick c g).1 !! id = Some p).
Proof.
  intros Hwf. destruct (tick_steps c g Hwf) as
    (g1&a1&g2&a2&g3&a3&g4&a4&g5&a5&g6&a6&E1&E2&E3&E4&E5&E6&->&W1&W2&W3&W4&W5&W6&_).
  exists g2, g6.
  pose proof (unban_expired_connect (at_unban c) g no_actions) as C1. rewrite E1 in C1. simpl in C1.
  destruct (reap_dead_updates (at_reap c) g1 a1 W1) as [_ C2]. rewrite E2 in C2. simpl in C2.
  destruct (promote_cold_to_warm_connect (at_cold c) g2 a2 W2) as [Heq (ids & C3 & Hsel)].
  rewrite E3 in Heq, C3. simpl in Heq, C3. subst g3.
  destruct (promote_warm_to_hot_updates (at_hot c) g2 a3 W2) as [U4 C4]. rewrite E4 in U4, C4. simpl in U4, C4.
  destruct (demote_excess_hot_updates (at_demote c) g4 a4 W4) as [U5 C5]. rewrite E5 in U5, C5. simpl in U5, C5.
  destruct (churn_updates (at_churn c) g5 a5 W5) as [U6 (ids' & C6 & Hsel')]. rewrite E6 in U6, C6, Hsel'. simpl in U6, C6, Hsel'.
  exists ids, ids'. split_and!.
  - destruct (evict_excess_cold_lookup g6 a6 "" W6) as [-> _]. by rewrite C6, C5, C4, C3, C2, C1.
  - intros id. by apply (reap_unban_lookup c g g1 a1 g2 a2).
  - done.
  - eapply selects_mono; [|exact Hsel']. intros id p _ _ H. by apply andb_prop in H as [? _].
  - intros id p Hp Hb Hexp. destruct (state p) as [| | |u w e] eqn:Hst; try done. clear Hb.
    assert (peers g2 !! id = Some p) as Hp2.
    { rewrite (reap_unban_lookup c g g1 a1 g2 a2 id Hwf W1 E1 E2), Hp. simpl. rewrite Hexp.
      unfold is_dead. by rewrite Hst. }
    assert (peers g6 !! id = Some p) as Hp6.
    { eapply updates_other; [exact U6| |simpl; by rewrite Hst].
      eapply updates_other; [exact U5| |simpl; by rewrite Hst].
      eapply updates_other; [exact U4|done|]. unfold promotable. by rewrite Hst. }
    split; [done|]. destruct (evict_excess_cold_lookup g6 a6 id W6) as [_ [->|[_ (q & Hq & HQ)]]]; [done|].
    rewrite Hp6 in Hq. injection Hq as ->. congruence.
Qed.

Lemma banned_left_alone c g id p :
  gov_wf g -> peers g !! id = Some p -> is_banned (state p) = true -> ban_expired (at_unban c) p = false ->
  peers (tick c g).1 !! id = Some p /\ (id ∉ connect (tick c g).2) /\ (id ∉ disconnect (tick c g).2)
  /\ log_of id (transitions (tick c g).2) = [].
Proof.
  intros Hwf Hp Hb Hexp. assert (exists u w e, state p = Banned u w e) as (u & w & e & Hst).
  { destruct (state p); try done. eauto. }
  destruct (tick_connect c g Hwf) as (g2 & g6 & ids & ids' & -> & Hl2 & [_ Hsel] & [_ Hsel'] & Hban).
  destruct (Hban id p Hp Hb Hexp) as [Hp6 Hp7].
  destruct (ph_log _ _ _ _ (tick_phase c g Hwf) Hwf) as (ts & Hts & Hds & Hleg & Hlog).
  simpl in Hts, Hds. rewrite Hts, Hds.
  assert (log_of id ts = []) as Hnil.
  { specialize (Hlog id). rewrite Hp, Hp7 in Hlog. simpl in Hlog. eapply chain_to_banned.
    - by apply legal_log_of.
    - rewrite Hst in Hlog. exact Hlog. }
  split_and!; [done| | |done].
  - rewrite elem_of_app. intros [Hin|Hin].
    + destruct (Hsel id Hin) as (q & Hq & HQ). rewrite Hl2, Hp in Hq. simpl in Hq. rewrite Hexp in Hq.
      unfold is_dead in Hq. rewrite Hst in Hq. injection Hq as <-.
      unfold dial_candidate in HQ. by rewrite Hst in HQ.
    + destruct (Hsel' id Hin) as (q & Hq & HQ). rewrite Hp6 in Hq. injection Hq as <-.
      by rewrite Hst in HQ.
  - intros Hd%disconnects_log. done.
Qed.

(** ** The order in which peers are picked *)

(** [b.2.cmp(&a.2).then(a.1.partial_cmp(&b.1))] on the position of the scores. *)
Definition demotion_key_cmp (x y : NodeId * f64 * bool) : comparison :=
  match reverse_bool_cmp x.2 y.2 with Eq => lex3 (f64_key x.1.2) (f64_key y.1.2) | c => c end.

#[local] Instance demotion_key_total : Total (cmp_le demotion_key_cmp).
Proof.
  intros x y. unfold cmp_le, demotion_key_cmp.
  destruct x.2, y.2; simpl; try (by left); try (by right); rewrite !lex3_le; lia.
Qed.

#[local] Instance demotion_key_trans : Transitive (cmp_le demotion_key_cmp).
Proof.
  intros x y z. unfold cmp_le, demotion_key_cmp.
  destruct x.2, y.2, z.2; simpl; try done; rewrite ?lex3_le; try lia; done.
Qed.

Lemma demotion_cmp_key x y :
  f64_is_nan x.1.2 = false -> f64_is_nan y.1.2 = false -> demotion_cmp x y = demotion_key_cmp x y.
Proof. intros Hx Hy. unfold demotion_cmp, demotion_key_cmp. by rewrite f64_cmp_key. Qed.

Definition hot_rows (now : Instant) (g : Governor) : list (NodeId * f64 * bool) :=
  (fun p => (node_id p, score now p, is_stale now p))
    <$> filterb (fun p => is_hot (state p)) (values (peers g)).

Lemma hot_row now g id p :
  gov_wf g -> peers g !! id = Some p -> is_hot (state p) = true ->
  (id, score now p, is_stale now p) ∈ hot_rows now g.
Proof.
  intros Hwf Hp Hh. apply list_elem_of_fmap. exists p.
  rewrite (wf_key id p) by (by eapply gov_wf_lookup). split; [done|].
  apply elem_of_filterb. split; [done|]. apply elem_of_values. eauto.
Qed.

Lemma hot_row_inv now g t :
  gov_wf g -> t ∈ hot_rows now g ->
  exists p, peers g !! t.1.1 = Some p /\ state p = Hot /\ t = (t.1.1, score now p, is_stale now p).
Proof.
  intros Hwf (p & -> & Hin)%list_elem_of_fmap. apply elem_of_filterb in Hin as [Hh%is_hot_eq Hin].
  apply elem_of_values in Hin as [id Hp]. exists p. simpl.
  by rewrite (wf_key id p) by (by eapply gov_wf_lookup).
Qed.

Lemma demote_order now g a x y p q :
  gov_wf g -> (forall id r, peers g !! id = Some r -> state r = Hot -> f64_is_nan (score now r) = false) ->
  peers g !! x = Some p -> state p = Hot -> peers g !! y = Some q -> state q = Hot ->
  let g' := (demote_excess_hot now g a).1 in
  peers g' !! x = Some (set_state Warm p) -> peers g' !! y = Some q ->
  demotion_key_cmp (x, score now p, is_stale now p) (y, score now q, is_stale now q) <> Gt.
Proof.
  intros Hwf Hnan Hp Hph Hq Hqh g'. unfold g', demote_excess_hot. rewrite counts_spec.
  assert (set_state Warm p <> p) as Hne by (intros Heq; apply (f_equal state) in Heq; simpl in Heq; congruence).
  case_match; [simpl; intros; congruence|].
  set (n := (_ - _)%nat). fold (hot_rows now g). set (rows := hot_rows now g).
  assert (sort_by demotion_cmp rows = sort_by demotion_key_cmp rows) as ->.
  { apply sort_by_ext. intros s t (r & Hr & Hrh & ->)%hot_row_inv (r' & Hr' & Hrh' & ->)%hot_row_inv; [|done|done].
    apply demotion_cmp_key; simpl; eauto. }
  assert (selects (fun p => is_hot (state p)) g (take n (sort_by demotion_key_cmp rows)).*1.*1) as Hsel.
  { rewrite <- list_fmap_compose. by apply (selects_sorted _ _ _ _ (fst ∘ fst)). }
  destruct (for_peers_spec _ (set_state Warm) demote_one (fun id p a H => demote_one_move id p a H) _ g a Hsel) as (Hl & _).
  rewrite !Hl, Hp, Hq. intros Hx Hy.
  destruct (decide (x ∈ (take n (sort_by demotion_key_cmp rows)).*1.*1)) as [Hxin|]; [|congruence].
  destruct (decide (y ∈ (take n (sort_by demotion_key_cmp rows)).*1.*1)) as [|Hyin].
  { injection Hy as Hy. apply (f_equal state) in Hy. simpl in Hy. congruence. }
  apply (sort_by_take_le demotion_key_cmp _ _ rows n).
  - rewrite <- list_fmap_compose in Hxin. apply list_elem_of_fmap in Hxin as (t & -> & Ht).
    assert (t ∈ rows) as Hrow by (rewrite <- (elem_of_sort_by demotion_key_cmp); by eapply elem_of_take_in).
    apply hot_row_inv in Hrow as (r & Hr & _ & Heq); [|done].
    change ((fst ∘ fst) t) with t.1.1 in *. rewrite Hp in Hr. injection Hr as <-. by rewrite <- Heq.
  - apply not_in_take; [rewrite elem_of_sort_by; apply hot_row; [done|exact Hq|by rewrite Hqh]|].
    intros Hin. apply Hyin. rewrite <- list_fmap_compose. apply list_elem_of_fmap.
    by exists (y, score now q, is_stale now q).
Qed.

End tick.

(** ** Whom the governor dials *)

Section dialing.
Context `{HI : HashIter}.

Definition overlap_cmp (x y : NodeId * bool) : comparison := reverse_bool_cmp x.2 y.2.

#[local] Instance overlap_cmp_total : Total (cmp_le overlap_cmp).
Proof. intros [i []] [j []]; unfold cmp_le, overlap_cmp; simpl; by auto. Qed.

#[local] Instance overlap_cmp_trans : Transitive (cmp_le overlap_cmp).
Proof. intros [i []] [j []] [k []]; unfold cmp_le, overlap_cmp; simpl; by auto. Qed.

Definition dial_rows (now : Instant) (g : Governor) : list (NodeId * bool) :=
  (fun p => (node_id p, has_group_overlap p (our_groups g)))
    <$> filterb (dial_candidate now g) (values (peers g)).

Lemma dial_row now g id p :
  gov_wf g -> peers g !! id = Some p -> dial_candidate now g p = true ->
  (id, has_group_overlap p (our_groups g)) ∈ dial_rows now g.
Proof.
  intros Hwf Hp Hc. apply list_elem_of_fmap. exists p.
  rewrite (wf_key id p) by (by eapply gov_wf_lookup). split; [done|].
  apply elem_of_filterb. split; [done|]. apply elem_of_values. eauto.
Qed.

Lemma dial_row_inv now g t :
  gov_wf g -> t ∈ dial_rows now g ->
  exists p, peers g !! t.1 = Some p /\ t.2 = has_group_overlap p (our_groups g).
Proof.
  intros Hwf (p & -> & Hin)%list_elem_of_fmap. apply elem_of_filterb in Hin as [_ Hin].
  apply elem_of_values in Hin as [id Hp]. exists p. simpl.
  by rewrite (wf_key id p) by (by eapply gov_wf_lookup).
Qed.

(** The requests are the head of the sorted candidates; the fallback of the code
    is only reached when there is no candidate. *)
Lemma promote_cold_to_warm_rows now g a :
  let need := (warm_max (targets g) - (warm_count g + hot_count g))%nat in
  connect (promote_cold_to_warm now g a).2 =
    connect a ++ (take need (sort_by overlap_cmp (dial_rows now g))).*1.
Proof.
  unfold promote_cold_to_warm. rewrite hot_count_spec, warm_count_spec, counts_spec.
  set (active := (_ + _)%nat). destruct (Nat.leb_spec (warm_max (targets g)) active) as [Hle|Hlt].
  { replace (warm_max (targets g) - active)%nat with 0%nat by lia. simpl. by rewrite app_nil_r. }
  rewrite foldl_push_connect. simpl. f_equal. fold (dial_rows now g). fold overlap_cmp.
  rewrite (fmap_take fst). case_bool_decide as Hnil; [|done]. rewrite Hnil.
  apply (f_equal length) in Hnil. rewrite length_take, length_fmap, length_sort_by in Hnil.
  unfold dial_rows in Hnil. rewrite length_fmap in Hnil. simpl in Hnil.
  destruct (filterb _ _); simpl in *; [by rewrite take_nil | lia].
Qed.

End dialing.

(** ** Properties of the tick *)

(** [C27] A tick hands the node an exact account of what it did: every reported
    transition is one the tick may make on its own; per peer the reported
    transitions lead, one after the other, from the state before the tick to
    the state after it (a peer may leave the table, but only from Cold, and
    none enters it); and the disconnect requests are exactly the reported
    Warm-to-Cold transitions, in order. *)
Theorem tick_log_exact `{HashIter} c g :
  gov_wf g ->
  let '(g', a') := tick c g in
  Forall legal_transition (transitions a')
  /\ disconnect a' = disconnects (transitions a')
  /\ forall id, peer_log (peers g !! id) (log_of id (transitions a')) (peers g' !! id).
Proof.
  intros Hwf. destruct (ph_log _ _ _ _ (tick_phase c g Hwf) Hwf) as (ts & Ht & Hd & Hleg & Hlog).
  destruct (tick c g) as [g' a']. simpl in *. by rewrite Ht, Hd.
Qed.

(** [C28] Whatever the table holds, one tick brings it back within its targets:
    at most [hot_max] Hot and at most [cold_max] Cold peers remain. *)
Theorem tick_within_targets `{HashIter} c g :
  gov_wf g ->
  (hot_count (tick c g).1 <= hot_max (targets g))%nat
  /\ (cold_count (tick c g).1 <= cold_max (targets g))%nat.
Proof. split; [by apply tick_hot_bound | by apply tick_cold_bound]. Qed.

(** [C20] Hot peers after a tick that takes less than the dead timeout: there are
    at least [min(hot_min, hot_max)] of them, or every healthy peer (alive, and
    Hot or promotable) is Hot; and every one of them was healthy before, so
    neither a dead peer nor one demoted within the dead timeout is Hot. *)
Theorem tick_promotes_healthy `{HashIter} c g :
  gov_wf g -> duration_since (at_hot c) (at_reap c) <= DEAD_TIMEOUT ->
  (Nat.min (map_count (healthy c) (peers g)) (Nat.min (hot_min (targets g)) (hot_max (targets g)))
     <= hot_count (tick c g).1)%nat
  /\ forall id p', peers (tick c g).1 !! id = Some p' -> state p' = Hot ->
       exists p, peers g !! id = Some p /\ healthy c p = true.
Proof.
  intros Hwf Hclk. split; [by apply tick_hot_recovery|]. intros id p'. by apply tick_hot_from_healthy.
Qed.

(** A ban holds: a tick leaves the entry of a peer whose ban has not expired
    as it is, never asks to dial or to disconnect it, and logs nothing for it. *)
Theorem tick_respects_ban `{HashIter} c g id p until why esc :
  gov_wf g -> peers g !! id = Some p -> state p = Banned until why esc -> at_unban c < until ->
  peers (tick c g).1 !! id = Some p /\ (id ∉ connect (tick c g).2) /\ (id ∉ disconnect (tick c g).2)
  /\ log_of id (transitions (tick c g).2) = [].
Proof.
  intros Hwf Hp Hst Hlt. apply banned_left_alone; [done|done|by rewrite Hst|].
  unfold ban_expired. rewrite Hst. by apply Z.leb_gt.
Qed.

(** Demotion of excess Hot peers: exactly the excess is demoted, a stale
    peer goes before one that is not, and among equally stale peers a demoted
    one never has a higher score than one that stays Hot (scores that are
    numbers). *)
Theorem demotion_order `{HashIter} now g a x y p q :
  gov_wf g -> (forall id r, peers g !! id = Some r -> state r = Hot -> f64_is_nan (score now r) = false) ->
  peers g !! x = Some p -> state p = Hot -> peers g !! y = Some q -> state q = Hot ->
  let g' := (demote_excess_hot now g a).1 in
  hot_count g' = Nat.min (hot_count g) (hot_max (targets g))
  /\ (peers g' !! x = Some (set_state Warm p) -> peers g' !! y = Some q ->
      (is_stale now q = true -> is_stale now p = true)
      /\ (is_stale now p = is_stale now q -> f64_gt (score now p) (score now q) = false)).
Proof.
  intros Hwf Hnan Hp Hph Hq Hqh g'. split.
  { rewrite !hot_count_spec. by apply demote_excess_hot_bound. }
  intros Hx Hy. pose proof (demote_order now g a x y p q Hwf Hnan Hp Hph Hq Hqh Hx Hy) as Hle.
  unfold demotion_key_cmp in Hle. simpl in Hle. split.
  - intros Hs. rewrite Hs in Hle. by destruct (is_stale now p).
  - intros Hs. rewrite Hs in Hle. unfold f64_gt. rewrite SFcompare_key by eauto.
    destruct (is_stale now q); simpl in Hle; by destruct (lex3 _ _).
Qed.

(** Dialing: the phase changes no peer; it asks for distinct cold, dialable
    peers whose reconnect backoff has elapsed, as many as there are or as the
    warm target leaves room for, and asks for one that shares no group with us
    only if it asks for every candidate that does. *)
Theorem dial_requests `{HashIter} now g :
  gov_wf g ->
  let '(g', a') := promote_cold_to_warm now g no_actions in
  g' = g
  /\ selects (dial_candidate now g) g (connect a')
  /\ length (connect a') =
       Nat.min (warm_max (targets g) - (warm_count g + hot_count g))
               (map_count (dial_candidate now g) (peers g))
  /\ (forall x p y q,
        x ∈ connect a' -> peers g !! x = Some p -> has_group_overlap p (our_groups g) = false ->
        peers g !! y = Some q -> dial_candidate now g q = true -> has_group_overlap q (our_groups g) = true ->
        y ∈ connect a').
Proof.
  intros Hwf. destruct (promote_cold_to_warm_connect now g no_actions Hwf) as [Hg (ids & Hc & Hsel)].
  pose proof (promote_cold_to_warm_rows now g no_actions) as Hrows. cbv zeta in Hrows.
  destruct (promote_cold_to_warm now g no_actions) as [g' a']. simpl in *. subst g' ids.
  rewrite Hrows in *. set (need := (_ - _)%nat).
  split; [done|]. split; [done|]. split.
  - rewrite length_fmap, length_take. unfold dial_rows. by rewrite length_sorted.
  - intros x p y q Hx Hp Hpo Hq Hqc Hqo. apply list_elem_of_fmap in Hx as (t & -> & Ht).
    assert (t ∈ dial_rows now g) as Hrow by (rewrite <- (elem_of_sort_by overlap_cmp); by eapply elem_of_take_in).
    apply dial_row_inv in Hrow as (r & Hr & Hto); [|done]. rewrite Hp in Hr. injection Hr as <-. rewrite Hpo in Hto.
    pose proof (dial_row now g y q Hwf Hq Hqc) as Hy. rewrite Hqo in Hy.
    destruct (decide ((y, true) ∈ take need (sort_by overlap_cmp (dial_rows now g)))) as [Hin|Hnot].
    + apply list_elem_of_fmap. by exists (y, true).
    + exfalso. apply (sort_by_take_le overlap_cmp overlap_cmp_total overlap_cmp_trans _ need t (y, true) Ht).
      * apply not_in_take; [by apply elem_of_sort_by | done].
      * unfold overlap_cmp. simpl. by rewrite Hto.
Qed.

(** ** Witnesses *)

Lemma ex_gov_wf : gov_wf ex_gov.
Proof. apply (bool_decide_unpack _). vm_compute. exact I. Qed.

Lemma tick_log_exact_witness :
  let '(g', a') := @tick sorted_iter (ex_clock 1) ex_gov in
  Forall legal_transition (transitions a')
  /\ disconnect a' = disconnects (transitions a')
  /\ forall id, peer_log (peers ex_gov !! id) (log_of id (transitions a')) (peers g' !! id).
Proof. apply (@tick_log_exact sorted_iter (ex_clock 1) ex_gov ex_gov_wf). Defined.

Lemma tick_within_targets_witness :
  (@hot_count sorted_iter ex_gov = 2 /\ @cold_count sorted_iter ex_gov = 2
   /\ @hot_count sorted_iter (@tick sorted_iter (ex_clock 1) ex_gov).1 <= 1
   /\ @cold_count sorted_iter (@tick sorted_iter (ex_clock 1) ex_gov).1 <= 1)%nat.
Proof.
  split; [vm_compute; reflexivity|]. split; [vm_compute; reflexivity|].
  apply (@tick_within_targets sorted_iter (ex_clock 1) ex_gov ex_gov_wf).
Defined.

Lemma tick_promotes_healthy_witness :
  (1 <= @hot_count sorted_iter (@tick sorted_iter (ex_clock 1) ex_gov).1)%nat.
Proof.
  apply (@tick_promotes_healthy sorted_iter (ex_clock 1) ex_gov ex_gov_wf). vm_compute. discriminate.
Defined.

Lemma tick_respects_ban_witness :
  (peers (@tick sorted_iter (ex_clock 1) ex_gov).1 !! "b1" = peers ex_gov !! "b1"
   /\ "b1" ∉ connect (@tick sorted_iter (ex_clock 1) ex_gov).2)%string.
Proof.
  edestruct (@tick_respects_ban sorted_iter (ex_clock 1) ex_gov "b1"%string) as (H1 & H2 & _);
    [apply ex_gov_wf | vm_compute; reflexivity | vm_compute; reflexivity | vm_compute; reflexivity |].
  split; [exact H1 | exact H2].
Defined.

Lemma ex_gov_scores id r :
  peers ex_gov !! id = Some r -> state r = Hot -> f64_is_nan (score 1 r) = false.
Proof.
  assert (map_Forall (fun _ r => f64_is_nan (score 1 r) = false) (peers ex_gov)) as Hall.
  { apply (bool_decide_unpack _). vm_compute. exact I. }
  intros Hr _. apply (Hall id r Hr).
Qed.

Lemma demotion_order_witness :
  @hot_count sorted_iter (@demote_excess_hot sorted_iter 1 ex_gov no_actions).1 = 1%nat.
Proof.
  edestruct (@demotion_order sorted_iter 1 ex_gov no_actions "h1"%string "h2"%string) as [H1 _];
    [apply ex_gov_wf | apply ex_gov_scores | vm_compute; reflexivity | vm_compute; reflexivity
    | vm_compute; reflexivity | vm_compute; reflexivity |].
  exact H1.
Defined.

Lemma dial_requests_witness :
  selects (dial_candidate 1 ex_gov) ex_gov ["c2"%string]
  /\ connect (@promote_cold_to_warm sorted_iter 1 ex_gov no_actions).2 = ["c2"%string].
Proof.
  pose proof (@dial_requests sorted_iter 1 ex_gov ex_gov_wf) as H.
  assert (connect (@promote_cold_to_warm sorted_iter 1 ex_gov no_actions).2 = ["c2"%string]) as Hc
    by (vm_compute; reflexivity).
  split; [|exact Hc]. rewrite <- Hc. destruct (@promote_cold_to_warm sorted_iter 1 ex_gov no_actions) as [g' a'].
  apply H.
Defined.
