(* ===== verification/GovernorRefinement.v ===== *)
(** * The governor refines the peer life cycle

    [abs_gov] forgets everything about the peers but the state of their life
    cycle; every operation of the governor is then one step of the machine of
    [Lifecycle.v] with the label of the operation. *)

From S2P Require Import Prelude Float64 Protocol Governor GovernorFacts Lifecycle GovernorProps GovernorTick.

Definition kind_of (s : PeerState) : kind :=
  match s with Cold => KCold | Warm => KWarm | Hot => KHot | Banned until _ n => KBanned until n end.

Definition peer_kind (p : PeerInfo) : kind := kind_of (state p).

Definition abs_gov (g : Governor) : table := peer_kind <$> peers g.

Lemma abs_lookup g id : abs_gov g !! id = peer_kind <$> peers g !! id.
Proof. apply lookup_fmap. Qed.

Lemma kind_active_of s : kind_active (kind_of s) = is_active s.
Proof. by destruct s. Qed.

(** ** Operations on one entry *)

Lemma abs_modify id f k g :
  (forall p, peer_kind (f p) = k (peer_kind p)) -> abs_gov (modify_peer id f g) = alter k id (abs_gov g).
Proof.
  intros Hf. apply map_eq. intros j. unfold modify_peer. destruct (peers g !! id) as [p|] eqn:Hp.
  - rewrite abs_lookup. cbn. destruct (decide (id = j)) as [<-|Hne].
    + rewrite lookup_insert_eq, lookup_alter_eq, abs_lookup, Hp. cbn. by rewrite Hf.
    + by rewrite lookup_insert_ne, lookup_alter_ne, abs_lookup.
  - destruct (decide (id = j)) as [<-|Hne].
    + by rewrite lookup_alter_eq, abs_lookup, Hp.
    + by rewrite lookup_alter_ne.
Qed.

Lemma abs_same id f g : (forall p, peer_kind (f p) = peer_kind p) -> abs_gov (modify_peer id f g) = abs_gov g.
Proof. intros Hf. rewrite (abs_modify id f (fun k => k) g) by done. by apply alter_id. Qed.

Lemma abs_add now id a gs g :
  abs_gov (add_peer now id a gs g) = match abs_gov g !! id with Some _ => abs_gov g | None => <[id := KCold]> (abs_gov g) end.
Proof.
  unfold add_peer. rewrite abs_lookup. destruct (peers g !! id) as [p|] eqn:Hp; cbn; unfold abs_gov; cbn; rewrite fmap_insert; [|done].
  apply insert_id. by rewrite lookup_fmap, Hp.
Qed.

Lemma abs_replace old new gs g :
  abs_gov (replace_node_id old new gs g).1 =
    match abs_gov g !! old with
    | None => abs_gov g
    | Some k => if from_option kind_active false (abs_gov g !! new) then delete old (abs_gov g)
                else <[new := k]> (delete old (abs_gov g))
    end.
Proof.
  unfold replace_node_id. rewrite !abs_lookup. destruct (peers g !! new) as [q|] eqn:Hq; cbn; unfold peer_kind; rewrite ?kind_active_of;
    [destruct (is_active (state q))|]; destruct (peers g !! old) as [p|] eqn:Hp; cbn; unfold abs_gov; cbn; rewrite ?fmap_insert, ?fmap_delete; try done.
  destruct (is_relay p); [|by rewrite fmap_delete]. destruct (delete old (peers g) !! new) as [r|] eqn:Hr; [|by rewrite fmap_delete].
  rewrite fmap_insert, fmap_delete. apply insert_id. by rewrite <- fmap_delete, lookup_fmap, Hr.
Qed.

(** ** The tick *)

(** What a chain of transitions that a tick may make leads to. *)
Lemma chain_ends id l s s' :
  Forall (fun e => legal_transition (id, e.1, e.2)) l -> chain s l s' ->
  (s = "cold" -> s' = "cold") /\ (s = "banned" -> s' = "banned" \/ s' = "cold") /\ (s' = "banned" -> s = "banned").
Proof.
  revert s. induction l as [|[from to] l IH]; intros s Hl Hc; cbn in Hc; [by subst; split_and!; auto|].
  destruct Hc as [-> Hc]. apply Forall_cons in Hl as [Hleg Hl]. destruct (IH to Hl Hc) as (Hcold & Hban & Hto).
  unfold legal_transition in Hleg. cbn in Hleg. rewrite !elem_of_cons in Hleg.
  destruct Hleg as [[= -> ->]|[[= -> ->]|[[= -> ->]|[[= -> ->]|Hn%elem_of_nil]]]]; [..|done]; split_and!; intros; subst; auto;
    try done; exfalso; try (by discriminate (Hto eq_refl)).
Qed.

Section tick.
Context `{HI : HashIter}.

(** After the bans that are over have ended. *)
Lemma unbanned_lookup t g id :
  peers (unban_expired t g no_actions).1 !! id = (fun p => if ban_expired t p then set_state Cold p else p) <$> peers g !! id.
Proof. apply lookup_fmap. Qed.

Lemma rest_kinds c g id p p' :
  gov_wf g -> peers (unban_expired (at_unban c) g no_actions).1 !! id = Some p -> peers (tick c g).1 !! id = Some p' ->
  (state p = Cold -> state p' = Cold) /\ (is_banned (state p') = true -> is_banned (state p) = true).
Proof.
  intros Hwf Hp Hp'. pose proof (tick_after_unban c g Hwf) as Hph.
  assert (gov_wf (unban_expired (at_unban c) g no_actions).1) as W1 by (eapply ph_wf; [by apply unban_expired_phase|done]).
  destruct (ph_log _ _ _ _ Hph W1) as (ts & _ & _ & Hleg & Hlog). specialize (Hlog id). rewrite Hp, Hp' in Hlog.
  destruct (chain_ends id _ _ _ (legal_log_of id _ Hleg) Hlog) as (Hcold & _ & Hto). clear - Hcold Hto.
  destruct (state p), (state p'); cbn in *; split; intros; try done; try (by discriminate (Hcold eq_refl)); by discriminate (Hto eq_refl).
Qed.

Lemma tick_peer c g id : gov_wf g -> otick (at_unban c) (abs_gov g !! id) (abs_gov (tick c g).1 !! id).
Proof.
  intros Hwf. rewrite !abs_lookup. destruct (peers g !! id) as [p|] eqn:Hp.
  2: { destruct (ph_log _ _ _ _ (tick_phase c g Hwf) Hwf) as (ts & _ & _ & _ & Hlog). specialize (Hlog id). rewrite Hp in Hlog.
       by destruct (peers (tick c g).1 !! id). }
  destruct (decide (is_banned (state p) = true /\ ban_expired (at_unban c) p = false)) as [[Hb Hexp]|Hnot].
  { destruct (banned_left_alone c g id p Hwf Hp Hb Hexp) as [-> _]. cbn. unfold peer_kind, ban_expired in *.
    destruct (state p); try done. apply kt_stands. by apply Z.leb_gt. }
  pose proof (unbanned_lookup (at_unban c) g id) as H1. rewrite Hp in H1. cbn in H1.
  assert (ktick (at_unban c) (peer_kind p) KCold) as Hcold.
  { unfold peer_kind, ban_expired in *. destruct (state p) as [| | |until why n]; cbn in *; [apply kt_cold|by apply kt_active..|].
    apply kt_served, Z.leb_le. destruct (until <=? at_unban c); [done|]. by destruct Hnot. }
  destruct (peers (tick c g).1 !! id) as [p'|] eqn:Hp'; cbn; [|done].
  destruct (rest_kinds c g id _ p' Hwf H1 Hp') as [Hstay Hban]. unfold peer_kind, ban_expired in *.
  destruct (state p) as [| | |until why n] eqn:E; cbn in *; rewrite ?E in *; cbn in *.
  - by rewrite (Hstay eq_refl).
  - apply kt_active; [done|]. destruct (state p'); cbn in *; try done. by discriminate (Hban eq_refl).
  - apply kt_active; [done|]. destruct (state p'); cbn in *; try done. by discriminate (Hban eq_refl).
  - destruct (until <=? at_unban c); [by rewrite (Hstay eq_refl)|by destruct Hnot].
Qed.

Lemma abs_counts g (P : kind -> bool) : map_count P (abs_gov g) = map_count (fun p => P (peer_kind p)) (peers g).
Proof.
  apply Nat.le_antisymm; apply map_count_mono; intros k v; rewrite ?abs_lookup.
  - intros (p & Hp & ->)%fmap_Some HP. eauto.
  - intros Hv HP. exists (peer_kind v). by rewrite Hv.
Qed.

Lemma tick_counts c g :
  gov_wf g ->
  (map_count khot (abs_gov (tick c g).1) <= hot_max (targets g))%nat
  /\ (map_count kcold (abs_gov (tick c g).1) <= cold_max (targets g))%nat.
Proof.
  intros Hwf. rewrite !abs_counts.
  pose proof (tick_hot_bound c g Hwf) as Hh. pose proof (tick_cold_bound c g Hwf) as Hc.
  rewrite hot_count_spec in Hh. rewrite cold_count_spec in Hc. split.
  - etransitivity; [|exact Hh]. apply map_count_mono. intros k p Hp HP. exists p. split; [done|]. unfold peer_kind in HP. by destruct (state p).
  - etransitivity; [|exact Hc]. apply map_count_mono. intros k p Hp HP. exists p. split; [done|]. unfold peer_kind in HP. by destruct (state p).
Qed.

End tick.


(** A peer that connected becomes Hot in a tick; one that was banned stays banned until the
    ban is over. *)
Definition ex_run : Governor :=
  ban_peer 2 "b" "spam" (add_peer 0 "b" [] []
    (mark_connected 1 "a" (add_peer 0 "a" [] ["g"%string] (with_dial_policy 0 ex_targets ["g"%string] DialAll)))).

Lemma ex_run_reachable : @gov_reachable sorted_iter ex_run.
Proof.
  eapply (@reach_step sorted_iter); [|apply (@step_ban sorted_iter)].
  eapply (@reach_step sorted_iter); [|apply (@step_add_peer sorted_iter)]. apply ex_reachable.
Qed.

