(* ===== verification/Storage.v ===== *)
(** * The SQLite store

    Models [crates/cordelia-storage/src/lib.rs] and its schema files: every
    table the node uses as a finite map keyed by its primary key, every method
    of [impl Storage for SqliteStorage] as a state transformer that may fail,
    statement by statement (there are no transactions: the statements before a
    failing one keep their effect; a schema file is taken as one statement).
    The constraints of the schema (CHECK,
    PRIMARY KEY, FOREIGN KEY) are those of [schema_v4.sql] to [schema_v7.sql].

    What the statements read from outside the database enters as [SqlEnv]: the
    text of [datetime('now')], of [datetime('now', '-N days')], and for each
    statement whether the engine fails it (disk full, busy, I/O).  The order in
    which SQLite returns rows that ORDER BY leaves open is the order of
    [HashIter]. *)

From S2P Require Import Prelude Protocol.

(** ** Errors *)

Inductive SqlError :=
| CheckFailed
| ForeignKeyFailed
| NoSuchTable
| DuplicateColumn
| NoRows
| EngineFault (text : string).

Inductive StorageError :=
| Sqlite (e : SqlError)
| Io (text : string)
| SchemaVersionMismatch (expected found : Z)
| LockPoisoned.

(** ** Rows *)

Record L2ItemRow := {
  l2_id : string;
  l2_item_type : string;
  l2_owner_id : option string;
  l2_visibility : string;
  l2_data : bytes;
  l2_checksum : option string;
  l2_group_id : option string;
  l2_author_id : option string;
  l2_key_version : Z;
  l2_parent_id : option string;
  l2_is_copy : bool;
  l2_access_count : Z;
  l2_last_accessed_at : option string;
  l2_created_at : string;
  l2_updated_at : string;
}.

Record L2ItemMeta := {
  lm_owner_id : option string;
  lm_visibility : string;
  lm_group_id : option string;
  lm_author_id : option string;
  lm_key_version : Z;
  lm_parent_id : option string;
  lm_is_copy : bool;
}.

Record L2ItemWrite := {
  lw_id : string;
  lw_item_type : string;
  lw_data : bytes;
  lw_owner_id : option string;
  lw_visibility : string;
  lw_group_id : option string;
  lw_author_id : option string;
  lw_key_version : Z;
  lw_parent_id : option string;
  lw_is_copy : bool;
  lw_updated_at : option string;
}.

Record GroupRow := {
  gr_id : string;
  gr_name : string;
  gr_culture : string;
  gr_security_policy : string;
  gr_created_at : string;
  gr_updated_at : string;
  gr_owner_id : option string;
  gr_owner_pubkey : option string;
  gr_signature : option string;
}.

Record GroupMemberRow := {
  gm_group_id : string;
  gm_entity_id : string;
  gm_role : string;
  gm_posture : option string;
  gm_joined_at : string;
}.

Record AccessLogEntry := {
  al_entity_id : string;
  al_action : string;
  al_resource_type : string;
  al_resource_id : option string;
  al_group_id : option string;
  al_detail : option string;
}.

Record DeviceRow := {
  dv_device_id : string;
  dv_entity_id : string;
  dv_device_name : option string;
  dv_device_type : string;
  dv_auth_token_hash : string;
  dv_created_at : string;
  dv_last_seen_at : option string;
  dv_revoked_at : option string;
}.

Record GroupStats := {
  gs_group_id : string;
  gs_item_count : Z;
  gs_data_bytes : Z;
  gs_member_count : Z;
}.

Record StorageStats := {
  ss_l2_item_count : Z;
  ss_l2_data_bytes : Z;
  ss_group_count : Z;
  ss_groups : list GroupStats;
}.

(** A row of [l1_hot]: data, updated_at, created_at. *)
Record L1Row := { l1_data : bytes; l1_updated_at : string; l1_created_at : string }.

(** What the files of the schema differ in: the content of [schema_version]
    ([None]: no such table; [Some None]: no row), whether the other base tables
    exist, whether the devices table exists, whether [groups] has the signing columns, and whether the posture
    check of [group_members] admits 'removed'. *)
Record Schema := {
  sc_version : option (option Z);
  sc_tables : bool;
  sc_devices : bool;
  sc_owner_columns : bool;
  sc_removed_posture : bool;
}.

Record Db := {
  lock_poisoned : bool;
  schema : Schema;
  l1_hot : gmap string L1Row;
  l2_items : gmap string L2ItemRow;
  l2_index : option bytes;
  groups_t : gmap string GroupRow;
  group_members : gmap (string * string) GroupMemberRow;
  access_log : list AccessLogEntry;
  devices : gmap string DeviceRow;
}.

Definition set_l1_hot (t : gmap string L1Row) (d : Db) : Db :=
  {| lock_poisoned := lock_poisoned d; schema := schema d; l1_hot := t; l2_items := l2_items d;
     l2_index := l2_index d; groups_t := groups_t d; group_members := group_members d;
     access_log := access_log d; devices := devices d |}.

Definition set_l2_items (t : gmap string L2ItemRow) (d : Db) : Db :=
  {| lock_poisoned := lock_poisoned d; schema := schema d; l1_hot := l1_hot d; l2_items := t;
     l2_index := l2_index d; groups_t := groups_t d; group_members := group_members d;
     access_log := access_log d; devices := devices d |}.

Definition set_l2_index (t : option bytes) (d : Db) : Db :=
  {| lock_poisoned := lock_poisoned d; schema := schema d; l1_hot := l1_hot d; l2_items := l2_items d;
     l2_index := t; groups_t := groups_t d; group_members := group_members d;
     access_log := access_log d; devices := devices d |}.

Definition set_groups_t (t : gmap string GroupRow) (d : Db) : Db :=
  {| lock_poisoned := lock_poisoned d; schema := schema d; l1_hot := l1_hot d; l2_items := l2_items d;
     l2_index := l2_index d; groups_t := t; group_members := group_members d;
     access_log := access_log d; devices := devices d |}.

Definition set_group_members (t : gmap (string * string) GroupMemberRow) (d : Db) : Db :=
  {| lock_poisoned := lock_poisoned d; schema := schema d; l1_hot := l1_hot d; l2_items := l2_items d;
     l2_index := l2_index d; groups_t := groups_t d; group_members := t;
     access_log := access_log d; devices := devices d |}.

Definition set_access_log (t : list AccessLogEntry) (d : Db) : Db :=
  {| lock_poisoned := lock_poisoned d; schema := schema d; l1_hot := l1_hot d; l2_items := l2_items d;
     l2_index := l2_index d; groups_t := groups_t d; group_members := group_members d;
     access_log := t; devices := devices d |}.

Definition set_devices (t : gmap string DeviceRow) (d : Db) : Db :=
  {| lock_poisoned := lock_poisoned d; schema := schema d; l1_hot := l1_hot d; l2_items := l2_items d;
     l2_index := l2_index d; groups_t := groups_t d; group_members := group_members d;
     access_log := access_log d; devices := t |}.

Definition set_schema (s : Schema) (d : Db) : Db :=
  {| lock_poisoned := lock_poisoned d; schema := s; l1_hot := l1_hot d; l2_items := l2_items d;
     l2_index := l2_index d; groups_t := groups_t d; group_members := group_members d;
     access_log := access_log d; devices := devices d |}.

(** ** The monad of storage methods *)

Definition M (A : Type) : Type := Db -> Db * result A StorageError.

Definition ret {A} (a : A) : M A := fun d => (d, Ok a).

Definition fail {A} (e : StorageError) : M A := fun d => (d, Err e).

Definition bind {A B} (m : M A) (k : A -> M B) : M B := fun d =>
  match m d with
  | (d', Ok a) => k a d'
  | (d', Err e) => (d', Err e)
  end.

Declare Scope storage_scope.
Delimit Scope storage_scope with storage.
#[global] Open Scope storage_scope.

Notation "'let!' x := m 'in' k" := (bind m (fun x => k))
  (at level 10, x pattern, m at level 200, k at level 200) : storage_scope.

Record SqlEnv := {
  sql_now : string;
  sql_days_ago : Z -> string;
  fault : string -> option SqlError;
}.

(** [self.db()?] *)
Definition db_lock : M unit := fun d =>
  if lock_poisoned d then (d, Err LockPoisoned) else (d, Ok tt).

(** One SQL statement: the engine fails it, a constraint fails it (and it has
    no effect), or it takes effect. *)
Definition stmt {A} (env : SqlEnv) (name : string) (body : Db -> result (Db * A) SqlError) : M A :=
  fun d =>
    match fault env name with
    | Some e => (d, Err (Sqlite e))
    | None => match body d with Ok (d', a) => (d', Ok a) | Err e => (d, Err (Sqlite e)) end
    end.

Definition query {A} (env : SqlEnv) (name : string) (f : Db -> A) : M A :=
  stmt env name (fun d => Ok (d, f d)).

(** ** CHECK constraints *)

Definition type_ok (t : string) : bool := contains ["entity"; "session"; "learning"]%string t.
Definition visibility_ok (v : string) : bool := contains ["private"; "group"; "public"]%string v.
Definition role_ok (r : string) : bool := contains ["owner"; "admin"; "member"; "viewer"]%string r.
Definition device_type_ok (t : string) : bool := contains ["node"; "browser"; "mobile"]%string t.

Definition posture_ok (s : Schema) (p : string) : bool :=
  contains ["active"; "silent"; "emcon"]%string p || (sc_removed_posture s && String.eqb p "removed").

(** [posture != 'removed']: NULL is not different from anything. *)
Definition not_removed (m : GroupMemberRow) : bool :=
  match gm_posture m with Some p => negb (String.eqb p "removed") | None => false end.

Definition str_cmp (a b : string) : comparison := String.compare a b.

(** ** Schema migrations *)

Definition upgrade_version (from to : Z) (v : option (option Z)) : option (option Z) :=
  match v with
  | Some (Some x) => if x =? from then Some (Some to) else v
  | _ => v
  end.

(** CREATE TABLE IF NOT EXISTS leaves a table that exists as it is; a version row
    that is there already stays the first one. *)
Definition schema_v4 (d : Db) : result (Db * unit) SqlError :=
  let s := schema d in
  Ok (set_schema {| sc_version := Some (Some (default 6 (mjoin (sc_version s)))); sc_tables := true; sc_devices := sc_devices s;
                    sc_owner_columns := negb (sc_tables s) || sc_owner_columns s;
                    sc_removed_posture := negb (sc_tables s) || sc_removed_posture s |} d, tt).

Definition schema_v5 (d : Db) : result (Db * unit) SqlError :=
  let s := schema d in
  Ok (set_schema {| sc_version := upgrade_version 4 5 (sc_version s); sc_tables := sc_tables s;
                    sc_devices := true; sc_owner_columns := sc_owner_columns s;
                    sc_removed_posture := sc_removed_posture s |} d, tt).

Definition schema_v6 (d : Db) : result (Db * unit) SqlError :=
  let s := schema d in
  if negb (sc_tables s) then Err NoSuchTable
  else if sc_owner_columns s then Err DuplicateColumn
  else Ok (set_schema {| sc_version := upgrade_version 5 6 (sc_version s); sc_tables := sc_tables s;
                         sc_devices := sc_devices s; sc_owner_columns := true;
                         sc_removed_posture := sc_removed_posture s |} d, tt).

(** The rows of [group_members] satisfy the checks of the new table, so that all
    of them are copied. *)
Definition schema_v7 (d : Db) : result (Db * unit) SqlError :=
  let s := schema d in
  if negb (sc_tables s) then Err NoSuchTable
  else Ok (set_schema {| sc_version := upgrade_version 6 7 (sc_version s); sc_tables := sc_tables s;
                         sc_devices := sc_devices s; sc_owner_columns := sc_owner_columns s;
                         sc_removed_posture := true |} d, tt).

(** [SELECT version FROM schema_version LIMIT 1] *)
Definition read_version (d : Db) : result (Db * option Z) SqlError :=
  match sc_version (schema d) with
  | None => Err NoSuchTable
  | Some v => Ok (d, v)
  end.

Definition read_version_row (d : Db) : result (Db * Z) SqlError :=
  match sc_version (schema d) with
  | None => Err NoSuchTable
  | Some None => Err NoRows
  | Some (Some v) => Ok (d, v)
  end.

Definition bump_to_6 (d : Db) : result (Db * unit) SqlError :=
  let s := schema d in
  Ok (set_schema {| sc_version := upgrade_version 5 6 (sc_version s); sc_tables := sc_tables s;
                    sc_devices := sc_devices s; sc_owner_columns := sc_owner_columns s;
                    sc_removed_posture := sc_removed_posture s |} d, tt).

Definition ensure_schema (env : SqlEnv) : M unit :=
  let! _ := db_lock in
  let! table_exists := query env "table_exists" (fun d => bool_decide (is_Some (sc_version (schema d)))) in
  let! _ := (if (table_exists : bool) then ret tt else stmt env "schema_v4" schema_v4) in
  let! v := stmt env "read_version" read_version in
  let version := default 0 v in
  if version <? 4 then fail (SchemaVersionMismatch 4 version)
  else
    let! _ := (if version =? 4 then stmt env "schema_v5" schema_v5 else ret tt) in
    let! version := stmt env "reread_version" read_version_row in
    let! _ :=
      (if version =? 5 then
         let! has_owner_id := query env "has_owner_id" (fun d => sc_owner_columns (schema d)) in
         if (has_owner_id : bool) then stmt env "bump_to_6" bump_to_6 else stmt env "schema_v6" schema_v6
       else ret tt) in
    let! version := stmt env "reread_version_6" read_version_row in
    if version =? 6 then stmt env "schema_v7" schema_v7 else ret tt.

(** ** L1: one blob per user *)

Definition read_l1 (env : SqlEnv) (user : string) : M (option bytes) :=
  let! _ := db_lock in
  query env "read_l1" (fun d => l1_data <$> l1_hot d !! user).

Definition upsert_l1 (now : string) (user : string) (data : bytes) (d : Db) : Db :=
  let created := match l1_hot d !! user with Some r => l1_created_at r | None => now end in
  set_l1_hot (<[user := {| l1_data := data; l1_updated_at := now; l1_created_at := created |}]> (l1_hot d)) d.

Definition write_l1 (env : SqlEnv) (user : string) (data : bytes) : M unit :=
  let! _ := db_lock in
  stmt env "write_l1" (fun d => Ok (upsert_l1 (sql_now env) user data d, tt)).

(** Some member row refers to this user. *)
Definition user_referenced (d : Db) (user : string) : bool :=
  existsb (fun kv => String.eqb kv.1.2 user) (map_to_list (group_members d)).

Definition delete_l1 (env : SqlEnv) (user : string) : M bool :=
  let! _ := db_lock in
  stmt env "delete_l1" (fun d =>
    match l1_hot d !! user with
    | None => Ok (d, false)
    | Some _ =>
        if user_referenced d user then Err ForeignKeyFailed
        else Ok (set_l1_hot (delete user (l1_hot d)) d, true)
    end).

Definition list_l1_users (env : SqlEnv) : M (list string) :=
  let! _ := db_lock in
  query env "list_l1_users" (fun d => sort_by str_cmp (map_to_list (l1_hot d)).*1).

(** ** L2: items *)

Definition checksum `{Crypto} (data : bytes) : string := sha256_hex data.

Definition read_l2_item (env : SqlEnv) (id : string) : M (option L2ItemRow) :=
  let! _ := db_lock in
  query env "read_l2_item" (fun d => l2_items d !! id).

(** The row that INSERT .. ON CONFLICT DO UPDATE leaves: an update keeps the
    creation time and the access statistics. *)
Definition upsert_row `{Crypto} (now : string) (item : L2ItemWrite) (old : option L2ItemRow) : L2ItemRow := {|
  l2_id := lw_id item;
  l2_item_type := lw_item_type item;
  l2_owner_id := lw_owner_id item;
  l2_visibility := lw_visibility item;
  l2_data := lw_data item;
  l2_checksum := Some (checksum (lw_data item));
  l2_group_id := lw_group_id item;
  l2_author_id := lw_author_id item;
  l2_key_version := lw_key_version item;
  l2_parent_id := lw_parent_id item;
  l2_is_copy := lw_is_copy item;
  l2_access_count := match old with Some r => l2_access_count r | None => 0 end;
  l2_last_accessed_at := match old with Some r => l2_last_accessed_at r | None => None end;
  l2_created_at := match old with Some r => l2_created_at r | None => now end;
  l2_updated_at := default now (lw_updated_at item);
|}.

Definition write_l2_item `{Crypto} (env : SqlEnv) (item : L2ItemWrite) : M unit :=
  let! _ := db_lock in
  stmt env "write_l2_item" (fun d =>
    if type_ok (lw_item_type item) && visibility_ok (lw_visibility item)
    then Ok (set_l2_items (<[lw_id item := upsert_row (sql_now env) item (l2_items d !! lw_id item)]>
                             (l2_items d)) d, tt)
    else Err CheckFailed).

Definition delete_l2_item (env : SqlEnv) (id : string) : M bool :=
  let! _ := db_lock in
  stmt env "delete_l2_item" (fun d =>
    Ok (set_l2_items (delete id (l2_items d)) d, bool_decide (is_Some (l2_items d !! id)))).

Definition read_l2_item_meta (env : SqlEnv) (id : string) : M (option L2ItemMeta) :=
  let! _ := db_lock in
  query env "read_l2_item_meta" (fun d =>
    (fun r => {| lm_owner_id := l2_owner_id r; lm_visibility := l2_visibility r;
                 lm_group_id := l2_group_id r; lm_author_id := l2_author_id r;
                 lm_key_version := l2_key_version r; lm_parent_id := l2_parent_id r;
                 lm_is_copy := l2_is_copy r |}) <$> l2_items d !! id).

Definition header_of (r : L2ItemRow) : ItemHeader := {|
  ih_item_id := l2_id r;
  ih_item_type := l2_item_type r;
  ih_checksum := default EmptyString (l2_checksum r);
  ih_updated_at := l2_updated_at r;
  ih_author_id := default EmptyString (l2_author_id r);
  ih_is_deletion := false;
|}.

Definition in_group_since (gid : string) (since : option string) (r : L2ItemRow) : bool :=
  bool_decide (l2_group_id r = Some gid)
  && match since with Some ts => str_lt ts (l2_updated_at r) | None => true end.

Definition updated_cmp (r r' : L2ItemRow) : comparison := str_cmp (l2_updated_at r) (l2_updated_at r').

Definition group_rows `{HashIter} (gid : string) (since : option string) (d : Db) : list L2ItemRow :=
  sort_by updated_cmp (filterb (in_group_since gid since) (values (l2_items d))).

Definition list_group_items `{HashIter} (env : SqlEnv) (gid : string) (since : option string) (limit : Z) :
    M (list ItemHeader) :=
  let! _ := db_lock in
  query env "list_group_items" (fun d => header_of <$> take (Z.to_nat limit) (group_rows gid since d)).

Definition list_stored_group_ids `{HashIter} (env : SqlEnv) : M (list string) :=
  let! _ := db_lock in
  query env "list_stored_group_ids" (fun d =>
    remove_dups (omap l2_group_id (values (l2_items d)))).

(** ** Groups *)

Definition upsert_group (now id name culture policy : string) (old : option GroupRow) : GroupRow := {|
  gr_id := id;
  gr_name := name;
  gr_culture := culture;
  gr_security_policy := policy;
  gr_created_at := match old with Some r => gr_created_at r | None => now end;
  gr_updated_at := now;
  gr_owner_id := old ≫= gr_owner_id;
  gr_owner_pubkey := old ≫= gr_owner_pubkey;
  gr_signature := old ≫= gr_signature;
|}.

Definition write_group (env : SqlEnv) (id name culture policy : string) : M unit :=
  let! _ := db_lock in
  stmt env "write_group" (fun d =>
    Ok (set_groups_t (<[id := upsert_group (sql_now env) id name culture policy (groups_t d !! id)]>
                        (groups_t d)) d, tt)).

Definition sign_group (owner_id owner_pubkey signature : string) (g : GroupRow) : GroupRow := {|
  gr_id := gr_id g;
  gr_name := gr_name g;
  gr_culture := gr_culture g;
  gr_security_policy := gr_security_policy g;
  gr_created_at := gr_created_at g;
  gr_updated_at := gr_updated_at g;
  gr_owner_id := Some owner_id;
  gr_owner_pubkey := Some owner_pubkey;
  gr_signature := Some signature;
|}.

Definition write_group_signature (env : SqlEnv) (id owner_id owner_pubkey signature : string) : M unit :=
  let! _ := db_lock in
  stmt env "write_group_signature" (fun d =>
    Ok (set_groups_t (alter (sign_group owner_id owner_pubkey signature) id (groups_t d)) d, tt)).

Definition read_group (env : SqlEnv) (id : string) : M (option GroupRow) :=
  let! _ := db_lock in
  query env "read_group" (fun d => groups_t d !! id).

Definition list_groups `{HashIter} (env : SqlEnv) : M (list GroupRow) :=
  let! _ := db_lock in
  query env "list_groups" (fun d =>
    sort_by (fun g g' => str_cmp (gr_name g) (gr_name g')) (values (groups_t d))).

(** ** Members *)

Definition member_rows (d : Db) : list GroupMemberRow := (map_to_list (group_members d)).*2.

Definition list_members (env : SqlEnv) (gid : string) : M (list GroupMemberRow) :=
  let! _ := db_lock in
  query env "list_members" (fun d =>
    sort_by (fun m m' => str_cmp (gm_entity_id m) (gm_entity_id m'))
      (filterb (fun m => String.eqb (gm_group_id m) gid && not_removed m) (member_rows d))).

Definition get_membership (env : SqlEnv) (gid entity : string) : M (option GroupMemberRow) :=
  let! _ := db_lock in
  query env "get_membership" (fun d =>
    match group_members d !! (gid, entity) with
    | Some m => if not_removed m then Some m else None
    | None => None
    end).

(** [b"{}"] *)
Definition l1_stub : bytes := str_bytes "{}".

Definition ensure_l1_stub (env : SqlEnv) (entity : string) : M unit :=
  stmt env "ensure_l1_stub" (fun d =>
    match l1_hot d !! entity with
    | Some _ => Ok (d, tt)
    | None => Ok (upsert_l1 (sql_now env) entity l1_stub d, tt)
    end).

Definition upsert_member (now gid entity role : string) (old : option GroupMemberRow) : GroupMemberRow := {|
  gm_group_id := gid;
  gm_entity_id := entity;
  gm_role := role;
  gm_posture := Some "active"%string;
  gm_joined_at := match old with Some m => gm_joined_at m | None => now end;
|}.

Definition add_member (env : SqlEnv) (gid entity role : string) : M unit :=
  let! _ := db_lock in
  let! _ := ensure_l1_stub env entity in
  stmt env "add_member" (fun d =>
    if negb (role_ok role) then Err CheckFailed
    else if bool_decide (is_Some (groups_t d !! gid)) && bool_decide (is_Some (l1_hot d !! entity))
    then Ok (set_group_members
               (<[(gid, entity) := upsert_member (sql_now env) gid entity role (group_members d !! (gid, entity))]>
                  (group_members d)) d, tt)
    else Err ForeignKeyFailed).

Definition set_posture (p : string) (m : GroupMemberRow) : GroupMemberRow := {|
  gm_group_id := gm_group_id m;
  gm_entity_id := gm_entity_id m;
  gm_role := gm_role m;
  gm_posture := Some p;
  gm_joined_at := gm_joined_at m;
|}.

Definition remove_member (env : SqlEnv) (gid entity : string) : M bool :=
  let! _ := db_lock in
  stmt env "remove_member" (fun d =>
    match group_members d !! (gid, entity) with
    | Some m =>
        if negb (not_removed m) then Ok (d, false)
        else if posture_ok (schema d) "removed"
        then Ok (set_group_members (<[(gid, entity) := set_posture "removed" m]> (group_members d)) d, true)
        else Err CheckFailed
    | None => Ok (d, false)
    end).

Definition update_member_posture (env : SqlEnv) (gid entity posture : string) : M bool :=
  let! _ := db_lock in
  stmt env "update_member_posture" (fun d =>
    match group_members d !! (gid, entity) with
    | Some m =>
        if posture_ok (schema d) posture
        then Ok (set_group_members (<[(gid, entity) := set_posture posture m]> (group_members d)) d, true)
        else Err CheckFailed
    | None => Ok (d, false)
    end).

Definition drop_members (P : string -> bool) (d : Db) : Db :=
  set_group_members (filter (fun kv => P kv.1.1 = false) (group_members d)) d.

(** The group is referred to by some member row. *)
Definition group_referenced (d : Db) (gid : string) : bool :=
  existsb (fun kv => String.eqb kv.1.1 gid) (map_to_list (group_members d)).

Definition delete_group (env : SqlEnv) (id : string) : M bool :=
  let! _ := db_lock in
  let! _ := stmt env "delete_group_members" (fun d => Ok (drop_members (String.eqb id) d, tt)) in
  stmt env "delete_group" (fun d =>
    if bool_decide (is_Some (groups_t d !! id)) then
      if group_referenced d id then Err ForeignKeyFailed
      else Ok (set_groups_t (delete id (groups_t d)) d, true)
    else Ok (d, false)).

(** [culture = ?1 AND updated_at < datetime('now', ?2)] *)
Definition purgeable (culture cutoff : string) (g : GroupRow) : bool :=
  String.eqb (gr_culture g) culture && str_lt (gr_updated_at g) cutoff.

Definition group_purgeable (culture cutoff : string) (d : Db) (gid : string) : bool :=
  match groups_t d !! gid with Some g => purgeable culture cutoff g | None => false end.

Definition purge_deleted_groups (env : SqlEnv) (tombstone_culture : string) (retention_days : Z) : M Z :=
  let! _ := db_lock in
  let cutoff := sql_days_ago env retention_days in
  let! _ := stmt env "purge_members" (fun d =>
    Ok (drop_members (group_purgeable tombstone_culture cutoff d) d, tt)) in
  stmt env "purge_groups" (fun d =>
    if existsb (fun kv => group_purgeable tombstone_culture cutoff d kv.1.1) (map_to_list (group_members d))
    then Err ForeignKeyFailed
    else Ok (set_groups_t (filter (fun kv => purgeable tombstone_culture cutoff kv.2 = false) (groups_t d)) d,
             wrap_u32 (Z.of_nat (map_count (purgeable tombstone_culture cutoff) (groups_t d))))).

(** ** Access log, index, statistics *)

Definition log_access (env : SqlEnv) (entry : AccessLogEntry) : M unit :=
  let! _ := db_lock in
  stmt env "log_access" (fun d => Ok (set_access_log (access_log d ++ [entry]) d, tt)).

Definition read_l2_index (env : SqlEnv) : M (option bytes) :=
  let! _ := db_lock in
  query env "read_l2_index" l2_index.

Definition write_l2_index (env : SqlEnv) (data : bytes) : M unit :=
  let! _ := db_lock in
  stmt env "write_l2_index" (fun d => Ok (set_l2_index (Some data) d, tt)).

Definition sum_bytes (l : list L2ItemRow) : Z := foldr (fun r n => Z.of_nat (length (l2_data r)) + n) 0 l.

Definition group_stats `{HashIter} (d : Db) (g : GroupRow) : GroupStats :=
  let items := filterb (fun r => bool_decide (l2_group_id r = Some (gr_id g))) (values (l2_items d)) in
  let members := filterb (fun m => String.eqb (gm_group_id m) (gr_id g)) (member_rows d) in
  {| gs_group_id := gr_id g;
     gs_item_count := Z.of_nat (length items);
     gs_data_bytes := sum_bytes items;
     gs_member_count := Z.of_nat (length members) |}.

Definition storage_stats `{HashIter} (env : SqlEnv) : M StorageStats :=
  let! _ := db_lock in
  let! l2_item_count := query env "stats_items" (fun d => Z.of_nat (size (l2_items d))) in
  let! l2_data_bytes := query env "stats_bytes" (fun d => sum_bytes (values (l2_items d))) in
  let! group_count := query env "stats_groups" (fun d => Z.of_nat (size (groups_t d))) in
  let! groups := query env "stats_per_group" (fun d =>
    group_stats d <$> sort_by (fun g g' => str_cmp (gr_id g) (gr_id g')) (values (groups_t d))) in
  ret {| ss_l2_item_count := l2_item_count; ss_l2_data_bytes := l2_data_bytes;
         ss_group_count := group_count; ss_groups := groups |}.

(** ** Devices *)

Definition device_stmt {A} (env : SqlEnv) (name : string) (body : Db -> result (Db * A) SqlError) : M A :=
  stmt env name (fun d => if sc_devices (schema d) then body d else Err NoSuchTable).

Definition upsert_device (now : string) (dev : DeviceRow) (old : option DeviceRow) : DeviceRow := {|
  dv_device_id := dv_device_id dev;
  dv_entity_id := match old with Some o => dv_entity_id o | None => dv_entity_id dev end;
  dv_device_name := dv_device_name dev;
  dv_device_type := dv_device_type dev;
  dv_auth_token_hash := dv_auth_token_hash dev;
  dv_created_at := match old with Some o => dv_created_at o | None => now end;
  dv_last_seen_at := old ≫= dv_last_seen_at;
  dv_revoked_at := old ≫= dv_revoked_at;
|}.

Definition register_device (env : SqlEnv) (dev : DeviceRow) : M unit :=
  let! _ := db_lock in
  device_stmt env "register_device" (fun d =>
    if device_type_ok (dv_device_type dev)
    then Ok (set_devices (<[dv_device_id dev := upsert_device (sql_now env) dev (devices d !! dv_device_id dev)]>
                            (devices d)) d, tt)
    else Err CheckFailed).

Definition list_devices `{HashIter} (env : SqlEnv) (entity : string) : M (list DeviceRow) :=
  let! _ := db_lock in
  device_stmt env "list_devices" (fun d =>
    Ok (d, sort_by (fun x y => str_cmp (dv_created_at y) (dv_created_at x))
             (filterb (fun x => String.eqb (dv_entity_id x) entity) (values (devices d))))).

Definition not_revoked (dev : DeviceRow) : bool :=
  match dv_revoked_at dev with None => true | Some _ => false end.

Definition revoke (now : string) (dev : DeviceRow) : DeviceRow := {|
  dv_device_id := dv_device_id dev;
  dv_entity_id := dv_entity_id dev;
  dv_device_name := dv_device_name dev;
  dv_device_type := dv_device_type dev;
  dv_auth_token_hash := dv_auth_token_hash dev;
  dv_created_at := dv_created_at dev;
  dv_last_seen_at := dv_last_seen_at dev;
  dv_revoked_at := Some now;
|}.

Definition revoke_device (env : SqlEnv) (entity device_id : string) : M bool :=
  let! _ := db_lock in
  device_stmt env "revoke_device" (fun d =>
    match devices d !! device_id with
    | Some dev =>
        if String.eqb (dv_entity_id dev) entity && not_revoked dev
        then Ok (set_devices (<[device_id := revoke (sql_now env) dev]> (devices d)) d, true)
        else Ok (d, false)
    | None => Ok (d, false)
    end).

Definition get_device_by_token_hash `{HashIter} (env : SqlEnv) (token_hash : string) : M (option DeviceRow) :=
  let! _ := db_lock in
  device_stmt env "get_device_by_token_hash" (fun d =>
    Ok (d, head (filterb (fun x => String.eqb (dv_auth_token_hash x) token_hash && not_revoked x)
                   (values (devices d))))).

(** ** Opening a database *)

Definition no_tables : Schema :=
  {| sc_version := None; sc_tables := false; sc_devices := false; sc_owner_columns := false;
     sc_removed_posture := false |}.

(** The file that [Connection::open] creates. *)
Definition empty_db : Db :=
  {| lock_poisoned := false; schema := no_tables; l1_hot := ∅; l2_items := ∅; l2_index := None;
     groups_t := ∅; group_members := ∅; access_log := []; devices := ∅ |}.

(** [SqliteStorage::open] on the database [file], after the pragmas. *)
Definition open_db (env : SqlEnv) (file : Db) : result Db StorageError :=
  match ensure_schema env file with
  | (d, Ok _) => Ok d
  | (_, Err e) => Err e
  end.

(** [SqliteStorage::open_readonly]: the database as it is, without a look at its
    schema; opening fails when there is no file. *)
Definition open_readonly (env : SqlEnv) (file : option Db) : result Db StorageError :=
  match fault env "open_readonly", file with
  | Some e, _ => Err (Sqlite e)
  | None, None => Err (Sqlite (EngineFault "unable to open database file"))
  | None, Some d => Ok d
  end.

(** [SqliteStorage::create_new] *)
Definition create_new (env : SqlEnv) (file : Db) : result Db StorageError :=
  match stmt env "schema_v4" schema_v4 file with
  | (d, Ok _) => Ok d
  | (_, Err e) => Err e
  end.
