(* ===== verification/StorageProps.v ===== *)
(** * Properties of the store

    The integrity invariant that every method preserves, whether it succeeds or
    fails; what each method does to later reads; the completeness and order of
    the listing the sync protocol pages through; the exactness of garbage
    collection; and the outcome of the schema migrations. *)

From S2P Require Import Prelude Protocol Storage.

(** ** Reasoning about methods *)

(** A method preserves an invariant, also when it fails. *)
Definition preserves {A} (I : Db -> Prop) (m : M A) : Prop := forall d, I d -> I (m d).1.

Lemma preserves_lock (I : Db -> Prop) : preserves I db_lock.
Proof. intros d Hd. unfold db_lock. by destruct (lock_poisoned d). Qed.

Lemma preserves_ret {A} (I : Db -> Prop) (a : A) : preserves I (ret a).
Proof. by intros d Hd. Qed.

Lemma preserves_bind {A B} (I : Db -> Prop) (m : M A) (k : A -> M B) :
  preserves I m -> (forall a, preserves I (k a)) -> preserves I (bind m k).
Proof.
  intros Hm Hk d Hd. unfold bind. specialize (Hm d Hd). destruct (m d) as [d' [a|e]]; [by apply Hk | done].
Qed.

Lemma preserves_stmt {A} (I : Db -> Prop) env name (body : Db -> result (Db * A) SqlError) :
  (forall d d' a, I d -> body d = Ok (d', a) -> I d') -> preserves I (stmt env name body).
Proof.
  intros Hb d Hd. unfold stmt. destruct (fault env name); [done|].
  destruct (body d) as [[d' a]|e] eqn:E; [|done]. by apply (Hb d d' a).
Qed.

Lemma preserves_query {A} (I : Db -> Prop) env name (f : Db -> A) : preserves I (query env name f).
Proof. apply preserves_stmt. intros d d' a Hd [= <- _]. done. Qed.

#[export] Hint Resolve preserves_lock preserves_ret preserves_query : cordelia.

(** A method that only reads. *)
Definition read_only {A} (m : M A) : Prop := forall d, (m d).1 = d.

Lemma read_only_bind {A B} (m : M A) (k : A -> M B) :
  read_only m -> (forall a, read_only (k a)) -> read_only (bind m k).
Proof.
  intros Hm Hk d. unfold bind. specialize (Hm d). destruct (m d) as [d' [a|e]]; simpl in *; subst; [by apply Hk|done].
Qed.

Lemma read_only_lock : read_only db_lock.
Proof. intros d. unfold db_lock. by destruct (lock_poisoned d). Qed.

Lemma read_only_ret {A} (a : A) : read_only (ret a).
Proof. done. Qed.

Lemma read_only_stmt {A} env name (body : Db -> result (Db * A) SqlError) :
  (forall d d' a, body d = Ok (d', a) -> d' = d) -> read_only (stmt env name body).
Proof.
  intros Hb d. unfold stmt. destruct (fault env name); [done|].
  destruct (body d) as [[d' a]|e] eqn:E; [by apply (Hb d d' a)|done].
Qed.

Lemma read_only_query {A} env name (f : Db -> A) : read_only (query env name f).
Proof. apply read_only_stmt. by intros d d' a [= <- _]. Qed.

Lemma read_only_preserves {A} (I : Db -> Prop) (m : M A) : read_only m -> preserves I m.
Proof. intros Hm d. by rewrite (Hm d). Qed.

#[export] Hint Resolve read_only_bind read_only_lock read_only_ret read_only_query read_only_preserves : cordelia.

(** A method that gets its lock is its statements. *)
Lemma with_lock {A} (m : M A) d : lock_poisoned d = false -> (let! _ := db_lock in m) d = m d.
Proof. intros H. unfold bind, db_lock. by rewrite H. Qed.

Lemma stmt_ok {A} env name (body : Db -> result (Db * A) SqlError) d d' a :
  fault env name = None -> body d = Ok (d', a) -> stmt env name body d = (d', Ok a).
Proof. intros Hf Hb. unfold stmt. by rewrite Hf, Hb. Qed.

(** A method that returns got its lock, and each statement took effect. *)
Lemma bind_ok {A B} (m : M A) (k : A -> M B) d d' b :
  bind m k d = (d', Ok b) -> exists d1 a, m d = (d1, Ok a) /\ k a d1 = (d', Ok b).
Proof. unfold bind. destruct (m d) as [d1 [a|e]]; [|done]. eauto. Qed.

Lemma lock_ok d d1 u : db_lock d = (d1, Ok u) -> d1 = d /\ lock_poisoned d = false.
Proof. unfold db_lock. destruct (lock_poisoned d); [done|]. by intros [= <- _]. Qed.

Lemma stmt_inv {A} env name (body : Db -> result (Db * A) SqlError) d d' a :
  stmt env name body d = (d', Ok a) -> body d = Ok (d', a).
Proof.
  unfold stmt. destruct (fault env name); [done|]. destruct (body d) as [[d1 a1]|e]; [|done].
  by intros [= -> ->].
Qed.

(** Unpacks [method d = (d', Ok x)] into what its statements did. *)
Ltac inv_ok H :=
  lazymatch type of H with
  | bind db_lock _ _ = (_, Ok _) =>
      let Hl := fresh "Hlock" in
      apply bind_ok in H as (? & ? & Hl & H); apply lock_ok in Hl as [-> Hl]; cbv beta in H; inv_ok H
  | stmt _ _ _ _ = (_, Ok _) => apply stmt_inv in H; cbv beta in H
  | query _ _ _ _ = (_, Ok _) => apply stmt_inv in H; cbv beta in H
  | _ => idtac
  end.

(** ** The integrity invariant *)

Record item_wf `{Crypto} (id : string) (r : L2ItemRow) : Prop := {
  iw_key : l2_id r = id;
  iw_checksum : l2_checksum r = Some (checksum (l2_data r));
  iw_type : type_ok (l2_item_type r) = true;
  iw_visibility : visibility_ok (l2_visibility r) = true;
}.

Record member_wf (d : Db) (k : string * string) (m : GroupMemberRow) : Prop := {
  mw_key : k = (gm_group_id m, gm_entity_id m);
  mw_role : role_ok (gm_role m) = true;
  mw_group : is_Some (groups_t d !! k.1);
  mw_user : is_Some (l1_hot d !! k.2);
  mw_posture : forall p, gm_posture m = Some p -> posture_ok (schema d) p = true;
}.

Record db_wf `{Crypto} (d : Db) : Prop := {
  dw_items : map_Forall item_wf (l2_items d);
  dw_groups : map_Forall (fun id g => gr_id g = id) (groups_t d);
  dw_members : map_Forall (member_wf d) (group_members d);
  dw_devices : map_Forall (fun id v => dv_device_id v = id /\ device_type_ok (dv_device_type v) = true) (devices d);
}.

(** The methods that change the database. *)
Inductive StorageOp :=
| OpWriteL1 (user : string) (data : bytes)
| OpDeleteL1 (user : string)
| OpWriteItem (item : L2ItemWrite)
| OpDeleteItem (id : string)
| OpWriteGroup (id name culture policy : string)
| OpSignGroup (id owner_id owner_pubkey signature : string)
| OpAddMember (gid entity role : string)
| OpRemoveMember (gid entity : string)
| OpPosture (gid entity posture : string)
| OpDeleteGroup (id : string)
| OpPurge (culture : string) (days : Z)
| OpLog (e : AccessLogEntry)
| OpWriteIndex (data : bytes)
| OpRegister (dev : DeviceRow)
| OpRevoke (entity device_id : string)
| OpEnsureSchema.

Definition run_op `{Crypto} (env : SqlEnv) (op : StorageOp) (d : Db) : Db :=
  match op with
  | OpWriteL1 u x => (write_l1 env u x d).1
  | OpDeleteL1 u => (delete_l1 env u d).1
  | OpWriteItem w => (write_l2_item env w d).1
  | OpDeleteItem i => (delete_l2_item env i d).1
  | OpWriteGroup i n c p => (write_group env i n c p d).1
  | OpSignGroup i o p s => (write_group_signature env i o p s d).1
  | OpAddMember g e r => (add_member env g e r d).1
  | OpRemoveMember g e => (remove_member env g e d).1
  | OpPosture g e p => (update_member_posture env g e p d).1
  | OpDeleteGroup i => (delete_group env i d).1
  | OpPurge c n => (purge_deleted_groups env c n d).1
  | OpLog e => (log_access env e d).1
  | OpWriteIndex x => (write_l2_index env x d).1
  | OpRegister v => (register_device env v d).1
  | OpRevoke e v => (revoke_device env e v d).1
  | OpEnsureSchema => (ensure_schema env d).1
  end.

Section invariant.
Context `{CR : Crypto}.

(** A posture that the schema admits stays legal when the check is widened. *)
Abbreviation checks_kept d d' := (sc_removed_posture (schema d) = true -> sc_removed_posture (schema d') = true).

Lemma posture_ok_kept d d' p : checks_kept d d' -> posture_ok (schema d) p = true -> posture_ok (schema d') p = true.
Proof.
  unfold posture_ok. intros Hk [->|[Hr ->]%andb_prop]%orb_prop; [done|]. rewrite (Hk Hr). apply orb_true_r.
Qed.

Lemma member_wf_mono d d' k m :
  checks_kept d d' ->
  (forall g, is_Some (groups_t d !! g) -> is_Some (groups_t d' !! g)) ->
  (forall u, is_Some (l1_hot d !! u) -> is_Some (l1_hot d' !! u)) ->
  member_wf d k m -> member_wf d' k m.
Proof. intros Hs Hg Hu []. split; eauto using posture_ok_kept. Qed.

Lemma is_Some_insert {V} (m : gmap string V) k j v : is_Some (m !! j) -> is_Some (<[k:=v]> m !! j).
Proof. destruct (decide (k = j)) as [->|]; [by rewrite lookup_insert_eq | by rewrite lookup_insert_ne]. Qed.

(** Changes that leave the member table and keep the tables it refers to. *)
Lemma db_wf_grow d d' :
  group_members d' = group_members d -> checks_kept d d' ->
  (forall g, is_Some (groups_t d !! g) -> is_Some (groups_t d' !! g)) ->
  (forall u, is_Some (l1_hot d !! u) -> is_Some (l1_hot d' !! u)) ->
  db_wf d ->
  map_Forall item_wf (l2_items d') -> map_Forall (fun id g => gr_id g = id) (groups_t d') ->
  map_Forall (fun id v => dv_device_id v = id /\ device_type_ok (dv_device_type v) = true) (devices d') ->
  db_wf d'.
Proof.
  intros Hm Hs Hg Hu [_ _ Hmem _] Hi Hgr Hd. split; [done|done| |done]. rewrite Hm.
  eapply map_Forall_impl; [exact Hmem|]. intros k m. by apply member_wf_mono.
Qed.

Lemma upsert_l1_wf now u x d : db_wf d -> db_wf (upsert_l1 now u x d).
Proof.
  intros Hwf. apply (db_wf_grow d); try done; try apply Hwf. intros v. apply is_Some_insert.
Qed.

Lemma existsb_false {A} (P : A -> bool) l x : existsb P l = false -> x ∈ l -> P x = false.
Proof.
  induction l as [|y l IH]; simpl; [by intros _ H%elem_of_nil|].
  intros [Hy Hl]%orb_false_iff [->|Hx]%elem_of_cons; auto.
Qed.

Lemma delete_l1_preserves env u : preserves db_wf (delete_l1 env u).
Proof.
  apply preserves_bind; [auto with cordelia|]. intros _. apply preserves_stmt.
  intros d d' a Hwf. destruct (l1_hot d !! u) as [r|] eqn:Hr; [|by intros [= <- _]].
  destruct (user_referenced d u) eqn:Href; [done|]. intros [= <- _].
  destruct Hwf as [Hi Hg Hm Hd]. split; try done. intros k m Hk. destruct (Hm k m Hk) as [Hkey Hr' Hgr Hus Hps].
  split; try done. simpl. rewrite lookup_delete_ne; [done|]. intros ->.
  assert ((k, m) ∈ map_to_list (group_members d)) as Hin by (by apply elem_of_map_to_list).
  apply (existsb_false _ _ _ Href) in Hin. simpl in Hin. by rewrite String.eqb_refl in Hin.
Qed.

Lemma upsert_row_wf now w old :
  type_ok (lw_item_type w) = true -> visibility_ok (lw_visibility w) = true ->
  item_wf (lw_id w) (upsert_row now w old).
Proof. intros Ht Hv. by split. Qed.

Lemma write_l2_item_preserves env w : preserves db_wf (write_l2_item env w).
Proof.
  apply preserves_bind; [auto with cordelia|]. intros _. apply preserves_stmt.
  intros d d' a Hwf. destruct (type_ok _ && visibility_ok _) eqn:E; [|done]. intros [= <- _].
  apply andb_prop in E as [Ht Hv]. apply (db_wf_grow d); try done; try apply Hwf.
  apply map_Forall_insert_2; [by apply upsert_row_wf | apply Hwf].
Qed.

Lemma write_group_preserves env i n c p : preserves db_wf (write_group env i n c p).
Proof.
  apply preserves_bind; [auto with cordelia|]. intros _. apply preserves_stmt.
  intros d d' a Hwf [= <- _]. apply (db_wf_grow d); try done; try apply Hwf.
  - intros g. apply is_Some_insert.
  - by apply map_Forall_insert_2; [|apply Hwf].
Qed.

Lemma sign_group_preserves env i o p s : preserves db_wf (write_group_signature env i o p s).
Proof.
  apply preserves_bind; [auto with cordelia|]. intros _. apply preserves_stmt.
  intros d d' a Hwf [= <- _]. apply (db_wf_grow d); try done; try apply Hwf; simpl.
  - intros g. destruct (decide (i = g)) as [<-|Hne].
    + rewrite lookup_alter_eq. by intros [r ->].
    + by rewrite lookup_alter_ne.
  - intros g r. rewrite lookup_alter. case_decide as Hi.
    + destruct (groups_t d !! i) as [r0|] eqn:Hr; simplify_eq/=; [|done]. intros [= <-]. simpl.
      by apply (dw_groups d Hwf).
    + apply (dw_groups d Hwf).
Qed.

Lemma set_member_wf d k m :
  db_wf d -> member_wf d k m -> db_wf (set_group_members (<[k := m]> (group_members d)) d).
Proof.
  intros [Hi Hg Hm Hd] Hk. split; try done. apply (map_Forall_impl (member_wf d)).
  - by apply map_Forall_insert_2.
  - intros j m'. by apply member_wf_mono.
Qed.

Lemma add_member_preserves env g e r : preserves db_wf (add_member env g e r).
Proof.
  apply preserves_bind; [auto with cordelia|]. intros _. apply preserves_bind.
  - apply preserves_stmt. intros d d' a Hwf. destruct (l1_hot d !! e); intros [= <- _]; [done|].
    by apply upsert_l1_wf.
  - intros _. apply preserves_stmt. intros d d' a Hwf. destruct (role_ok r) eqn:Hr; [|done]. simpl.
    destruct (bool_decide (is_Some (groups_t d !! g)) && bool_decide (is_Some (l1_hot d !! e))) eqn:E; [|done].
    apply andb_prop in E as [Hg%bool_decide_eq_true Hu%bool_decide_eq_true]. intros [= <- _].
    apply set_member_wf; [done|]. split; try done. by intros p [= <-].
Qed.

Lemma set_posture_wf d k m p : posture_ok (schema d) p = true -> member_wf d k m -> member_wf d k (set_posture p m).
Proof. intros Hp []. split; try done. by intros q [= <-]. Qed.

Lemma remove_member_preserves env g e : preserves db_wf (remove_member env g e).
Proof.
  apply preserves_bind; [auto with cordelia|]. intros _. apply preserves_stmt. intros d d' a Hwf.
  destruct (group_members d !! (g, e)) as [m|] eqn:Hm; [|by intros [= <- _]].
  destruct (negb (not_removed m)); [by intros [= <- _]|]. destruct (posture_ok _ _) eqn:Hp; [|done].
  intros [= <- _]. apply set_member_wf; [done|]. apply set_posture_wf; [done|]. by apply (dw_members d Hwf).
Qed.

Lemma update_posture_preserves env g e p : preserves db_wf (update_member_posture env g e p).
Proof.
  apply preserves_bind; [auto with cordelia|]. intros _. apply preserves_stmt. intros d d' a Hwf.
  destruct (group_members d !! (g, e)) as [m|] eqn:Hm; [|by intros [= <- _]].
  destruct (posture_ok _ _) eqn:Hp; [|done].
  intros [= <- _]. apply set_member_wf; [done|]. apply set_posture_wf; [done|]. by apply (dw_members d Hwf).
Qed.

Lemma drop_members_wf P d : db_wf d -> db_wf (drop_members P d).
Proof.
  intros [Hi Hg Hm Hd]. split; try done. intros k m Hk. apply map_lookup_filter_Some in Hk as [Hk _].
  destruct (Hm k m Hk). by split.
Qed.

(** Removing groups that no member row refers to. *)
Lemma drop_groups_wf d (t : gmap string GroupRow) :
  db_wf d -> (forall id g, t !! id = Some g -> groups_t d !! id = Some g) ->
  (forall k m, group_members d !! k = Some m -> t !! k.1 = groups_t d !! k.1) ->
  db_wf (set_groups_t t d).
Proof.
  intros [Hi Hg Hm Hd] Hsub Hkeep. split; try done.
  - intros id g Hid. apply (Hg id g). by apply Hsub.
  - intros k m Hk. destruct (Hm k m Hk) as [Hkey Hr Hgr Hus Hps]. split; try done. simpl. by rewrite (Hkeep k m Hk).
Qed.

Lemma delete_group_preserves env i : preserves db_wf (delete_group env i).
Proof.
  apply preserves_bind; [auto with cordelia|]. intros _. apply preserves_bind.
  - apply preserves_stmt. intros d d' a Hwf [= <- _]. by apply drop_members_wf.
  - intros _. apply preserves_stmt. intros d d' a Hwf. case_bool_decide; [|by intros [= <- _]].
    destruct (group_referenced d i) eqn:Href; [done|]. intros [= <- _].
    apply drop_groups_wf; [done| |].
    + intros j g. destruct (decide (i = j)) as [<-|]; [by rewrite lookup_delete_eq | by rewrite lookup_delete_ne].
    + intros k m Hk. apply lookup_delete_ne. intros ->. apply elem_of_map_to_list in Hk.
      apply (existsb_false _ _ _ Href) in Hk. simpl in Hk. by rewrite String.eqb_refl in Hk.
Qed.

Lemma purge_preserves env c n : preserves db_wf (purge_deleted_groups env c n).
Proof.
  apply preserves_bind; [auto with cordelia|]. intros _. apply preserves_bind.
  - apply preserves_stmt. intros d d' a Hwf [= <- _]. by apply drop_members_wf.
  - intros _. apply preserves_stmt. intros d d' a Hwf. destruct (existsb _ _) eqn:Href; [done|].
    intros [= <- _]. apply drop_groups_wf; [done| |].
    + intros j g. rewrite map_lookup_filter_Some. tauto.
    + intros k m Hk. destruct (mw_group d k m (dw_members d Hwf k m Hk)) as [g Hg]. rewrite Hg.
      apply map_lookup_filter_Some. split; [done|]. simpl.
      apply elem_of_map_to_list in Hk. apply (existsb_false _ _ _ Href) in Hk. simpl in Hk.
      unfold group_purgeable in Hk. by rewrite Hg in Hk.
Qed.

Lemma set_device_wf d id v :
  db_wf d -> dv_device_id v = id -> device_type_ok (dv_device_type v) = true ->
  db_wf (set_devices (<[id := v]> (devices d)) d).
Proof.
  intros Hwf Hid Ht. apply (db_wf_grow d); try done; try apply Hwf.
  apply map_Forall_insert_2; [done | apply Hwf].
Qed.

Lemma register_device_preserves env v : preserves db_wf (register_device env v).
Proof.
  apply preserves_bind; [auto with cordelia|]. intros _. apply preserves_stmt. intros d d' a Hwf.
  destruct (sc_devices _); [|done]. destruct (device_type_ok _) eqn:E; [|done]. intros [= <- _].
  by apply set_device_wf.
Qed.

Lemma revoke_device_preserves env e v : preserves db_wf (revoke_device env e v).
Proof.
  apply preserves_bind; [auto with cordelia|]. intros _. apply preserves_stmt. intros d d' a Hwf.
  destruct (sc_devices _); [|done]. destruct (devices d !! v) as [x|] eqn:Hx; [|by intros [= <- _]].
  destruct (_ && _); intros [= <- _]; [|done]. destruct (dw_devices d Hwf v x Hx). by apply set_device_wf.
Qed.

(** Migrations change the schema only. *)
Definition same_data (d d' : Db) : Prop :=
  l1_hot d' = l1_hot d /\ l2_items d' = l2_items d /\ l2_index d' = l2_index d /\ groups_t d' = groups_t d
  /\ group_members d' = group_members d /\ access_log d' = access_log d /\ devices d' = devices d
  /\ lock_poisoned d' = lock_poisoned d /\ checks_kept d d'.

Lemma ensure_schema_same_data env d0 : preserves (same_data d0) (ensure_schema env).
Proof.
  unfold ensure_schema.
  assert (forall name (body : Db -> result (Db * unit) SqlError),
    (forall d d' a, body d = Ok (d', a) -> checks_kept d d' /\ exists s, d' = set_schema s d) ->
    preserves (same_data d0) (stmt env name body)) as Hmig.
  { intros name body Hb. apply preserves_stmt. intros d d' a Hd Hbd. destruct (Hb d d' a Hbd) as [Hk [s ->]].
    destruct Hd as (?&?&?&?&?&?&?&?&Hk0). split_and!; try done. intros Hr. by apply Hk, Hk0. }
  assert (preserves (same_data d0) (stmt env "reread_version" read_version_row)) as Hv1.
  { apply preserves_stmt. unfold read_version_row. intros d d' a Hd Hb. case_all; done. }
  assert (preserves (same_data d0) (stmt env "reread_version_6" read_version_row)) as Hv2.
  { apply preserves_stmt. unfold read_version_row. intros d d' a Hd Hb. case_all; done. }
  apply preserves_bind; [auto with cordelia|]. intros _.
  apply preserves_bind; [auto with cordelia|]. intros tab.
  apply preserves_bind. { destruct tab; [auto with cordelia|]. apply Hmig. intros d d' a [= <- _]. split; [cbn; intros ->; by rewrite ?orb_true_r|eauto]. }
  intros _. apply preserves_bind.
  { apply preserves_stmt. unfold read_version. intros d d' a Hd Hb. case_all; done. }
  intros v. cbv zeta. destruct (default 0 v <? 4); [by intros d Hd|].
  apply preserves_bind. { case_match; [|auto with cordelia]. apply Hmig. intros d d' a [= <- _]. split; [cbn; intros ->; by rewrite ?orb_true_r|eauto]. }
  intros _. apply preserves_bind; [done|]. intros v1. apply preserves_bind.
  { case_match; [|auto with cordelia]. apply preserves_bind; [auto with cordelia|]. intros b.
    destruct b; apply Hmig; [intros d d' a [= <- _]; split; [done|eauto]|].
    unfold schema_v6. intros d d' a. case_all; intros; simplify_eq; split; [done|eauto]. }
  intros _. apply preserves_bind; [done|]. intros v2. case_match; [|auto with cordelia].
  apply Hmig. unfold schema_v7. intros d d' a. case_all; intros; simplify_eq; split; [done|eauto].
Qed.

Lemma same_data_wf d d' : same_data d d' -> db_wf d -> db_wf d'.
Proof.
  intros (H1&H2&H3&H4&H5&H6&H7&H8&H9) [Hi Hg Hm Hd]. split; rewrite ?H2, ?H4, ?H5, ?H7; try done.
  eapply map_Forall_impl; [exact Hm|]. intros k m Hkm. eapply member_wf_mono; [..|exact Hkm]; rewrite ?H1, ?H4; done.
Qed.

Lemma ensure_schema_preserves env : preserves db_wf (ensure_schema env).
Proof. intros d Hwf. eapply same_data_wf; [|exact Hwf]. by apply ensure_schema_same_data. Qed.

Lemma run_op_wf env op d : db_wf d -> db_wf (run_op env op d).
Proof.
  intros Hwf. destruct op; simpl;
    lazymatch goal with |- db_wf (?m d).1 => enough (preserves db_wf m) as Hp by (by apply Hp) end; clear d Hwf.
  - apply preserves_bind; [auto with cordelia|]. intros _. apply preserves_stmt.
    intros d0 d' a H0 [= <- _]. by apply upsert_l1_wf.
  - by apply delete_l1_preserves.
  - by apply write_l2_item_preserves.
  - apply preserves_bind; [auto with cordelia|]. intros _. apply preserves_stmt.
    intros d0 d' a H0 [= <- _]. apply (db_wf_grow d0); try done; try apply H0.
    apply map_Forall_delete, H0.
  - by apply write_group_preserves.
  - by apply sign_group_preserves.
  - by apply add_member_preserves.
  - by apply remove_member_preserves.
  - by apply update_posture_preserves.
  - by apply delete_group_preserves.
  - by apply purge_preserves.
  - apply preserves_bind; [auto with cordelia|]. intros _. apply preserves_stmt.
    intros d0 d' a H0 [= <- _]. by apply (db_wf_grow d0); try done; try apply H0.
  - apply preserves_bind; [auto with cordelia|]. intros _. apply preserves_stmt.
    intros d0 d' a H0 [= <- _]. by apply (db_wf_grow d0); try done; try apply H0.
  - by apply register_device_preserves.
  - by apply revoke_device_preserves.
  - by apply ensure_schema_preserves.
Qed.

Lemma empty_db_wf : db_wf empty_db.
Proof. split; apply map_Forall_empty. Qed.

End invariant.

(** ** Listing *)

Lemma str_cmp_le a b : str_cmp a b <> Gt <-> str_le a b = true.
Proof. unfold str_cmp, str_le, String.leb. by destruct (String.compare a b). Qed.

(** Sorting by a text key. *)
#[export] Instance text_key_total {A} (key : A -> string) : Total (cmp_le (fun x y => str_cmp (key x) (key y))).
Proof. intros x y. unfold cmp_le. rewrite !str_cmp_le. apply str_le_total. Qed.

#[export] Instance text_key_trans {A} (key : A -> string) : Transitive (cmp_le (fun x y => str_cmp (key x) (key y))).
Proof. intros x y z. unfold cmp_le. rewrite !str_cmp_le. apply str_le_trans. Qed.

Section listing.
Context `{HI : HashIter}.

Lemma elem_of_group_rows gid since d r :
  r ∈ group_rows gid since d <-> in_group_since gid since r = true /\ exists id, l2_items d !! id = Some r.
Proof. unfold group_rows. by rewrite elem_of_sort_by, elem_of_filterb, elem_of_values. Qed.

Lemma length_group_rows gid since d :
  length (group_rows gid since d) = map_count (in_group_since gid since) (l2_items d).
Proof. unfold group_rows. by rewrite length_sort_by, values_count. Qed.

Lemma group_rows_before gid since d n r r' :
  r ∈ take n (group_rows gid since d) -> r' ∈ drop n (group_rows gid since d) ->
  str_le (l2_updated_at r) (l2_updated_at r') = true.
Proof.
  intros Hr Hr'. apply str_cmp_le. change (cmp_le updated_cmp r r').
  by eapply (sort_by_take_le _ (text_key_total l2_updated_at) (text_key_trans l2_updated_at)).
Qed.

End listing.

(** ** Which operations touch an item *)

Definition touches_item (id : string) (op : StorageOp) : bool :=
  match op with
  | OpWriteItem w => String.eqb (lw_id w) id
  | OpDeleteItem i => String.eqb i id
  | _ => false
  end.

Section frame.
Context `{CR : Crypto}.

Definition item_at (id : string) (row : option L2ItemRow) (d : Db) : Prop := l2_items d !! id = row.

Lemma preserves_items {A} env name (body : Db -> result (Db * A) SqlError) id row :
  (forall d d' a, body d = Ok (d', a) -> l2_items d' !! id = l2_items d !! id) ->
  preserves (item_at id row) (stmt env name body).
Proof. intros Hb. apply preserves_stmt. unfold item_at. intros d d' a <- Hbd. by eapply Hb. Qed.

(** Solves the goals of [preserves_items] for statements that do not write [l2_items]. *)
Ltac other_table := let H := fresh in intros ? ? ? H; unfold upsert_l1, drop_members in H; case_all; simplify_eq/=; done.

Lemma run_op_frame env op id row d :
  touches_item id op = false -> item_at id row d -> item_at id row (run_op env op d).
Proof.
  intros Ht Hrow. destruct op; simpl in *.
  16: { destruct (ensure_schema_same_data env d d) as (_ & Hi & _); [done|]. unfold item_at in *. by rewrite Hi. }
  all: lazymatch goal with |- item_at ?i ?r (?m ?x).1 =>
      enough (preserves (item_at i r) m) as Hp by (by apply Hp);
      repeat (apply preserves_bind; [solve [auto with cordelia | apply preserves_items; other_table]|]; intros []; cbv zeta);
      apply preserves_items; try other_table end.
  - intros d1 d' a Hb. case_all. apply String.eqb_neq in Ht. by rewrite lookup_insert_ne.
  - intros d1 d' a [= <- _]. apply String.eqb_neq in Ht. simpl. by rewrite lookup_delete_ne.
Qed.

End frame.

(** ** Theorems *)

(** [C10] Integrity of the store: after any sequence of operations on a new
    database, under any clock and with any statement failing at any point, every
    constraint of the schema holds that a row could violate: every item is filed
    under its identifier with the SHA-256 of its data and a legal type and
    visibility; every group is filed under its identifier; every membership is
    filed under its group and entity, has a legal role and a posture that the
    check of the current schema admits, and refers to a group and to a user that
    exist; every device is filed under its identifier with a legal type. *)
Theorem storage_integrity `{Crypto} (ops : list (SqlEnv * StorageOp)) :
  let d := foldl (fun d eo => run_op eo.1 eo.2 d) empty_db ops in
  (forall id r, l2_items d !! id = Some r ->
     l2_id r = id /\ l2_checksum r = Some (sha256_hex (l2_data r))
     /\ type_ok (l2_item_type r) = true /\ visibility_ok (l2_visibility r) = true)
  /\ (forall id g, groups_t d !! id = Some g -> gr_id g = id)
  /\ (forall gid u m, group_members d !! (gid, u) = Some m ->
        gm_group_id m = gid /\ gm_entity_id m = u /\ role_ok (gm_role m) = true
        /\ (forall p, gm_posture m = Some p -> posture_ok (schema d) p = true)
        /\ is_Some (groups_t d !! gid) /\ is_Some (l1_hot d !! u))
  /\ (forall id v, devices d !! id = Some v -> dv_device_id v = id /\ device_type_ok (dv_device_type v) = true).
Proof.
  intros d. assert (db_wf d) as [Hi Hgr Hm Hd].
  { unfold d. generalize empty_db_wf. generalize empty_db as d0.
    induction ops as [|[env op] ops IH]; intros d0 H0; simpl; [done|]. by apply IH, run_op_wf. }
  split_and!; [|exact Hgr| |exact Hd].
  - intros id r Hr. by destruct (Hi id r Hr).
  - intros gid u m Hk. by destruct (Hm _ _ Hk) as [[= -> ->] Hr Hg Hu Hp].
Qed.

(** Durability of items: once a write has returned, the item is read back
    with the written content, its SHA-256 and the writer's timestamp (or the
    local clock's when none is given), whatever else is done to the store in
    between short of writing or deleting that item; and a write that fails
    changes nothing. *)
Theorem write_is_durable `{Crypto} env w d d' (ops : list (SqlEnv * StorageOp)) env' :
  write_l2_item env w d = (d', Ok tt) ->
  (forall eo, eo ∈ ops -> touches_item (lw_id w) eo.2 = false) ->
  fault env' "read_l2_item" = None ->
  let d2 := foldl (fun d eo => run_op eo.1 eo.2 d) d' ops in
  lock_poisoned d2 = false ->
  exists row, read_l2_item env' (lw_id w) d2 = (d2, Ok (Some row))
    /\ l2_data row = lw_data w /\ l2_checksum row = Some (sha256_hex (lw_data w))
    /\ l2_item_type row = lw_item_type w /\ l2_group_id row = lw_group_id w
    /\ l2_author_id row = lw_author_id w /\ l2_visibility row = lw_visibility w
    /\ l2_key_version row = lw_key_version w /\ l2_parent_id row = lw_parent_id w
    /\ l2_is_copy row = lw_is_copy w
    /\ l2_updated_at row = default (sql_now env) (lw_updated_at w)
    /\ l2_created_at row = match l2_items d !! lw_id w with Some old => l2_created_at old | None => sql_now env end.
Proof.
  intros Hw Hops Hf d2 Hlock. exists (upsert_row (sql_now env) w (l2_items d !! lw_id w)).
  split; [|split_and!; done]. unfold read_l2_item. rewrite with_lock by done.
  apply stmt_ok; [done|]. do 2 f_equal. change (item_at (lw_id w) (Some (upsert_row (sql_now env) w (l2_items d !! lw_id w))) d2).
  assert (item_at (lw_id w) (Some (upsert_row (sql_now env) w (l2_items d !! lw_id w))) d') as Hd'.
  { unfold write_l2_item in Hw. inv_ok Hw. case_all. unfold item_at. simpl. by rewrite lookup_insert_eq. }
  clear Hw Hlock. revert d' Hd' d2. induction ops as [|[env0 op] ops IH]; intros d' Hd'; simpl; [done|].
  apply IH; [intros eo Heo; apply Hops; by right|]. apply run_op_frame; [|done].
  apply (Hops (env0, op)). left.
Qed.

(** Paging through a group: the listing that answers a sync request returns
    headers of items of that group newer than [since], oldest first, as many as
    there are or as the limit allows, and never skips an item to return a newer
    one. *)
Theorem list_group_items_spec `{HashIter} env gid since limit d hs d' :
  list_group_items env gid since limit d = (d', Ok hs) ->
  d' = d /\ exists rows, hs = header_of <$> rows
    /\ StronglySorted (fun r r' => str_le (l2_updated_at r) (l2_updated_at r') = true) rows
    /\ length rows = Nat.min (Z.to_nat limit) (map_count (in_group_since gid since) (l2_items d))
    /\ (forall r, r ∈ rows -> in_group_since gid since r = true /\ exists id, l2_items d !! id = Some r)
    /\ (forall id r, l2_items d !! id = Some r -> in_group_since gid since r = true -> r ∉ rows ->
          forall r', r' ∈ rows -> str_le (l2_updated_at r') (l2_updated_at r) = true).
Proof.
  unfold list_group_items. intros Hl. inv_ok Hl. injection Hl as <- <-. split; [done|].
  exists (take (Z.to_nat limit) (group_rows gid since d)). split_and!; [done| | | |].
  - pose proof (sort_by_sorted updated_cmp (text_key_total l2_updated_at) (text_key_trans l2_updated_at)
      (filterb (in_group_since gid since) (values (l2_items d)))) as Hs.
    fold (group_rows gid since d) in Hs. rewrite <- (take_drop (Z.to_nat limit) (group_rows gid since d)) in Hs.
    apply StronglySorted_app_1_l in Hs. eapply StronglySorted_weaken; [|exact Hs].
    intros x y. apply str_cmp_le.
  - by rewrite length_take, length_group_rows.
  - intros r Hr. apply (elem_of_group_rows gid since d). by eapply elem_of_take_in.
  - intros id r Hr Hin Hnot r' Hr'. eapply group_rows_before; [exact Hr'|].
    assert (r ∈ group_rows gid since d) as Hel by (apply elem_of_group_rows; eauto).
    rewrite <- (take_drop (Z.to_nat limit)) in Hel. apply elem_of_app in Hel as [|]; done.
Qed.

Lemma get_membership_eq env gid u d :
  fault env "get_membership" = None -> lock_poisoned d = false ->
  get_membership env gid u d = (d, Ok match group_members d !! (gid, u) with
                                      | Some m => if not_removed m then Some m else None
                                      | None => None
                                      end).
Proof. intros Hf Hl. unfold get_membership. rewrite with_lock by done. by apply stmt_ok. Qed.

(** Soft deletion of members: after a removal the member is gone for every
    reader, but its row stays (with role and join date), no other membership
    changes, and adding the member again reactivates that row with the new role
    and the original join date. *)
Theorem member_soft_delete env gid u d d1 :
  remove_member env gid u d = (d1, Ok true) ->
  (forall env', fault env' "get_membership" = None -> get_membership env' gid u d1 = (d1, Ok None))
  /\ (forall env' d' ms, list_members env' gid d1 = (d', Ok ms) -> forall m, m ∈ ms ->
        not_removed m = true /\ exists k, group_members d1 !! k = Some m)
  /\ exists m, group_members d !! (gid, u) = Some m
       /\ group_members d1 = <[(gid, u) := set_posture "removed" m]> (group_members d)
       /\ forall env' role d2, add_member env' gid u role d1 = (d2, Ok tt) ->
            exists m', group_members d2 !! (gid, u) = Some m' /\ gm_posture m' = Some "active"%string
              /\ gm_role m' = role /\ gm_joined_at m' = gm_joined_at m.
Proof.
  unfold remove_member. intros Hr. inv_ok Hr.
  destruct (group_members d !! (gid, u)) as [m|] eqn:Hm; [|done].
  destruct (negb (not_removed m)) eqn:Hn; [done|]. destruct (posture_ok _ _) eqn:Hp; [|done].
  injection Hr as <-. split_and!.
  - intros env' Hf. rewrite get_membership_eq by done. simpl. by rewrite lookup_insert_eq.
  - intros env' d' ms Hl r Hin. unfold list_members in Hl. inv_ok Hl. injection Hl as <- <-.
    rewrite elem_of_sort_by, elem_of_filterb in Hin. destruct Hin as [[_ Hnr]%andb_prop Hin].
    split; [done|]. unfold member_rows in Hin. apply list_elem_of_fmap in Hin as ([k r'] & -> & Hin).
    exists k. by apply elem_of_map_to_list in Hin.
  - exists m. split; [done|]. split; [done|]. intros env' role d2 Ha.
    unfold add_member in Ha. inv_ok Ha. apply bind_ok in Ha as (d3 & [] & Hs & Ha).
    assert (group_members d3 = <[(gid, u):=set_posture "removed" m]> (group_members d)) as Hd3.
    { unfold ensure_l1_stub in Hs. inv_ok Hs. case_all; done. }
    inv_ok Ha. case_all. eexists. split; [apply lookup_insert_eq|]. rewrite Hd3, lookup_insert_eq. done.
Qed.

Lemma existsb_none {A} (P : A -> bool) l : (forall x, x ∈ l -> P x = false) -> existsb P l = false.
Proof.
  induction l as [|y l IH]; intros H; [done|]. simpl. rewrite (H y) by left. apply IH.
  intros x Hx. apply H. by right.
Qed.

(** Garbage collection of deleted groups is exact and never blocked by the
    foreign keys: it removes precisely the groups with the tombstone culture
    whose last update is older than the retention window, together with all
    their memberships, keeps every other group and membership, and returns how
    many groups it removed. *)
Theorem purge_exact env culture days d :
  lock_poisoned d = false -> fault env "purge_members" = None -> fault env "purge_groups" = None ->
  let gone := purgeable culture (sql_days_ago env days) in
  exists d', purge_deleted_groups env culture days d = (d', Ok (wrap_u32 (Z.of_nat (map_count gone (groups_t d)))))
    /\ (forall id g, groups_t d' !! id = Some g <-> groups_t d !! id = Some g /\ gone g = false)
    /\ (forall gid u m, group_members d' !! (gid, u) = Some m <->
          group_members d !! (gid, u) = Some m /\ (forall g, groups_t d !! gid = Some g -> gone g = false))
    /\ l2_items d' = l2_items d /\ l1_hot d' = l1_hot d.
Proof.
  intros Hl Hf1 Hf2 gone. unfold purge_deleted_groups. rewrite with_lock by done. cbv zeta.
  set (cutoff := sql_days_ago env days) in *. set (d1 := drop_members (group_purgeable culture cutoff d) d).
  unfold bind at 1. rewrite (stmt_ok _ _ _ d d1 tt) by done.
  set (d2 := set_groups_t (filter (fun kv => purgeable culture cutoff kv.2 = false) (groups_t d1)) d1).
  exists d2. split; [|split_and!; try done].
  - apply stmt_ok; [done|]. rewrite existsb_none; [done|]. intros [[g u] m] Hin.
    apply elem_of_map_to_list, map_lookup_filter_Some in Hin as [_ Hin]. done.
  - intros id g. simpl. by rewrite map_lookup_filter_Some.
  - intros gid u m. simpl. rewrite map_lookup_filter_Some. simpl. unfold group_purgeable.
    destruct (groups_t d !! gid) as [g|]; [|by split; [intros [? _] | intros [? _]]; split].
    split; [intros [? ?]; split; [done|]; by intros ? [= <-] | intros [? Hg]; split; [done | by apply Hg]].
Qed.

(** ** Opening *)

Definition no_fault (env : SqlEnv) : Prop := forall name, fault env name = None.

(** Opening a database migrates it: a database at version 4 to 7 comes out
    at version 7 with all its data, the devices table when it was there or the
    database was at version 4, and a schema that admits soft deletion and
    signatures if its version said so; an older one is refused with the version
    found. *)
Theorem open_migrates env d v :
  no_fault env -> lock_poisoned d = false -> sc_tables (schema d) = true ->
  sc_version (schema d) = Some (Some v) ->
  (4 <= v <= 7 -> exists d', open_db env d = Ok d' /\ same_data d d'
     /\ sc_version (schema d') = Some (Some 7)
     /\ sc_devices (schema d') = ((v =? 4) || sc_devices (schema d))
     /\ sc_owner_columns (schema d') = ((v <=? 5) || sc_owner_columns (schema d))
     /\ sc_removed_posture (schema d') = ((v <=? 6) || sc_removed_posture (schema d)))
  /\ (v < 4 -> open_db env d = Err (SchemaVersionMismatch 4 v)).
Proof.
  intros Hf Hl Ht Hv. unfold open_db, ensure_schema. split.
  - intros Hrange. assert (v = 4 \/ v = 5 \/ v = 6 \/ v = 7) as Hcases by lia.
    destruct d as [lp [ver tabs dev own rem] l1 l2 ix gr gm al dv]. simpl in *. subst lp tabs ver.
    unfold bind, db_lock, query, stmt. rewrite !Hf. simpl.
    destruct Hcases as [->|[->|[->| ->]]]; simpl; destruct own; simpl; rewrite ?orb_true_r;
      (eexists; split; [reflexivity|]); split_and!; done.
  - intros Hlt. destruct d as [lp [ver tabs dev own rem] l1 l2 ix gr gm al dv]. simpl in *. subst lp tabs ver.
    unfold bind, db_lock, query, stmt. rewrite !Hf. cbn -[Z.ltb].
    destruct (Z.ltb_spec v 4); [done | lia].
Qed.

(** [C37] A database that the node creates itself ends up without the devices
    table: the base schema already declares version 6, so the migration that
    creates the table is never run, and registering a device fails. *)
Theorem new_database_lacks_devices env env' dev :
  no_fault env -> no_fault env' ->
  exists d, open_db env empty_db = Ok d /\ sc_version (schema d) = Some (Some 7)
    /\ register_device env' dev d = (d, Err (Sqlite NoSuchTable)).
Proof.
  intros Hf Hf'. unfold open_db, ensure_schema, bind, db_lock, query, stmt. rewrite !Hf. simpl.
  eexists. split; [reflexivity|]. split; [done|].
  unfold register_device, device_stmt, bind, db_lock, stmt. simpl. by rewrite Hf'.
Qed.

(** ** Witnesses *)

Definition ex_env : SqlEnv :=
  {| sql_now := "2026-02-01 10:00:00"; sql_days_ago := fun _ => "2026-01-25 10:00:00"; fault := fun _ => None |}.

Definition ex_item (id ts : string) (data : bytes) : L2ItemWrite := {|
  lw_id := id; lw_item_type := "entity"; lw_data := data; lw_owner_id := None; lw_visibility := "group";
  lw_group_id := Some "g"%string; lw_author_id := Some "alice"%string; lw_key_version := 1;
  lw_parent_id := None; lw_is_copy := false; lw_updated_at := Some ts |}.

Definition ex_db : Db :=
  foldl (fun d op => @run_op toy_crypto ex_env op d) empty_db
    [OpEnsureSchema; OpWriteGroup "g" "G" "{}" "{}"; OpAddMember "g" "alice" "owner";
     OpWriteItem (ex_item "i1" "2026-01-02" [Byte.x01]); OpWriteItem (ex_item "i2" "2026-01-01" [Byte.x02]);
     OpWriteGroup "dead" "D" GROUP_TOMBSTONE_CULTURE "{}"; OpAddMember "dead" "alice" "member"]%string.

Definition later_env : SqlEnv :=
  {| sql_now := "2026-03-01 10:00:00"; sql_days_ago := fun _ => "2026-02-22 10:00:00"; fault := fun _ => None |}.

Lemma write_is_durable_witness :
  exists row, read_l2_item ex_env "i3"
      (@run_op toy_crypto ex_env (OpDeleteItem "i1") (@write_l2_item toy_crypto ex_env (ex_item "i3" "2026-01-03" [Byte.x03]) ex_db).1)
    = (@run_op toy_crypto ex_env (OpDeleteItem "i1") (@write_l2_item toy_crypto ex_env (ex_item "i3" "2026-01-03" [Byte.x03]) ex_db).1,
       Ok (Some row)) /\ l2_data row = [Byte.x03].
Proof.
  destruct (@write_is_durable toy_crypto ex_env (ex_item "i3" "2026-01-03" [Byte.x03]) ex_db
    (@write_l2_item toy_crypto ex_env (ex_item "i3" "2026-01-03" [Byte.x03]) ex_db).1
    [(ex_env, OpDeleteItem "i1")] ex_env) as (row & Hr & Hd & _).
  - vm_compute. reflexivity.
  - intros eo ->%list_elem_of_singleton. vm_compute. reflexivity.
  - reflexivity.
  - vm_compute. reflexivity.
  - exists row. split; [exact Hr | exact Hd].
Defined.

Lemma list_group_items_spec_witness :
  exists rows, (@list_group_items sorted_iter ex_env "g" None 10 ex_db).2 = Ok (header_of <$> rows)
    /\ length rows = 2%nat.
Proof.
  destruct (@list_group_items_spec sorted_iter ex_env "g" None 10 ex_db
    (header_of <$> take 10 (@group_rows sorted_iter "g" None ex_db)) ex_db) as (_ & rows & Hrows & _ & Hlen & _).
  - vm_compute. reflexivity.
  - exists rows. split; [rewrite <- Hrows; vm_compute; reflexivity | rewrite Hlen; vm_compute; reflexivity].
Defined.

Lemma member_soft_delete_witness :
  get_membership ex_env "g" "alice" (remove_member ex_env "g" "alice" ex_db).1
    = ((remove_member ex_env "g" "alice" ex_db).1, Ok None).
Proof.
  apply (member_soft_delete ex_env "g" "alice" ex_db); [vm_compute; reflexivity | reflexivity].
Defined.

Lemma purge_exact_witness :
  exists d', purge_deleted_groups later_env GROUP_TOMBSTONE_CULTURE 7 ex_db = (d', Ok 1)
    /\ groups_t d' !! "dead"%string = None.
Proof.
  destruct (purge_exact later_env GROUP_TOMBSTONE_CULTURE 7 ex_db) as (d' & Hp & Hg & _);
    [vm_compute; reflexivity | reflexivity | reflexivity |].
  exists d'. split; [rewrite Hp; vm_compute; reflexivity|].
  destruct (groups_t d' !! "dead"%string) as [g|] eqn:E; [|reflexivity].
  apply Hg in E as [E1 E2]. vm_compute in E1. injection E1 as <-. vm_compute in E2. discriminate E2.
Defined.

Lemma open_migrates_witness :
  exists d', open_db ex_env (set_schema {| sc_version := Some (Some 4); sc_tables := true; sc_devices := false;
      sc_owner_columns := false; sc_removed_posture := false |} ex_db) = Ok d' /\ sc_devices (schema d') = true.
Proof.
  edestruct (open_migrates ex_env (set_schema {| sc_version := Some (Some 4); sc_tables := true; sc_devices := false;
      sc_owner_columns := false; sc_removed_posture := false |} ex_db) 4) as [H _];
    [intros name; reflexivity | vm_compute; reflexivity | reflexivity | reflexivity |].
  destruct H as (d' & H1 & _ & _ & H2 & _); [lia|]. exists d'. split; [exact H1 | exact H2].
Defined.

Lemma new_database_lacks_devices_witness :
  exists d, open_db ex_env empty_db = Ok d.
Proof.
  edestruct (new_database_lacks_devices ex_env ex_env
    {| dv_device_id := "d"; dv_entity_id := "alice"; dv_device_name := None; dv_device_type := "node";
       dv_auth_token_hash := "h"; dv_created_at := ""; dv_last_seen_at := None; dv_revoked_at := None |})
    as (d & H & _); [intros name; reflexivity | intros name; reflexivity |].
  exists d. exact H.
Defined.
