(* ===== verification/Search.v ===== *)
(** * Full-text search of the store

    Models [SqliteStorage::fts_search]: the text of the user is cut at white
    space, every word is turned into a quoted phrase, and the phrases are handed
    to the FTS5 index with a row limit.  The index itself (tokeniser, ranking)
    is SQLite's and is a parameter: for a database, an expression and a limit,
    the identifiers in rank order, or the error of the engine.

    Text is UTF-8, byte by byte; white space is that of Unicode, as
    [str::trim] and [str::split_whitespace] use it. *)

From S2P Require Import Prelude Protocol Storage StorageProps.

(** ** White space *)

Definition ascii_space (n : nat) : bool := ((9 <=? n) && (n <=? 13) || (n =? 32))%nat.

(** The encodings of U+0085, U+00A0. *)
Definition space2 (a b : nat) : bool := ((a =? 194) && ((b =? 133) || (b =? 160)))%nat.

(** The encodings of U+1680, U+2000 to U+200A, U+2028, U+2029, U+202F, U+205F and U+3000. *)
Definition space3 (a b c : nat) : bool :=
  ((a =? 225) && (b =? 154) && (c =? 128)
   || (a =? 226) && (b =? 128)
      && ((128 <=? c) && (c <=? 138) || (c =? 168) || (c =? 169) || (c =? 175))
   || (a =? 226) && (b =? 129) && (c =? 159)
   || (a =? 227) && (b =? 128) && (c =? 128))%nat.

(** The rest of a text that starts with a white-space character. *)
Definition strip_space (s : string) : option string :=
  match s with
  | EmptyString => None
  | String a r =>
      if ascii_space (Ascii.nat_of_ascii a) then Some r
      else
        match r with
        | String b r2 =>
            if space2 (Ascii.nat_of_ascii a) (Ascii.nat_of_ascii b) then Some r2
            else
              match r2 with
              | String c r3 =>
                  if space3 (Ascii.nat_of_ascii a) (Ascii.nat_of_ascii b) (Ascii.nat_of_ascii c) then Some r3 else None
              | EmptyString => None
              end
        | EmptyString => None
        end
  end.

Lemma strip_space_shorter s r : strip_space s = Some r -> (String.length r < String.length s)%nat.
Proof.
  unfold strip_space. destruct s as [|a [|b [|c s]]]; cbn; intros H; case_all; simplify_eq; lia.
Qed.

(** The first word and what follows it; [fuel] is the length of the text. *)
Fixpoint take_word (fuel : nat) (s : string) : string * string :=
  match fuel, s with
  | S fuel, String a r =>
      match strip_space s with
      | Some _ => (EmptyString, s)
      | None => let '(w, rest) := take_word fuel r in (String a w, rest)
      end
  | _, _ => (EmptyString, s)
  end.

Fixpoint words_aux (fuel : nat) (s : string) : list string :=
  match fuel with
  | O => []
  | S fuel =>
      match s with
      | EmptyString => []
      | String a r =>
          match strip_space s with
          | Some rest => words_aux fuel rest
          | None => let '(w, rest) := take_word (String.length s) s in w :: words_aux fuel rest
          end
      end
  end.

(** [str::split_whitespace]: every step consumes a character at least. *)
Definition split_whitespace (s : string) : list string := words_aux (S (String.length s)) s.

(** [str::trim().is_empty()]: nothing but white space.  Trimming makes no
    difference to the words. *)
Fixpoint blank_aux (fuel : nat) (s : string) : bool :=
  match fuel, s with
  | _, EmptyString => true
  | S fuel, _ => match strip_space s with Some r => blank_aux fuel r | None => false end
  | O, _ => false
  end.

Definition trim_is_empty (s : string) : bool := blank_aux (String.length s) s.

(** ** The expression *)

Definition dquote : Ascii.ascii := Ascii.ascii_of_nat 34.

(** [t.replace] of the quote by nothing. *)
Fixpoint drop_quotes (s : string) : string :=
  match s with
  | EmptyString => EmptyString
  | String a r => if Ascii.eqb a dquote then drop_quotes r else String a (drop_quotes r)
  end.

Definition phrase (t : string) : string :=
  String dquote (String.append (drop_quotes t) (String dquote EmptyString)).

(** [words.join] with one space. *)
Fixpoint join_space (l : list string) : string :=
  match l with
  | [] => EmptyString
  | [w] => w
  | w :: l => String.append w (String (Ascii.ascii_of_nat 32) (join_space l))
  end.

Definition safe_query (query : string) : string :=
  join_space (phrase <$> filterb (fun t => negb (String.eqb t EmptyString)) (split_whitespace query)).

Section search.
(** [SELECT item_id FROM l2_fts WHERE l2_fts MATCH ?1 ORDER BY rank LIMIT ?2] *)
Context (fts_match : Db -> string -> Z -> result (list string) SqlError).

Definition fts_search (env : SqlEnv) (query : string) (limit : Z) : M (list string) :=
  if trim_is_empty query then ret []
  else
    let q := safe_query query in
    if String.eqb q EmptyString then ret []
    else
      let! _ := db_lock in
      stmt env "fts_search" (fun d => match fts_match d q limit with Ok ids => Ok (d, ids) | Err e => Err e end).

End search.

(** ** What the index is asked *)

(** FTS5's reading of a quoted phrase, after its opening quote: two quotes in a
    row stand for one, a single quote ends the phrase. *)
Fixpoint read_phrase (s : string) : option (string * string) :=
  match s with
  | EmptyString => None
  | String a r =>
      if Ascii.eqb a dquote then
        match r with
        | String b r2 =>
            if Ascii.eqb b dquote
            then match read_phrase r2 with Some (w, rest) => Some (String dquote w, rest) | None => None end
            else Some (EmptyString, r)
        | EmptyString => Some (EmptyString, EmptyString)
        end
      else match read_phrase r with Some (w, rest) => Some (String a w, rest) | None => None end
  end.

(** An expression that is a sequence of phrases and nothing else: no bare word, no
    operator, no column filter. *)
Fixpoint read_query (fuel : nat) (s : string) : option (list string) :=
  match fuel, s with
  | S fuel, String a r =>
      if Ascii.eqb a dquote then
        match read_phrase r with
        | Some (w, EmptyString) => Some [w]
        | Some (w, String b rest) =>
            if Ascii.eqb b (Ascii.ascii_of_nat 32) then cons w <$> read_query fuel rest else None
        | None => None
        end
      else None
  | _, _ => None
  end.

Fixpoint has_quote (s : string) : bool :=
  match s with EmptyString => false | String a r => Ascii.eqb a dquote || has_quote r end.

Lemma drop_quotes_free s : has_quote (drop_quotes s) = false.
Proof. induction s as [|a s IH]; cbn; [done|]. destruct (Ascii.eqb a dquote) eqn:E; cbn; by rewrite ?E. Qed.

Lemma append_cons a s t : String.append (String a s) t = String a (String.append s t).
Proof. done. Qed.

Lemma append_nil_l t : String.append EmptyString t = t.
Proof. done. Qed.

Lemma append_assoc (a b c : string) : String.append (String.append a b) c = String.append a (String.append b c).
Proof. induction a as [|x a IH]; [done|]. rewrite !append_cons. by f_equal. Qed.

(** A closing quote ends the phrase when no quote follows it. *)
Lemma read_phrase_close w rest :
  has_quote w = false -> (forall b r, rest = String b r -> Ascii.eqb b dquote = false) ->
  read_phrase (String.append w (String dquote rest)) = Some (w, rest).
Proof.
  intros Hw Hr. induction w as [|a w IH]; rewrite ?append_cons; cbn [read_phrase has_quote] in *.
  - rewrite append_nil_l. cbn [read_phrase]. rewrite Ascii.eqb_refl. destruct rest as [|b r]; [done|].
    by rewrite (Hr b r).
  - apply orb_false_iff in Hw as [-> Hw]. by rewrite (IH Hw).
Qed.

Lemma read_query_join (ts : list string) fuel :
  ts <> [] -> (length ts <= fuel)%nat -> read_query fuel (join_space (phrase <$> ts)) = Some (drop_quotes <$> ts).
Proof.
  revert fuel. induction ts as [|t ts IH]; intros fuel Hne Hf; [done|].
  destruct fuel as [|fuel]; cbn in Hf; [lia|].
  destruct ts as [|u ts].
  - change (join_space (phrase <$> [t]))
      with (String dquote (String.append (drop_quotes t) (String dquote EmptyString))).
    cbn [read_query]. by rewrite Ascii.eqb_refl, (read_phrase_close _ EmptyString (drop_quotes_free t)).
  - change (join_space (phrase <$> t :: u :: ts))
      with (String dquote (String.append (String.append (drop_quotes t) (String dquote EmptyString))
                             (String (Ascii.ascii_of_nat 32) (join_space (phrase <$> u :: ts))))).
    rewrite append_assoc, append_cons, append_nil_l. cbn [read_query]. rewrite Ascii.eqb_refl.
    rewrite read_phrase_close; [|apply drop_quotes_free|by intros b r [= <- _]].
    rewrite Ascii.eqb_refl, IH by (done || cbn in *; lia). done.
Qed.

(** ** Words *)

Lemma take_word_first a r fuel :
  strip_space (String a r) = None -> (0 < fuel)%nat -> exists w rest, take_word fuel (String a r) = (String a w, rest).
Proof. intros H Hf. destruct fuel as [|fuel]; [lia|]. cbn [take_word]. rewrite H. case_match. eauto. Qed.

Lemma take_word_length fuel s : (String.length (take_word fuel s).2 <= String.length s)%nat.
Proof.
  revert s; induction fuel as [|fuel IH]; intros [|a r]; cbn [take_word]; try done.
  destruct (strip_space (String a r)); [done|]. specialize (IH r). destruct (take_word fuel r). cbn in *. lia.
Qed.

Lemma words_nonempty fuel s w : w ∈ words_aux fuel s -> w <> EmptyString.
Proof.
  revert s; induction fuel as [|fuel IH]; intros s Hw; [by apply not_elem_of_nil in Hw|].
  destruct s as [|a r]; [by apply not_elem_of_nil in Hw|]. cbn [words_aux] in Hw.
  destruct (strip_space (String a r)) as [rest|] eqn:E; [eauto|].
  destruct (take_word_first a r (String.length (String a r)) E) as (v & rest & Hv); [cbn; lia|].
  rewrite Hv in Hw. apply elem_of_cons in Hw as [->|Hw]; [done|eauto].
Qed.

(** A text has words unless it is blank. *)
Lemma words_blank fuel fuel' s :
  (String.length s <= fuel)%nat -> (String.length s < fuel')%nat ->
  blank_aux fuel s = bool_decide (words_aux fuel' s = []).
Proof.
  revert fuel' s; induction fuel as [|fuel IH]; intros fuel' s Hf Hf'; destruct s as [|a r].
  - destruct fuel'; [cbn in *; lia|done].
  - cbn in Hf. lia.
  - destruct fuel'; [cbn in *; lia|done].
  - destruct fuel' as [|fuel']; [cbn in *; lia|]. cbn [blank_aux words_aux].
    destruct (strip_space (String a r)) as [rest|] eqn:E.
    + apply IH; apply strip_space_shorter in E; lia.
    + case_match. symmetry. by apply bool_decide_eq_false.
Qed.

Lemma trim_is_empty_words q : trim_is_empty q = bool_decide (split_whitespace q = []).
Proof. apply words_blank; lia. Qed.

Lemma safe_query_words q : safe_query q = join_space (phrase <$> split_whitespace q).
Proof.
  unfold safe_query. do 2 f_equal. apply filterb_true. intros w Hw.
  apply words_nonempty in Hw. by destruct w.
Qed.
