(* ===== verification/Json.v ===== *)
(** * JSON values and the texts of the API

    The values that [serde_json::json!] and the derived serialisers of the row
    types build, and the number formatting of [format_bytes].  Members of an
    object are listed in the order of the source; the order on the wire is the
    serialiser's.  [serde_json]'s text form and base64 are third-party code and
    enter as [WireFormats]. *)

From S2P Require Import Prelude Float64 Protocol Storage.
From Stdlib Require Import SpecFloat.
From stdpp Require Import pretty.
#[local] Open Scope Z_scope.

#[warnings="-register-all"]
Inductive Value :=
| Null
| Bool (b : bool)
| Number (n : Z)
| Float (x : f64)
| Str (s : string)
| Array (l : list Value)
| Object (members : list (string * Value)).

Definition json_opt {A} (f : A -> Value) (o : option A) : Value :=
  match o with Some a => f a | None => Null end.

Definition json_strs (l : list string) : Value := Array (Str <$> l).

(** What the code uses of third-party formats: [serde_json::to_vec] and
    [from_slice] on values, base64's standard alphabet, and the text of an SQLite error. *)
Class WireFormats := {
  json_to_vec : Value -> result bytes string;
  json_from_slice : bytes -> option Value;
  base64_encode : bytes -> string;
  sqlite_error_text : SqlError -> string;
}.

(** ** Rows *)

Definition group_json (g : GroupRow) : Value := Object [
  ("id", Str (gr_id g));
  ("name", Str (gr_name g));
  ("culture", Str (gr_culture g));
  ("security_policy", Str (gr_security_policy g));
  ("created_at", Str (gr_created_at g));
  ("updated_at", Str (gr_updated_at g));
  ("owner_id", json_opt Str (gr_owner_id g));
  ("owner_pubkey", json_opt Str (gr_owner_pubkey g));
  ("signature", json_opt Str (gr_signature g))]%string.

Definition member_json (m : GroupMemberRow) : Value := Object [
  ("group_id", Str (gm_group_id m));
  ("entity_id", Str (gm_entity_id m));
  ("role", Str (gm_role m));
  ("posture", json_opt Str (gm_posture m));
  ("joined_at", Str (gm_joined_at m))]%string.

Definition header_json (h : ItemHeader) : Value := Object [
  ("item_id", Str (ih_item_id h));
  ("item_type", Str (ih_item_type h));
  ("checksum", Str (ih_checksum h));
  ("updated_at", Str (ih_updated_at h));
  ("author_id", Str (ih_author_id h));
  ("is_deletion", Bool (ih_is_deletion h))]%string.

(** [StorageError::to_string] *)
Definition storage_error_text `{WireFormats} (e : StorageError) : string :=
  match e with
  | Sqlite e => "sqlite error: " +:+ sqlite_error_text e
  | Io t => "io error: " +:+ t
  | SchemaVersionMismatch expected found =>
      "schema version mismatch: expected " +:+ pretty expected +:+ ", found " +:+ pretty found
  | LockPoisoned => "lock poisoned"
  end.

(** ** [format_bytes] *)

Definition KB : Z := 1024.
Definition MB : Z := 1024 * 1024.
Definition GB : Z := 1024 * 1024 * 1024.

(** Division rounded to the nearest, ties to even. *)
Definition div_half_even (n d : Z) : Z :=
  let q := n / d in
  let r := n mod d in
  match 2 * r ?= d with
  | Lt => q
  | Gt => q + 1
  | Eq => if Z.even q then q else q + 1
  end.

(** Ten times a finite non-negative float, rounded as [{:.1}] rounds. *)
Definition tenths (x : f64) : Z :=
  match x with
  | S754_finite false m e =>
      if 0 <=? e then 10 * (Zpos m * 2 ^ e) else div_half_even (10 * Zpos m) (2 ^ (- e))
  | _ => 0
  end.

(** [format!("{:.1}", x)] *)
Definition format_1 (x : f64) : string :=
  pretty (tenths x / 10) +:+ "." +:+ pretty (tenths x mod 10).

Definition unit_text (bytes unit : Z) (suffix : string) : string :=
  format_1 (f64_div (f64_of_Z bytes) (f64_of_Z unit)) +:+ suffix.

Definition format_bytes (bytes : Z) : string :=
  if GB <=? bytes then unit_text bytes GB " GB"
  else if MB <=? bytes then unit_text bytes MB " MB"
  else if KB <=? bytes then unit_text bytes KB " KB"
  else pretty bytes +:+ " B".

Example format_bytes_test :
  format_bytes <$> [0; 1023; 1024; 1536; 1048575; 1048576; 5767168; 1610612736]
  = ["0 B"; "1023 B"; "1.0 KB"; "1.5 KB"; "1024.0 KB"; "1.0 MB"; "5.5 MB"; "1.5 GB"]%string.
Proof. by vm_compute. Qed.
