(* ===== verification/Wire.v ===== *)
(** * The wire format

    Every mini-protocol exchanges JSON documents ([request_response::json] in
    swarm_task.rs), written and read by the serialisers that [serde] derives
    from the message types of [cordelia-protocol/src/messages.rs] and from the
    attributes there ([default], [skip_serializing_if], [with = "base64_bytes"]).
    A [Codec] is such a pair on JSON values; the text form of a value is
    [serde_json]'s.  Reading follows the derived code: members may come in any
    order, unknown ones are ignored, a repeated or missing one is an error
    unless it has a default or is an [Option]; an array with the fields in the
    order of the declaration is read too; numbers must fit their type. *)

From S2P Require Import Prelude Protocol Base64 Storage Json.

Record Codec (A : Type) := { enc : A -> Value; dec : Value -> option A }.
Arguments enc {A} _ _.
Arguments dec {A} _ _.
Arguments Build_Codec {A} _ _.

(** ** Basic types *)

Definition text : Codec string :=
  {| enc := Str; dec v := match v with Str s => Some s | _ => None end |}.

Definition boolean : Codec bool :=
  {| enc := Bool; dec v := match v with Bool b => Some b | _ => None end |}.

(** An unsigned integer of [w] bits. *)
Definition unsigned (w : Z) : Codec Z :=
  {| enc := Number; dec v := match v with Number n => if (0 <=? n) && (n <? 2 ^ w) then Some n else None | _ => None end |}.

Definition u16 : Codec Z := unsigned 16.
Definition u32 : Codec Z := unsigned 32.
Definition u64 : Codec Z := unsigned 64.

Definition option_of {A} (c : Codec A) : Codec (option A) :=
  {| enc := json_opt (enc c); dec v := match v with Null => Some None | _ => Some <$> dec c v end |}.

Definition vec_of {A} (c : Codec A) : Codec (list A) :=
  {| enc l := Array (enc c <$> l); dec v := match v with Array l => mapM (dec c) l | _ => None end |}.

(** [mod base64_bytes] *)
Definition base64_bytes `{Base64} : Codec bytes :=
  {| enc b := Str (base64_enc b); dec v := match v with Str s => base64_dec s | _ => None end |}.

(** ** Structs *)

(** A field: what a missing member and a missing element of an array give, and
    which values are not written. *)
Record Field (A : Type) := {
  fd_codec : Codec A;
  fd_no_member : option A;
  fd_no_element : option A;
  fd_skip : A -> bool;
}.
Arguments fd_codec {A} _.
Arguments fd_no_member {A} _.
Arguments fd_no_element {A} _.
Arguments fd_skip {A} _ _.

Definition required {A} (c : Codec A) : Field A :=
  {| fd_codec := c; fd_no_member := None; fd_no_element := None; fd_skip _ := false |}.

(** A field of type [Option] without attributes. *)
Definition optional {A} (c : Codec A) : Field (option A) :=
  {| fd_codec := option_of c; fd_no_member := Some None; fd_no_element := None; fd_skip _ := false |}.

(** [#[serde(default)]] *)
Definition defaulted {A} (d : A) (c : Codec A) : Field A :=
  {| fd_codec := c; fd_no_member := Some d; fd_no_element := Some d; fd_skip _ := false |}.

(** [#[serde(default, skip_serializing_if = "Option::is_none")]] *)
Definition skipped {A} (c : Codec A) : Field (option A) :=
  {| fd_codec := option_of c; fd_no_member := Some None; fd_no_element := Some None;
     fd_skip o := match o with None => true | Some _ => false end |}.

Inductive Source := Members (ms : list (string * Value)) | Elements (vs : list Value).

Definition Reader (A : Type) : Type := Source -> option (A * Source).

Definition members_named (name : string) (ms : list (string * Value)) : list Value :=
  omap (fun kv => if String.eqb kv.1 name then Some kv.2 else None) ms.

Definition read {A} (name : string) (f : Field A) : Reader A := fun s =>
  match s with
  | Members ms =>
      (fun a => (a, s)) <$>
      match members_named name ms with
      | [] => fd_no_member f
      | [v] => dec (fd_codec f) v
      | _ => None
      end
  | Elements [] => (fun a => (a, s)) <$> fd_no_element f
  | Elements (v :: vs) => (fun a => (a, Elements vs)) <$> dec (fd_codec f) v
  end.

Definition pure {A} (a : A) : Reader A := fun s => Some (a, s).

Definition then_read {A B} (m : Reader A) (k : A -> Reader B) : Reader B := fun s =>
  match m s with Some (a, s') => k a s' | None => None end.

Declare Scope wire_scope.
Delimit Scope wire_scope with wire.
#[local] Open Scope wire_scope.

Notation "'get' x := m 'in' k" := (then_read m (fun x => k))
  (at level 10, x name, m at level 200, k at level 200) : wire_scope.

Definition write {A} (name : string) (f : Field A) (a : A) : list (string * Value) :=
  if fd_skip f a then [] else [(name, enc (fd_codec f) a)].

(** Elements that nobody asked for are an error. *)
Definition finished (s : Source) : bool := match s with Elements (_ :: _) => false | _ => true end.

Definition read_all {A} (r : Reader A) (s : Source) : option A :=
  match r s with
  | Some (a, s') => if finished s' then Some a else None
  | None => None
  end.

Definition struct {A} (w : A -> list (string * Value)) (r : Reader A) : Codec A := {|
  enc a := Object (w a);
  dec v := match v with
           | Object ms => read_all r (Members ms)
           | Array vs => read_all r (Elements vs)
           | _ => None
           end;
|}.

(** ** Messages *)

Definition peer_share_request : Codec PeerShareRequest :=
  struct (fun r => write "max_peers" (required u16) (psr_max_peers r))
    (get n := read "max_peers" (required u16) in pure {| psr_max_peers := n |}).

Definition peer_address_msg : Codec PeerAddress :=
  struct (fun p =>
      write "peer_id" (required text) (pa_peer_id p) ++ write "addrs" (required (vec_of text)) (pa_addrs p) ++
      write "last_seen" (required u64) (pa_last_seen p) ++ write "groups" (required (vec_of text)) (pa_groups p) ++
      write "role" (defaulted EmptyString text) (pa_role p))
    (get id := read "peer_id" (required text) in
     get addrs := read "addrs" (required (vec_of text)) in
     get seen := read "last_seen" (required u64) in
     get groups := read "groups" (required (vec_of text)) in
     get role := read "role" (defaulted EmptyString text) in
     pure {| pa_peer_id := id; pa_addrs := addrs; pa_last_seen := seen; pa_groups := groups; pa_role := role |}).

(** [PeerShareResponse] has the one field [peers]. *)
Definition peer_share_response : Codec (list PeerAddress) :=
  struct (write "peers" (required (vec_of peer_address_msg))) (read "peers" (required (vec_of peer_address_msg))).

Definition sync_request : Codec SyncRequest :=
  struct (fun r =>
      write "group_id" (required text) (sr_group_id r) ++ write "since" (optional text) (sr_since r) ++
      write "limit" (required u32) (sr_limit r))
    (get gid := read "group_id" (required text) in
     get since := read "since" (optional text) in
     get limit := read "limit" (required u32) in
     pure {| sr_group_id := gid; sr_since := since; sr_limit := limit |}).

Definition item_header : Codec ItemHeader :=
  struct (fun h =>
      write "item_id" (required text) (ih_item_id h) ++ write "item_type" (required text) (ih_item_type h) ++
      write "checksum" (required text) (ih_checksum h) ++ write "updated_at" (required text) (ih_updated_at h) ++
      write "author_id" (required text) (ih_author_id h) ++ write "is_deletion" (required boolean) (ih_is_deletion h))
    (get id := read "item_id" (required text) in
     get ty := read "item_type" (required text) in
     get sum := read "checksum" (required text) in
     get ts := read "updated_at" (required text) in
     get author := read "author_id" (required text) in
     get del := read "is_deletion" (required boolean) in
     pure {| ih_item_id := id; ih_item_type := ty; ih_checksum := sum; ih_updated_at := ts; ih_author_id := author;
             ih_is_deletion := del |}).

Definition sync_response : Codec SyncResponse :=
  struct (fun r =>
      write "items" (required (vec_of item_header)) (srs_items r) ++ write "has_more" (required boolean) (srs_has_more r))
    (get items := read "items" (required (vec_of item_header)) in
     get more := read "has_more" (required boolean) in
     pure {| srs_items := items; srs_has_more := more |}).

Definition fetch_request : Codec FetchRequest :=
  struct (fun r => write "item_ids" (required (vec_of text)) (fr_item_ids r))
    (get ids := read "item_ids" (required (vec_of text)) in pure {| fr_item_ids := ids |}).

Definition group_descriptor : Codec GroupDescriptor :=
  struct (fun d =>
      write "id" (required text) (gd_id d) ++ write "culture" (required text) (gd_culture d) ++
      write "updated_at" (required text) (gd_updated_at d) ++ write "checksum" (required text) (gd_checksum d) ++
      write "owner_id" (skipped text) (gd_owner_id d) ++ write "owner_pubkey" (skipped text) (gd_owner_pubkey d) ++
      write "signature" (skipped text) (gd_signature d))
    (get id := read "id" (required text) in
     get culture := read "culture" (required text) in
     get ts := read "updated_at" (required text) in
     get sum := read "checksum" (required text) in
     get owner := read "owner_id" (skipped text) in
     get pk := read "owner_pubkey" (skipped text) in
     get sig := read "signature" (skipped text) in
     pure {| gd_id := id; gd_culture := culture; gd_updated_at := ts; gd_checksum := sum; gd_owner_id := owner;
             gd_owner_pubkey := pk; gd_signature := sig |}).

(** The field [descriptors] of both directions of the exchange. *)
Definition descriptors_field : Field (option (list GroupDescriptor)) :=
  defaulted None (option_of (vec_of group_descriptor)).

Definition group_exchange : Codec GroupExchange :=
  struct (fun x =>
      write "groups" (required (vec_of text)) (gx_groups x) ++ write "descriptors" descriptors_field (gx_descriptors x))
    (get groups := read "groups" (required (vec_of text)) in
     get descs := read "descriptors" descriptors_field in
     pure {| gx_groups := groups; gx_descriptors := descs |}).

Definition group_exchange_response : Codec GroupExchangeResponse :=
  struct (fun x =>
      write "groups" (required (vec_of text)) (gxr_groups x) ++ write "descriptors" descriptors_field (gxr_descriptors x))
    (get groups := read "groups" (required (vec_of text)) in
     get descs := read "descriptors" descriptors_field in
     pure {| gxr_groups := groups; gxr_descriptors := descs |}).

Definition push_ack : Codec PushAck :=
  struct (fun a => write "stored" (required u32) (ack_stored a) ++ write "rejected" (required u32) (ack_rejected a))
    (get stored := read "stored" (required u32) in
     get rejected := read "rejected" (required u32) in
     pure {| ack_stored := stored; ack_rejected := rejected |}).

Section items.
Context `{B64 : Base64}.

Definition fetched_item : Codec FetchedItem :=
  struct (fun x =>
      write "item_id" (required text) (fi_item_id x) ++ write "item_type" (required text) (fi_item_type x) ++
      write "encrypted_blob" (required base64_bytes) (fi_encrypted_blob x) ++ write "checksum" (required text) (fi_checksum x) ++
      write "author_id" (required text) (fi_author_id x) ++ write "group_id" (required text) (fi_group_id x) ++
      write "key_version" (required u32) (fi_key_version x) ++ write "parent_id" (optional text) (fi_parent_id x) ++
      write "is_copy" (required boolean) (fi_is_copy x) ++ write "updated_at" (required text) (fi_updated_at x))
    (get id := read "item_id" (required text) in
     get ty := read "item_type" (required text) in
     get blob := read "encrypted_blob" (required base64_bytes) in
     get sum := read "checksum" (required text) in
     get author := read "author_id" (required text) in
     get gid := read "group_id" (required text) in
     get kv := read "key_version" (required u32) in
     get parent := read "parent_id" (optional text) in
     get copy := read "is_copy" (required boolean) in
     get ts := read "updated_at" (required text) in
     pure {| fi_item_id := id; fi_item_type := ty; fi_encrypted_blob := blob; fi_checksum := sum; fi_author_id := author;
             fi_group_id := gid; fi_key_version := kv; fi_parent_id := parent; fi_is_copy := copy; fi_updated_at := ts |}).

Definition fetch_response : Codec FetchResponse :=
  struct (fun r => write "items" (required (vec_of fetched_item)) (frs_items r))
    (get items := read "items" (required (vec_of fetched_item)) in pure {| frs_items := items |}).

Definition memory_push_request : Codec MemoryPushRequest :=
  struct (fun r => write "items" (required (vec_of fetched_item)) (mpr_items r))
    (get items := read "items" (required (vec_of fetched_item)) in pure {| mpr_items := items |}).

End items.

(** ** Round trips *)

Create HintDb codec.

(** Reading gives back what was written, for the values that [ok] admits. *)
Definition exact {A} (c : Codec A) (ok : A -> Prop) : Prop := forall a, ok a -> dec c (enc c a) = Some a.

(** Written values are told apart from a missing [Option]. *)
Definition not_null {A} (c : Codec A) : Prop := forall a, enc c a <> Null.

Lemma text_exact s : dec text (enc text s) = Some s.
Proof. done. Qed.

Lemma boolean_exact b : dec boolean (enc boolean b) = Some b.
Proof. done. Qed.

Lemma unsigned_exact w n : 0 <= n < 2 ^ w -> dec (unsigned w) (enc (unsigned w) n) = Some n.
Proof. intros [H1%Z.leb_le H2%Z.ltb_lt]. cbn [enc dec unsigned]. by rewrite H1, H2. Qed.

Lemma option_of_exact {A} (c : Codec A) ok o :
  exact c ok -> not_null c -> from_option ok True o -> dec (option_of c) (enc (option_of c) o) = Some o.
Proof.
  intros Hc Hn. destruct o as [a|]; [|done]. cbn [from_option]. intros Ha. cbn [enc dec option_of json_opt]. specialize (Hc a Ha).
  specialize (Hn a). destruct (enc c a); [done|by rewrite Hc..].
Qed.

Lemma vec_of_exact {A} (c : Codec A) ok l : exact c ok -> Forall ok l -> dec (vec_of c) (enc (vec_of c) l) = Some l.
Proof.
  intros Hc Hl. cbn [enc dec vec_of]. induction Hl as [|a l Ha Hl IH]; [done|]. cbn. rewrite (Hc a Ha). cbn. by rewrite IH.
Qed.

Lemma vec_text_exact l : dec (vec_of text) (enc (vec_of text) l) = Some l.
Proof. apply (vec_of_exact text (fun _ => True)); [done|]. by apply Forall_true. Qed.

Lemma option_text_exact o : dec (option_of text) (enc (option_of text) o) = Some o.
Proof. by destruct o. Qed.

Lemma base64_bytes_exact `{Base64Laws} b : dec base64_bytes (enc base64_bytes b) = Some b.
Proof. apply base64_roundtrip. Qed.

#[export] Hint Extern 1 (0 <= _ < _) => assumption : codec.
#[export] Hint Resolve text_exact boolean_exact vec_text_exact option_text_exact base64_bytes_exact unsigned_exact : codec.

(** One member of a struct: it is there once, or it was left out and has a default. *)
Lemma read_member {A B} name (f : Field A) (k : A -> Reader B) ms v a :
  members_named name ms = [v] -> dec (fd_codec f) v = Some a -> then_read (read name f) k (Members ms) = k a (Members ms).
Proof. intros Hm Hd. unfold then_read, read. by rewrite Hm, Hd. Qed.

Lemma read_absent {A B} name (f : Field A) (k : A -> Reader B) ms a :
  members_named name ms = [] -> fd_no_member f = Some a -> then_read (read name f) k (Members ms) = k a (Members ms).
Proof. intros Hm Hd. unfold then_read, read. by rewrite Hm, Hd. Qed.

Ltac member_exact :=
  cbn [snd fd_codec required optional defaulted skipped descriptors_field]; unfold u16, u32, u64; solve [eauto with codec].

(** The members of a struct one after the other. *)
Ltac read_members :=
  lazymatch goal with |- dec ?c (enc ?c _) = _ => lazymatch c with ?f _ => unfold f | _ => unfold c end end; cbn [enc dec struct]; unfold read_all;
  repeat (first [erewrite read_member; [|reflexivity|member_exact] | erewrite read_absent; [|reflexivity|reflexivity]]; cbv beta);
  try reflexivity.

Definition peer_share_request_ok (r : PeerShareRequest) : Prop := 0 <= psr_max_peers r < 2 ^ 16.
Definition peer_address_ok (p : PeerAddress) : Prop := 0 <= pa_last_seen p < 2 ^ 64.
Definition sync_request_ok (r : SyncRequest) : Prop := 0 <= sr_limit r < 2 ^ 32.
Definition fetched_item_ok (x : FetchedItem) : Prop := 0 <= fi_key_version x < 2 ^ 32.
Definition push_ack_ok (a : PushAck) : Prop := 0 <= ack_stored a < 2 ^ 32 /\ 0 <= ack_rejected a < 2 ^ 32.

Lemma peer_share_request_exact : exact peer_share_request peer_share_request_ok.
Proof. intros [n] Hn. read_members. Qed.

Lemma peer_address_exact : exact peer_address_msg peer_address_ok.
Proof. intros [id addrs seen groups role] Hseen. read_members. Qed.

Lemma sync_request_exact : exact sync_request sync_request_ok.
Proof. intros [gid since limit] Hl. read_members. Qed.

Lemma item_header_exact : exact item_header (fun _ => True).
Proof. intros [id ty sum ts author del] _. read_members. Qed.

Lemma fetch_request_exact : exact fetch_request (fun _ => True).
Proof. intros [ids] _. read_members. Qed.

Lemma push_ack_exact : exact push_ack push_ack_ok.
Proof. intros [st rej] [Hs Hr]. read_members. Qed.

Lemma group_descriptor_exact : exact group_descriptor (fun _ => True).
Proof. intros [id culture ts sum [owner|] [pk|] [sig|]] _; read_members. Qed.

Lemma item_headers_exact l : dec (vec_of item_header) (enc (vec_of item_header) l) = Some l.
Proof. apply (vec_of_exact _ _ _ item_header_exact). by apply Forall_true. Qed.

Lemma descriptors_exact o : dec (option_of (vec_of group_descriptor)) (enc (option_of (vec_of group_descriptor)) o) = Some o.
Proof.
  apply (option_of_exact _ (fun _ => True)); [|done|by destruct o].
  intros l _. apply (vec_of_exact _ _ _ group_descriptor_exact). by apply Forall_true.
Qed.

#[export] Hint Resolve item_headers_exact descriptors_exact : codec.

Lemma sync_response_exact : exact sync_response (fun _ => True).
Proof. intros [items more] _. read_members. Qed.

Lemma group_exchange_exact : exact group_exchange (fun _ => True).
Proof. intros [groups descs] _. read_members. Qed.

Lemma group_exchange_response_exact : exact group_exchange_response (fun _ => True).
Proof. intros [groups descs] _. read_members. Qed.

Section items_exact.
Context `{B64 : Base64} `{BL : !Base64Laws}.

Lemma fetched_item_exact : exact fetched_item fetched_item_ok.
Proof. intros [id ty blob sum author gid kv parent copy ts] Hkv. unfold fetched_item_ok in Hkv. read_members. Qed.

Lemma fetched_items_exact l :
  Forall fetched_item_ok l -> dec (vec_of fetched_item) (enc (vec_of fetched_item) l) = Some l.
Proof. apply (vec_of_exact _ _ _ fetched_item_exact). Qed.

Hint Resolve fetched_items_exact : codec.
Hint Extern 1 (Forall _ _) => assumption : codec.

Lemma fetch_response_exact : exact fetch_response (fun r => Forall fetched_item_ok (frs_items r)).
Proof. intros [items] Hi. read_members. Qed.

Lemma memory_push_request_exact : exact memory_push_request (fun r => Forall fetched_item_ok (mpr_items r)).
Proof. intros [items] Hi. read_members. Qed.

End items_exact.

Lemma peer_share_response_exact : exact peer_share_response (Forall peer_address_ok).
Proof.
  intros l Hl. pose proof (vec_of_exact _ _ l peer_address_exact Hl) as Hv.
  unfold peer_share_response. cbn [enc dec struct]. unfold read_all, read.
  replace (members_named "peers" (write "peers" (required (vec_of peer_address_msg)) l)) with [enc (vec_of peer_address_msg) l] by done.
  cbn [fd_codec required]. by rewrite Hv.
Qed.
