(* ===== verification/Envelope.v ===== *)
(** * The encryption envelope and the node's key file

    Models [crates/cordelia-crypto]: the AES-256-GCM provider and its payload
    format ([lib.rs]), and the loading, creation and conversion of the node's
    Ed25519 key ([identity.rs]).  AES-GCM, scrypt, base64, the key parsers of
    ring and libp2p and the random generator are third-party code: they are the
    operations of [CryptoLib] and [KeyLib], and what the envelope relies on is
    [AeadLaws], the documented behaviour of the cipher and of base64. *)

From S2P Require Import Prelude Float64 Protocol Storage Json.

(** ** Constants and errors *)

Definition SCRYPT_LOG_N : Z := 14.
Definition SCRYPT_R : Z := 8.
Definition SCRYPT_P : Z := 1.
Definition KEY_LENGTH : nat := 32.
Definition SALT_LENGTH : nat := 32.
Definition IV_LENGTH : nat := 12.
(** [AES_256_GCM.tag_len()] *)
Definition TAG_LEN : nat := 16.

Inductive CryptoError :=
| EncryptionFailed (text : string)
| DecryptionFailed
| UnsupportedVersion (version : Z)
| KeyDerivationFailed (text : string)
| Base64Error (text : string)
| IdentityError (text : string)
| IoError (text : string).

Record EncryptedPayload := {
  ep_encrypted : bool;
  ep_version : Z;
  ep_iv : string;
  ep_auth_tag : string;
  ep_ciphertext : string;
}.

(** The derived serialisation. *)
Definition payload_json (p : EncryptedPayload) : Value := Object [
  ("_encrypted", Bool (ep_encrypted p));
  ("version", Number (ep_version p));
  ("iv", Str (ep_iv p));
  ("authTag", Str (ep_auth_tag p));
  ("ciphertext", Str (ep_ciphertext p))]%string.

(** [Value::get] with a text index. *)
Definition value_get (key : string) (v : Value) : option Value :=
  match v with
  | Object members => (fun kv => kv.2) <$> find (fun kv => String.eqb kv.1 key) members
  | _ => None
  end.

Definition is_str (v : option Value) : bool := match v with Some (Str _) => true | _ => false end.

Definition is_encrypted (v : Value) : bool :=
  match value_get "_encrypted" v with Some (Bool true) => true | _ => false end
  && match value_get "version" v with Some (Number n) => n =? 1 | _ => false end
  && is_str (value_get "iv" v)
  && is_str (value_get "authTag" v)
  && is_str (value_get "ciphertext" v).

(** ** Third-party code *)

Class CryptoLib := {
  (** [scrypt::Params::new] and [scrypt::scrypt] *)
  scrypt_params : Z -> Z -> Z -> nat -> result unit string;
  scrypt : bytes -> bytes -> Z -> Z -> Z -> nat -> result bytes string;
  (** [UnboundKey::new(&AES_256_GCM, _)] *)
  unbound_key : bytes -> option bytes;
  (** [seal_in_place_append_tag] and [open_in_place] with empty additional data *)
  seal : bytes -> bytes -> bytes -> option bytes;
  open : bytes -> bytes -> bytes -> option bytes;
  b64_encode : bytes -> string;
  b64_decode : string -> result bytes string;
}.

(** ** The provider *)

Record Aes256GcmProvider := { key : option bytes }.

Definition provider_new : Aes256GcmProvider := {| key := None |}.

(** [generate_salt]: the bytes that the generator fills the salt with; the code panics
    ([None]) when it fails. *)
Definition generate_salt (fill : nat -> option bytes) : option bytes := fill SALT_LENGTH.

Section provider.
Context `{CL : CryptoLib}.

Definition derive_key (passphrase salt : bytes) : result bytes CryptoError :=
  match scrypt_params SCRYPT_LOG_N SCRYPT_R SCRYPT_P KEY_LENGTH with
  | Err e => Err (KeyDerivationFailed e)
  | Ok _ =>
      match scrypt passphrase salt SCRYPT_LOG_N SCRYPT_R SCRYPT_P KEY_LENGTH with
      | Err e => Err (KeyDerivationFailed e)
      | Ok k => Ok k
      end
  end.

Definition unlock_with_key (key_bytes : bytes) (p : Aes256GcmProvider) : Aes256GcmProvider * result unit CryptoError :=
  match unbound_key key_bytes with
  | None => (p, Err (EncryptionFailed "invalid key"))
  | Some k => ({| key := Some k |}, Ok tt)
  end.

Definition unlock (passphrase salt : bytes) (p : Aes256GcmProvider) : Aes256GcmProvider * result unit CryptoError :=
  match derive_key passphrase salt with
  | Err e => (p, Err e)
  | Ok key_bytes =>
      match unbound_key key_bytes with
      | None => (p, Err (EncryptionFailed "invalid key"))
      | Some k => ({| key := Some k |}, Ok tt)
      end
  end.

Definition is_unlocked (p : Aes256GcmProvider) : bool := bool_decide (is_Some (key p)).

(** [Nonce::try_assume_unique_for_key] *)
Definition nonce_of (b : bytes) : option bytes := if (length b =? IV_LENGTH)%nat then Some b else None.

(** [rng]: the bytes that [SystemRandom::fill] produces, [None] when it fails. *)
Definition encrypt (rng : option bytes) (plaintext : bytes) (p : Aes256GcmProvider) : result EncryptedPayload CryptoError :=
  match key p with
  | None => Err (EncryptionFailed "not unlocked")
  | Some k =>
      match rng with
      | None => Err (EncryptionFailed "RNG failure")
      | Some iv_bytes =>
          match nonce_of iv_bytes with
          | None => Err (EncryptionFailed "nonce error")
          | Some nonce =>
              match seal k nonce plaintext with
              | None => Err (EncryptionFailed "seal failed")
              | Some in_out =>
                  let tag_start := (length in_out - TAG_LEN)%nat in
                  Ok {| ep_encrypted := true; ep_version := 1; ep_iv := b64_encode iv_bytes;
                        ep_auth_tag := b64_encode (drop tag_start in_out);
                        ep_ciphertext := b64_encode (take tag_start in_out) |}
              end
          end
      end
  end.

Definition decrypt (payload : EncryptedPayload) (p : Aes256GcmProvider) : result bytes CryptoError :=
  if negb (ep_version payload =? 1) then Err (UnsupportedVersion (ep_version payload))
  else
    match key p with
    | None => Err (EncryptionFailed "not unlocked")
    | Some k =>
        match b64_decode (ep_iv payload) with
        | Err e => Err (Base64Error e)
        | Ok iv_bytes =>
            match b64_decode (ep_auth_tag payload) with
            | Err e => Err (Base64Error e)
            | Ok auth_tag =>
                match b64_decode (ep_ciphertext payload) with
                | Err e => Err (Base64Error e)
                | Ok ciphertext =>
                    match nonce_of iv_bytes with
                    | None => Err DecryptionFailed
                    | Some nonce =>
                        match open k nonce (ciphertext ++ auth_tag) with
                        | None => Err DecryptionFailed
                        | Some plaintext => Ok plaintext
                        end
                    end
                end
            end
        end
    end.

End provider.

(** What the envelope relies on: AES-GCM appends a tag of 16 bytes, opening undoes
    sealing and accepts nothing else (the tag is a function of key, nonce and
    ciphertext), and base64 decodes what it encodes. *)
Class AeadLaws `{CryptoLib} := {
  seal_length k n p c : seal k n p = Some c -> length c = (length p + TAG_LEN)%nat;
  open_seal k n p c : open k n c = Some p <-> seal k n p = Some c;
  b64_roundtrip b : b64_decode (b64_encode b) = Ok b;
}.

(** [node_id_from_pubkey] *)
Definition node_id_from_pubkey `{Crypto} (pubkey : bytes) : bytes := sha256 pubkey.

(** ** The key file *)

Class KeyLib := {
  KeyPair : Type;
  PeerId : Type;
  (** [Ed25519KeyPair::from_pkcs8] *)
  keypair_from_pkcs8 : bytes -> result KeyPair string;
  (** [libp2p::identity::Keypair::ed25519_from_bytes], [.public().to_peer_id()] *)
  ed25519_from_bytes : bytes -> result bytes string;
  to_peer_id : bytes -> PeerId;
}.

Record NodeKey `{KeyLib} := {
  nk_keypair : KeyPair;
  nk_peer_id : PeerId;
  nk_pkcs8_doc : bytes;
}.

(** [der[i] == 0x04 && der[i + 1] == 0x20]; the second index is read only after the first
    comparison succeeds. *)
Definition octet_string_32_at (der : bytes) (i : nat) : Run bool :=
  run_bind (index der i) (fun a =>
  if bool_decide (a = Byte.x04) then run_bind (index der (i + 1)) (fun b => Finished (bool_decide (b = Byte.x20)))
  else Finished false).

(** The loop over [0..der.len().saturating_sub(33)], from index [i], [n] rounds left. *)
Fixpoint seed_loop (der : bytes) (i n : nat) : Run (option bytes) :=
  match n with
  | O => Finished None
  | S n =>
      run_bind (octet_string_32_at der i) (fun found =>
      if found then run_bind (slice der (i + 2) (i + 34)) (fun seed => Finished (Some seed))
      else seed_loop der (S i) n)
  end.

Definition extract_ed25519_seed (der : bytes) : Run (option bytes) := seed_loop der 0 (length der - 33).

(** No index of the loop is out of bounds, so that its callers go on after it. *)
Lemma octet_string_32_in_bounds der i : (i + 1 < length der)%nat -> octet_string_32_at der i <> Panic.
Proof.
  intros Hi. unfold octet_string_32_at, index. destruct (lookup_lt_is_Some_2 der i) as [a ->]; [lia|]. cbn [run_bind].
  case_bool_decide; [|done]. by destruct (lookup_lt_is_Some_2 der (i + 1)) as [b ->].
Qed.

Lemma seed_loop_in_bounds der i n : (i + n + 33 <= length der)%nat -> seed_loop der i n <> Panic.
Proof.
  revert i. induction n as [|n IH]; intros i Hn; [done|]. cbn [seed_loop].
  destruct (octet_string_32_at der i) as [[]|] eqn:E; cbn [run_bind]; [| |by apply octet_string_32_in_bounds in E; lia].
  - unfold slice. by rewrite (proj2 (Nat.leb_le (i + 2) (i + 34))), (proj2 (Nat.leb_le (i + 34) (length der))) by lia.
  - apply IH. lia.
Qed.

Lemma extract_in_bounds der : extract_ed25519_seed der <> Panic.
Proof.
  unfold extract_ed25519_seed. destruct (Nat.le_gt_cases 33 (length der)) as [Hge|Hlt]; [apply seed_loop_in_bounds; lia|].
  by replace (length der - 33)%nat with 0%nat by lia.
Qed.

(** A key file and what the operating system does with it. *)
Record KeyFs := {
  kf_content : option bytes;
  kf_read_error : option string;
  kf_mkdir_error : option string;
  kf_write_error : option string;
}.

Section identity.
Context `{KL : KeyLib}.

Definition pkcs8_to_libp2p_keypair (der : bytes) : result bytes CryptoError :=
  if (length der <? 48)%nat then Err (IdentityError "PKCS#8 DER too short for Ed25519")
  else
    match from_finished (extract_ed25519_seed der) (extract_in_bounds der) with
    | None => Err (IdentityError "could not extract Ed25519 seed from PKCS#8 DER")
    | Some seed =>
        match ed25519_from_bytes seed with
        | Err e => Err (IdentityError ("failed to create libp2p keypair: " +:+ e))
        | Ok kp => Ok kp
        end
    end.

Definition from_pkcs8_bytes (pkcs8_bytes : bytes) : result NodeKey CryptoError :=
  match keypair_from_pkcs8 pkcs8_bytes with
  | Err e => Err (IdentityError e)
  | Ok keypair =>
      match pkcs8_to_libp2p_keypair pkcs8_bytes with
      | Err e => Err e
      | Ok kp => Ok {| nk_keypair := keypair; nk_peer_id := to_peer_id kp; nk_pkcs8_doc := pkcs8_bytes |}
      end
  end.

(** [generated]: what [Ed25519KeyPair::generate_pkcs8] returns, a fresh document each time. *)
Definition generate (generated : result bytes string) : result NodeKey CryptoError :=
  match generated with
  | Err e => Err (IdentityError e)
  | Ok doc => from_pkcs8_bytes doc
  end.

Definition from_file (fs : KeyFs) : result NodeKey CryptoError :=
  match kf_read_error fs, kf_content fs with
  | Some e, _ => Err (IoError e)
  | None, None => Err (IoError "not found")
  | None, Some b => from_pkcs8_bytes b
  end.

Definition load_or_create (generated : result bytes string) (fs : KeyFs) : KeyFs * result NodeKey CryptoError :=
  match kf_content fs with
  | Some _ => (fs, from_file fs)
  | None =>
      match generate generated with
      | Err e => (fs, Err e)
      | Ok id =>
          match kf_mkdir_error fs with
          | Some e => (fs, Err (IoError e))
          | None =>
              match kf_write_error fs with
              | Some e => (fs, Err (IoError e))
              | None =>
                  ({| kf_content := Some (nk_pkcs8_doc id); kf_read_error := kf_read_error fs;
                      kf_mkdir_error := None; kf_write_error := None |}, Ok id)
              end
          end
      end
  end.

Definition to_libp2p_keypair (id : NodeKey) : result bytes CryptoError := pkcs8_to_libp2p_keypair (nk_pkcs8_doc id).

End identity.
