(* ===== verification/EnvelopeProps.v ===== *)
(** * Properties of the envelope and of the key file

    Encryption round-trips and decryption accepts nothing but sealed data; the
    scan for the key's seed finds what a reference definition says, on every
    input and on ring's documents in particular; and a node keeps its identity
    across restarts. *)

From S2P Require Import Prelude Float64 Protocol Storage Json Envelope.

(** ** The envelope *)

Lemma nonce_of_length b : length b = IV_LENGTH -> nonce_of b = Some b.
Proof. intros H. unfold nonce_of. by rewrite H. Qed.

Lemma nonce_of_inv b n : nonce_of b = Some n -> n = b /\ length b = IV_LENGTH.
Proof. unfold nonce_of. destruct (Nat.eqb_spec (length b) IV_LENGTH); [|done]. by intros [= <-]. Qed.

(** [C23] Encryption round-trips: a payload that [encrypt] returns is recognised as
    encrypted in its JSON form, has a version, nonce, tag and ciphertext of the
    documented sizes, and decrypts to the plaintext with the same key; and
    [encrypt] returns one whenever the provider is unlocked, the random
    generator works and the cipher seals. *)
Theorem encrypt_decrypt `{CryptoLib} `{!AeadLaws} p k iv plaintext :
  key p = Some k -> length iv = IV_LENGTH -> is_Some (seal k iv plaintext) ->
  exists payload tag ciphertext,
    encrypt (Some iv) plaintext p = Ok payload
    /\ is_encrypted (payload_json payload) = true
    /\ b64_decode (ep_iv payload) = Ok iv
    /\ b64_decode (ep_auth_tag payload) = Ok tag /\ length tag = TAG_LEN
    /\ b64_decode (ep_ciphertext payload) = Ok ciphertext /\ length ciphertext = length plaintext
    /\ decrypt payload p = Ok plaintext.
Proof.
  intros Hk Hiv [c Hc]. pose proof (seal_length _ _ _ _ Hc) as Hlen.
  unfold encrypt. rewrite Hk, nonce_of_length, Hc by done. set (t := (length c - TAG_LEN)%nat).
  eexists _, (drop t c), (take t c). split; [reflexivity|]. cbn [ep_iv ep_auth_tag ep_ciphertext].
  rewrite !b64_roundtrip, length_drop, length_take. split_and!; try done; [lia..|].
  unfold decrypt. cbn [ep_version ep_iv ep_auth_tag ep_ciphertext]. rewrite Hk, !b64_roundtrip, nonce_of_length by done.
  rewrite take_drop. by rewrite (proj2 (open_seal k iv plaintext c) Hc).
Qed.

(** [C24] Decryption accepts sealed data and nothing else: a payload decrypts to a
    plaintext if and only if its version is 1, the provider is unlocked, its
    fields are base64, the nonce has 12 bytes, and ciphertext and tag together
    are the sealing of that plaintext under the key and the nonce. *)
Theorem decrypt_exact `{CryptoLib} `{!AeadLaws} payload p plaintext :
  decrypt payload p = Ok plaintext <->
  ep_version payload = 1
  /\ exists k iv tag ciphertext,
       key p = Some k /\ b64_decode (ep_iv payload) = Ok iv /\ b64_decode (ep_auth_tag payload) = Ok tag
       /\ b64_decode (ep_ciphertext payload) = Ok ciphertext /\ length iv = IV_LENGTH
       /\ seal k iv plaintext = Some (ciphertext ++ tag).
Proof.
  unfold decrypt. split.
  - destruct (Z.eqb_spec (ep_version payload) 1) as [Hv|]; [|done]. cbn [negb].
    destruct (key p) as [k|] eqn:Hk; [|done]. destruct (b64_decode (ep_iv payload)) as [iv|] eqn:Hiv; [|done].
    destruct (b64_decode (ep_auth_tag payload)) as [tag|] eqn:Ht; [|done].
    destruct (b64_decode (ep_ciphertext payload)) as [ct|] eqn:Hct; [|done].
    destruct (nonce_of iv) as [n|] eqn:Hn; [|done]. apply nonce_of_inv in Hn as [-> Hlen].
    destruct (open k iv (ct ++ tag)) as [pt|] eqn:Ho; [|done]. intros [= <-].
    split; [done|]. exists k, iv, tag, ct. split_and!; try done. by apply open_seal.
  - intros [-> (k & iv & tag & ct & -> & -> & -> & -> & Hlen & Hs)]. cbn.
    rewrite nonce_of_length by done. by rewrite (proj2 (open_seal k iv plaintext (ct ++ tag)) Hs).
Qed.

(** The tag has no length of its own: moving the boundary between ciphertext and tag
    does not change what a payload decrypts to. *)
Lemma decrypt_ignores_boundary `{CryptoLib} `{!AeadLaws} p payload payload' ct tag ct' tag' :
  b64_decode (ep_ciphertext payload) = Ok ct -> b64_decode (ep_auth_tag payload) = Ok tag ->
  b64_decode (ep_ciphertext payload') = Ok ct' -> b64_decode (ep_auth_tag payload') = Ok tag' ->
  ep_version payload' = ep_version payload -> ep_iv payload' = ep_iv payload -> ct' ++ tag' = ct ++ tag ->
  decrypt payload' p = decrypt payload p.
Proof. intros H1 H2 H3 H4 Hv Hi Hc. unfold decrypt. by rewrite Hv, Hi, H1, H2, H3, H4, Hc. Qed.

(** ** The seed *)

(** The reference: the 32 bytes after the first [04 20] that has 32 bytes after it. *)
Fixpoint find_seed (der : bytes) : option bytes :=
  match der with
  | a :: ((b :: rest) as tail) =>
      if bool_decide (a = Byte.x04) && bool_decide (b = Byte.x20) && (32 <=? length rest)%nat
      then Some (take 32 rest) else find_seed tail
  | _ => None
  end.

Lemma find_seed_short der : (length der < 34)%nat -> find_seed der = None.
Proof.
  induction der as [|a [|b rest] IH]; intros Hl; [done..|]. cbn [find_seed].
  destruct (Nat.leb_spec 32 (length rest)); [simpl in Hl; lia|]. rewrite andb_false_r. apply IH. simpl in *. lia.
Qed.

Lemma seed_loop_shift x der i n : seed_loop (x :: der) (S i) n = seed_loop der i n.
Proof. revert i. induction n as [|n IH]; intros i; [done|]. cbn [seed_loop]. by rewrite IH. Qed.

Lemma seed_loop_find der : extract_ed25519_seed der = Finished (find_seed der).
Proof.
  unfold extract_ed25519_seed. induction der as [|a der IH]; [done|].
  destruct (Nat.leb_spec 34 (length (a :: der))) as [Hge|Hlt].
  - destruct der as [|b rest]; [simpl in Hge; lia|].
    replace (length (a :: b :: rest) - 33)%nat with (S (length (b :: rest) - 33)) by (simpl in *; lia).
    cbn [seed_loop find_seed]. rewrite seed_loop_shift, IH. unfold octet_string_32_at, slice. cbn [index lookup list_lookup run_bind Nat.add].
    rewrite (proj2 (Nat.leb_le 32 (length rest))) by (simpl in Hge; lia). rewrite (proj2 (Nat.leb_le 34 _)) by (simpl in *; lia).
    case_bool_decide; [|done]. cbn. by case_bool_decide.
  - rewrite find_seed_short by lia. by replace (length (a :: der) - 33)%nat with 0%nat by lia.
Qed.

(** The header of ring's Ed25519 documents: SEQUENCE, version, the OID of Ed25519, the
    two OCTET STRINGs; [len] and [version] differ between PKCS#8 v1 and v2. *)
Definition ring_prefix (len version : Byte.byte) : bytes :=
  [Byte.x30; len; Byte.x02; Byte.x01; version; Byte.x30; Byte.x05; Byte.x06; Byte.x03; Byte.x2b; Byte.x65; Byte.x70;
   Byte.x04; Byte.x22; Byte.x04; Byte.x20].

(** [C32] The index loop of [extract_ed25519_seed] never panics, whatever the bytes of
    the document and however short it is, and is the structural search: it returns
    the 32 bytes after the first [04 20] that has 32 bytes after it and nothing
    when there is none; and of a document in ring's layout, version 1 or 2,
    whatever the key and whatever follows it, it returns exactly the seed. *)
Theorem seed_extraction :
  (forall der, extract_ed25519_seed der = Finished (find_seed der))
  /\ (forall len version seed rest, length seed = 32%nat -> (len, version) ∈ [(Byte.x2e, Byte.x00); (Byte.x53, Byte.x01)] ->
        extract_ed25519_seed (ring_prefix len version ++ seed ++ rest) = Finished (Some seed)).
Proof.
  split; [apply seed_loop_find|]. intros len version seed rest Hl Hv. rewrite seed_loop_find. f_equal.
  assert (find_seed (ring_prefix len version ++ seed ++ rest)
    = find_seed ([Byte.x04; Byte.x20] ++ seed ++ rest)) as ->.
  { apply elem_of_cons in Hv as [[= -> ->]|[= -> ->]%list_elem_of_singleton]; reflexivity. }
  cbn [app find_seed]. rewrite length_app, Hl. cbn. by rewrite take_app_length'.
Qed.

(** ** The key file *)

(** A node keeps its identity: when [load_or_create] returns an identity, the file
    holds its document, and every later call on that file, whatever the random
    generator would give, returns the same key pair and peer identifier; a file
    that exists is never overwritten, and a failure writes nothing. *)
Theorem identity_persists `{KL : KeyLib} generated fs fs' r :
  kf_read_error fs = None -> load_or_create generated fs = (fs', r) ->
  (forall b, kf_content fs = Some b -> fs' = fs)
  /\ match r with
     | Err _ => fs' = fs
     | Ok id =>
         kf_content fs' = Some (nk_pkcs8_doc id) /\ kf_read_error fs' = None
         /\ (forall generated', load_or_create generated' fs' = (fs', Ok id))
         /\ exists kp, to_libp2p_keypair id = Ok kp /\ nk_peer_id id = to_peer_id kp
     end.
Proof.
  assert (forall b id, from_pkcs8_bytes b = Ok id ->
    nk_pkcs8_doc id = b /\ exists kp, to_libp2p_keypair id = Ok kp /\ nk_peer_id id = to_peer_id kp) as Hfrom.
  { intros b id. unfold from_pkcs8_bytes, to_libp2p_keypair. destruct (keypair_from_pkcs8 b); [|done].
    destruct (pkcs8_to_libp2p_keypair b) as [kp|] eqn:E; [|done]. intros [= <-]. eauto. }
  intros Hread. unfold load_or_create at 1. destruct (kf_content fs) as [b|] eqn:Hc.
  - intros [= <- <-]. split; [done|]. unfold load_or_create. rewrite Hc. unfold from_file. rewrite Hread, Hc.
    destruct (from_pkcs8_bytes b) as [id|e] eqn:E; [|done]. destruct (Hfrom b id E) as [-> ?]. done.
  - destruct (generate generated) as [id|e] eqn:Hg; [|intros [= <- <-]; done].
    destruct (kf_mkdir_error fs); [intros [= <- <-]; done|]. destruct (kf_write_error fs); [intros [= <- <-]; done|].
    intros [= <- <-]. split; [done|]. split; [done|]. split; [done|]. unfold generate in Hg. destruct generated as [doc|]; [|done].
    destruct (Hfrom doc id Hg) as [-> Hkp]. split; [|done]. intros generated'. unfold load_or_create, from_file. cbn. by rewrite Hread, Hg.
Qed.

(** ** Witnesses *)

(** A cipher without secrecy: the tag is the key's first bytes. *)
Definition toy_tag (k n : bytes) : bytes := take 16 (k ++ n ++ replicate 16 Byte.x00).

#[local] Instance toy_lib : CryptoLib := {|
  scrypt_params _ _ _ _ := Ok tt;
  scrypt pass salt _ _ _ n := Ok (take n (pass ++ salt ++ replicate n Byte.x00));
  unbound_key k := Some k;
  seal k n p := Some (p ++ toy_tag k n);
  open k n c :=
    let m := (length c - 16)%nat in
    if bool_decide (16 <= length c)%nat && bool_decide (drop m c = toy_tag k n) then Some (take m c) else None;
  b64_encode b := String.string_of_list_byte b;
  b64_decode s := Ok (String.list_byte_of_string s);
|}.

Lemma toy_tag_length k n : length (toy_tag k n) = 16%nat.
Proof. unfold toy_tag. rewrite length_take, !length_app, length_replicate. lia. Qed.

#[local] Instance toy_laws : AeadLaws.
Proof.
  split.
  - intros k n p c [= <-]. by rewrite length_app, toy_tag_length.
  - intros k n p c. cbn. split.
    + destruct (bool_decide_reflect (16 <= length c)%nat); [|done]. case_bool_decide as Ht; [|done]. cbn.
      intros [= <-]. rewrite <- Ht. by rewrite take_drop.
    + intros [= <-]. rewrite length_app, toy_tag_length. replace (length p + 16 - 16)%nat with (length p) by lia.
      rewrite take_app_length, drop_app_length, !bool_decide_eq_true_2 by (done || lia). done.
  - intros b. cbn. f_equal. apply String.list_byte_of_string_of_list_byte.
Qed.

Lemma encrypt_decrypt_witness :
  exists payload, encrypt (Some (replicate 12 Byte.x01)) [Byte.x05; Byte.x06] {| key := Some [Byte.x09] |} = Ok payload
    /\ decrypt payload {| key := Some [Byte.x09] |} = Ok [Byte.x05; Byte.x06].
Proof.
  destruct (encrypt_decrypt {| key := Some [Byte.x09] |} [Byte.x09] (replicate 12 Byte.x01) [Byte.x05; Byte.x06])
    as (payload & tag & ct & He & _ & _ & _ & _ & _ & _ & Hd).
  - reflexivity.
  - reflexivity.
  - eexists. reflexivity.
  - exists payload. split; [exact He | exact Hd].
Defined.

(** A payload whose tag belongs to another key does not decrypt to anything. *)
Lemma decrypt_exact_witness :
  match decrypt {| ep_encrypted := true; ep_version := 1; ep_iv := b64_encode (replicate 12 Byte.x01);
      ep_auth_tag := b64_encode (toy_tag [Byte.x08] (replicate 12 Byte.x01)); ep_ciphertext := b64_encode [Byte.x05] |}
    {| key := Some [Byte.x09] |} with Ok _ => False | Err _ => True end.
Proof.
  destruct (decrypt _ _) as [plaintext|e] eqn:Hd; [|exact I].
  apply (decrypt_exact _ {| key := Some [Byte.x09] |}) in Hd as [_ (k & iv & tag & ct & Hk & Hiv & Ht & Hc & _ & Hs)].
  cbn [ep_iv ep_auth_tag ep_ciphertext] in Hiv, Ht, Hc. rewrite b64_roundtrip in Hiv, Ht, Hc.
  injection Hk as <-. injection Hiv as <-. injection Ht as <-. injection Hc as <-. cbv [seal toy_lib] in Hs. injection Hs as Hs.
  apply (app_inj_2 plaintext [Byte.x05]) in Hs as [_ Htag]; [vm_compute in Htag; discriminate|]. by rewrite !toy_tag_length.
Defined.

#[local] Instance toy_keys : KeyLib := {|
  KeyPair := bytes; PeerId := bytes;
  keypair_from_pkcs8 b := Ok b;
  ed25519_from_bytes b := Ok b;
  to_peer_id b := b;
|}.

Definition ex_key_fs : KeyFs :=
  {| kf_content := None; kf_read_error := None; kf_mkdir_error := None; kf_write_error := None |}.

Definition ex_document (b : Byte.byte) : result bytes string := Ok (ring_prefix Byte.x2e Byte.x00 ++ replicate 32 b).

Lemma identity_persists_witness :
  exists fs' id, load_or_create (ex_document Byte.x07) ex_key_fs = (fs', Ok id)
    /\ load_or_create (ex_document Byte.x08) fs' = (fs', Ok id).
Proof.
  destruct (load_or_create (ex_document Byte.x07) ex_key_fs) as [fs' r] eqn:E.
  destruct (identity_persists (ex_document Byte.x07) ex_key_fs fs' r eq_refl E) as [_ H].
  vm_compute in E. injection E as <- <-. destruct H as (_ & _ & H & _).
  eexists _, _. split; [reflexivity|]. exact (H (ex_document Byte.x08)).
Defined.
