(* ===== verification/ItemStore.v ===== *)
(** * What the replication engine needs of a store

    The engine takes a [&dyn Storage]; it uses four of its methods.  [ItemStore]
    is that part of the trait, [ItemStoreLaws] what its clients may rely on, and
    the SQLite store is an instance. *)

From S2P Require Import Prelude Protocol Storage StorageProps.

Class ItemStore (St : Type) := {
  store_read : string -> St -> result (option L2ItemRow) StorageError;
  store_write : L2ItemWrite -> St -> St * result unit StorageError;
  store_delete : string -> St -> St * result bool StorageError;
  store_log : AccessLogEntry -> St -> St * result unit StorageError;
}.

(** The content of a row: everything but its local history (creation time,
    access count, last access), which replicas do not share. *)
Record Content := {
  c_type : string;
  c_owner : option string;
  c_visibility : string;
  c_data : bytes;
  c_checksum : option string;
  c_group : option string;
  c_author : option string;
  c_key_version : Z;
  c_parent : option string;
  c_is_copy : bool;
  c_updated_at : string;
}.

Definition content_of (r : L2ItemRow) : Content := {|
  c_type := l2_item_type r; c_owner := l2_owner_id r; c_visibility := l2_visibility r;
  c_data := l2_data r; c_checksum := l2_checksum r; c_group := l2_group_id r;
  c_author := l2_author_id r; c_key_version := l2_key_version r; c_parent := l2_parent_id r;
  c_is_copy := l2_is_copy r; c_updated_at := l2_updated_at r |}.

(** The content a write asks for, at the local time [now]. *)
Definition content_of_write `{Crypto} (now : string) (w : L2ItemWrite) : Content := {|
  c_type := lw_item_type w; c_owner := lw_owner_id w; c_visibility := lw_visibility w;
  c_data := lw_data w; c_checksum := Some (sha256_hex (lw_data w)); c_group := lw_group_id w;
  c_author := lw_author_id w; c_key_version := lw_key_version w; c_parent := lw_parent_id w;
  c_is_copy := lw_is_copy w; c_updated_at := default now (lw_updated_at w) |}.

Definition write_ok (w : L2ItemWrite) : bool := type_ok (lw_item_type w) && visibility_ok (lw_visibility w).

Class ItemStoreLaws (St : Type) `{Crypto} `{ItemStore St} := {
  store_view : St -> gmap string Content;
  (** A store that is up: its methods do not fail for reasons of their own. *)
  store_up : St -> Prop;
  store_clock : string;
  law_read id s : forall row, store_read id s = Ok row -> content_of <$> row = store_view s !! id;
  law_write w s s' : store_write w s = (s', Ok tt) ->
    write_ok w = true /\ store_view s' = <[lw_id w := content_of_write store_clock w]> (store_view s);
  law_write_err w s s' e : store_write w s = (s', Err e) -> store_view s' = store_view s;
  law_delete id s s' b : store_delete id s = (s', Ok b) ->
    b = bool_decide (is_Some (store_view s !! id)) /\ store_view s' = delete id (store_view s);
  law_delete_err id s s' e : store_delete id s = (s', Err e) -> store_view s' = store_view s;
  law_log e s : store_view (store_log e s).1 = store_view s;
  law_up_read id s : store_up s -> exists row, store_read id s = Ok row;
  law_up_write w s : store_up s -> write_ok w = true -> exists s', store_write w s = (s', Ok tt);
  law_up_delete id s : store_up s -> exists s' b, store_delete id s = (s', Ok b);
  law_up_kept s : store_up s ->
    (forall w, store_up (store_write w s).1) /\ (forall id, store_up (store_delete id s).1)
    /\ (forall e, store_up (store_log e s).1);
}.

(** ** The SQLite store is one *)

Section sqlite.
Context `{CR : Crypto} (env : SqlEnv).

#[export] Instance sqlite_store : ItemStore Db := {|
  store_read id d := (read_l2_item env id d).2;
  store_write := write_l2_item env;
  store_delete := delete_l2_item env;
  store_log := log_access env;
|}.

Definition sqlite_up (d : Db) : Prop := lock_poisoned d = false /\ no_fault env.

(** A failing method leaves the items alone. *)
Lemma stmt_err {A} name (body : Db -> result (Db * A) SqlError) d d' e :
  (let! _ := db_lock in stmt env name body) d = (d', Err e) -> d' = d.
Proof.
  unfold bind, db_lock. destruct (lock_poisoned d); [by intros [= <- _]|].
  unfold stmt. destruct (fault env name); [by intros [= <- _]|].
  destruct (body d) as [[? ?]|]; [done|]. by intros [= <- _].
Qed.

Lemma sqlite_read_view id d row :
  (read_l2_item env id d).2 = Ok row -> row = l2_items d !! id.
Proof.
  unfold read_l2_item, bind, db_lock. destruct (lock_poisoned d); [done|]. unfold query, stmt.
  destruct (fault env _); [done|]. by intros [= <-].
Qed.

Lemma sqlite_up_stmt {A} name (body : Db -> result (Db * A) SqlError) d :
  sqlite_up d -> (forall d' a, body d = Ok (d', a) -> lock_poisoned d' = lock_poisoned d) ->
  sqlite_up ((let! _ := db_lock in stmt env name body) d).1.
Proof.
  intros [Hl Hf] Hb. split; [|done]. rewrite with_lock by done. unfold stmt. rewrite Hf.
  destruct (body d) as [[d' a]|] eqn:E; [|done]. simpl. by rewrite (Hb d' a).
Qed.

#[export] Instance sqlite_store_laws : ItemStoreLaws Db.
Proof.
  refine {| store_view d := content_of <$> l2_items d; store_up := sqlite_up; store_clock := sql_now env |}.
  - intros id d row ->%sqlite_read_view. by rewrite lookup_fmap.
  - intros w d d' Hw. simpl in Hw. unfold write_l2_item in Hw. inv_ok Hw.
    fold (write_ok w) in Hw. destruct (write_ok w); [|done]. injection Hw as <-. split; [done|].
    simpl. by rewrite fmap_insert.
  - intros w d d' e Hw%stmt_err. by rewrite Hw.
  - intros id d d' b Hd. simpl in Hd. unfold delete_l2_item in Hd. inv_ok Hd. injection Hd as <- <-.
    simpl. rewrite fmap_delete. split; [|done]. apply bool_decide_ext. by rewrite lookup_fmap, fmap_is_Some.
  - intros id d d' e Hd%stmt_err. by rewrite Hd.
  - intros e d. simpl. unfold log_access, bind, db_lock. destruct (lock_poisoned d); [done|].
    unfold stmt. by destruct (fault env _).
  - intros id d [Hl Hf]. eexists. simpl. unfold read_l2_item. rewrite with_lock by done.
    unfold query, stmt. by rewrite Hf.
  - intros w d [Hl Hf] Hw. eexists. simpl. unfold write_l2_item. rewrite with_lock by done.
    apply stmt_ok; [done|]. unfold write_ok in Hw. by rewrite Hw.
  - intros id d [Hl Hf]. do 2 eexists. simpl. unfold delete_l2_item. rewrite with_lock by done.
    by apply stmt_ok.
  - intros d Hup. split_and!; [intros w|intros id|intros e]; apply sqlite_up_stmt; try done;
      intros d' a Hb; case_all; simplify_eq/=; done.
Defined.

End sqlite.
