(* ===== verification/StorageTrait.v ===== *)
(** * The storage trait and its two implementations

    The trait [Storage] of [crates/cordelia-storage/src/lib.rs] as a record of
    operations on a store of any type, the SQLite implementation, and the
    wrapper [StorageClone] of [crates/cordelia-node/src/lib.rs] through which
    the API holds the store that the tasks share.  The interface that the
    replication engine uses ([ItemStore]) is a part of the trait. *)

From S2P Require Import Prelude Float64 Protocol Storage Search ItemStore.

(** A method on a store. *)
Abbreviation Op St A := (St -> St * result A StorageError) (only parsing).

Record Storage (St : Type) := {
  t_read_l1 : string -> Op St (option bytes);
  t_write_l1 : string -> bytes -> Op St unit;
  t_delete_l1 : string -> Op St bool;
  t_list_l1_users : Op St (list string);
  t_read_l2_item : string -> Op St (option L2ItemRow);
  t_write_l2_item : L2ItemWrite -> Op St unit;
  t_delete_l2_item : string -> Op St bool;
  t_read_l2_item_meta : string -> Op St (option L2ItemMeta);
  t_list_group_items : string -> option string -> Z -> Op St (list ItemHeader);
  t_write_group : string -> string -> string -> string -> Op St unit;
  t_write_group_signature : string -> string -> string -> string -> Op St unit;
  t_read_group : string -> Op St (option GroupRow);
  t_list_groups : Op St (list GroupRow);
  t_list_members : string -> Op St (list GroupMemberRow);
  t_get_membership : string -> string -> Op St (option GroupMemberRow);
  t_add_member : string -> string -> string -> Op St unit;
  t_remove_member : string -> string -> Op St bool;
  t_update_member_posture : string -> string -> string -> Op St bool;
  t_delete_group : string -> Op St bool;
  t_purge_deleted_groups : string -> Z -> Op St Z;
  t_log_access : AccessLogEntry -> Op St unit;
  t_read_l2_index : Op St (option bytes);
  t_write_l2_index : bytes -> Op St unit;
  t_fts_search : string -> Z -> Op St (list string);
  t_list_stored_group_ids : Op St (list string);
  t_storage_stats : Op St StorageStats;
  t_register_device : DeviceRow -> Op St unit;
  t_list_devices : string -> Op St (list DeviceRow);
  t_revoke_device : string -> string -> Op St bool;
  t_get_device_by_token_hash : string -> Op St (option DeviceRow);
}.

(** [impl Storage for SqliteStorage] *)
Definition SqliteStorage `{Crypto} `{HashIter} (fts_match : Db -> string -> Z -> result (list string) SqlError) (env : SqlEnv) :
    Storage Db := {|
  t_read_l1 := read_l1 env;
  t_write_l1 := write_l1 env;
  t_delete_l1 := delete_l1 env;
  t_list_l1_users := list_l1_users env;
  t_read_l2_item := read_l2_item env;
  t_write_l2_item := write_l2_item env;
  t_delete_l2_item := delete_l2_item env;
  t_read_l2_item_meta := read_l2_item_meta env;
  t_list_group_items := list_group_items env;
  t_write_group := write_group env;
  t_write_group_signature := write_group_signature env;
  t_read_group := read_group env;
  t_list_groups := list_groups env;
  t_list_members := list_members env;
  t_get_membership := get_membership env;
  t_add_member := add_member env;
  t_remove_member := remove_member env;
  t_update_member_posture := update_member_posture env;
  t_delete_group := delete_group env;
  t_purge_deleted_groups := purge_deleted_groups env;
  t_log_access := log_access env;
  t_read_l2_index := read_l2_index env;
  t_write_l2_index := write_l2_index env;
  t_fts_search := fts_search fts_match env;
  t_list_stored_group_ids := list_stored_group_ids env;
  t_storage_stats := storage_stats env;
  t_register_device := register_device env;
  t_list_devices := list_devices env;
  t_revoke_device := revoke_device env;
  t_get_device_by_token_hash := get_device_by_token_hash env;
|}.

(** [impl Storage for StorageClone]: every method calls the wrapped one. *)
Definition StorageClone {St} (s : Storage St) : Storage St := {|
  t_read_l1 user_id := t_read_l1 _ s user_id;
  t_write_l1 user_id data := t_write_l1 _ s user_id data;
  t_delete_l1 user_id := t_delete_l1 _ s user_id;
  t_list_l1_users := t_list_l1_users _ s;
  t_read_l2_item id := t_read_l2_item _ s id;
  t_write_l2_item item := t_write_l2_item _ s item;
  t_delete_l2_item id := t_delete_l2_item _ s id;
  t_read_l2_item_meta id := t_read_l2_item_meta _ s id;
  t_list_group_items group_id since limit := t_list_group_items _ s group_id since limit;
  t_write_group id name culture policy := t_write_group _ s id name culture policy;
  t_write_group_signature id owner_id owner_pubkey signature := t_write_group_signature _ s id owner_id owner_pubkey signature;
  t_read_group id := t_read_group _ s id;
  t_list_groups := t_list_groups _ s;
  t_list_members group_id := t_list_members _ s group_id;
  t_get_membership group_id entity_id := t_get_membership _ s group_id entity_id;
  t_add_member group_id entity_id role := t_add_member _ s group_id entity_id role;
  t_remove_member group_id entity_id := t_remove_member _ s group_id entity_id;
  t_update_member_posture group_id entity_id posture := t_update_member_posture _ s group_id entity_id posture;
  t_delete_group id := t_delete_group _ s id;
  t_purge_deleted_groups culture days := t_purge_deleted_groups _ s culture days;
  t_log_access entry := t_log_access _ s entry;
  t_read_l2_index := t_read_l2_index _ s;
  t_write_l2_index data := t_write_l2_index _ s data;
  t_fts_search query limit := t_fts_search _ s query limit;
  t_list_stored_group_ids := t_list_stored_group_ids _ s;
  t_storage_stats := t_storage_stats _ s;
  t_register_device device := t_register_device _ s device;
  t_list_devices entity_id := t_list_devices _ s entity_id;
  t_revoke_device entity_id device_id := t_revoke_device _ s entity_id device_id;
  t_get_device_by_token_hash token_hash := t_get_device_by_token_hash _ s token_hash;
|}.

(** What the engine sees of a store. *)
Definition item_store_of {St} (s : Storage St) : ItemStore St := {|
  store_read id d := (t_read_l2_item _ s id d).2;
  store_write := t_write_l2_item _ s;
  store_delete := t_delete_l2_item _ s;
  store_log := t_log_access _ s;
|}.

(** The wrapper is transparent: it is the store it wraps. *)
Lemma storage_clone_transparent {St} (s : Storage St) : StorageClone s = s.
Proof. by destruct s. Qed.

(** The engine's store is the trait's SQLite implementation, wrapped or not. *)
Lemma engine_store `{Crypto} `{HashIter} fts_match env :
  item_store_of (StorageClone (SqliteStorage fts_match env)) = sqlite_store env.
Proof. by rewrite storage_clone_transparent. Qed.
