(* ===== verification/Replication.v ===== *)
(** * The replication engine

    Models [crates/cordelia-replication]: the culture-driven dispatch of local
    writes, the validation and last-writer-wins conflict resolution of received
    items ([ReplicationEngine::on_receive]) and the header comparison of the
    anti-entropy sync.  The engine works against the interface [ItemStore]. *)

From S2P Require Import Prelude Protocol Storage ItemStore.

(** ** Data *)

Inductive ReplicationStrategy := EagerPush | Passive.

Definition sync_interval_secs (s : ReplicationStrategy) (taciturn_secs : Z) : option Z :=
  match s with
  | EagerPush => Some EAGER_PUSH_INTERVAL_SECS
  | Passive => Some taciturn_secs
  end.

Record ReplicationConfig := {
  rc_sync_interval_taciturn_secs : Z;
  rc_tombstone_retention_days : Z;
  rc_max_batch_size : Z;
}.

Definition default_replication_config : ReplicationConfig := {|
  rc_sync_interval_taciturn_secs := SYNC_INTERVAL_TACITURN_SECS;
  rc_tombstone_retention_days := TOMBSTONE_RETENTION_DAYS;
  rc_max_batch_size := MAX_BATCH_SIZE;
|}.

Record GroupCulture := {
  broadcast_eagerness : string;
  ttl_default : option Z;
  notification_policy : option string;
  departure_policy : option string;
}.

Definition default_culture : GroupCulture :=
  {| broadcast_eagerness := "chatty"; ttl_default := None; notification_policy := None;
     departure_policy := None |}.

Definition strategy (c : GroupCulture) : ReplicationStrategy :=
  let e := broadcast_eagerness c in
  if String.eqb e "chatty" || String.eqb e "moderate" then EagerPush
  else if String.eqb e "taciturn" then Passive
  else EagerPush.

(** Why an item was turned away; the source renders it as text. *)
Inductive RejectReason :=
| TooLarge (size : Z)
| NotAMember (gid : GroupId)
| TombstoneDeleteFailed (e : StorageError)
| ChecksumMismatch
| StorageFailed (e : StorageError).

Inductive ReceiveOutcome :=
| Stored
| Duplicate
| Rejected (why : RejectReason).

Inductive OutboundAction :=
| BroadcastItem (gid : GroupId) (item : FetchedItem)
| NoAction.

Record ReplicationEngine := {
  re_config : ReplicationConfig;
  re_entity_id : string;
}.

(** ** Operations *)

Definition blob_len (item : FetchedItem) : Z := Z.of_nat (length (fi_encrypted_blob item)).

Definition validate_checksum `{Crypto} (item : FetchedItem) : bool :=
  String.eqb (sha256_hex (fi_encrypted_blob item)) (fi_checksum item).

(** A header overwrites an earlier one with the same identifier, as collecting
    into a [HashMap] does. *)
Definition header_map (local : list ItemHeader) : gmap string string :=
  foldl (fun m h => <[ih_item_id h := ih_checksum h]> m) ∅ local.

Definition needs_fetch (m : gmap string string) (r : ItemHeader) : bool :=
  match m !! ih_item_id r with
  | None => true
  | Some c => negb (String.eqb c (ih_checksum r))
  end.

Definition diff_headers (local remote : list ItemHeader) : list string :=
  ih_item_id <$> filterb (needs_fetch (header_map local)) remote.

(** [now]: the text of [chrono::Utc::now().to_rfc3339()]. *)
Definition on_local_write `{Crypto} (eng : ReplicationEngine) (now : string) (gid : GroupId)
    (culture : GroupCulture) (item_id item_type : string) (data : bytes) (key_version : Z)
    (parent_id : option string) (is_copy : bool) : OutboundAction :=
  if MAX_ITEM_BYTES <? Z.of_nat (length data) then NoAction
  else
    match strategy culture with
    | EagerPush =>
        BroadcastItem gid
          {| fi_item_id := item_id; fi_item_type := item_type; fi_encrypted_blob := data;
             fi_checksum := sha256_hex data; fi_author_id := re_entity_id eng; fi_group_id := gid;
             fi_key_version := key_version; fi_parent_id := parent_id; fi_is_copy := is_copy;
             fi_updated_at := now |}
    | Passive => NoAction
    end.

Definition TOMBSTONE : string := "__tombstone__".

(** The write a received item becomes. *)
Definition write_of (item : FetchedItem) : L2ItemWrite := {|
  lw_id := fi_item_id item;
  lw_item_type := fi_item_type item;
  lw_data := fi_encrypted_blob item;
  lw_owner_id := None;
  lw_visibility := "group";
  lw_group_id := Some (fi_group_id item);
  lw_author_id := Some (fi_author_id item);
  lw_key_version := u32_as_i32 (fi_key_version item);
  lw_parent_id := fi_parent_id item;
  lw_is_copy := fi_is_copy item;
  lw_updated_at := Some (fi_updated_at item);
|}.

Definition receive_log (item : FetchedItem) : AccessLogEntry := {|
  al_entity_id := fi_author_id item;
  al_action := "replicate_receive";
  al_resource_type := "l2_item";
  al_resource_id := Some (fi_item_id item);
  al_group_id := Some (fi_group_id item);
  al_detail := None;
|}.

Definition accepts (our_groups : list GroupId) (relay_accepts : option (GroupId -> bool)) (gid : GroupId) : bool :=
  match relay_accepts with
  | Some relay_check => relay_check gid
  | None => contains our_groups gid
  end.

(** Step 5: the stored item wins. *)
Definition keep_existing (existing : result (option L2ItemRow) StorageError) (item : FetchedItem) : bool :=
  match existing with
  | Ok (Some row) =>
      bool_decide (l2_checksum row = Some (fi_checksum item))
      || str_le (fi_updated_at item) (l2_updated_at row)
  | _ => false
  end.

Section engine.
Context `{CR : Crypto} {St : Type} `{IS : ItemStore St}.

Definition on_receive (item : FetchedItem) (our_groups : list GroupId)
    (relay_accepts : option (GroupId -> bool)) (s : St) : St * ReceiveOutcome :=
  if MAX_ITEM_BYTES <? blob_len item then (s, Rejected (TooLarge (blob_len item)))
  else if negb (accepts our_groups relay_accepts (fi_group_id item))
  then (s, Rejected (NotAMember (fi_group_id item)))
  else if String.eqb (fi_item_type item) TOMBSTONE then
    match store_delete (fi_item_id item) s with
    | (s', Ok true) => (s', Stored)
    | (s', Ok false) => (s', Duplicate)
    | (s', Err e) => (s', Rejected (TombstoneDeleteFailed e))
    end
  else if negb (validate_checksum item) then (s, Rejected ChecksumMismatch)
  else if keep_existing (store_read (fi_item_id item) s) item then (s, Duplicate)
  else
    match store_write (write_of item) s with
    | (s', Err e) => (s', Rejected (StorageFailed e))
    | (s', Ok _) => ((store_log (receive_log item) s').1, Stored)
    end.

(** Items received one after the other. *)
Definition deliver (our_groups : list GroupId) (relay_accepts : option (GroupId -> bool))
    (items : list FetchedItem) (s : St) : St :=
  foldl (fun s item => (on_receive item our_groups relay_accepts s).1) s items.

End engine.

Definition sync_interval (eng : ReplicationEngine) (culture : GroupCulture) : Z :=
  default EAGER_PUSH_INTERVAL_SECS
    (sync_interval_secs (strategy culture) (rc_sync_interval_taciturn_secs (re_config eng))).

Definition engine_max_batch_size (eng : ReplicationEngine) : Z := rc_max_batch_size (re_config eng).

Definition engine_tombstone_retention_days (eng : ReplicationEngine) : Z :=
  rc_tombstone_retention_days (re_config eng).
