(* ===== verification/ReplicationProps.v ===== *)
(** * Properties of replication

    Proved against the interface of the store ([ItemStoreLaws]) and therefore of
    the SQLite store: what a received item may change, that the outcome tells
    it, that conflict resolution never goes back in time, and that replicas
    that have received the same items agree, whatever the order and the number
    of deliveries. *)

From S2P Require Import Prelude Protocol Storage StorageProps ItemStore Replication.

(** The content that a received item asks for. *)
Definition content_of_item `{Crypto} (x : FetchedItem) : Content := content_of_write EmptyString (write_of x).

(** An item the engine takes: within the size limit, of an accepted group, not a
    tombstone, of a legal type, with the right checksum. *)
Definition acceptable `{Crypto} (our_groups : list GroupId) (relay : option (GroupId -> bool)) (x : FetchedItem) : bool :=
  (blob_len x <=? MAX_ITEM_BYTES) && accepts our_groups relay (fi_group_id x)
  && negb (String.eqb (fi_item_type x) TOMBSTONE) && type_ok (fi_item_type x) && validate_checksum x.

(** One content replaces another: it is different and strictly newer. *)
Definition supersedes `{Crypto} (x : FetchedItem) (old : option Content) : bool :=
  match old with
  | None => true
  | Some c => negb (bool_decide (c_checksum c = Some (fi_checksum x)))
              && str_lt (c_updated_at c) (fi_updated_at x)
  end.

(** How a received item is dealt with. *)
Inductive verdict := Taken | Known | Refused.

#[export] Instance verdict_eq_dec : EqDecision verdict.
Proof. solve_decision. Defined.

Definition verdict_of (o : ReceiveOutcome) : verdict := match o with Stored => Taken | Duplicate => Known | Rejected _ => Refused end.

Definition tally (w : verdict) (l : list verdict) : Z := Z.of_nat (length (filter (eq w) l)).

Lemma tally_cons w v l : tally w (v :: l) = (if decide (w = v) then 1 else 0) + tally w l.
Proof. unfold tally. rewrite filter_cons. case_decide; cbn [length]; lia. Qed.

Lemma tally_snoc w v l : tally w (l ++ [v]) = tally w l + (if decide (w = v) then 1 else 0).
Proof. unfold tally. rewrite filter_app, length_app, filter_cons, filter_nil. case_decide; cbn [length]; lia. Qed.

Section engine_facts.
Context `{CR : Crypto} {St : Type} `{IS : ItemStore St} `{LAWS : !ItemStoreLaws St}.
Context (our_groups : list GroupId) (relay : option (GroupId -> bool)).

Lemma keep_existing_view s row x :
  store_read (fi_item_id x) s = Ok row ->
  keep_existing (Ok row) x = negb (supersedes x (store_view s !! fi_item_id x)).
Proof.
  intros Hr. rewrite <- (law_read _ _ _ Hr). destruct row as [r|]; [|done]. simpl.
  rewrite str_lt_not_le, negb_andb, !negb_involutive. done.
Qed.

(** A store that is up applies last-writer-wins to acceptable items. *)
Lemma receive_acceptable x s :
  store_up s -> acceptable our_groups relay x = true ->
  store_view (on_receive x our_groups relay s).1 =
    (if supersedes x (store_view s !! fi_item_id x)
     then <[fi_item_id x := content_of_item x]> (store_view s) else store_view s)
  /\ (on_receive x our_groups relay s).2 =
    (if supersedes x (store_view s !! fi_item_id x) then Stored else Duplicate).
Proof.
  intros Hup [[[[Hsz%Z.leb_le Hacc]%andb_prop Ht%negb_true_iff]%andb_prop Hty]%andb_prop Hck]%andb_prop.
  unfold on_receive. destruct (Z.ltb_spec MAX_ITEM_BYTES (blob_len x)); [lia|].
  rewrite Hacc, Ht, Hck. simpl. destruct (law_up_read (fi_item_id x) s Hup) as [row Hr].
  rewrite Hr, (keep_existing_view s row x Hr). destruct (supersedes x _) eqn:E; simpl; [|done].
  destruct (law_up_write (write_of x) s Hup) as [s' Hw]; [unfold write_ok; simpl; by rewrite Hty|].
  rewrite Hw. simpl. rewrite law_log. by destruct (law_write _ _ _ Hw) as [_ ->].
Qed.

Lemma receive_up x s : store_up s -> store_up (on_receive x our_groups relay s).1.
Proof.
  intros Hup. destruct (law_up_kept s Hup) as (Hw & Hd & Hl). unfold on_receive. do 2 (case_match; [done|]).
  case_match.
  - specialize (Hd (fi_item_id x)). destruct (store_delete _ s) as [s' [[]|]]; done.
  - do 2 (case_match; [done|]). specialize (Hw (write_of x)). destruct (store_write _ s) as [s' [u|]]; [|done].
    by apply (law_up_kept s' Hw).
Qed.

(** Whatever the store does, nothing but the received item's own entry changes,
    and only as the outcome says. *)
Lemma receive_effect x s :
  let r := on_receive x our_groups relay s in
  (forall id, id <> fi_item_id x -> store_view r.1 !! id = store_view s !! id)
  /\ match r.2 with
     | Stored =>
         blob_len x <= MAX_ITEM_BYTES /\ accepts our_groups relay (fi_group_id x) = true
         /\ if String.eqb (fi_item_type x) TOMBSTONE
            then is_Some (store_view s !! fi_item_id x) /\ store_view r.1 !! fi_item_id x = None
            else validate_checksum x = true /\ type_ok (fi_item_type x) = true
                 /\ store_view r.1 !! fi_item_id x = Some (content_of_item x)
     | _ => store_view r.1 = store_view s
     end.
Proof.
  unfold on_receive. destruct (Z.ltb_spec MAX_ITEM_BYTES (blob_len x)); [done|].
  destruct (accepts _ _ _) eqn:Hacc; [|done]. simpl. destruct (String.eqb _ TOMBSTONE) eqn:Ht.
  - destruct (store_delete _ s) as [s' [[]|e]] eqn:Hd; simpl.
    + apply law_delete in Hd as [Hb ->]. symmetry in Hb. apply bool_decide_eq_true in Hb.
      split; [intros id Hid; by rewrite lookup_delete_ne|]. by rewrite lookup_delete_eq.
    + apply law_delete in Hd as [Hb ->]. symmetry in Hb. apply bool_decide_eq_false in Hb.
      apply eq_None_not_Some in Hb. rewrite delete_id by done. done.
    + by apply law_delete_err in Hd as ->.
  - destruct (validate_checksum x) eqn:Hck; [|done]. simpl. case_match; [done|].
    destruct (store_write _ s) as [s' [[]|e]] eqn:Hw; simpl.
    + rewrite law_log. apply law_write in Hw as [Hok ->]. apply andb_prop in Hok as [Hok _].
      split; [intros id Hid; by rewrite lookup_insert_ne|]. simpl. rewrite lookup_insert_eq. done.
    + by apply law_write_err in Hw as ->.
Qed.

(** ** What a working store makes of items *)

(** The verdict on an item, given what the store holds. *)
Definition judge (admits : GroupId -> bool) (v : gmap string Content) (x : FetchedItem) : verdict :=
  if negb (blob_len x <=? MAX_ITEM_BYTES) || negb (admits (fi_group_id x)) then Refused
  else if String.eqb (fi_item_type x) TOMBSTONE then (if bool_decide (is_Some (v !! fi_item_id x)) then Taken else Known)
  else if negb (validate_checksum x) then Refused
  else if negb (supersedes x (v !! fi_item_id x)) then Known
  else if type_ok (fi_item_type x) then Taken else Refused.

(** The content afterwards. *)
Definition absorb (admits : GroupId -> bool) (v : gmap string Content) (x : FetchedItem) : gmap string Content :=
  match judge admits v x with
  | Taken => if String.eqb (fi_item_type x) TOMBSTONE then delete (fi_item_id x) v else <[fi_item_id x := content_of_item x]> v
  | _ => v
  end.

(** The verdicts on items that come one after the other. *)
Fixpoint verdicts (admits : GroupId -> bool) (v : gmap string Content) (l : list FetchedItem) : list verdict :=
  match l with [] => [] | x :: l => judge admits v x :: verdicts admits (absorb admits v x) l end.

Lemma verdicts_snoc admits v l x : verdicts admits v (l ++ [x]) = verdicts admits v l ++ [judge admits (foldl (absorb admits) v l) x].
Proof. revert v. induction l as [|y l IH]; intros v; [done|]. cbn. by rewrite IH. Qed.

Lemma receive_judged x s :
  store_up s ->
  verdict_of (on_receive x our_groups relay s).2 = judge (accepts our_groups relay) (store_view s) x
  /\ store_view (on_receive x our_groups relay s).1 = absorb (accepts our_groups relay) (store_view s) x.
Proof.
  intros Hup. unfold absorb, judge, on_receive.
  destruct (Z.ltb_spec MAX_ITEM_BYTES (blob_len x)), (Z.leb_spec (blob_len x) MAX_ITEM_BYTES); try lia; [done|]. cbn [negb orb].
  destruct (accepts our_groups relay (fi_group_id x)); [|done]. cbn [negb].
  destruct (String.eqb (fi_item_type x) TOMBSTONE) eqn:Ht.
  { destruct (law_up_delete (fi_item_id x) s Hup) as (s' & b & Hd). rewrite Hd. apply law_delete in Hd as [-> Hd].
    case_bool_decide as Hin; cbn; [done|]. split; [done|]. rewrite Hd. apply delete_id. by apply eq_None_not_Some. }
  destruct (validate_checksum x); [|done]. cbn [negb]. destruct (law_up_read (fi_item_id x) s Hup) as [row Hr].
  rewrite Hr, (keep_existing_view s row x Hr). destruct (supersedes x _); cbn [negb]; [|done].
  destruct (type_ok (fi_item_type x)) eqn:Hty.
  - destruct (law_up_write (write_of x) s Hup) as [s' Hw]; [unfold write_ok; cbn; by rewrite Hty|].
    rewrite Hw. cbn. split; [done|]. rewrite law_log. by destruct (law_write _ _ _ Hw) as [_ ->].
  - destruct (store_write (write_of x) s) as [s' [[]|e]] eqn:Hw; cbn.
    + apply law_write in Hw as [Hok _]. unfold write_ok in Hok. cbn in Hok. by rewrite Hty in Hok.
    + split; [done|]. by apply law_write_err in Hw.
Qed.

Lemma deliver_up l s : store_up s -> store_up (deliver our_groups relay l s).
Proof. unfold deliver. revert s. induction l as [|x l IH]; intros s Hup; [done|]. cbn. by apply IH, receive_up. Qed.

Lemma deliver_absorbs l s :
  store_up s -> store_view (deliver our_groups relay l s) = foldl (absorb (accepts our_groups relay)) (store_view s) l.
Proof.
  unfold deliver. revert s. induction l as [|x l IH]; intros s Hup; [done|]. cbn [foldl].
  rewrite IH by (by apply receive_up). by destruct (receive_judged x s Hup) as [_ ->].
Qed.

(** ** Agreement of replicas *)

(** Items that a group's members produced: two versions of an item differ in
    both checksum and timestamp. *)
Definition consistent (l : list FetchedItem) : Prop :=
  forall x y, x ∈ l -> y ∈ l -> fi_item_id x = fi_item_id y ->
    fi_checksum x = fi_checksum y \/ fi_updated_at x = fi_updated_at y -> x = y.

(** [x] is the newest of its item among [l]. *)
Definition newest (l : list FetchedItem) (x : FetchedItem) : Prop :=
  x ∈ l /\ forall y, y ∈ l -> fi_item_id y = fi_item_id x -> str_le (fi_updated_at y) (fi_updated_at x) = true.

(** What a replica holds after delivery of [l]: the newest version of each item. *)
Definition holds_newest (l : list FetchedItem) (v : gmap string Content) : Prop :=
  forall id, match v !! id with
             | Some c => exists x, newest l x /\ fi_item_id x = id /\ c = content_of_item x
             | None => forall x, x ∈ l -> fi_item_id x <> id
             end.

Lemma validated_checksum x : validate_checksum x = true -> sha256_hex (fi_encrypted_blob x) = fi_checksum x.
Proof. unfold validate_checksum. apply String.eqb_eq. Qed.

Lemma holds_newest_snoc l x v :
  consistent (l ++ [x]) -> acceptable our_groups relay x = true ->
  (forall y, y ∈ l -> acceptable our_groups relay y = true) ->
  holds_newest l v ->
  holds_newest (l ++ [x]) (if supersedes x (v !! fi_item_id x) then <[fi_item_id x := content_of_item x]> v else v).
Proof.
  intros Hcons [_ Hck%validated_checksum]%andb_prop Hl Hv id.
  assert (forall y, y ∈ l ++ [x] <-> y ∈ l \/ y = x) as Hin.
  { intros y. by rewrite elem_of_app, list_elem_of_singleton. }
  destruct (decide (id = fi_item_id x)) as [->|Hne].
  - specialize (Hv (fi_item_id x)). destruct (v !! fi_item_id x) as [c|] eqn:Hc; simpl.
    + destruct Hv as (y & [Hy Hmax] & Hid & ->). simpl.
      pose proof (Hl y Hy) as [_ Hcky%validated_checksum]%andb_prop. rewrite Hcky.
      case_bool_decide as Hsame; simpl.
      { assert (y = x) as -> by (apply (Hcons y x); [apply Hin; by left|apply Hin; by right|done|left; congruence]).
        rewrite Hc. exists x. split; [split; [apply Hin; by left|] | done].
        intros z [Hz| ->]%Hin Hzid; [by apply Hmax | apply str_le_refl]. }
      destruct (str_lt (fi_updated_at y) (fi_updated_at x)) eqn:Hlt.
      * rewrite lookup_insert_eq. exists x. split; [split; [apply Hin; by right|] | done].
        intros z [Hz| ->]%Hin Hzid; [|apply str_le_refl].
        apply str_le_trans with (fi_updated_at y); [apply Hmax; congruence | auto with cordelia].
      * rewrite Hc. exists y. split; [split; [apply Hin; by left|] | done].
        intros z [Hz| ->]%Hin Hzid; [by apply Hmax|]. rewrite str_lt_not_le in Hlt. by apply negb_false_iff in Hlt.
    + rewrite lookup_insert_eq. exists x. split; [split; [apply Hin; by right|] | done].
      intros z [Hz| ->]%Hin Hzid; [|apply str_le_refl]. by destruct (Hv z Hz).
  - assert ((if supersedes x (v !! fi_item_id x) then <[fi_item_id x:=content_of_item x]> v else v) !! id = v !! id) as ->.
    { case_match; [by rewrite lookup_insert_ne | done]. }
    specialize (Hv id). destruct (v !! id) as [c|].
    + destruct Hv as (y & [Hy Hmax] & Hid & ->). exists y. split; [split; [apply Hin; by left|] | done].
      intros z [Hz| ->]%Hin Hzid; [by apply Hmax | congruence].
    + intros z [Hz| ->]%Hin; [by apply Hv | done].
Qed.

Lemma deliver_snoc l x s :
  deliver our_groups relay (l ++ [x]) s = (on_receive x our_groups relay (deliver our_groups relay l s)).1.
Proof. unfold deliver. by rewrite foldl_app. Qed.

Lemma deliver_holds_newest l s :
  store_up s -> store_view s = ∅ -> consistent l ->
  (forall x, x ∈ l -> acceptable our_groups relay x = true) ->
  store_up (deliver our_groups relay l s) /\ holds_newest l (store_view (deliver our_groups relay l s)).
Proof.
  intros Hup Hemp. induction l as [|x l IH] using rev_ind; intros Hcons Hacc.
  { split; [done|]. intros id. simpl. rewrite Hemp, lookup_empty. intros x Hx. by apply elem_of_nil in Hx. }
  destruct IH as [Hup' Hv].
  { intros y z Hy Hz. apply Hcons; apply elem_of_app; by left. }
  { intros y Hy. apply Hacc, elem_of_app. by left. }
  rewrite deliver_snoc. split; [by apply receive_up|].
  assert (acceptable our_groups relay x = true) as Hx by (apply Hacc, elem_of_app; right; left).
  destruct (receive_acceptable x _ Hup' Hx) as [-> _]. apply holds_newest_snoc; try done.
  intros y Hy. apply Hacc, elem_of_app. by left.
Qed.

Lemma holds_newest_unique l l' v v' :
  consistent l -> (forall x, x ∈ l <-> x ∈ l') -> holds_newest l v -> holds_newest l' v' -> v = v'.
Proof.
  intros Hcons Hll Hv Hv'. apply map_eq. intros id. specialize (Hv id). specialize (Hv' id).
  destruct (v !! id) as [c|], (v' !! id) as [c'|].
  - destruct Hv as (x & [Hx Hmax] & Hid & ->), Hv' as (y & [Hy Hmax'] & Hid' & ->).
    assert (x = y) as ->; [|done]. apply Hll in Hy. apply Hcons; [done|done|congruence|]. right.
    apply str_le_antisym; [apply Hmax'; [by apply Hll | congruence] | apply Hmax; [done | congruence]].
  - destruct Hv as (x & [Hx _] & Hid & _). apply Hll in Hx. by destruct (Hv' x Hx).
  - destruct Hv' as (x & [Hx _] & Hid & _). apply Hll in Hx. by destruct (Hv x Hx).
  - done.
Qed.

End engine_facts.

(** ** Theorems *)

Section theorems.
Context `{CR : Crypto}.

(** A received item changes nothing but its own entry, and the outcome says
    how: [Stored] means that it was within the size limit and of an accepted
    group, and that either it was a tombstone and the entry is gone, or its
    checksum and type were right and the entry now is the item with the
    writer's timestamp; [Duplicate] and every rejection, including those caused
    by a failing store, leave the content of the store as it was. *)
Theorem receive_outcome_exact {St} `{IS : ItemStore St} `{LAWS : !ItemStoreLaws St} our_groups relay x s s' out :
  on_receive x our_groups relay s = (s', out) ->
  (forall id, id <> fi_item_id x -> store_view s' !! id = store_view s !! id)
  /\ match out with
     | Stored =>
         blob_len x <= MAX_ITEM_BYTES /\ accepts our_groups relay (fi_group_id x) = true
         /\ if String.eqb (fi_item_type x) TOMBSTONE
            then is_Some (store_view s !! fi_item_id x) /\ store_view s' !! fi_item_id x = None
            else validate_checksum x = true /\ type_ok (fi_item_type x) = true
                 /\ store_view s' !! fi_item_id x = Some (content_of_item x)
     | _ => store_view s' = store_view s
     end.
Proof. intros E. pose proof (receive_effect our_groups relay x s) as H. cbv zeta in H. by rewrite E in H. Qed.

(** [C11] Conflict resolution never goes back in time: receiving an item other
    than a tombstone, when the store can be read, keeps every entry, and no
    entry's timestamp decreases. *)
Theorem receive_never_goes_back {St} `{IS : ItemStore St} `{LAWS : !ItemStoreLaws St} our_groups relay x s id c :
  is_ok (store_read (fi_item_id x) s) = true -> fi_item_type x <> TOMBSTONE ->
  store_view s !! id = Some c ->
  exists c', store_view (on_receive x our_groups relay s).1 !! id = Some c'
    /\ str_le (c_updated_at c) (c_updated_at c') = true.
Proof.
  intros Hread Ht Hc. destruct (receive_effect our_groups relay x s) as [Hother Heff].
  destruct (decide (id = fi_item_id x)) as [->|Hne]; [|exists c; rewrite Hother by done; auto with cordelia].
  destruct (on_receive x our_groups relay s) as [s' out] eqn:E. simpl in *.
  destruct out; try (rewrite Heff; exists c; by auto with cordelia).
  destruct Heff as (_ & _ & Heff). apply String.eqb_neq in Ht. rewrite Ht in Heff.
  destruct Heff as (_ & _ & Hnew). exists (content_of_item x). split; [done|]. simpl.
  destruct (store_read (fi_item_id x) s) as [row|] eqn:Hr; [|done].
  pose proof (keep_existing_view s row x Hr) as Hkeep. rewrite Hc in Hkeep.
  unfold on_receive in E. rewrite Ht, Hr in E. do 3 (case_match; [done|]).
  destruct (keep_existing (Ok row) x); [done|]. symmetry in Hkeep. apply negb_false_iff, andb_prop in Hkeep as [_ Hlt].
  auto with cordelia.
Qed.

(** Redelivery is harmless: on a store that is up, receiving an item or a
    tombstone of an accepted group a second time reports a duplicate and
    changes nothing. *)
Theorem receive_idempotent {St} `{IS : ItemStore St} `{LAWS : !ItemStoreLaws St} our_groups relay x s :
  store_up s ->
  acceptable our_groups relay x = true
  \/ (blob_len x <= MAX_ITEM_BYTES /\ accepts our_groups relay (fi_group_id x) = true /\ fi_item_type x = TOMBSTONE) ->
  let s1 := (on_receive x our_groups relay s).1 in
  (on_receive x our_groups relay s1).2 = Duplicate
  /\ store_view (on_receive x our_groups relay s1).1 = store_view s1.
Proof.
  intros Hup Hx s1. assert (store_up s1) as Hup1 by (by apply receive_up).
  destruct Hx as [Hx|(Hsz & Hacc & Ht)].
  - destruct (receive_acceptable our_groups relay x s Hup Hx) as [Hv _].
    destruct (receive_acceptable our_groups relay x s1 Hup1 Hx) as [-> ->].
    assert (supersedes x (store_view s1 !! fi_item_id x) = false) as ->; [|done].
    unfold s1. rewrite Hv. destruct (supersedes x (store_view s !! fi_item_id x)) eqn:E; [|done].
    rewrite lookup_insert_eq. unfold supersedes. apply andb_false_iff. right. apply str_lt_irrefl.
  - assert (store_view s1 !! fi_item_id x = None) as Hnone.
    { destruct (law_up_delete (fi_item_id x) s Hup) as (s' & b & Hd). unfold s1, on_receive.
      destruct (Z.ltb_spec MAX_ITEM_BYTES (blob_len x)); [lia|]. rewrite Hacc, Ht. simpl. rewrite Hd.
      apply law_delete in Hd as [_ Hd]. destruct b; simpl; by rewrite Hd, lookup_delete_eq. }
    destruct (law_up_delete (fi_item_id x) s1 Hup1) as (s' & b & Hd).
    unfold on_receive. destruct (Z.ltb_spec MAX_ITEM_BYTES (blob_len x)); [lia|]. rewrite Hacc, Ht. simpl. rewrite Hd.
    apply law_delete in Hd as [-> Hd]. rewrite Hnone. simpl. by rewrite Hd, delete_id.
Qed.

(** [C2] Agreement of replicas: two nodes with empty stores that work, to which the
    same items are delivered, in any order and any number of times, hold the same
    content, namely the newest version of every item.  Asked of the items: both
    nodes accept their groups, they are in order and none is a tombstone, and two
    different versions of one item differ in checksum and in timestamp.  Outside
    of that replicas may differ: versions with equal timestamps stay apart, a
    version whose content comes back later is taken for a duplicate, and a
    deletion depends on the order. *)
Theorem replicas_agree {St St'} `{IS : ItemStore St} `{LAWS : !ItemStoreLaws St} `{IS' : ItemStore St'} `{LAWS' : !ItemStoreLaws St'}
    our_groups relay our_groups' relay' l l' s s' :
  store_up s -> store_up s' -> store_view s = ∅ -> store_view s' = ∅ ->
  (forall x, x ∈ l <-> x ∈ l') -> consistent l ->
  (forall x, x ∈ l -> acceptable our_groups relay x = true /\ acceptable our_groups' relay' x = true) ->
  store_view (deliver our_groups relay l s) = store_view (deliver our_groups' relay' l' s')
  /\ holds_newest l (store_view (deliver our_groups relay l s)).
Proof.
  intros Hup Hup' Hs Hs' Hll Hcons Hacc.
  assert (consistent l') as Hcons' by (intros x y Hx Hy; apply Hcons; by apply Hll).
  destruct (deliver_holds_newest our_groups relay l s) as [_ Hv]; [done|done|done|apply Hacc|].
  destruct (deliver_holds_newest our_groups' relay' l' s') as [_ Hv']; [done|done|done| |].
  { intros x Hx%Hll. by apply Hacc. }
  split; [|done]. exact (holds_newest_unique l l' _ _ Hcons Hll Hv Hv').
Qed.

(** From a local write to a peer's store: an item that the engine decides to
    broadcast passes the validation of every node that accepts its group, and
    unless that node has a version that is as new it ends up holding the
    written data with its author, key version, lineage and write time. *)
Theorem broadcast_is_received {St} `{IS : ItemStore St} `{LAWS : !ItemStoreLaws St} eng now gid culture id ty data kv parent copy item
    our_groups relay s :
  on_local_write eng now gid culture id ty data kv parent copy = BroadcastItem gid item ->
  type_ok ty = true -> is_u32 kv -> accepts our_groups relay gid = true -> store_up s ->
  supersedes item (store_view s !! id) = true ->
  let r := on_receive item our_groups relay s in
  r.2 = Stored
  /\ exists c, store_view r.1 = <[id := c]> (store_view s)
       /\ c_data c = data /\ c_type c = ty /\ c_group c = Some gid /\ c_author c = Some (re_entity_id eng)
       /\ i32_as_u32 (c_key_version c) = kv /\ c_parent c = parent /\ c_is_copy c = copy /\ c_updated_at c = now.
Proof.
  intros Hw Hty Hkv Hacc Hup Hsup r. unfold on_local_write in Hw.
  destruct (Z.ltb_spec MAX_ITEM_BYTES (Z.of_nat (length data))); [done|].
  destruct (strategy culture); [|done]. injection Hw as <-.
  set (item := Build_FetchedItem _ _ _ _ _ _ _ _ _ _) in *.
  assert (acceptable our_groups relay item = true) as Hok.
  { unfold acceptable, blob_len, validate_checksum. simpl. rewrite Hacc, Hty, String.eqb_refl, !andb_true_r.
    apply andb_true_iff. split; [by apply Z.leb_le|]. apply negb_true_iff, String.eqb_neq. by intros ->. }
  destruct (receive_acceptable our_groups relay item s Hup Hok) as [Hv Ho].
  unfold r. rewrite Hv, Ho. simpl. rewrite Hsup. split; [done|]. eexists. split; [done|]. simpl.
  split_and!; try done. by apply i32_u32_roundtrip.
Qed.

(** Tombstones are not bound to the group of the item they delete: a
    tombstone sent for any group that the node accepts deletes the item of that
    identifier, whichever group it belongs to and however new it is. *)
Theorem tombstone_crosses_groups {St} `{IS : ItemStore St} `{LAWS : !ItemStoreLaws St} our_groups relay x s c :
  store_up s -> blob_len x <= MAX_ITEM_BYTES -> accepts our_groups relay (fi_group_id x) = true ->
  fi_item_type x = TOMBSTONE -> store_view s !! fi_item_id x = Some c ->
  (on_receive x our_groups relay s).2 = Stored
  /\ store_view (on_receive x our_groups relay s).1 = delete (fi_item_id x) (store_view s).
Proof.
  intros Hup Hsz Hacc Ht Hc. unfold on_receive. destruct (Z.ltb_spec MAX_ITEM_BYTES (blob_len x)); [lia|].
  rewrite Hacc, Ht. simpl. destruct (law_up_delete (fi_item_id x) s Hup) as (s' & b & Hd). rewrite Hd.
  apply law_delete in Hd as [-> Hd]. by rewrite Hc.
Qed.

End theorems.

(** The checksum known for an identifier is that of the last header that has it. *)
Lemma header_map_lookup local id :
  header_map local !! id = ih_checksum <$> last (filterb (fun h => String.eqb (ih_item_id h) id) local).
Proof.
  unfold header_map. induction local as [|h local IH] using rev_ind; [done|].
  rewrite foldl_app, filter_app. simpl. destruct (decide (ih_item_id h = id)) as [<-|Hne].
  - rewrite lookup_insert_eq, filter_cons_True, filter_nil, last_snoc by (by apply String.eqb_refl). done.
  - rewrite lookup_insert_ne, IH, filter_cons_False, filter_nil, app_nil_r by (done || by rewrite String.eqb_eq). done.
Qed.

Lemma header_map_inv local id c :
  header_map local !! id = Some c -> exists h, h ∈ local /\ ih_item_id h = id /\ ih_checksum h = c.
Proof.
  rewrite header_map_lookup. destruct (last _) as [h|] eqn:E; [|done]. intros [= <-].
  apply last_Some_elem_of, elem_of_filterb in E as [E%String.eqb_eq Hin]. eauto.
Qed.

(** Header comparison asks for exactly the items that are unknown here or
    differ: an identifier is fetched if and only if some remote header carries
    it and the last local header for it, if any, has another checksum. *)
Theorem diff_headers_exact local remote id :
  id ∈ diff_headers local remote <->
  exists r, r ∈ remote /\ ih_item_id r = id
    /\ forall h, last (filterb (fun h => String.eqb (ih_item_id h) id) local) = Some h -> ih_checksum h <> ih_checksum r.
Proof.
  unfold diff_headers. rewrite list_elem_of_fmap. split.
  - intros (r & -> & [Hn Hr]%elem_of_filterb). exists r. split_and!; try done. intros h Hh.
    unfold needs_fetch in Hn. rewrite header_map_lookup, Hh in Hn. simpl in Hn. by apply negb_true_iff, String.eqb_neq in Hn.
  - intros (r & Hr & <- & Hd). exists r. split; [done|]. apply elem_of_filterb. split; [|done].
    unfold needs_fetch. rewrite header_map_lookup. destruct (last _) as [h|]; [|done]. simpl.
    apply negb_true_iff, String.eqb_neq. by apply Hd.
Qed.

(** ** Witnesses *)

Definition ex_fetched (id ts : string) (b : Byte.byte) : FetchedItem := {|
  fi_item_id := id; fi_item_type := "entity"; fi_encrypted_blob := [b];
  fi_checksum := @sha256_hex toy_crypto [b]; fi_author_id := "alice"; fi_group_id := "g"; fi_key_version := 1;
  fi_parent_id := None; fi_is_copy := false; fi_updated_at := ts |}.

Definition ex_tombstone (id gid : string) : FetchedItem := {|
  fi_item_id := id; fi_item_type := TOMBSTONE; fi_encrypted_blob := []; fi_checksum := EmptyString;
  fi_author_id := "mallory"; fi_group_id := gid; fi_key_version := 1; fi_parent_id := None;
  fi_is_copy := false; fi_updated_at := "1970" |}.

Abbreviation store := (@sqlite_store toy_crypto ex_env) (only parsing).
Abbreviation laws := (@sqlite_store_laws toy_crypto ex_env) (only parsing).

Lemma ex_up d : lock_poisoned d = false -> @store_up _ _ store laws d.
Proof. intros H. split; [exact H | intros name; reflexivity]. Qed.

Lemma receive_outcome_exact_witness :
  @validate_checksum toy_crypto (ex_fetched "i9" "2026" Byte.x07) = true.
Proof.
  pose proof (@receive_outcome_exact toy_crypto Db store laws ["g"%string] None
    (ex_fetched "i9" "2026" Byte.x07) ex_db _ _ eq_refl) as [_ H].
  apply H.
Defined.

Lemma receive_never_goes_back_witness :
  exists c', @store_view _ _ store laws
      (@on_receive toy_crypto Db store (ex_fetched "i1" "2027" Byte.x07) ["g"%string] None ex_db).1
      !! "i1"%string = Some c' /\ str_le "2026-01-02" (c_updated_at c') = true.
Proof.
  apply (@receive_never_goes_back toy_crypto Db store laws ["g"%string] None (ex_fetched "i1" "2027" Byte.x07) ex_db
    "i1"%string (@content_of_write toy_crypto "" (ex_item "i1" "2026-01-02" [Byte.x01]))).
  - vm_compute. reflexivity.
  - discriminate.
  - vm_compute. reflexivity.
Defined.

Lemma receive_idempotent_witness :
  (@on_receive toy_crypto Db store (ex_tombstone "i1" "g") ["g"%string] None
    (@on_receive toy_crypto Db store (ex_tombstone "i1" "g") ["g"%string] None ex_db).1).2 = Duplicate.
Proof.
  apply (@receive_idempotent toy_crypto Db store laws ["g"%string] None (ex_tombstone "i1" "g") ex_db).
  - apply ex_up. reflexivity.
  - right. split; [vm_compute; discriminate|]. split; vm_compute; reflexivity.
Defined.

Definition ex_versions : list FetchedItem :=
  [ex_fetched "a" "2026-01" Byte.x01; ex_fetched "a" "2026-02" Byte.x02; ex_fetched "b" "2026-01" Byte.x03].

Lemma ex_versions_consistent : consistent ex_versions.
Proof.
  assert (Forall (fun x => Forall (fun y => String.eqb (fi_item_id x) (fi_item_id y)
      && (String.eqb (fi_checksum x) (fi_checksum y) || String.eqb (fi_updated_at x) (fi_updated_at y)) = true -> x = y)
    ex_versions) ex_versions) as Hall.
  { repeat (apply Forall_cons; split); try apply Forall_nil; try done; vm_compute; intros H; congruence. }
  intros x y Hx Hy Hid Hor. rewrite Forall_forall in Hall. specialize (Hall x Hx). rewrite Forall_forall in Hall.
  apply (Hall y Hy). apply String.eqb_eq in Hid. rewrite Hid. simpl.
  destruct Hor as [H|H]; apply String.eqb_eq in H; rewrite H; [done | apply orb_true_r].
Qed.

Lemma replicas_agree_witness :
  @store_view _ _ store laws (@deliver toy_crypto Db store ["g"%string] None ex_versions empty_db)
  = @store_view _ _ store laws (@deliver toy_crypto Db store [] (Some (fun _ => true)) (reverse ex_versions ++ ex_versions) empty_db).
Proof.
  apply (@replicas_agree toy_crypto Db Db store laws store laws ["g"%string] None [] (Some (fun _ => true))
    ex_versions (reverse ex_versions ++ ex_versions) empty_db empty_db).
  - apply ex_up. reflexivity.
  - apply ex_up. reflexivity.
  - vm_compute. reflexivity.
  - vm_compute. reflexivity.
  - intros x. rewrite elem_of_app, elem_of_reverse. tauto.
  - apply ex_versions_consistent.
  - intros x Hx. repeat (apply elem_of_cons in Hx as [->|Hx]; [split; vm_compute; reflexivity|]). by apply elem_of_nil in Hx.
Defined.

Lemma broadcast_is_received_witness :
  (@on_receive toy_crypto Db store (ex_fetched "n" "2026" Byte.x05) ["g"%string] None ex_db).2 = Stored.
Proof.
  apply (@broadcast_is_received toy_crypto Db store laws {| re_config := default_replication_config; re_entity_id := "alice" |}
    "2026" "g" default_culture "n" "entity" [Byte.x05] 1 None false (ex_fetched "n" "2026" Byte.x05) ["g"%string] None ex_db).
  - vm_compute. reflexivity.
  - vm_compute. reflexivity.
  - unfold is_u32, u32_max. lia.
  - vm_compute. reflexivity.
  - apply ex_up. reflexivity.
  - vm_compute. reflexivity.
Defined.

(** A node that relays group "other" only loses an item of group "g". *)
Lemma tombstone_crosses_groups_witness :
  (@on_receive toy_crypto Db store (ex_tombstone "i1" "other") ["other"%string] None ex_db).2 = Stored.
Proof.
  apply (@tombstone_crosses_groups toy_crypto Db store laws ["other"%string] None (ex_tombstone "i1" "other") ex_db
    (@content_of_write toy_crypto "" (ex_item "i1" "2026-01-02" [Byte.x01]))).
  - apply ex_up. reflexivity.
  - vm_compute. discriminate.
  - vm_compute. reflexivity.
  - reflexivity.
  - vm_compute. reflexivity.
Defined.
