(* ===== verification/PeerPool.v ===== *)
(** * The peer pool

    Models [crates/cordelia-node/src/peer_pool.rs]: the registry of connected
    peers that the swarm, replication and API tasks share, its queries, and the
    application of the governor's decisions to it ([follows_log]: the pool
    follows the governor).

    The group lists that the pool reads through shared locks (our groups, the
    groups a relay has learned) are arguments; the index drawn by the random
    generator is an argument too. *)

From S2P Require Import Prelude Float64 Protocol Governor GovernorFacts.

(** ** Data *)

Record PeerHandle := {
  ph_node_id : NodeId;
  ph_addrs : list Multiaddr;
  ph_state : PeerState;
  ph_groups : list GroupId;
  ph_group_intersection : list GroupId;
  ph_rtt_ms : option f64;
  ph_protocol_version : Z;
  ph_is_relay : bool;
  ph_items_delivered : Z;
}.

Abbreviation Pool := (gmap NodeId PeerHandle) (only parsing).

(** The group set of this node: its own groups and, on a relay, the learned ones. *)
Record PoolGroups := {
  pg_our_groups : list GroupId;
  pg_learned : option (gset string);
}.

Definition ph_set_state (s : PeerState) (h : PeerHandle) : PeerHandle :=
  {| ph_node_id := ph_node_id h; ph_addrs := ph_addrs h; ph_state := s; ph_groups := ph_groups h;
     ph_group_intersection := ph_group_intersection h; ph_rtt_ms := ph_rtt_ms h;
     ph_protocol_version := ph_protocol_version h; ph_is_relay := ph_is_relay h;
     ph_items_delivered := ph_items_delivered h |}.

Definition ph_set_groups (gs inter : list GroupId) (h : PeerHandle) : PeerHandle :=
  {| ph_node_id := ph_node_id h; ph_addrs := ph_addrs h; ph_state := ph_state h; ph_groups := gs;
     ph_group_intersection := inter; ph_rtt_ms := ph_rtt_ms h;
     ph_protocol_version := ph_protocol_version h; ph_is_relay := ph_is_relay h;
     ph_items_delivered := ph_items_delivered h |}.

Definition ph_set_addrs (a : list Multiaddr) (h : PeerHandle) : PeerHandle :=
  {| ph_node_id := ph_node_id h; ph_addrs := a; ph_state := ph_state h; ph_groups := ph_groups h;
     ph_group_intersection := ph_group_intersection h; ph_rtt_ms := ph_rtt_ms h;
     ph_protocol_version := ph_protocol_version h; ph_is_relay := ph_is_relay h;
     ph_items_delivered := ph_items_delivered h |}.

Definition ph_set_delivered (n : Z) (h : PeerHandle) : PeerHandle :=
  {| ph_node_id := ph_node_id h; ph_addrs := ph_addrs h; ph_state := ph_state h; ph_groups := ph_groups h;
     ph_group_intersection := ph_group_intersection h; ph_rtt_ms := ph_rtt_ms h;
     ph_protocol_version := ph_protocol_version h; ph_is_relay := ph_is_relay h; ph_items_delivered := n |}.

Definition ph_set_rtt (r : f64) (h : PeerHandle) : PeerHandle :=
  {| ph_node_id := ph_node_id h; ph_addrs := ph_addrs h; ph_state := ph_state h; ph_groups := ph_groups h;
     ph_group_intersection := ph_group_intersection h; ph_rtt_ms := Some r;
     ph_protocol_version := ph_protocol_version h; ph_is_relay := ph_is_relay h;
     ph_items_delivered := ph_items_delivered h |}.

Definition ph_set_relay (b : bool) (h : PeerHandle) : PeerHandle :=
  {| ph_node_id := ph_node_id h; ph_addrs := ph_addrs h; ph_state := ph_state h; ph_groups := ph_groups h;
     ph_group_intersection := ph_group_intersection h; ph_rtt_ms := ph_rtt_ms h;
     ph_protocol_version := ph_protocol_version h; ph_is_relay := b;
     ph_items_delivered := ph_items_delivered h |}.

(** ** Operations *)

(** [PeerPool::new] and [PeerPool::new_relay]: no peers, and the groups to compare with. *)
Definition pool_new (our_groups : list GroupId) : Pool * PoolGroups :=
  (∅, {| pg_our_groups := our_groups; pg_learned := None |}).

Definition pool_new_relay (our_groups : list GroupId) (learned : gset string) : Pool * PoolGroups :=
  (∅, {| pg_our_groups := our_groups; pg_learned := Some learned |}).

Definition in_group_set (ctx : PoolGroups) (g : GroupId) : bool :=
  contains (pg_our_groups ctx) g
  || match pg_learned ctx with Some set => bool_decide (g ∈ set) | None => false end.

Definition compute_intersection (ctx : PoolGroups) (peer_groups : list GroupId) : list GroupId :=
  filterb (in_group_set ctx) peer_groups.

Definition pool_insert (ctx : PoolGroups) (id : NodeId) (a : list Multiaddr) (peer_groups : list GroupId)
    (s : PeerState) (version : Z) (relay : bool) (pool : Pool) : Pool :=
  <[id := {| ph_node_id := id; ph_addrs := a; ph_state := s; ph_groups := peer_groups;
             ph_group_intersection := compute_intersection ctx peer_groups; ph_rtt_ms := None;
             ph_protocol_version := version; ph_is_relay := relay; ph_items_delivered := 0 |}]> pool.

Definition pool_remove (id : NodeId) (pool : Pool) : Pool * option PeerHandle := (delete id pool, pool !! id).

Definition pool_get (id : NodeId) (pool : Pool) : option PeerHandle := pool !! id.

Definition pool_len (pool : Pool) : nat := size pool.

Definition pool_is_empty (pool : Pool) : bool := (size pool =? 0)%nat.

Definition update_peer_groups (ctx : PoolGroups) (id : NodeId) (gs : list GroupId) (pool : Pool) : Pool :=
  alter (ph_set_groups gs (compute_intersection ctx gs)) id pool.

Definition update_addrs (id : NodeId) (a : list Multiaddr) (pool : Pool) : Pool := alter (ph_set_addrs a) id pool.

Definition pool_record_items_delivered (id : NodeId) (count : Z) (pool : Pool) : Pool :=
  alter (fun h => ph_set_delivered (wrap_u64 (ph_items_delivered h + count)) h) id pool.

Definition update_rtt (id : NodeId) (r : f64) (pool : Pool) : Pool := alter (ph_set_rtt r) id pool.

Definition pool_set_relay (id : NodeId) (b : bool) (pool : Pool) : Pool := alter (ph_set_relay b) id pool.

Definition pool_set_state (id : NodeId) (s : PeerState) (pool : Pool) : Pool := alter (ph_set_state s) id pool.

(** [match to { "hot" => .., "warm" => .., _ => {} }] *)
Definition apply_to (to : string) (h : PeerHandle) : PeerHandle :=
  if String.eqb to "hot" then ph_set_state Hot h
  else if String.eqb to "warm" then ph_set_state Warm h
  else h.

Definition apply_transitions (ts : list (NodeId * string * string)) (pool : Pool) : Pool :=
  foldl (fun pool t => alter (apply_to t.2) t.1.1 pool) pool ts.

Definition remove_disconnected (ids : list NodeId) (pool : Pool) : Pool * list NodeId :=
  foldl (fun '(pool, gone) id =>
      match pool !! id with
      | Some _ => (delete id pool, gone ++ [id])
      | None => (pool, gone)
      end) (pool, []) ids.

Definition apply_governor_actions (a : GovernorActions) (pool : Pool) : Pool * list NodeId :=
  remove_disconnected (disconnect a) (apply_transitions (transitions a) pool).

Section queries.
Context `{HI : HashIter}.

Definition is_hot_handle (h : PeerHandle) : bool := is_hot (ph_state h).
Definition is_active_handle (h : PeerHandle) : bool := is_active (ph_state h).
Definition shares_group (gid : GroupId) (h : PeerHandle) : bool := contains (ph_group_intersection h) gid.

Definition pool_hot_peers_for_group (gid : GroupId) (pool : Pool) : list PeerHandle :=
  filterb (fun h => is_hot_handle h && shares_group gid h) (values pool).

Definition active_peers_for_group (gid : GroupId) (pool : Pool) : list PeerHandle :=
  filterb (fun h => is_active_handle h && shares_group gid h) (values pool).

Definition active_peers (pool : Pool) : list PeerHandle := filterb is_active_handle (values pool).

Definition active_peers_for_group_or_relays (gid : GroupId) (pool : Pool) : list PeerHandle :=
  filterb (fun h => is_active_handle h && (ph_is_relay h || shares_group gid h)) (values pool).

Definition relay_peers (pool : Pool) : list PeerHandle :=
  filterb (fun h => is_active_handle h && ph_is_relay h) (values pool).

Definition peer_count_by_state (pool : Pool) : nat * nat :=
  (length (filterb (fun h => is_warm (ph_state h)) (values pool)),
   length (filterb is_hot_handle (values pool))).

(** [if peers.is_empty() { peers = next }] *)
Definition or_else {A} (l next : list A) : list A := match l with [] => next | _ => l end.

Definition random_hot_peer_for_group (idx : nat) (gid : GroupId) (pool : Pool) : option PeerHandle :=
  or_else (pool_hot_peers_for_group gid pool) (active_peers_for_group gid pool) !! idx.

Definition sync_candidates (gid : GroupId) (pool : Pool) : list PeerHandle :=
  or_else (filterb (fun h => is_hot_handle h && shares_group gid h) (values pool))
    (or_else (filterb (fun h => is_active_handle h && shares_group gid h) (values pool))
      (or_else (filterb (fun h => is_hot_handle h && ph_is_relay h) (values pool))
        (filterb (fun h => is_active_handle h && ph_is_relay h) (values pool)))).

Definition random_hot_peer_for_group_or_relays (idx : nat) (gid : GroupId) (pool : Pool) : option PeerHandle :=
  sync_candidates gid pool !! idx.

End queries.

(** ** Effect of the governor's actions on one entry *)

Lemma apply_transitions_lookup ts pool id :
  apply_transitions ts pool !! id = (fun h => foldl (fun h e => apply_to e.2 h) h (log_of id ts)) <$> pool !! id.
Proof.
  unfold apply_transitions. revert pool. induction ts as [|[[j from] to] ts IH]; intros pool.
  { simpl. by destruct (pool !! id). }
  change ((j, from, to) :: ts) with ([(j, from, to)] ++ ts). rewrite log_of_app, foldl_app, IH. simpl.
  unfold log_of at 2. destruct (decide (j = id)) as [->|Hne].
  - rewrite lookup_alter_eq, filter_cons_True by (simpl; apply String.eqb_refl). by destruct (pool !! id).
  - rewrite lookup_alter_ne, filter_cons_False by (done || simpl; by rewrite String.eqb_eq). done.
Qed.

Lemma remove_disconnected_lookup ids pool gone id :
  (foldl (fun '(pool, gone) id => match pool !! id with
      | Some _ => (delete id pool, gone ++ [id]) | None => (pool, gone) end) (pool, gone) ids).1 !! id
  = if decide (id ∈ ids) then None else (pool : gmap NodeId PeerHandle) !! id.
Proof.
  revert pool gone. induction ids as [|j ids IH]; intros pool gone; [done|]. simpl.
  destruct (pool !! j) as [h|] eqn:Hj; rewrite IH; clear IH;
    (destruct (decide (id ∈ ids)); [by rewrite decide_True by (by right)|]);
    (destruct (decide (j = id)) as [<-|Hne];
      [rewrite decide_True by left | rewrite decide_False by (by intros [->|]%elem_of_cons)]).
  - by rewrite lookup_delete_eq.
  - by rewrite lookup_delete_ne.
  - done.
  - done.
Qed.

(** The state of a peer as the pool should see it: connected peers only. *)
Definition gov_active (g : Governor) (id : NodeId) : option PeerState :=
  match peers g !! id with
  | Some p => if is_active (state p) then Some (state p) else None
  | None => None
  end.

(** The pool holds exactly the connected peers, in the governor's state. *)
Definition follows (pool : Pool) (g : Governor) : Prop :=
  forall id, ph_state <$> pool !! id = gov_active g id.

Definition active_name (s : string) : option PeerState :=
  if String.eqb s "hot" then Some Hot else if String.eqb s "warm" then Some Warm else None.

(** What a legal log does to a connected peer: it ends connected in the state the
    log says, or Cold through a Warm-to-Cold transition. *)
Lemma log_of_connected id l s t h :
  Forall (fun e => legal_transition (id, e.1, e.2)) l -> chain s l t ->
  active_name s = Some (ph_state h) ->
  (t = "cold"%string /\ ("warm", "cold")%string ∈ l)
  \/ ((("warm", "cold")%string ∉ l) /\ active_name t = Some (ph_state (foldl (fun h e => apply_to e.2 h) h l))).
Proof.
  revert s h. induction l as [|[from to] l IH]; intros s h Hl Hc Hs; simpl in *.
  { subst t. right. split; [by intros H%elem_of_nil | done]. }
  destruct Hc as [-> Hc]. apply Forall_cons in Hl as [Hleg Hl].
  unfold legal_transition in Hleg. cbn [fst snd] in Hleg. rewrite !elem_of_cons in Hleg.
  assert (forall h', ph_state h' = ph_state (apply_to to h) -> active_name to = Some (ph_state h') ->
    ("warm", "cold")%string <> (s, to) ->
    (t = "cold"%string /\ ("warm", "cold")%string ∈ (s, to) :: l)
    \/ ((("warm", "cold")%string ∉ (s, to) :: l) /\ active_name t = Some (ph_state (foldl (fun h e => apply_to e.2 h) (apply_to to h) l)))) as Hstep.
  { intros h' Hh' Hto Hne. rewrite Hh' in Hto. destruct (IH to (apply_to to h) Hl Hc Hto) as [[-> Hin]|[Hnin Hst]].
    - left. split; [done|]. by right.
    - right. split; [|done]. by intros [|]%elem_of_cons. }
  destruct Hleg as [Hn|[Hn|[Hn|[Hn|Hn]]]]; [injection Hn as -> ->..|by apply elem_of_nil in Hn].
  - done.
  - by apply (Hstep (apply_to "warm" h)).
  - left. split; [|left]. destruct l as [|[f u] l]; [done|]. destruct Hc as [-> _].
    apply Forall_cons in Hl as [Hleg _]. unfold legal_transition in Hleg. cbn [fst snd] in Hleg.
    rewrite !elem_of_cons in Hleg.
    destruct Hleg as [Hn|[Hn|[Hn|[Hn|Hn]]]]; [discriminate Hn..|by apply elem_of_nil in Hn].
  - by apply (Hstep (apply_to "hot" h)).
Qed.

Lemma active_name_state s : active_name (state_name s) = if is_active s then Some s else None.
Proof. by destruct s. Qed.

(** A peer that is not connected stays so. *)
Lemma log_of_unconnected id l s t :
  Forall (fun e => legal_transition (id, e.1, e.2)) l -> chain s l t ->
  (s = "cold" \/ s = "banned")%string -> active_name t = None.
Proof.
  revert s. induction l as [|[from to] l IH]; intros s Hl Hc Hs; simpl in *; [subst t; by destruct Hs as [-> | ->]|].
  destruct Hc as [-> Hc]. apply Forall_cons in Hl as [Hleg Hl].
  unfold legal_transition in Hleg. cbn [fst snd] in Hleg. rewrite !elem_of_cons in Hleg.
  destruct Hleg as [Hn|[Hn|[Hn|[Hn|Hn]]]]; [injection Hn as -> ->..|by apply elem_of_nil in Hn].
  - apply (IH "cold"%string); auto.
  - by destruct Hs.
  - by destruct Hs.
  - by destruct Hs.
Qed.

Lemma in_disconnects id ts : id ∈ disconnects ts <-> ("warm", "cold")%string ∈ log_of id ts.
Proof.
  unfold disconnects, log_of. split.
  - intros ([j from] & -> & ([[j' from'] to] & [= -> ->] & Hin)%list_elem_of_fmap)%list_elem_of_fmap.
    apply elem_of_filterb in Hin as [[Hf%String.eqb_eq Ht%String.eqb_eq]%andb_prop Hin]. cbn [fst snd] in *. subst.
    apply list_elem_of_fmap. exists (j', "warm", "cold")%string. split; [done|].
    apply elem_of_filterb. split; [apply String.eqb_refl | done].
  - intros ([[j from] to] & [= <- <-] & [Hj%String.eqb_eq Hin]%elem_of_filterb)%list_elem_of_fmap. cbn [fst] in Hj. subst j.
    rewrite <- list_fmap_compose. apply list_elem_of_fmap. exists (id, "warm", "cold")%string. split; [done|].
    apply elem_of_filterb. done.
Qed.

(** The pool after the actions of a legal, exact log. *)
Lemma follows_log pool g g' a ts :
  follows pool g -> transitions a = ts -> disconnect a = disconnects ts -> Forall legal_transition ts ->
  (forall id, peer_log (peers g !! id) (log_of id ts) (peers g' !! id)) ->
  follows (apply_governor_actions a pool).1 g'.
Proof.
  intros Hf Hts Hds Hleg Hlog id. specialize (Hf id). specialize (Hlog id).
  unfold apply_governor_actions, remove_disconnected. rewrite remove_disconnected_lookup, apply_transitions_lookup, Hts, Hds.
  assert (Forall (fun e => legal_transition (id, e.1, e.2)) (log_of id ts)) as Hl.
  { rewrite Forall_forall. intros e ([[j from] to] & -> & [_ Hin]%elem_of_filterb)%list_elem_of_fmap.
    rewrite Forall_forall in Hleg. by apply (Hleg _ Hin). }
  unfold gov_active in *. destruct (peers g !! id) as [p|] eqn:Hp.
  2: { destruct (peers g' !! id); [done|]. destruct (pool !! id); [done|]. by case_decide. }
  destruct (pool !! id) as [h|] eqn:Hh; simpl in Hf.
  - assert (active_name (state_name (state p)) = Some (ph_state h)) as Hs by (by rewrite active_name_state).
    set (t := match peers g' !! id with Some p' => state_name (state p') | None => "cold"%string end).
    assert (chain (state_name (state p)) (log_of id ts) t) as Hc by (unfold t; by destruct (peers g' !! id)).
    assert (match peers g' !! id with Some p' => if is_active (state p') then Some (state p') else None | None => None end
      = active_name t) as ->.
    { unfold t. destruct (peers g' !! id); [by rewrite active_name_state | done]. }
    destruct (log_of_connected id _ _ _ h Hl Hc Hs) as [[-> Hin]|[Hnin ->]].
    + by rewrite decide_True by (by apply in_disconnects).
    + by rewrite decide_False by (by rewrite in_disconnects).
  - assert (state_name (state p) = "cold" \/ state_name (state p) = "banned")%string as Hs.
    { destruct (state p); simpl in *; auto; done. }
    transitivity (@None PeerState); [by case_decide | symmetry].
    destruct (peers g' !! id) as [p'|] eqn:Hp'; [|done]. simpl in Hlog.
    pose proof (log_of_unconnected id _ _ _ Hl Hlog Hs) as Hn. by rewrite active_name_state in Hn.
Qed.

(** ** Theorems *)

Lemma or_else_nil {A} (l next : list A) : or_else l next = [] <-> l = [] /\ next = [].
Proof. destruct l; simpl; [|by split; [|intros [? _]]]. split; [done | by intros [_ ?]]. Qed.

Lemma elem_of_or_else {A} (l next : list A) x : x ∈ or_else l next <-> x ∈ l \/ (l = [] /\ x ∈ next).
Proof.
  destruct l; simpl; [rewrite elem_of_nil; tauto|]. split; [by left | by intros [|[? _]]].
Qed.

Lemma filterb_values_nil `{HashIter} (P : PeerHandle -> bool) (pool : gmap NodeId PeerHandle) :
  filterb P (values pool) = [] <-> forall id h, pool !! id = Some h -> P h = false.
Proof.
  split.
  - intros Hnil id h Hh. destruct (P h) eqn:E; [|done]. exfalso.
    assert (h ∈ filterb P (values pool)) as Hin by (apply elem_of_filterb; split; [done|]; apply elem_of_values; eauto).
    rewrite Hnil in Hin. by apply elem_of_nil in Hin.
  - intros Hn. apply filterb_false. intros h [id Hh]%elem_of_values. by eapply Hn.
Qed.

(** Choice of a sync partner: the partner drawn for a group is a connected
    peer of the best class that is not empty (Hot peers that share the group,
    then connected peers that share it, then Hot relays, then connected
    relays), and none is found exactly when no connected peer shares the group
    or is a relay. *)
Theorem sync_partner_choice `{HashIter} gid pool :
  (forall idx h, random_hot_peer_for_group_or_relays idx gid pool = Some h ->
     (exists id, pool !! id = Some h) /\ is_active_handle h = true
     /\ (shares_group gid h = true \/ ph_is_relay h = true)
     /\ forall id k, pool !! id = Some k ->
          (is_hot_handle k = true -> shares_group gid k = true -> is_hot_handle h = true /\ shares_group gid h = true)
          /\ (is_active_handle k = true -> shares_group gid k = true -> shares_group gid h = true)
          /\ (is_hot_handle k = true -> ph_is_relay k = true -> shares_group gid h = true \/ is_hot_handle h = true))
  /\ (sync_candidates gid pool = [] <->
      forall id k, pool !! id = Some k -> is_active_handle k = true -> shares_group gid k = false /\ ph_is_relay k = false).
Proof.
  assert (forall h, is_hot_handle h = true -> is_active_handle h = true) as Hact.
  { intros h. unfold is_hot_handle, is_active_handle. by destruct (ph_state h). }
  split.
  - intros idx h Hh%list_elem_of_lookup_2. unfold sync_candidates in Hh.
    rewrite !elem_of_or_else, !filterb_values_nil, !elem_of_filterb, !elem_of_values in Hh.
    assert ((exists id, pool !! id = Some h)) as Hex by (destruct Hh as [[_ E]|(_ & [[_ E]|(_ & [[_ E]|(_ & [_ E])])])]; exact E).
    assert (is_active_handle h = true /\ (shares_group gid h = true \/ ph_is_relay h = true)) as [Ha Hs].
    { destruct Hh as [[E _]|(_ & [[E _]|(_ & [[E _]|(_ & [E _])])])]; apply andb_prop in E as [E1 E2]; auto. }
    split; [done|]. split; [done|]. split; [done|]. intros id k Hk.
    destruct Hh as [[E _]|(N1 & [[E _]|(N2 & [[E _]|(N3 & [E _])])])]; apply andb_prop in E as [E1 E2];
      try (specialize (N1 id k Hk)); try (specialize (N2 id k Hk)); try (specialize (N3 id k Hk));
      specialize (Hact k); destruct (is_hot_handle k), (is_active_handle k), (shares_group gid k), (ph_is_relay k);
      simpl in *; intuition congruence.
  - unfold sync_candidates. rewrite !or_else_nil, !filterb_values_nil. split.
    + intros (_ & N2 & _ & N4) id k Hk Ha. specialize (N2 id k Hk). specialize (N4 id k Hk).
      rewrite Ha in N2, N4. done.
    + intros Hn. split_and!; intros id k Hk; specialize (Hn id k Hk); specialize (Hact k);
        destruct (is_hot_handle k), (is_active_handle k); simpl in *; intuition congruence.
Qed.

(** ** A concrete pool *)

Definition ex_handle (id : NodeId) (s : PeerState) : PeerHandle := {|
  ph_node_id := id; ph_addrs := []; ph_state := s; ph_groups := ["g"%string]; ph_group_intersection := ["g"%string];
  ph_rtt_ms := None; ph_protocol_version := 1; ph_is_relay := false; ph_items_delivered := 0 |}.

(** The connected peers of [ex_gov]. *)
Definition ex_pool : gmap NodeId PeerHandle :=
  list_to_map [("h1", ex_handle "h1" Hot); ("h2", ex_handle "h2" Hot); ("w1", ex_handle "w1" Warm)]%string.
