(* ===== verification/Config.v ===== *)
(** * Node configuration

    Models [crates/cordelia-node/src/config.rs]: the roles and relay postures,
    the sections with their defaults, loading the file, and the accessors of
    [NodeConfig].  The TOML parser is third-party code: a parameter that gives
    the tables of the file with the keys that are there; what the [serde]
    attributes make of missing keys is modelled. *)

From S2P Require Import Prelude Float64 Protocol Governor.

(** ** Lower case

    [str::to_lowercase], as far as a comparison with an ASCII word can tell: the
    ASCII letters, and the Kelvin sign (U+212A, bytes E2 84 AA), the only other
    character whose lower case is an ASCII letter. *)

Definition lower_ascii (c : Ascii.ascii) : Ascii.ascii :=
  let n := Ascii.nat_of_ascii c in
  if (65 <=? n)%nat && (n <=? 90)%nat then Ascii.ascii_of_nat (n + 32) else c.

Fixpoint to_lowercase (s : string) : string :=
  match s with
  | EmptyString => EmptyString
  | String c rest =>
      match rest with
      | String c2 (String c3 rest') =>
          if (Ascii.nat_of_ascii c =? 226)%nat && (Ascii.nat_of_ascii c2 =? 132)%nat
             && (Ascii.nat_of_ascii c3 =? 170)%nat
          then String (Ascii.ascii_of_nat 107) (to_lowercase rest')
          else String (lower_ascii c) (to_lowercase rest)
      | _ => String (lower_ascii c) (to_lowercase rest)
      end
  end.

(** ** Roles and postures *)

Inductive NodeRole := Relay | Personal | Keeper.

#[export] Instance NodeRole_eq_dec : EqDecision NodeRole.
Proof. solve_decision. Defined.

Definition role_as_str (r : NodeRole) : string :=
  match r with Relay => "relay" | Personal => "personal" | Keeper => "keeper" end.

Definition role_from_str (s : string) : result NodeRole string :=
  let l := to_lowercase s in
  if String.eqb l "relay" then Ok Relay
  else if String.eqb l "personal" then Ok Personal
  else if String.eqb l "keeper" then Ok Keeper
  else Err (String.append "unknown node role: " l).

Inductive RelayPosture := Transparent | Dynamic | Explicit.

#[export] Instance RelayPosture_eq_dec : EqDecision RelayPosture.
Proof. solve_decision. Defined.

Definition posture_display (p : RelayPosture) : string :=
  match p with Transparent => "transparent" | Dynamic => "dynamic" | Explicit => "explicit" end.

Definition posture_from_str (s : string) : result RelayPosture string :=
  let l := to_lowercase s in
  if String.eqb l "transparent" then Ok Transparent
  else if String.eqb l "dynamic" then Ok Dynamic
  else if String.eqb l "explicit" then Ok Explicit
  else Err (String.append "unknown relay posture: " l).

(** ** Sections *)

Record RelaySection := {
  rs_posture : string;
  rs_allowed_groups : list string;
  rs_blocked_groups : list string;
}.

Definition default_relay_section : RelaySection :=
  {| rs_posture := "dynamic"; rs_allowed_groups := []; rs_blocked_groups := [] |}.

Record BootnodeEntry := { bn_addr : string }.

Record NodeSection := {
  ns_identity_key : string;
  ns_api_transport : string;
  ns_api_socket : option string;
  ns_api_addr : option string;
  ns_database : string;
  ns_entity_id : string;
  ns_role : string;
  ns_groups : list string;
}.

Record NetworkSection := {
  nw_listen_addr : string;
  nw_bootnodes : list BootnodeEntry;
  nw_trusted_relays : list BootnodeEntry;
  nw_external_addr : option string;
}.

(** The derived [Default]: empty text, not [default_listen_addr]. *)
Definition default_network_section : NetworkSection :=
  {| nw_listen_addr := EmptyString; nw_bootnodes := []; nw_trusted_relays := []; nw_external_addr := None |}.

Record GovernorSection := {
  gvs_hot_min : nat;
  gvs_hot_max : nat;
  gvs_warm_min : nat;
  gvs_warm_max : nat;
  gvs_cold_max : nat;
  gvs_churn_interval_secs : Z;
  gvs_churn_fraction : f64;
}.

Definition default_governor_section : GovernorSection :=
  {| gvs_hot_min := 2; gvs_hot_max := 20; gvs_warm_min := 10; gvs_warm_max := 50; gvs_cold_max := 100;
     gvs_churn_interval_secs := 3600; gvs_churn_fraction := f64_div (f64_of_Z 1) (f64_of_Z 5) |}.

Record ReplicationSection := {
  rps_sync_interval_moderate_secs : Z;
  rps_sync_interval_taciturn_secs : Z;
  rps_tombstone_retention_days : Z;
  rps_max_batch_size : Z;
}.

Definition default_replication_section : ReplicationSection :=
  {| rps_sync_interval_moderate_secs := 300;
     rps_sync_interval_taciturn_secs := SYNC_INTERVAL_TACITURN_SECS;
     rps_tombstone_retention_days := TOMBSTONE_RETENTION_DAYS;
     rps_max_batch_size := MAX_BATCH_SIZE |}.

Record NodeConfig := {
  cfg_node : NodeSection;
  cfg_network : NetworkSection;
  cfg_governor : GovernorSection;
  cfg_replication : ReplicationSection;
  cfg_relay : option RelaySection;
}.

Definition default_config : NodeConfig := {|
  cfg_node :=
    {| ns_identity_key := "~/.cordelia/node.key"; ns_api_transport := "unix";
       ns_api_socket := Some "~/.cordelia/node.sock"%string; ns_api_addr := None;
       ns_database := "~/cordelia/memory/cordelia.db"; ns_entity_id := "default";
       ns_role := "personal"; ns_groups := [] |};
  cfg_network := default_network_section;
  cfg_governor := default_governor_section;
  cfg_replication := default_replication_section;
  cfg_relay := None;
|}.

(** ** Loading *)

Definition default_dynamic_posture : string := "dynamic".
Definition default_identity_key : string := "~/.cordelia/node.key".
Definition default_api_transport : string := "unix".
Definition default_database : string := "~/cordelia/memory/cordelia.db".
Definition default_entity_id : string := "default".
Definition default_listen_addr : string := "0.0.0.0:9474".
Definition default_role : string := "personal".
Definition default_churn_fraction : f64 := f64_div (f64_of_Z 1) (f64_of_Z 5).
Definition default_2 : nat := 2.
Definition default_10 : nat := 10.
Definition default_20 : nat := 20.
Definition default_50 : nat := 50.
Definition default_100 : nat := 100.
Definition default_3600 : Z := 3600.
Definition default_300 : Z := 300.
Definition default_900 : Z := SYNC_INTERVAL_TACITURN_SECS.
Definition default_7 : Z := TOMBSTONE_RETENTION_DAYS.
Definition default_batch : Z := MAX_BATCH_SIZE.

(** The tables of the file: [None] where a key or a table is absent. *)
Record NodeTable := {
  tn_identity_key : option string;
  tn_api_transport : option string;
  tn_api_socket : option string;
  tn_api_addr : option string;
  tn_database : option string;
  tn_entity_id : option string;
  tn_role : option string;
  tn_groups : option (list string);
}.

Record NetworkTable := {
  tw_listen_addr : option string;
  tw_bootnodes : option (list BootnodeEntry);
  tw_trusted_relays : option (list BootnodeEntry);
  tw_external_addr : option string;
}.

Record GovernorTable := {
  tg_hot_min : option nat;
  tg_hot_max : option nat;
  tg_warm_min : option nat;
  tg_warm_max : option nat;
  tg_cold_max : option nat;
  tg_churn_interval_secs : option Z;
  tg_churn_fraction : option f64;
}.

Record ReplicationTable := {
  tp_sync_interval_moderate_secs : option Z;
  tp_sync_interval_taciturn_secs : option Z;
  tp_tombstone_retention_days : option Z;
  tp_max_batch_size : option Z;
}.

Record RelayTable := {
  tr_posture : option string;
  tr_allowed_groups : option (list string);
  tr_blocked_groups : option (list string);
}.

Record ConfigTables := {
  tc_node : option NodeTable;
  tc_network : option NetworkTable;
  tc_governor : option GovernorTable;
  tc_replication : option ReplicationTable;
  tc_relay : option RelayTable;
}.

Definition node_of_table (t : NodeTable) : NodeSection := {|
  ns_identity_key := default default_identity_key (tn_identity_key t);
  ns_api_transport := default default_api_transport (tn_api_transport t);
  ns_api_socket := tn_api_socket t;
  ns_api_addr := tn_api_addr t;
  ns_database := default default_database (tn_database t);
  ns_entity_id := default default_entity_id (tn_entity_id t);
  ns_role := default default_role (tn_role t);
  ns_groups := default [] (tn_groups t);
|}.

Definition network_of_table (t : NetworkTable) : NetworkSection := {|
  nw_listen_addr := default default_listen_addr (tw_listen_addr t);
  nw_bootnodes := default [] (tw_bootnodes t);
  nw_trusted_relays := default [] (tw_trusted_relays t);
  nw_external_addr := tw_external_addr t;
|}.

Definition governor_of_table (t : GovernorTable) : GovernorSection := {|
  gvs_hot_min := default default_2 (tg_hot_min t);
  gvs_hot_max := default default_20 (tg_hot_max t);
  gvs_warm_min := default default_10 (tg_warm_min t);
  gvs_warm_max := default default_50 (tg_warm_max t);
  gvs_cold_max := default default_100 (tg_cold_max t);
  gvs_churn_interval_secs := default default_3600 (tg_churn_interval_secs t);
  gvs_churn_fraction := default default_churn_fraction (tg_churn_fraction t);
|}.

Definition replication_of_table (t : ReplicationTable) : ReplicationSection := {|
  rps_sync_interval_moderate_secs := default default_300 (tp_sync_interval_moderate_secs t);
  rps_sync_interval_taciturn_secs := default default_900 (tp_sync_interval_taciturn_secs t);
  rps_tombstone_retention_days := default default_7 (tp_tombstone_retention_days t);
  rps_max_batch_size := default default_batch (tp_max_batch_size t);
|}.

Definition relay_of_table (t : RelayTable) : RelaySection := {|
  rs_posture := default default_dynamic_posture (tr_posture t);
  rs_allowed_groups := default [] (tr_allowed_groups t);
  rs_blocked_groups := default [] (tr_blocked_groups t);
|}.

(** The derived [Deserialize] of [NodeConfig]: [node] is required, an absent table
    is the section's [Default], an absent key of a table is the key's default. *)
Definition config_of_tables (t : ConfigTables) : result NodeConfig string :=
  match tc_node t with
  | None => Err "missing field `node`"%string
  | Some node => Ok {|
      cfg_node := node_of_table node;
      cfg_network := from_option network_of_table default_network_section (tc_network t);
      cfg_governor := from_option governor_of_table default_governor_section (tc_governor t);
      cfg_replication := from_option replication_of_table default_replication_section (tc_replication t);
      cfg_relay := relay_of_table <$> tc_relay t |}
  end.

(** [file]: the content of the file, if it exists, or the error of reading it. *)
Definition load_or_default (parse_toml : string -> result ConfigTables string) (file : option (result string string)) :
    result NodeConfig string :=
  match file with
  | None => Ok default_config
  | Some (Err e) => Err e
  | Some (Ok content) =>
      match parse_toml content with
      | Err e => Err e
      | Ok t => config_of_tables t
      end
  end.

(** ** Accessors *)

Definition cfg_role (c : NodeConfig) : NodeRole := unwrap_or Personal (role_from_str (ns_role (cfg_node c))).

Definition cfg_relay_posture (c : NodeConfig) : RelayPosture :=
  if negb (bool_decide (cfg_role c = Relay)) then Dynamic
  else default Dynamic ((fun r => unwrap_or Dynamic (posture_from_str (rs_posture r))) <$> cfg_relay c).

Definition relay_allowed_groups (c : NodeConfig) : gset string :=
  default ∅ ((fun r => list_to_set (rs_allowed_groups r)) <$> cfg_relay c).

Definition relay_blocked_groups (c : NodeConfig) : gset string :=
  default ∅ ((fun r => list_to_set (rs_blocked_groups r)) <$> cfg_relay c).

Definition cap (hmin hmax wmin wmax : nat) (g : GovernorSection) : GovernorSection :=
  {| gvs_hot_min := Nat.min (gvs_hot_min g) hmin; gvs_hot_max := Nat.min (gvs_hot_max g) hmax;
     gvs_warm_min := Nat.min (gvs_warm_min g) wmin; gvs_warm_max := Nat.min (gvs_warm_max g) wmax;
     gvs_cold_max := gvs_cold_max g; gvs_churn_interval_secs := gvs_churn_interval_secs g;
     gvs_churn_fraction := gvs_churn_fraction g |}.

Definition effective_governor_targets (c : NodeConfig) : GovernorSection :=
  match cfg_role c with
  | Personal => cap 2 5 5 10 (cfg_governor c)
  | Keeper => cap 1 3 2 5 (cfg_governor c)
  | Relay => cfg_governor c
  end.

(** ** Facts *)

(** Printing and parsing a role or posture round-trips, in any letter case. *)
Lemma role_roundtrip r : role_from_str (role_as_str r) = Ok r.
Proof. by destruct r. Qed.

Lemma posture_roundtrip p : posture_from_str (posture_display p) = Ok p.
Proof. by destruct p. Qed.

(** Roles bound the connection targets: whatever the configuration file
    says, a personal node keeps at most 5 hot and 10 warm peers and a keeper at
    most 3 and 5; an unknown role is treated as personal; a relay's values are
    kept; and capping keeps the targets ordered if they were. *)
Theorem role_bounds_targets c :
  let t := effective_governor_targets c in
  (cfg_role c = Personal -> gvs_hot_max t <= 5 /\ gvs_warm_max t <= 10 /\ gvs_hot_min t <= 2 /\ gvs_warm_min t <= 5)%nat
  /\ (cfg_role c = Keeper -> gvs_hot_max t <= 3 /\ gvs_warm_max t <= 5 /\ gvs_hot_min t <= 1 /\ gvs_warm_min t <= 2)%nat
  /\ (cfg_role c = Relay -> t = cfg_governor c)
  /\ ((forall r, role_from_str (ns_role (cfg_node c)) <> Ok r) -> cfg_role c = Personal)
  /\ (gvs_hot_min (cfg_governor c) <= gvs_hot_max (cfg_governor c) ->
      gvs_warm_min (cfg_governor c) <= gvs_warm_max (cfg_governor c) ->
      gvs_hot_min t <= gvs_hot_max t /\ gvs_warm_min t <= gvs_warm_max t)%nat.
Proof.
  intros t. unfold t, effective_governor_targets. split_and!.
  - intros ->. simpl. lia.
  - intros ->. simpl. lia.
  - by intros ->.
  - intros Hn. unfold cfg_role. destruct (role_from_str _) as [r|]; [by destruct (Hn r) | done].
  - intros H1 H2. destruct (cfg_role c); simpl; lia.
Qed.

(** The posture of a node that is not a relay is the default one, a relay
    whose posture is absent or unreadable is dynamic, and printing a role or a
    posture and parsing it again gives it back. *)
Lemma posture_defaults c :
  (cfg_role c <> Relay -> cfg_relay_posture c = Dynamic)
  /\ (cfg_relay c = None -> cfg_relay_posture c = Dynamic)
  /\ (forall r p, cfg_role c = Relay -> cfg_relay c = Some r -> rs_posture r = posture_display p -> cfg_relay_posture c = p)
  /\ (forall r, role_from_str (role_as_str r) = Ok r).
Proof.
  unfold cfg_relay_posture. split_and!.
  - intros Hr. by rewrite bool_decide_false.
  - intros ->. by case_match.
  - intros r p Hr -> Hp. rewrite bool_decide_true by done. simpl. by rewrite Hp, posture_roundtrip.
  - apply role_roundtrip.
Qed.

(** An empty table and an absent one agree, the network section apart: an empty
    table has the documented listen address, an absent one an empty text. *)
Lemma absent_and_empty_tables :
  governor_of_table {| tg_hot_min := None; tg_hot_max := None; tg_warm_min := None; tg_warm_max := None;
                       tg_cold_max := None; tg_churn_interval_secs := None; tg_churn_fraction := None |} = default_governor_section
  /\ replication_of_table {| tp_sync_interval_moderate_secs := None; tp_sync_interval_taciturn_secs := None;
                             tp_tombstone_retention_days := None; tp_max_batch_size := None |} = default_replication_section
  /\ relay_of_table {| tr_posture := None; tr_allowed_groups := None; tr_blocked_groups := None |} = default_relay_section
  /\ nw_listen_addr (network_of_table {| tw_listen_addr := None; tw_bootnodes := None; tw_trusted_relays := None;
                                         tw_external_addr := None |}) = default_listen_addr
  /\ nw_listen_addr default_network_section = EmptyString.
Proof. done. Qed.
