(* ===== verification/SwarmTask.v ===== *)
(** * The swarm task

    Models [crates/cordelia-node/src/swarm_task.rs]: the signing, distribution
    and merging of group descriptors, the handlers of inbound sync, fetch and
    push requests, the acceptance rule and the forwarding of relays, and the
    dispatch of commands and network events.  The libp2p swarm is third-party
    code: its events are the inputs of the model and the requests, responses and
    dials handed to it are the outputs. *)

From S2P Require Import Prelude Float64 Protocol Governor Storage StorageProps ItemStore Replication PeerPool Config.

(** [NodeIdentity]: the public key and the signing operation of the node's key. *)
Class NodeIdentity := {
  public_key : bytes;
  sign : bytes -> bytes;
}.

(** ** Group descriptors *)

Definition is_owner (env : SqlEnv) (gid entity : string) (d : Db) : bool :=
  match (get_membership env gid entity d).2 with
  | Ok (Some m) => String.eqb (gm_role m) "owner"
  | _ => false
  end.

Definition desc_of_group `{Crypto} (g : GroupRow) : GroupDescriptor := {|
  gd_id := gr_id g;
  gd_culture := gr_culture g;
  gd_updated_at := gr_updated_at g;
  gd_checksum := compute_checksum (gr_id g) (gr_culture g);
  gd_owner_id := gr_owner_id g;
  gd_owner_pubkey := gr_owner_pubkey g;
  gd_signature := gr_signature g;
|}.

Definition sign_descriptor `{Crypto} `{NodeIdentity} (entity : string) (desc : GroupDescriptor) : GroupDescriptor := {|
  gd_id := gd_id desc;
  gd_culture := gd_culture desc;
  gd_updated_at := gd_updated_at desc;
  gd_checksum := gd_checksum desc;
  gd_owner_id := Some entity;
  gd_owner_pubkey := Some (hex_encode public_key);
  gd_signature := Some (hex_encode (sign (signing_payload desc)));
|}.

(** The closure that [build_descriptors] maps over the groups. *)
Definition build_one `{Crypto} `{NodeIdentity} (env : SqlEnv) (entity : string) (d : Db) (g : GroupRow) :
    Db * GroupDescriptor :=
  let desc := desc_of_group g in
  let we_own_it :=
    bool_decide (gr_owner_id g = Some entity)
    || (bool_decide (gr_owner_id g = None) && is_owner env (gr_id g) entity d) in
  if we_own_it && bool_decide (gr_signature g = None) then
    let desc := sign_descriptor entity desc in
    ((write_group_signature env (gr_id g) entity (hex_encode public_key)
        (default EmptyString (gd_signature desc)) d).1, desc)
  else (d, desc).

Definition build_descriptors `{Crypto} `{NodeIdentity} `{HashIter} (env : SqlEnv) (entity : string) (d : Db) :
    Db * option (list GroupDescriptor) :=
  match list_groups env d with
  | (d, Ok gs) =>
      if bool_decide (gs = []) then (d, None)
      else
        let '(d, descs) :=
          foldl (fun '(d, acc) g => let '(d', desc) := build_one env entity d g in (d', acc ++ [desc])) (d, []) gs in
        (d, Some descs)
  | (d, Err _) => (d, None)
  end.

Definition verify_descriptor_signature `{Crypto} (desc : GroupDescriptor) (pubkey_hex sig_hex : string) : bool :=
  match hex_decode pubkey_hex, hex_decode sig_hex with
  | Some pubkey, Some sig => ed25519_verify pubkey (signing_payload desc) sig
  | _, _ => false
  end.

(** The signature check of [merge_descriptors]: only when key and signature are
    both present. *)
Definition signature_acceptable `{Crypto} (desc : GroupDescriptor) : bool :=
  match gd_owner_pubkey desc, gd_signature desc with
  | Some pk, Some sig => verify_descriptor_signature desc pk sig
  | _, _ => true
  end.

(** The checks against the local copy of the group. *)
Definition owner_acceptable (local : GroupRow) (desc : GroupDescriptor) : bool :=
  negb (bool_decide (is_Some (gr_signature local)) && bool_decide (gd_signature desc = None))
  && match gr_owner_pubkey local, gd_owner_pubkey desc with
     | Some o, Some i => String.eqb o i
     | _, _ => true
     end.

Definition MAX_CULTURE_LEN : nat := 4096.

Inductive MergeStep := Skipped | Upserted | Tombstoned.

(** [let _ = storage.write_group_signature(..)] *)
Definition persist_signature (env : SqlEnv) (desc : GroupDescriptor) (d : Db) : Db :=
  match gd_owner_id desc, gd_owner_pubkey desc, gd_signature desc with
  | Some oid, Some pk, Some sig => (write_group_signature env (gd_id desc) oid pk sig d).1
  | _, _, _ => d
  end.

(** Soft removal of all members of a deleted group. *)
Definition remove_all_members (env : SqlEnv) (gid : string) (d : Db) : Db :=
  match list_members env gid d with
  | (d, Ok members) =>
      foldl (fun d m => (update_member_posture env gid (gm_entity_id m) "removed" d).1) d members
  | (d, Err _) => d
  end.

(** The body of the loop of [merge_descriptors]. *)
Definition merge_one `{Crypto} (env : SqlEnv) (desc : GroupDescriptor) (d : Db) : Db * MergeStep :=
  if negb (verify_checksum desc) then (d, Skipped)
  else if (MAX_CULTURE_LEN <? String.length (gd_culture desc))%nat && negb (is_tombstone desc) then (d, Skipped)
  else if negb (signature_acceptable desc) then (d, Skipped)
  else if match (read_group env (gd_id desc) d).2 with
          | Ok (Some local) => negb (owner_acceptable local desc)
          | _ => false
          end then (d, Skipped)
  else
    let '(stale, name) :=
      match (read_group env (gd_id desc) d).2 with
      | Ok (Some local) => (str_le (gd_updated_at desc) (gr_updated_at local), gr_name local)
      | _ => (false, gd_id desc)
      end in
    if stale then (d, Skipped)
    else
      match write_group env (gd_id desc) name (gd_culture desc) "{}" d with
      | (d, Err _) => (d, Skipped)
      | (d, Ok _) =>
          let d := persist_signature env desc d in
          if is_tombstone desc then (remove_all_members env (gd_id desc) d, Tombstoned)
          else (d, Upserted)
      end.

Record MergeResult := { mr_upserted : list string; mr_tombstoned : list string }.

Definition merge_descriptors `{Crypto} (env : SqlEnv) (descs : list GroupDescriptor) (d : Db) : Db * MergeResult :=
  foldl (fun '(d, r) desc =>
      match merge_one env desc d with
      | (d, Skipped) => (d, r)
      | (d, Upserted) => (d, {| mr_upserted := mr_upserted r ++ [gd_id desc]; mr_tombstoned := mr_tombstoned r |})
      | (d, Tombstoned) => (d, {| mr_upserted := mr_upserted r; mr_tombstoned := mr_tombstoned r ++ [gd_id desc] |})
      end) (d, {| mr_upserted := []; mr_tombstoned := [] |}) descs.

(** [culture.contains(pat)] *)
Definition str_contains (s pat : string) : bool :=
  match String.index 0 pat s with Some _ => true | None => false end.

Definition quoted (w : string) : string :=
  String (Ascii.ascii_of_nat 34) (String.append w (String (Ascii.ascii_of_nat 34) EmptyString)).

Definition parse_eagerness (culture : string) : Z :=
  if str_contains culture (quoted "eager") || str_contains culture (quoted "chatty")
     || str_contains culture (quoted "moderate")
  then 2 else 0.

Definition eagerness_increased (old_culture new_culture : string) : bool :=
  parse_eagerness old_culture <? parse_eagerness new_culture.

(** ** Inbound requests *)

Definition handle_sync_request `{HashIter} (env : SqlEnv) (req : SyncRequest) (d : Db) : SyncResponse :=
  let items := unwrap_or [] (list_group_items env (sr_group_id req) (sr_since req) (sr_limit req) d).2 in
  {| srs_items := items; srs_has_more := Z.of_nat (length items) =? sr_limit req |}.

Definition fetched_of_row (row : L2ItemRow) : FetchedItem := {|
  fi_item_id := l2_id row;
  fi_item_type := l2_item_type row;
  fi_encrypted_blob := l2_data row;
  fi_checksum := default EmptyString (l2_checksum row);
  fi_author_id := default EmptyString (l2_author_id row);
  fi_group_id := default EmptyString (l2_group_id row);
  fi_key_version := i32_as_u32 (l2_key_version row);
  fi_parent_id := l2_parent_id row;
  fi_is_copy := l2_is_copy row;
  fi_updated_at := l2_updated_at row;
|}.

Definition handle_fetch_request (env : SqlEnv) (req : FetchRequest) (d : Db) : FetchResponse :=
  {| frs_items :=
       omap (fun id => match (read_l2_item env id d).2 with
                       | Ok (Some row) => Some (fetched_of_row row)
                       | _ => None
                       end) (fr_item_ids req) |}.

(** The body of the loop of [handle_push_request]; the counters are [u32]. *)
Definition push_step `{Crypto} (env : SqlEnv) (our_groups : list GroupId) (relay_accepts : option (GroupId -> bool))
    (st : Db * PushAck) (item : FetchedItem) : Db * PushAck :=
  let '(d, ack) := st in
  match @on_receive _ Db (sqlite_store env) item our_groups relay_accepts d with
  | (d, Stored) => (d, {| ack_stored := wrap_u32 (ack_stored ack + 1); ack_rejected := ack_rejected ack |})
  | (d, Duplicate) => (d, ack)
  | (d, Rejected _) => (d, {| ack_stored := ack_stored ack; ack_rejected := wrap_u32 (ack_rejected ack + 1) |})
  end.

Definition handle_push_request `{Crypto} (env : SqlEnv) (req : MemoryPushRequest) (our_groups : list GroupId)
    (relay_accepts : option (GroupId -> bool)) (d : Db) : Db * PushAck :=
  foldl (push_step env our_groups relay_accepts) (d, {| ack_stored := 0; ack_rejected := 0 |}) (mpr_items req).

(** ** Relays *)

(** What a push handler sees of the relay configuration: the posture, the
    accepted groups ([None]: not configured; the read lock may be unavailable,
    which counts as empty), and the blocked groups. *)
Record RelayCtx := {
  rx_posture : option RelayPosture;
  rx_accepted : option (gset string);
  rx_accepted_readable : bool;
  rx_blocked : gset string;
}.

Definition accepted_snap (rx : RelayCtx) : option (gset string) :=
  match rx_posture rx with
  | Some Dynamic | Some Explicit =>
      (fun a => if rx_accepted_readable rx then a else ∅) <$> rx_accepted rx
  | _ => None
  end.

Definition relay_check (rx : RelayCtx) : option (GroupId -> bool) :=
  match rx_posture rx with
  | None => None
  | Some posture =>
      Some (fun gid =>
        if bool_decide (gid ∈ rx_blocked rx) then false
        else if bool_decide (posture = Transparent) then true
        else match accepted_snap rx with Some s => bool_decide (gid ∈ s) | None => false end)
  end.

(** The peers to which a relay forwards a push. *)
Definition forward_peers `{HashIter} (rx : RelayCtx) (ack : PushAck) (sender : NodeId) (pool : gmap NodeId PeerHandle) :
    list NodeId :=
  if bool_decide (is_Some (rx_posture rx)) && (0 <? ack_stored ack)
  then ph_node_id <$> filterb (fun h => negb (String.eqb (ph_node_id h) sender)) (active_peers pool)
  else [].

(** The groups that a relay advertises in exchanges: its own and the learned ones. *)
Definition advertised_groups `{HashIter} (shared : list GroupId) (accepted : option (gset string)) (readable : bool) :
    list GroupId :=
  match accepted with
  | Some set => if readable then foldl (fun acc g => if contains acc g then acc else acc ++ [g]) shared (hash_set_iter set)
                else shared
  | None => shared
  end.

(** [groups.retain(|g| g != gid)] for every tombstoned group. *)
Definition drop_tombstoned (gone : list string) (groups : list GroupId) : list GroupId :=
  foldl (fun gs gid => filterb (fun g => negb (String.eqb g gid)) gs) groups gone.

(** ** Commands, network events and what the task hands out *)

Abbreviation ReqId := Z (only parsing).
Abbreviation Chan := Z (only parsing).

Inductive SwarmCommand :=
| CmdDial (addr : Multiaddr)
| CmdDisconnect (peer : NodeId)
| CmdPeerShare (peer : NodeId) (req : PeerShareRequest) (tx : Chan)
| CmdSync (peer : NodeId) (req : SyncRequest) (tx : Chan)
| CmdFetch (peer : NodeId) (req : FetchRequest) (tx : Chan)
| CmdPush (peer : NodeId) (req : MemoryPushRequest)
| CmdGroupExchange (peer : NodeId) (req : GroupExchange) (tx : Chan).

Inductive SwarmEvent2 :=
| PeerConnected (peer : NodeId) (addrs : list Multiaddr)
| PeerDisconnected (peer : NodeId)
| PingRtt (peer : NodeId) (rtt_ms : f64)
| IdentifyReceived (peer : NodeId) (listen_addrs : list Multiaddr) (observed : Multiaddr) (agent : string)
| ExternalAddrConfirmed (addr : Multiaddr)
| DialFailure (peer : option NodeId).

Inductive Request :=
| RqPeerShare (r : PeerShareRequest)
| RqSync (r : SyncRequest)
| RqFetch (r : FetchRequest)
| RqPush (r : MemoryPushRequest)
| RqGroupExchange (r : GroupExchange).

Inductive Response :=
| RsPeerShare (peers : list PeerAddress)
| RsSync (r : SyncResponse)
| RsFetch (r : FetchResponse)
| RsPush (a : PushAck)
| RsGroupExchange (r : GroupExchangeResponse).

Inductive Output :=
| ODial (addr : Multiaddr)
| ODisconnect (peer : NodeId)
| ORequest (peer : NodeId) (r : Request)
| OResponse (channel : Chan) (r : Response)
| OEvent (e : SwarmEvent2)
| OReply (tx : Chan) (r : result Response string).

(** The events of the combined libp2p behaviour. *)
Inductive BehaviourEvent :=
| BPing (peer : NodeId) (rtt : Duration)
| BIdentify (peer : NodeId) (listen_addrs : list Multiaddr) (observed : Multiaddr) (agent : string)
| BShareResponse (rid : ReqId) (peers : list PeerAddress)
| BShareFailure (rid : ReqId) (error : string)
| BSyncRequest (req : SyncRequest) (channel : Chan)
| BSyncResponse (rid : ReqId) (r : SyncResponse)
| BSyncFailure (rid : ReqId) (error : string)
| BFetchRequest (req : FetchRequest) (channel : Chan)
| BFetchResponse (rid : ReqId) (r : FetchResponse)
| BFetchFailure (rid : ReqId) (error : string)
| BExchangeRequest (peer : NodeId) (req : GroupExchange) (channel : Chan)
| BExchangeResponse (rid : ReqId) (r : GroupExchangeResponse)
| BExchangeFailure (rid : ReqId) (error : string)
| BOther.

Inductive NetEvent :=
| EvConnected (peer : NodeId) (addr : Multiaddr) (num_established : Z)
| EvClosed (peer : NodeId) (num_established : Z)
| EvDialError (peer : option NodeId)
| EvExternalAddr (addr : Multiaddr)
| EvPeerShareRequest (req : PeerShareRequest) (channel : Chan)
| EvPush (peer : NodeId) (req : MemoryPushRequest) (channel : Chan)
| EvBehaviour (e : BehaviourEvent)
| EvOther.

Record Swarm := {
  sw_db : Db;
  sw_groups : list GroupId;
  sw_pool : gmap NodeId PeerHandle;
  pending_peer_share : gmap ReqId Chan;
  pending_sync : gmap ReqId Chan;
  pending_fetch : gmap ReqId Chan;
  pending_group_exchange : gmap ReqId Chan;
}.

Definition set_db (d : Db) (s : Swarm) : Swarm :=
  {| sw_db := d; sw_groups := sw_groups s; sw_pool := sw_pool s; pending_peer_share := pending_peer_share s;
     pending_sync := pending_sync s; pending_fetch := pending_fetch s;
     pending_group_exchange := pending_group_exchange s |}.

Definition set_sw_groups (gs : list GroupId) (s : Swarm) : Swarm :=
  {| sw_db := sw_db s; sw_groups := gs; sw_pool := sw_pool s; pending_peer_share := pending_peer_share s;
     pending_sync := pending_sync s; pending_fetch := pending_fetch s;
     pending_group_exchange := pending_group_exchange s |}.

Definition set_pending_peer_share (m : gmap ReqId Chan) (s : Swarm) : Swarm :=
  {| sw_db := sw_db s; sw_groups := sw_groups s; sw_pool := sw_pool s; pending_peer_share := m;
     pending_sync := pending_sync s; pending_fetch := pending_fetch s;
     pending_group_exchange := pending_group_exchange s |}.

Definition set_pending_sync (m : gmap ReqId Chan) (s : Swarm) : Swarm :=
  {| sw_db := sw_db s; sw_groups := sw_groups s; sw_pool := sw_pool s; pending_peer_share := pending_peer_share s;
     pending_sync := m; pending_fetch := pending_fetch s;
     pending_group_exchange := pending_group_exchange s |}.

Definition set_pending_fetch (m : gmap ReqId Chan) (s : Swarm) : Swarm :=
  {| sw_db := sw_db s; sw_groups := sw_groups s; sw_pool := sw_pool s; pending_peer_share := pending_peer_share s;
     pending_sync := pending_sync s; pending_fetch := m;
     pending_group_exchange := pending_group_exchange s |}.

Definition set_pending_group_exchange (m : gmap ReqId Chan) (s : Swarm) : Swarm :=
  {| sw_db := sw_db s; sw_groups := sw_groups s; sw_pool := sw_pool s; pending_peer_share := pending_peer_share s;
     pending_sync := pending_sync s; pending_fetch := pending_fetch s; pending_group_exchange := m |}.

(** [if let Some(tx) = pending.remove(&id) { tx.send(r) }] *)
Definition complete (pending : gmap ReqId Chan) (rid : ReqId) (r : result Response string) :
    gmap ReqId Chan * list Output :=
  (delete rid pending, match pending !! rid with Some tx => [OReply tx r] | None => [] end).

Section swarm_loop.
Context `{CR : Crypto} `{NI : NodeIdentity} `{HI : HashIter}.
Context (env : SqlEnv) (our_entity_id : string) (our_role : NodeRole) (rx : RelayCtx).
Context (addr_text : Multiaddr -> string).

(** The [match cmd] of the loop; [rid] is the identifier libp2p gives the request. *)
Definition handle_command (rid : ReqId) (cmd : SwarmCommand) (s : Swarm) : Swarm * list Output :=
  match cmd with
  | CmdDial addr => (s, [ODial addr])
  | CmdDisconnect peer => (s, [ODisconnect peer])
  | CmdPeerShare peer req tx =>
      (set_pending_peer_share (<[rid := tx]> (pending_peer_share s)) s, [ORequest peer (RqPeerShare req)])
  | CmdSync peer req tx =>
      (set_pending_sync (<[rid := tx]> (pending_sync s)) s, [ORequest peer (RqSync req)])
  | CmdFetch peer req tx =>
      (set_pending_fetch (<[rid := tx]> (pending_fetch s)) s, [ORequest peer (RqFetch req)])
  | CmdPush peer req => (s, [ORequest peer (RqPush req)])
  | CmdGroupExchange peer req tx =>
      let '(d, req) :=
        match gx_descriptors req with
        | None =>
            let '(d, descs) := build_descriptors env our_entity_id (sw_db s) in
            (d, {| gx_groups := gx_groups req; gx_descriptors := descs |})
        | Some _ => (sw_db s, req)
        end in
      let s := set_db d s in
      (set_pending_group_exchange (<[rid := tx]> (pending_group_exchange s)) s,
       [ORequest peer (RqGroupExchange req)])
  end.

Definition peer_address (h : PeerHandle) : PeerAddress := {|
  pa_peer_id := ph_node_id h;
  pa_addrs := addr_text <$> ph_addrs h;
  pa_last_seen := 0;
  pa_groups := ph_groups h;
  pa_role := if ph_is_relay h then "relay" else role_as_str our_role;
|}.

(** The handler of an inbound push, with the forwarding of relays. *)
Definition handle_push (peer : NodeId) (req : MemoryPushRequest) (channel : Chan) (s : Swarm) : Swarm * list Output :=
  let '(d, ack) := handle_push_request env req (sw_groups s) (relay_check rx) (sw_db s) in
  (set_db d s,
   OResponse channel (RsPush ack)
   :: ((fun p => ORequest p (RqPush {| mpr_items := mpr_items req |})) <$> forward_peers rx ack peer (sw_pool s))).

(** The descriptors of a peer, if it sent any, are merged. *)
Definition merge_offered (descs : option (list GroupDescriptor)) (d : Db) : Db * MergeResult :=
  match descs with
  | Some descs => merge_descriptors env descs d
  | None => (d, {| mr_upserted := []; mr_tombstoned := [] |})
  end.

(** A peer asks for a group exchange: what it sent is merged, then answered. *)
Definition on_exchange_request (our_groups : list GroupId) (req : GroupExchange) (channel : Chan) (s : Swarm) :
    Swarm * list Output * MergeResult :=
  let '(d, merged) := merge_offered (gx_descriptors req) (sw_db s) in
  let '(d, descs) := build_descriptors env our_entity_id d in
  (set_db d s,
   [OResponse channel (RsGroupExchange {| gxr_groups := our_groups; gxr_descriptors := descs |})], merged).

(** The answer of a peer to an exchange. *)
Definition on_exchange_response (rid : ReqId) (r : GroupExchangeResponse) (s : Swarm) : Swarm * list Output * MergeResult :=
  let '(d, merged) := merge_offered (gxr_descriptors r) (sw_db s) in
  let '(m, out) := complete (pending_group_exchange s) rid (Ok (RsGroupExchange r)) in
  (set_pending_group_exchange m (set_db d s), out, merged).

(** [handle_behaviour_event]; [our_groups] is the snapshot of the loop. *)
Definition handle_behaviour_event (our_groups : list GroupId) (e : BehaviourEvent) (s : Swarm) :
    Swarm * list Output * MergeResult :=
  let no_merge := {| mr_upserted := []; mr_tombstoned := [] |} in
  match e with
  | BPing peer rtt => (s, [OEvent (PingRtt peer (f64_mul (as_secs_f64 rtt) (f64_of_Z 1000)))], no_merge)
  | BIdentify peer addrs observed agent => (s, [OEvent (IdentifyReceived peer addrs observed agent)], no_merge)
  | BShareResponse rid peers =>
      let '(m, out) := complete (pending_peer_share s) rid (Ok (RsPeerShare peers)) in
      (set_pending_peer_share m s, out, no_merge)
  | BShareFailure rid error =>
      let '(m, out) := complete (pending_peer_share s) rid (Err error) in
      (set_pending_peer_share m s, out, no_merge)
  | BSyncRequest req channel => (s, [OResponse channel (RsSync (handle_sync_request env req (sw_db s)))], no_merge)
  | BSyncResponse rid r =>
      let '(m, out) := complete (pending_sync s) rid (Ok (RsSync r)) in (set_pending_sync m s, out, no_merge)
  | BSyncFailure rid error =>
      let '(m, out) := complete (pending_sync s) rid (Err error) in (set_pending_sync m s, out, no_merge)
  | BFetchRequest req channel => (s, [OResponse channel (RsFetch (handle_fetch_request env req (sw_db s)))], no_merge)
  | BFetchResponse rid r =>
      let '(m, out) := complete (pending_fetch s) rid (Ok (RsFetch r)) in (set_pending_fetch m s, out, no_merge)
  | BFetchFailure rid error =>
      let '(m, out) := complete (pending_fetch s) rid (Err error) in (set_pending_fetch m s, out, no_merge)
  | BExchangeRequest peer req channel => on_exchange_request our_groups req channel s
  | BExchangeResponse rid r => on_exchange_response rid r s
  | BExchangeFailure rid error =>
      let '(m, out) := complete (pending_group_exchange s) rid (Err error) in
      (set_pending_group_exchange m s, out, no_merge)
  | BOther => (s, [], no_merge)
  end.

(** The [match event] of the loop. *)
Definition handle_event (e : NetEvent) (s : Swarm) : Swarm * list Output :=
  match e with
  | EvConnected peer addr n => (s, if n =? 1 then [OEvent (PeerConnected peer [addr])] else [])
  | EvClosed peer n => (s, if n =? 0 then [OEvent (PeerDisconnected peer)] else [])
  | EvDialError peer => (s, [OEvent (DialFailure peer)])
  | EvExternalAddr addr => (s, [OEvent (ExternalAddrConfirmed addr)])
  | EvPeerShareRequest req channel =>
      (s, [OResponse channel (RsPeerShare
             (peer_address <$> take (Z.to_nat (psr_max_peers req)) (relay_peers (sw_pool s))))])
  | EvPush peer req channel => handle_push peer req channel s
  | EvBehaviour e =>
      let groups_snap := advertised_groups (sw_groups s) (rx_accepted rx) (rx_accepted_readable rx) in
      let '(s, out, merged) := handle_behaviour_event groups_snap e s in
      (set_sw_groups (drop_tombstoned (mr_tombstoned merged) (sw_groups s)) s, out)
  | EvOther => (s, [])
  end.

End swarm_loop.
