(* ===== verification/SwarmProps.v ===== *)
(** * Properties of the swarm task

    Who may change a group through descriptors, what a descriptor looks like to
    the next node, which items a relay takes and how often it forwards them,
    what a fetched item becomes on the other side, and the bookkeeping of
    outstanding requests and connections. *)

From S2P Require Import Prelude Float64 Protocol Governor Storage StorageProps ItemStore Replication ReplicationProps.
From S2P Require Import PeerPool Config SwarmTask.

(** ** Storage calls used by the merge *)

Lemma read_group_eq env id d :
  fault env "read_group" = None -> lock_poisoned d = false -> (read_group env id d).2 = Ok (groups_t d !! id).
Proof.
  intros Hf Hl. unfold read_group. rewrite with_lock by done. unfold query, stmt. by rewrite Hf.
Qed.

Lemma write_group_inv env id name culture policy d d' r :
  write_group env id name culture policy d = (d', r) ->
  match r with
  | Ok _ => lock_poisoned d = false
            /\ d' = set_groups_t (<[id := upsert_group (sql_now env) id name culture policy (groups_t d !! id)]> (groups_t d)) d
  | Err _ => d' = d
  end.
Proof.
  destruct r as [[]|e]; intros Hw.
  - unfold write_group in Hw. inv_ok Hw. by injection Hw as <-.
  - by apply stmt_err in Hw.
Qed.

(** Methods that write other tables leave the groups alone. *)
Definition groups_kept {A} (m : M A) : Prop := forall d, groups_t (m d).1 = groups_t d.

Lemma update_posture_groups env gid e p : groups_kept (update_member_posture env gid e p).
Proof.
  intros d. unfold update_member_posture, bind, db_lock. destruct (lock_poisoned d); [done|]. unfold stmt.
  destruct (fault env _); [done|]. destruct (group_members d !! _); [|done]. by destruct (posture_ok _ _).
Qed.

Lemma remove_all_members_groups env gid d : groups_t (remove_all_members env gid d) = groups_t d.
Proof.
  unfold remove_all_members. destruct (list_members env gid d) as [d1 [ms|e]] eqn:E.
  - assert (d1 = d) as ->. { unfold list_members in E. inv_ok E. by injection E as <- _. }
    clear E. revert d. induction ms as [|m ms IH]; intros d; [done|]. simpl. rewrite IH. apply update_posture_groups.
  - by apply stmt_err in E as ->.
Qed.

(** Signing touches the signing columns of one group. *)
Lemma persist_signature_groups env desc d :
  exists f, groups_t (persist_signature env desc d) = alter f (gd_id desc) (groups_t d)
    /\ forall g, gr_id (f g) = gr_id g /\ gr_name (f g) = gr_name g /\ gr_culture (f g) = gr_culture g
                 /\ gr_updated_at (f g) = gr_updated_at g
                 /\ (fault env "write_group_signature" = None -> lock_poisoned d = false ->
                     forall o pk sg, gd_owner_id desc = Some o -> gd_owner_pubkey desc = Some pk -> gd_signature desc = Some sg ->
                       gr_owner_id (f g) = Some o /\ gr_owner_pubkey (f g) = Some pk /\ gr_signature (f g) = Some sg).
Proof.
  assert (groups_t d = alter id (gd_id desc) (groups_t d)) as Hid.
  { apply map_eq. intros j. rewrite lookup_alter. case_decide as Hj; [subst j|]; by destruct (groups_t d !! _). }
  unfold persist_signature.
  destruct (gd_owner_id desc) as [o|], (gd_owner_pubkey desc) as [pk|], (gd_signature desc) as [sg|];
    try (exists id; split; [exact Hid|]; intros g; split_and!; done).
  unfold write_group_signature, bind, db_lock. destruct (lock_poisoned d) eqn:Hl.
  { exists id. split; [exact Hid|]. intros g. split_and!; done. }
  unfold stmt. destruct (fault env _) eqn:Hf.
  { exists id. split; [exact Hid|]. intros g. split_and!; done. }
  simpl. exists (sign_group o pk sg). split; [done|]. intros g. split_and!; try done.
Qed.

(** ** Removing the members of a group *)

Section members.
Context `{CR : Crypto}.

Lemma set_members_id d : set_group_members (group_members d) d = d.
Proof. by destruct d. Qed.

Lemma update_posture_alter env gid e p d :
  sqlite_up env d -> posture_ok (schema d) p = true ->
  (update_member_posture env gid e p d).1 = set_group_members (alter (set_posture p) (gid, e) (group_members d)) d.
Proof.
  intros [Hl Hf] Hp. unfold update_member_posture. rewrite with_lock by done. unfold stmt. rewrite Hf.
  rewrite alter_alt. destruct (group_members d !! (gid, e)) as [m|]; [by rewrite Hp|].
  cbn [fst]. by rewrite set_members_id.
Qed.

(** The members of the group are soft-removed, everything else stays. *)
Lemma remove_loop env gid ms d :
  sqlite_up env d -> posture_ok (schema d) "removed" = true ->
  exists t, foldl (fun d m => (update_member_posture env gid (gm_entity_id m) "removed" d).1) d ms = set_group_members t d
  /\ forall k, t !! k = (if bool_decide (k ∈ ((fun m => (gid, gm_entity_id m)) <$> ms)) then set_posture "removed" <$> group_members d !! k
                       else group_members d !! k).
Proof.
  intros Hup Hp. induction ms as [|m ms IH] using rev_ind.
  { exists (group_members d). by rewrite set_members_id. }
  destruct IH as (t & Ht & Hk). rewrite foldl_app, Ht. cbn [foldl].
  rewrite update_posture_alter by done. eexists. split; [reflexivity|]. intros k. cbn [group_members set_group_members].
  rewrite fmap_app. destruct (decide ((gid, gm_entity_id m) = k)) as [<-|Hne].
  - rewrite lookup_alter_eq, Hk. rewrite (bool_decide_eq_true_2 (_ ∈ _ ++ _)) by (apply elem_of_app; right; left).
    case_bool_decide; [|done]. by destruct (group_members d !! _).
  - rewrite lookup_alter_ne, Hk by done. erewrite bool_decide_ext; [done|]. rewrite elem_of_app. split; [by left|].
    intros [|Hs]; [done|]. apply list_elem_of_singleton in Hs. done.
Qed.

Lemma list_members_eq env gid d :
  sqlite_up env d ->
  list_members env gid d = (d, Ok (sort_by (fun m m' => str_cmp (gm_entity_id m) (gm_entity_id m'))
    (filterb (fun m => String.eqb (gm_group_id m) gid && not_removed m) (member_rows d)))).
Proof. intros [Hl Hf]. unfold list_members. rewrite with_lock by done. unfold query, stmt. by rewrite Hf. Qed.

Lemma elem_of_member_rows d m : m ∈ member_rows d <-> exists k, group_members d !! k = Some m.
Proof.
  unfold member_rows. rewrite list_elem_of_fmap. split.
  - intros ([k m'] & -> & Hin%elem_of_map_to_list). eauto.
  - intros [k Hk]. exists (k, m). by rewrite elem_of_map_to_list.
Qed.

Lemma remove_all_members_spec env gid d :
  sqlite_up env d -> db_wf d -> posture_ok (schema d) "removed" = true ->
  exists t, remove_all_members env gid d = set_group_members t d
  /\ (forall u m, t !! (gid, u) = Some m -> not_removed m = false)
  /\ (forall k, k.1 <> gid -> t !! k = group_members d !! k).
Proof.
  intros Hup Hwf Hp. unfold remove_all_members. rewrite list_members_eq by done.
  set (ms := sort_by _ _). destruct (remove_loop env gid ms d Hup Hp) as (t & -> & Ht).
  exists t. split; [done|]. split.
  - intros u m Hm. rewrite Ht in Hm. destruct (group_members d !! (gid, u)) as [m0|] eqn:E; [|by case_bool_decide].
    case_bool_decide as Hin; [by injection Hm as <-|]. injection Hm as ->.
    destruct (not_removed m) eqn:Hr; [|done]. destruct Hin.
    destruct (dw_members _ Hwf _ _ E) as [Hkey _ _ _]. injection Hkey as -> ->.
    apply list_elem_of_fmap. exists m. split; [done|]. unfold ms. rewrite elem_of_sort_by, elem_of_filterb, String.eqb_refl, Hr.
    split; [done|]. apply elem_of_member_rows. eauto.
  - intros k Hk. rewrite Ht. rewrite bool_decide_eq_false_2; [done|]. intros (m & -> & _)%list_elem_of_fmap. done.
Qed.

(** Whatever fails, nothing but postures of members of the group changes. *)
Definition members_removed (gid : GroupId) (d d' : Db) : Prop :=
  d' = set_group_members (group_members d') d
  /\ forall k, group_members d' !! k = group_members d !! k
              \/ k.1 = gid /\ exists m, group_members d !! k = Some m /\ group_members d' !! k = Some (set_posture "removed" m).

Lemma members_removed_refl gid d : members_removed gid d d.
Proof. split; [by rewrite set_members_id|by left]. Qed.

Lemma update_removes env gid e d d1 : members_removed gid d d1 -> members_removed gid d (update_member_posture env gid e "removed" d1).1.
Proof.
  intros [Hd Hk]. unfold update_member_posture, bind, db_lock. destruct (lock_poisoned d1); [done|]. unfold stmt.
  destruct (fault env _); [done|]. destruct (group_members d1 !! (gid, e)) as [m|] eqn:E; [|done].
  destruct (posture_ok _ _); [|done]. cbn [fst]. split; [by rewrite Hd|]. intros k. cbn.
  destruct (decide ((gid, e) = k)) as [<-|Hne]; [|rewrite lookup_insert_ne by done; apply Hk].
  rewrite lookup_insert_eq. right. split; [done|]. destruct (Hk (gid, e)) as [Hs|(_ & m0 & Hm0 & Hs)]; rewrite E in Hs.
  - exists m. by rewrite <- Hs.
  - injection Hs as ->. exists m0. by split.
Qed.

Lemma remove_all_members_frame env gid d : members_removed gid d (remove_all_members env gid d).
Proof.
  unfold remove_all_members. destruct (list_members env gid d) as [d1 [ms|e]] eqn:E.
  - assert (d1 = d) as ->. { unfold list_members in E. inv_ok E. by injection E as <- _. }
    clear E. induction ms as [|m ms IH] using rev_ind; [apply members_removed_refl|].
    rewrite foldl_app. by apply update_removes.
  - apply stmt_err in E as ->. apply members_removed_refl.
Qed.

End members.

(** ** One step of the merge *)

Section merge.
Context `{CR : Crypto}.

(** The checks of the merge against what is stored. *)
Record merge_allowed (desc : GroupDescriptor) (local : option GroupRow) : Prop := {
  ma_checksum : gd_checksum desc = compute_checksum (gd_id desc) (gd_culture desc);
  ma_size : (String.length (gd_culture desc) <= MAX_CULTURE_LEN)%nat \/ is_tombstone desc = true;
  ma_signature : forall pk sg, gd_owner_pubkey desc = Some pk -> gd_signature desc = Some sg ->
    verify_descriptor_signature desc pk sg = true;
  ma_signed : forall g, local = Some g -> is_Some (gr_signature g) -> is_Some (gd_signature desc);
  ma_owner : forall g o i, local = Some g -> gr_owner_pubkey g = Some o -> gd_owner_pubkey desc = Some i -> o = i;
  ma_newer : forall g, local = Some g -> str_lt (gr_updated_at g) (gd_updated_at desc) = true;
}.

Lemma owner_acceptable_inv g desc :
  owner_acceptable g desc = true ->
  (is_Some (gr_signature g) -> is_Some (gd_signature desc))
  /\ (forall o i, gr_owner_pubkey g = Some o -> gd_owner_pubkey desc = Some i -> o = i).
Proof.
  unfold owner_acceptable. intros [H1 H2]%andb_prop. split.
  - intros Hs. rewrite bool_decide_true in H1 by done. simpl in H1. apply negb_true_iff, bool_decide_eq_false in H1.
    by apply not_eq_None_Some.
  - intros o i Ho Hi. rewrite Ho, Hi in H2. by apply String.eqb_eq.
Qed.

(** The boolean checks are the ones of [merge_allowed]. *)
Lemma merge_checks desc (local : option GroupRow) :
  verify_checksum desc = true ->
  (MAX_CULTURE_LEN <? String.length (gd_culture desc))%nat && negb (is_tombstone desc) = false ->
  signature_acceptable desc = true ->
  match local with Some g => negb (owner_acceptable g desc) | None => false end = false ->
  match local with Some g => str_le (gd_updated_at desc) (gr_updated_at g) | None => false end = false ->
  merge_allowed desc local.
Proof.
  intros Hck Hsz Hsig Hown Hst. split.
  - by apply String.eqb_eq in Hck.
  - apply andb_false_iff in Hsz as [H%Nat.ltb_ge|H%negb_false_iff]; auto.
  - intros pk sg Hpk Hsg. unfold signature_acceptable in Hsig. by rewrite Hpk, Hsg in Hsig.
  - intros g ->. apply negb_false_iff in Hown. by apply owner_acceptable_inv in Hown as [? _].
  - intros g o i ->. apply negb_false_iff in Hown. apply owner_acceptable_inv in Hown as [_ ?]. auto.
  - intros g ->. by rewrite str_lt_not_le, Hst.
Qed.

(** What an applied descriptor leaves in the groups table. *)
Definition merged (env : SqlEnv) (desc : GroupDescriptor) (d d' : Db) : Prop :=
  (forall id, id <> gd_id desc -> groups_t d' !! id = groups_t d !! id)
  /\ exists row, groups_t d' !! gd_id desc = Some row
       /\ gr_id row = gd_id desc /\ gr_culture row = gd_culture desc /\ gr_updated_at row = sql_now env
       /\ gr_name row = match groups_t d !! gd_id desc with Some g => gr_name g | None => gd_id desc end
       /\ (fault env "write_group_signature" = None -> forall o pk sg,
             gd_owner_id desc = Some o -> gd_owner_pubkey desc = Some pk -> gd_signature desc = Some sg ->
             gr_owner_id row = Some o /\ gr_owner_pubkey row = Some pk /\ gr_signature row = Some sg).

(** Writing the group and its signature fields. *)
Lemma write_merges env desc d d1 d2 u :
  let name := match groups_t d !! gd_id desc with Some g => gr_name g | None => gd_id desc end in
  lock_poisoned d = false -> write_group env (gd_id desc) name (gd_culture desc) "{}" d = (d1, Ok u) ->
  groups_t d2 = groups_t (persist_signature env desc d1) -> merged env desc d d2.
Proof.
  intros name Hl [_ Hd1]%write_group_inv Hd2. destruct (persist_signature_groups env desc d1) as (f & Hpg & Hfg).
  set (row0 := upsert_group (sql_now env) (gd_id desc) name (gd_culture desc) "{}" (groups_t d !! gd_id desc)) in *.
  assert (groups_t d2 = <[gd_id desc := f row0]> (groups_t d)) as Hgr.
  { rewrite Hd2, Hpg, Hd1. simpl. apply map_eq. intros j. destruct (decide (gd_id desc = j)) as [<-|Hne].
    - by rewrite lookup_alter_eq, !lookup_insert_eq.
    - by rewrite lookup_alter_ne, !lookup_insert_ne. }
  destruct (Hfg row0) as (Hi & Hn & Hc & Hu & Hsign). unfold merged. rewrite Hgr.
  split; [intros j Hj; by rewrite lookup_insert_ne|].
  exists (f row0). rewrite lookup_insert_eq, Hi, Hn, Hc, Hu. split_and!; try done.
  intros Hfs. apply Hsign; [done|]. by rewrite Hd1.
Qed.

Lemma merge_one_inv env desc d d' st :
  fault env "read_group" = None -> lock_poisoned d = false -> merge_one env desc d = (d', st) ->
  (st = Skipped -> d' = d)
  /\ (st <> Skipped -> merge_allowed desc (groups_t d !! gd_id desc)
      /\ (st = Tombstoned <-> is_tombstone desc = true) /\ merged env desc d d').
Proof.
  intros Hf Hl. unfold merge_one. rewrite !read_group_eq by done.
  destruct (verify_checksum desc) eqn:Hck; [|intros [= <- <-]; done].
  destruct ((MAX_CULTURE_LEN <? String.length (gd_culture desc))%nat && negb (is_tombstone desc)) eqn:Hsz; [intros [= <- <-]; done|].
  destruct (signature_acceptable desc) eqn:Hsig; [|intros [= <- <-]; done]. simpl.
  destruct (match groups_t d !! gd_id desc with Some local => negb (owner_acceptable local desc) | None => false end) eqn:Hown;
    [intros [= <- <-]; done|].
  assert (match groups_t d !! gd_id desc with
      | Some local => (str_le (gd_updated_at desc) (gr_updated_at local), gr_name local)
      | None => (false, gd_id desc) end
    = (match groups_t d !! gd_id desc with Some g => str_le (gd_updated_at desc) (gr_updated_at g) | None => false end,
       match groups_t d !! gd_id desc with Some g => gr_name g | None => gd_id desc end)) as -> by (by destruct (groups_t d !! _)).
  destruct (match groups_t d !! gd_id desc with Some g => str_le _ _ | None => false end) eqn:Hst; [intros [= <- <-]; done|].
  pose proof (merge_checks desc _ Hck Hsz Hsig Hown Hst) as Hallow.
  destruct (write_group env (gd_id desc) _ (gd_culture desc) "{}" d) as [d1 [u|e]] eqn:Hw.
  2: { apply write_group_inv in Hw as ->. intros [= <- <-]; done. }
  destruct (is_tombstone desc) eqn:Ht; intros [= <- <-]; (split; [done|]); intros _; (split; [done|]); (split; [done|]);
    apply (write_merges env desc d d1 _ u Hl Hw); [apply remove_all_members_groups | done].
Qed.

(** Nothing but the row of the group and, for a tombstone, the postures of its members changes. *)
Definition merge_frame (desc : GroupDescriptor) (d d' : Db) : Prop :=
  d' = set_group_members (group_members d') (set_groups_t (groups_t d') d)
  /\ forall k, group_members d' !! k = group_members d !! k
              \/ is_tombstone desc = true /\ k.1 = gd_id desc
                 /\ exists m, group_members d !! k = Some m /\ group_members d' !! k = Some (set_posture "removed" m).

Lemma persist_signature_frame env desc d : persist_signature env desc d = set_groups_t (groups_t (persist_signature env desc d)) d.
Proof.
  assert (forall d, d = set_groups_t (groups_t d) d) as Hid by (by intros []). unfold persist_signature.
  repeat (case_match; try apply Hid). unfold write_group_signature, bind, db_lock. destruct (lock_poisoned d); [apply Hid|].
  unfold stmt. destruct (fault env _); [apply Hid|done].
Qed.

Lemma merge_one_frame env desc d d' st : merge_one env desc d = (d', st) -> merge_frame desc d d'.
Proof.
  assert (forall d, merge_frame desc d d) as Hsame by (intros []; split; [done|by left]).
  unfold merge_one. destruct (negb (verify_checksum desc)); [by intros [= <- _]|]. destruct (_ && _); [by intros [= <- _]|].
  destruct (negb (signature_acceptable desc)); [by intros [= <- _]|].
  destruct (match (read_group env (gd_id desc) d).2 with Ok (Some _) => _ | _ => _ end); [by intros [= <- _]|].
  destruct (match (read_group env (gd_id desc) d).2 with Ok (Some _) => _ | _ => _ end) as [[] name]; [by intros [= <- _]|].
  destruct (write_group env _ _ _ _ d) as [d1 [u|e]] eqn:Hw; apply write_group_inv in Hw; [|subst d1; by intros [= <- _]].
  destruct Hw as [_ ->]. set (d1 := set_groups_t _ d). pose proof (persist_signature_frame env desc d1) as Hp.
  set (d2 := persist_signature env desc d1) in *.
  assert (group_members d2 = group_members d) as Hm2 by (by rewrite Hp).
  destruct (is_tombstone desc) eqn:Ht; intros [= <- _].
  - destruct (remove_all_members_frame env (gd_id desc) d2) as [Hd3 Hk]. split.
    + subst d1. destruct (remove_all_members _ _ _), d2. unfold set_group_members, set_groups_t in *. cbn in *.
      injection Hp as ?; injection Hd3 as ?; by subst.
    + intros k. rewrite <- Hm2. destruct (Hk k) as [|(? & ?)]; [by left|by right].
  - split; [|left; by rewrite Hm2]. clear Hm2. subst d1. destruct d2. unfold set_group_members, set_groups_t in *. cbn in *.
    injection Hp as ?; by subst.
Qed.

(** A tombstone leaves no member in the group, unless a statement fails. *)
Lemma tombstone_empties env desc d d' :
  sqlite_up env d -> db_wf d -> posture_ok (schema d) "removed" = true -> merge_one env desc d = (d', Tombstoned) ->
  forall u m, group_members d' !! (gd_id desc, u) = Some m -> not_removed m = false.
Proof.
  intros [Hl Hf] Hwf Hp. unfold merge_one. destruct (negb (verify_checksum desc)); [done|]. destruct (_ && _); [done|].
  destruct (negb (signature_acceptable desc)); [done|].
  destruct (match (read_group env (gd_id desc) d).2 with Ok (Some _) => _ | _ => _ end); [done|].
  destruct (match (read_group env (gd_id desc) d).2 with Ok (Some _) => _ | _ => _ end) as [[] name]; [done|].
  destruct (write_group env _ _ _ _ d) as [d1 [u|e]] eqn:Hw; [|done].
  pose proof (write_group_preserves env (gd_id desc) name (gd_culture desc) "{}" d Hwf) as Hwf1. rewrite Hw in Hwf1.
  apply write_group_inv in Hw as [_ ->]. set (d1 := set_groups_t _ d) in *.
  assert (db_wf (persist_signature env desc d1)) as Hwf2.
  { unfold persist_signature. repeat (case_match; try done). by apply sign_group_preserves. }
  pose proof (persist_signature_frame env desc d1) as Hp2.
  destruct (is_tombstone desc); [|done]. intros [= <-].
  destruct (remove_all_members_spec env (gd_id desc) (persist_signature env desc d1)) as (t & -> & Hgone & _);
    [split; [by rewrite Hp2|done]|done|by rewrite Hp2|exact Hgone].
Qed.

End merge.


(** [C39] The ownership check can be bypassed: a descriptor that carries any text
    as signature but no owner key is not verified and not compared with the
    local owner, so a fresh timestamp is enough for it to replace the culture of
    a group that is signed by its owner. *)
Theorem keyless_descriptor_replaces_signed_group `{Crypto} env desc d g :
  no_fault env -> lock_poisoned d = false ->
  groups_t d !! gd_id desc = Some g -> is_Some (gr_signature g) -> is_Some (gr_owner_pubkey g) ->
  gd_owner_pubkey desc = None -> is_Some (gd_signature desc) ->
  gd_checksum desc = compute_checksum (gd_id desc) (gd_culture desc) ->
  (String.length (gd_culture desc) <= MAX_CULTURE_LEN)%nat -> is_tombstone desc = false ->
  str_lt (gr_updated_at g) (gd_updated_at desc) = true ->
  exists d' row, merge_one env desc d = (d', Upserted)
    /\ groups_t d' !! gd_id desc = Some row /\ gr_culture row = gd_culture desc
    /\ gr_owner_pubkey row = gr_owner_pubkey g /\ gr_signature row = gr_signature g.
Proof.
  intros Hf Hl Hg Hs Hk Hnk Hsg Hck Hsz Ht Hlt. unfold merge_one, verify_checksum, signature_acceptable.
  rewrite Hck, String.eqb_refl. simpl. destruct (Nat.ltb_spec MAX_CULTURE_LEN (String.length (gd_culture desc))); [lia|]. simpl.
  rewrite Hnk, !read_group_eq, Hg by done. simpl. unfold owner_acceptable. rewrite Hnk.
  rewrite (bool_decide_false (gd_signature desc = None)) by (by apply not_eq_None_Some).
  rewrite andb_false_r. simpl. destruct (gr_owner_pubkey g) eqn:Hpk; [|by destruct Hk]. simpl.
  rewrite str_lt_not_le in Hlt. apply negb_true_iff in Hlt. rewrite Hlt.
  unfold write_group. rewrite with_lock by done. erewrite stmt_ok; [|done|done].
  unfold persist_signature. rewrite Hnk, Ht. destruct (gd_owner_id desc); simpl;
    (eexists _, _; split; [done|]; simpl; split; [apply lookup_insert_eq|]; simpl; rewrite Hg; done).
Qed.

(** ** Descriptors on the wire *)

(** A group that this node owns and has not signed is signed when it is
    advertised: the descriptor verifies at the receiver (key, signature and
    checksum), names the owner, and the signature is persisted, so that the
    descriptor built next is the same.  Assumes that signatures made with the
    node's key verify under its public key and that hex text decodes. *)
Theorem lazy_signature_verifies `{Crypto} `{NodeIdentity} env entity d g :
  (forall msg, ed25519_verify public_key msg (sign msg) = true) ->
  (forall b, hex_decode (hex_encode b) = Some b) ->
  no_fault env -> lock_poisoned d = false -> groups_t d !! gr_id g = Some g ->
  gr_owner_id g = Some entity -> gr_signature g = None ->
  let '(d', desc) := build_one env entity d g in
  verify_checksum desc = true /\ signature_acceptable desc = true
  /\ is_Some (gd_signature desc) /\ gd_owner_id desc = Some entity
  /\ gd_owner_pubkey desc = Some (hex_encode public_key)
  /\ exists g', groups_t d' !! gr_id g = Some g' /\ build_one env entity d' g' = (d', desc).
Proof.
  intros Hsig Hhex Hf Hl Hg Ho Hs. unfold build_one. rewrite Ho, Hs, !bool_decide_true by done. simpl.
  unfold write_group_signature. rewrite with_lock by done. erewrite stmt_ok; [|done|done]. simpl.
  split_and!; try done.
  - unfold verify_checksum. simpl. apply String.eqb_refl.
  - unfold signature_acceptable. simpl. unfold verify_descriptor_signature. rewrite !Hhex. apply Hsig.
  - eexists. split; [rewrite lookup_alter_eq, Hg; reflexivity|].
    by rewrite (bool_decide_false (gr_signature _ = None)), andb_false_r.
Qed.

(** A signed descriptor does not survive a hop: after a node has merged an
    owner's descriptor, the one it advertises for that group carries the owner's
    key and signature but the time of the merge instead of the signed time, so
    every further node rejects it (the clock having moved, identifiers and
    times without newlines, and a signature verifying for no other message). *)
Theorem merged_descriptor_is_not_relayed `{Crypto} `{NodeIdentity} env desc d d' o pk sg pkb sgb g' entity :
  no_fault env -> lock_poisoned d = false -> merge_one env desc d = (d', Upserted) ->
  gd_owner_id desc = Some o -> gd_owner_pubkey desc = Some pk -> gd_signature desc = Some sg ->
  hex_decode pk = Some pkb -> hex_decode sg = Some sgb ->
  (forall msg, ed25519_verify pkb msg sgb = true -> msg = signing_payload desc) ->
  sql_now env <> gd_updated_at desc ->
  has_newline (gd_id desc) = false -> has_newline (gd_updated_at desc) = false -> has_newline (sql_now env) = false ->
  groups_t d' !! gd_id desc = Some g' ->
  let '(_, relayed) := build_one env entity d' g' in
  gd_owner_pubkey relayed = Some pk /\ gd_signature relayed = Some sg
  /\ forall env2 d2, merge_one env2 relayed d2 = (d2, Skipped).
Proof.
  intros Hf Hl Hm Ho Hpk Hsg Hpkb Hsgb Huniq Hnow Hn1 Hn2 Hn3 Hg'.
  destruct (merge_one_inv env desc d d' Upserted (Hf _) Hl Hm) as [_ H2].
  destruct (H2 ltac:(done)) as (_ & _ & _ & row & Hrow & Hid & Hc & Hu & _ & Hfields).
  rewrite Hg' in Hrow. injection Hrow as <-.
  destruct (Hfields (Hf _) o pk sg Ho Hpk Hsg) as (Hro & Hrpk & Hrsg).
  unfold build_one. rewrite Hrsg, (bool_decide_false (Some sg = None)), andb_false_r by done.
  unfold desc_of_group. cbn [gd_owner_pubkey gd_signature]. rewrite Hrpk, Hrsg. split_and!; try done.
  intros env2 d2. unfold merge_one. destruct (negb (verify_checksum _)); [done|].
  destruct ((_ <? _)%nat && _); [done|]. unfold signature_acceptable at 1. cbn [gd_owner_pubkey gd_signature].
  unfold verify_descriptor_signature. rewrite Hpkb, Hsgb.
  destruct (ed25519_verify pkb _ sgb) eqn:Hv; [|done]. apply Huniq in Hv.
  apply signing_payload_inj in Hv as (_ & _ & Hv); simpl in *; rewrite ?Hid, ?Hu; try done. congruence.
Qed.

(** ** Relays *)

Lemma relay_check_spec rx f gid :
  relay_check rx = Some f ->
  f gid = true <->
    (gid ∉ rx_blocked rx)
    /\ (rx_posture rx = Some Transparent
        \/ exists a, rx_accepted rx = Some a /\ rx_accepted_readable rx = true /\ gid ∈ a).
Proof.
  unfold relay_check, accepted_snap. destruct (rx_posture rx) as [p|]; [|done]. intros [= <-].
  case_bool_decide as Hb; [split; [done|]; by intros [? _]|]. case_bool_decide as Ht.
  { subst p. split; [|done]. intros _. split; [done|]. by left. }
  assert (match p with Transparent => None | _ => (fun a => if rx_accepted_readable rx then a else ∅) <$> rx_accepted rx end
    = ((fun a => if rx_accepted_readable rx then a else ∅) <$> rx_accepted rx : option (gset string))) as ->.
  { by destruct p. }
  destruct (rx_accepted rx) as [a|]; simpl.
  - rewrite bool_decide_eq_true. destruct (rx_accepted_readable rx).
    + split; [intros Hin; split; [done|]; right; eauto|]. intros [_ [[= Hp]|(a' & [= <-] & _ & Hin)]]; [by subst p | done].
    + split; [by intros Hin%elem_of_empty|]. intros [_ [[= Hp]|(a' & _ & ? & _)]]; [by subst p | done].
  - split; [done|]. intros [_ [[= Hp]|(a' & ? & _)]]; [by subst p | done].
Qed.

Section push.
Context `{CR : Crypto} (env : SqlEnv) (our_groups : list GroupId) (relay : option (GroupId -> bool)).

#[local] Existing Instance sqlite_store.
#[local] Existing Instance sqlite_store_laws.

Abbreviation dbview := (@store_view Db CR (sqlite_store env) (sqlite_store_laws env)) (only parsing).
Abbreviation receive x d := (@on_receive CR Db (sqlite_store env) x our_groups relay d) (only parsing).

(** The database after a push is the one after receiving the items in order. *)
Lemma push_deliver l d ack :
  (foldl (push_step env our_groups relay) (d, ack) l).1 = @deliver CR Db (sqlite_store env) our_groups relay l d.
Proof.
  unfold deliver. revert d ack. induction l as [|x l IH]; intros d ack; [done|]. simpl.
  destruct (receive x d) as [d' []]; apply IH.
Qed.

Lemma deliver_untouched l d id :
  (forall x, x ∈ l -> fi_item_id x = id -> accepts our_groups relay (fi_group_id x) = false) ->
  dbview (@deliver CR Db (sqlite_store env) our_groups relay l d) !! id = dbview d !! id.
Proof.
  unfold deliver. revert d. induction l as [|x l IH]; intros d Hl; [done|]. cbn [foldl].
  rewrite IH by (intros y Hy; apply Hl; by right).
  destruct (receive_effect (IS := sqlite_store env) (LAWS := sqlite_store_laws env) our_groups relay x d) as [Ho Heff].
  destruct (decide (id = fi_item_id x)) as [->|Hne]; [|by apply Ho].
  destruct (receive x d) as [d' out] eqn:E. cbn [fst snd] in *. destruct out; try (by rewrite Heff).
  destruct Heff as (_ & Hacc & _). rewrite Hl in Hacc; [done|left|done].
Qed.

(** The acknowledgement counts the verdicts. *)
Lemma push_tally l d st rj :
  sqlite_up env d -> 0 <= st -> 0 <= rj -> st + rj + Z.of_nat (length l) <= u32_max ->
  let vs := verdicts (accepts our_groups relay) (dbview d) l in
  (foldl (push_step env our_groups relay) (d, {| ack_stored := st; ack_rejected := rj |}) l).2
  = {| ack_stored := st + tally Taken vs; ack_rejected := rj + tally Refused vs |}.
Proof.
  revert d st rj. induction l as [|x l IH]; intros d st rj Hup H1 H2 H3; cbn [foldl verdicts].
  { unfold tally. cbn. by rewrite !Z.add_0_r. }
  destruct (receive_judged (LAWS := sqlite_store_laws env) our_groups relay x d Hup) as [Hj Ha].
  pose proof (receive_up (LAWS := sqlite_store_laws env) our_groups relay x d Hup) as Hup'.
  unfold push_step at 2. cbn [length] in H3. unfold u32_max in *. rewrite !tally_cons, <- Hj, <- Ha.
  destruct (receive x d) as [d' [| |r]]; cbn [fst snd verdict_of ack_stored ack_rejected] in *; unfold wrap_u32; rewrite ?Z.mod_small by lia;
    (rewrite (IH d') by (done || lia)); f_equal; repeat case_decide; try done; lia.
Qed.

(** ** Redelivery of a push *)

(** Stored versions with the checksum of a pushed item are at least as new. *)
Definition no_revert (l : list FetchedItem) (v : gmap string Content) : Prop :=
  forall x c, x ∈ l -> v !! fi_item_id x = Some c -> c_checksum c = Some (fi_checksum x) ->
    str_le (fi_updated_at x) (c_updated_at c) = true.

(** Some version at least as new as [x] is stored. *)
Definition caught_up (x : FetchedItem) (v : gmap string Content) : Prop :=
  exists c, v !! fi_item_id x = Some c /\ str_le (fi_updated_at x) (c_updated_at c) = true.

Lemma receive_catches_up l y d :
  consistent l -> y ∈ l -> acceptable our_groups relay y = true -> sqlite_up env d -> no_revert l (dbview d) ->
  let d' := (receive y d).1 in
  no_revert l (dbview d') /\ caught_up y (dbview d') /\ forall x, caught_up x (dbview d) -> caught_up x (dbview d').
Proof.
  intros Hcons Hy Hacc Hup Hnr d'.
  destruct (receive_acceptable (LAWS := sqlite_store_laws env) our_groups relay y d Hup Hacc) as [Hv _].
  unfold d'. rewrite Hv. destruct (supersedes y (dbview d !! fi_item_id y)) eqn:Hs.
  - assert (forall c, dbview d !! fi_item_id y = Some c -> str_le (c_updated_at c) (fi_updated_at y) = true) as Hle.
    { intros c Hc. rewrite Hc in Hs. apply andb_prop in Hs as [_ Hs]. auto with cordelia. }
    apply andb_prop in Hacc as [_ Hck%validated_checksum]. split_and!.
    + intros x c Hx. destruct (decide (fi_item_id y = fi_item_id x)) as [Heq|Hne].
      * rewrite Heq, lookup_insert_eq. intros [= <-] Hcs. simpl in Hcs. rewrite Hck in Hcs. injection Hcs as Hcs.
        rewrite (Hcons x y Hx Hy); [apply str_le_refl | done | by left].
      * rewrite lookup_insert_ne by done. by apply Hnr.
    + exists (content_of_item y). rewrite lookup_insert_eq. split; [done|]. apply str_le_refl.
    + intros x (c & Hc & Hx). destruct (decide (fi_item_id y = fi_item_id x)) as [Heq|Hne].
      * exists (content_of_item y). rewrite Heq, lookup_insert_eq. split; [done|]. rewrite <- Heq in Hc.
        eapply str_le_trans; [exact Hx|]. by apply Hle.
      * exists c. by rewrite lookup_insert_ne.
  - split_and!; [done| |done]. destruct (dbview d !! fi_item_id y) as [c|] eqn:Hc; [|done].
    exists c. split; [done|]. apply andb_false_iff in Hs as [Hs|Hs].
    + apply negb_false_iff, bool_decide_eq_true in Hs. by apply Hnr.
    + rewrite str_lt_not_le in Hs. by apply negb_false_iff in Hs.
Qed.

Lemma deliver_catches_up l l0 d :
  consistent l -> (forall x, x ∈ l0 -> x ∈ l) -> (forall x, x ∈ l -> acceptable our_groups relay x = true) ->
  sqlite_up env d -> no_revert l (dbview d) ->
  let d' := @deliver CR Db (sqlite_store env) our_groups relay l0 d in
  sqlite_up env d' /\ (forall x, x ∈ l0 -> caught_up x (dbview d')) /\ (forall x, caught_up x (dbview d) -> caught_up x (dbview d')).
Proof.
  intros Hcons. unfold deliver. revert d. induction l0 as [|y l0 IH]; intros d Hsub Hacc Hup Hnr; cbn [foldl].
  { split_and!; try done. by intros x Hx%elem_of_nil. }
  destruct (receive_catches_up l y d Hcons (Hsub y ltac:(left)) (Hacc y (Hsub y ltac:(left))) Hup Hnr) as (Hnr' & Hy & Hkeep).
  assert (sqlite_up env (receive y d).1) as Hup'.
  { exact (receive_up (LAWS := sqlite_store_laws env) our_groups relay y d Hup). }
  destruct (IH (receive y d).1) as (Hu & Hall & Hk); [intros x Hx; apply Hsub; by right|done|done|done|].
  split_and!; [done| |auto]. intros x [->|Hx]%elem_of_cons; auto.
Qed.

Lemma caught_up_kept x v : caught_up x v -> supersedes x (v !! fi_item_id x) = false.
Proof.
  intros (c & Hc & Hle). rewrite Hc. unfold supersedes. apply andb_false_iff. right.
  rewrite str_lt_not_le, Hle. done.
Qed.

Lemma push_duplicates l d ack :
  sqlite_up env d -> (forall x, x ∈ l -> acceptable our_groups relay x = true /\ caught_up x (dbview d)) ->
  (foldl (push_step env our_groups relay) (d, ack) l).2 = ack.
Proof.
  revert d. induction l as [|x l IH]; intros d Hup Hl; [done|]. cbn [foldl].
  destruct (Hl x) as [Hacc Hcu]; [left|].
  destruct (receive_acceptable (LAWS := sqlite_store_laws env) our_groups relay x d Hup Hacc) as [Hv Ho].
  rewrite (caught_up_kept x _ Hcu) in Hv, Ho.
  pose proof (receive_up (LAWS := sqlite_store_laws env) our_groups relay x d Hup) as Hup'.
  destruct (receive x d) as [d' out] eqn:E. cbn [fst snd] in *. subst out. unfold push_step at 2. rewrite E. apply IH; [exact Hup'|].
  intros y Hy. rewrite Hv. apply Hl. by right.
Qed.

End push.

(** [C17] A push to a relay: the groups that it admits are exactly those that are
    not blocked and that its posture admits (all of them when transparent,
    otherwise those it has learned or was configured with, none while that set
    cannot be read), whatever its own groups are.  When its store works, the
    content after the push is what the items make of it one after the other
    ([absorb]: an item of an admitted group that is in order and newer is stored,
    a tombstone deletes, everything else changes nothing), and the
    acknowledgement counts exactly the items that were taken and those that were
    refused.  When statements fail, still no entry changes on behalf of items of
    groups that are not admitted. *)
Theorem relay_push_acceptance `{Crypto} env rx posture req our_groups d d' ack :
  rx_posture rx = Some posture -> Z.of_nat (length (mpr_items req)) <= u32_max ->
  handle_push_request env req our_groups (relay_check rx) d = (d', ack) ->
  let admits := accepts our_groups (relay_check rx) in
  (forall gid, admits gid = true <->
     (gid ∉ rx_blocked rx)
     /\ (posture = Transparent \/ exists a, rx_accepted rx = Some a /\ rx_accepted_readable rx = true /\ gid ∈ a))
  /\ (sqlite_up env d ->
      let v := content_of <$> l2_items d in
      let vs := verdicts admits v (mpr_items req) in
      content_of <$> l2_items d' = foldl (absorb admits) v (mpr_items req)
      /\ ack_stored ack = tally Taken vs /\ ack_rejected ack = tally Refused vs)
  /\ (forall id, (forall x, x ∈ mpr_items req -> fi_item_id x = id -> admits (fi_group_id x) = false) ->
        content_of <$> l2_items d' !! id = content_of <$> l2_items d !! id).
Proof.
  intros Hp Hlen Hpush. destruct (relay_check rx) as [f|] eqn:Hrc; [|unfold relay_check in Hrc; by rewrite Hp in Hrc].
  intros admits. unfold handle_push_request in Hpush. split_and!.
  - intros gid. unfold admits, accepts. rewrite (relay_check_spec rx f gid Hrc), Hp. split.
    + intros [Hb [[= ->]|?]]; auto.
    + intros [Hb [->|?]]; auto.
  - intros Hup v vs. pose proof (push_deliver env our_groups (Some f) (mpr_items req) d {| ack_stored := 0; ack_rejected := 0 |}) as Hd.
    pose proof (push_tally env our_groups (Some f) (mpr_items req) d 0 0 Hup) as Ht. rewrite Hpush in Hd, Ht. cbn [fst snd] in Hd, Ht.
    rewrite Ht by lia. split; [|done]. rewrite Hd.
    exact (deliver_absorbs (LAWS := sqlite_store_laws env) our_groups (Some f) (mpr_items req) d Hup).
  - intros id Hid. pose proof (deliver_untouched env our_groups (Some f) (mpr_items req) d id Hid) as Hun.
    rewrite <- (push_deliver env our_groups (Some f) _ d {| ack_stored := 0; ack_rejected := 0 |}), Hpush in Hun.
    cbn [store_view sqlite_store_laws fst] in Hun. by rewrite !lookup_fmap in Hun.
Qed.

(** Pushes that a relay handles one after the other: the sender, the request, the channel. *)
Definition handle_pushes `{Crypto} `{HashIter} (env : SqlEnv) (rx : RelayCtx) (s : Swarm) (l : list (NodeId * MemoryPushRequest * Chan)) : Swarm :=
  foldl (fun s '(p, req, ch) => (handle_push env rx p req ch s).1) s l.

Lemma handle_push_db `{Crypto} `{HashIter} env rx p req ch s :
  sw_db (handle_push env rx p req ch s).1 = @deliver _ Db (sqlite_store env) (sw_groups s) (relay_check rx) (mpr_items req) (sw_db s)
  /\ sw_groups (handle_push env rx p req ch s).1 = sw_groups s /\ sw_pool (handle_push env rx p req ch s).1 = sw_pool s.
Proof.
  unfold handle_push, handle_push_request.
  rewrite <- (push_deliver env (sw_groups s) (relay_check rx) (mpr_items req) (sw_db s) {| ack_stored := 0; ack_rejected := 0 |}).
  by destruct (foldl _ _ _).
Qed.

Lemma handle_pushes_db `{Crypto} `{HashIter} env rx l s :
  sw_db (handle_pushes env rx s l)
  = @deliver _ Db (sqlite_store env) (sw_groups s) (relay_check rx) (concat ((fun e => mpr_items e.1.2) <$> l)) (sw_db s)
  /\ sw_groups (handle_pushes env rx s l) = sw_groups s.
Proof.
  revert s. induction l as [|[[p req] ch] l IH]; intros s; [done|]. cbn [handle_pushes foldl fmap list_fmap concat].
  destruct (handle_push_db env rx p req ch s) as (Hd & Hg & _). destruct (IH (handle_push env rx p req ch s).1) as [Hd' Hg'].
  unfold handle_pushes in *. rewrite Hd', Hg', Hg, Hd. split; [|done]. unfold deliver. by rewrite foldl_app.
Qed.

(** [C18] Forwarding ends: after a relay has handled a push of ordinary items, and
    whatever other pushes of ordinary items it has handled since, the same push
    arriving again, from whichever peer, stores nothing and is forwarded to
    nobody; so such a push travels over each connection of a relay at most once.
    Ordinary are items that the relay accepts and that are not tombstones, of
    which two versions of an item differ in checksum and timestamp, and none is
    newer than a stored version with its checksum. *)
Theorem relay_forwards_once `{Crypto} `{HashIter} env rx req p1 ch1 later p2 ch2 s :
  let items := concat ((fun e => mpr_items e.1.2) <$> (p1, req, ch1) :: later) in
  sqlite_up env (sw_db s) -> consistent items ->
  (forall x, x ∈ items -> acceptable (sw_groups s) (relay_check rx) x = true) ->
  no_revert items (content_of <$> l2_items (sw_db s)) ->
  (handle_push env rx p2 req ch2 (handle_pushes env rx s ((p1, req, ch1) :: later))).2
  = [OResponse ch2 (RsPush {| ack_stored := 0; ack_rejected := 0 |})].
Proof.
  intros items Hup Hcons Hacc Hnr. destruct (handle_pushes_db env rx ((p1, req, ch1) :: later) s) as [Hdb Hg].
  fold items in Hdb. set (s1 := handle_pushes env rx s _) in *.
  destruct (deliver_catches_up env (sw_groups s) (relay_check rx) items items (sw_db s) Hcons (fun x Hx => Hx) Hacc Hup Hnr)
    as (Hup1 & Hcu & _). rewrite <- Hdb in Hup1, Hcu.
  assert (forall x, x ∈ mpr_items req -> x ∈ items) as Hsub by (intros x Hx; cbn; apply elem_of_app; by left).
  unfold handle_push, handle_push_request. rewrite Hg.
  set (zero := {| ack_stored := 0; ack_rejected := 0 |}).
  pose proof (push_duplicates env (sw_groups s) (relay_check rx) (mpr_items req) (sw_db s1) zero Hup1
    (fun x Hx => conj (Hacc x (Hsub x Hx)) (Hcu x (Hsub x Hx)))) as Hdup.
  destruct (foldl _ (sw_db s1, zero) (mpr_items req)) as [d2 ack2]. cbn in Hdup. subst ack2.
  unfold forward_peers. cbn. by rewrite andb_false_r.
Qed.

(** A push that carries an item and its tombstone is not ordinary: the item is stored and
    deleted again each time, both count as stored, and the push is forwarded to every other
    peer as often as it arrives. *)
Lemma item_with_tombstone_circulates `{Crypto} `{HashIter} env rx x t p ch s :
  sqlite_up env (sw_db s) -> is_Some (rx_posture rx) -> l2_items (sw_db s) !! fi_item_id x = None ->
  acceptable (sw_groups s) (relay_check rx) x = true ->
  fi_item_id t = fi_item_id x -> fi_item_type t = TOMBSTONE -> blob_len t <= MAX_ITEM_BYTES ->
  accepts (sw_groups s) (relay_check rx) (fi_group_id t) = true ->
  let r := handle_push env rx p {| mpr_items := [x; t] |} ch s in
  r.2 = OResponse ch (RsPush {| ack_stored := 2; ack_rejected := 0 |})
        :: ((fun q => ORequest q (RqPush {| mpr_items := [x; t] |})) <$>
              (ph_node_id <$> filterb (fun h => negb (String.eqb (ph_node_id h) p)) (active_peers (sw_pool s))))
  /\ l2_items (sw_db r.1) !! fi_item_id x = None /\ sqlite_up env (sw_db r.1) /\ sw_groups r.1 = sw_groups s /\ sw_pool r.1 = sw_pool s.
Proof.
  intros Hup Hpos Hnone Hx Hid Hty Hsz Hgrp r. destruct (handle_push_db env rx p {| mpr_items := [x; t] |} ch s) as (Hdb & Hg & Hpool).
  fold r in Hdb, Hg, Hpool. cbn [mpr_items] in Hdb.
  set (v := content_of <$> l2_items (sw_db s)).
  assert (v !! fi_item_id x = None) as Hv by (unfold v; by rewrite lookup_fmap, Hnone).
  assert (judge (accepts (sw_groups s) (relay_check rx)) v x = Taken) as Hjx.
  { unfold judge. apply andb_prop in Hx as [Hx Hck]. apply andb_prop in Hx as [Hx Htyx]. apply andb_prop in Hx as [Hx Hnt].
    apply andb_prop in Hx as [Hszx Hgx]. apply negb_true_iff in Hnt. by rewrite Hszx, Hgx, Hnt, Hck, Hv, Htyx. }
  assert (String.eqb (fi_item_type x) TOMBSTONE = false) as Hnt.
  { apply andb_prop in Hx as [Hx _]. apply andb_prop in Hx as [Hx _]. apply andb_prop in Hx as [_ Hnt]. by apply negb_true_iff. }
  assert (absorb (accepts (sw_groups s) (relay_check rx)) v x = <[fi_item_id x := content_of_item x]> v) as Hax.
  { unfold absorb. by rewrite Hjx, Hnt. }
  assert (judge (accepts (sw_groups s) (relay_check rx)) (<[fi_item_id x := content_of_item x]> v) t = Taken) as Hjt.
  { unfold judge. rewrite Hgrp, Hty, String.eqb_refl, Hid, lookup_insert_eq. destruct (Z.leb_spec (blob_len t) MAX_ITEM_BYTES); [|lia]. done. }
  pose proof (push_tally env (sw_groups s) (relay_check rx) [x; t] (sw_db s) 0 0 Hup) as Ht.
  assert (verdicts (accepts (sw_groups s) (relay_check rx)) v [x; t] = [Taken; Taken]) as Hvs by (cbn [verdicts]; by rewrite Hjx, Hax, Hjt).
  split; [|split_and!; [| |done..]].
  - unfold r, handle_push, handle_push_request. cbn [mpr_items]. unfold u32_max in Ht. specialize (Ht ltac:(lia) ltac:(lia) ltac:(cbn; lia)).
    cbv zeta in Ht. change (verdicts _ _ [x; t]) with (verdicts (accepts (sw_groups s) (relay_check rx)) v [x; t]) in Ht. rewrite Hvs in Ht.
    destruct (foldl _ _ _) as [d' ack]. cbn [snd] in Ht. subst ack. cbn [snd]. f_equal. unfold forward_peers. by rewrite bool_decide_true by done.
  - pose proof (deliver_absorbs (LAWS := sqlite_store_laws env) (sw_groups s) (relay_check rx) [x; t] (sw_db s) Hup) as Ha.
    rewrite <- Hdb in Ha. apply (f_equal (lookup (fi_item_id x))) in Ha. revert Ha. cbn [store_view sqlite_store_laws foldl]. fold v.
    rewrite Hax. unfold absorb. rewrite Hjt, Hty, String.eqb_refl, Hid, lookup_delete_eq, lookup_fmap. by intros ?%fmap_None.
  - rewrite Hdb. unfold deliver. cbn [foldl].
    apply (receive_up (LAWS := sqlite_store_laws env)), (receive_up (LAWS := sqlite_store_laws env)), Hup.
Qed.

Lemma u32_i32_roundtrip z : - 2 ^ 31 <= z < 2 ^ 31 -> u32_as_i32 (i32_as_u32 z) = z.
Proof.
  intros Hz. unfold u32_as_i32, i32_as_u32. destruct (Z.le_gt_cases 0 z) as [Hp|Hn].
  - rewrite Z.mod_small by lia. destruct (Z.ltb_spec z (2 ^ 31)); lia.
  - rewrite <- (Z_mod_plus_full z 1 (2 ^ 32)), Z.mod_small by lia.
    destruct (Z.ltb_spec (z + 1 * 2 ^ 32) (2 ^ 31)); lia.
Qed.

(** A fetch request is served without a look at who asks or at the row: an item of no
    group, or with private visibility, goes out to every peer that names it. *)
Lemma fetch_serves_any_row env id row d :
  no_fault env -> lock_poisoned d = false -> l2_items d !! id = Some row ->
  frs_items (handle_fetch_request env {| fr_item_ids := [id] |} d) = [fetched_of_row row].
Proof.
  intros Hf Hl Hrow. unfold handle_fetch_request. simpl. unfold read_l2_item. rewrite with_lock by done. unfold query, stmt.
  rewrite Hf. simpl. by rewrite Hrow.
Qed.

(** Transfer of an item: what a node serves for a replicated row, received by
    another node that accepts the group and holds nothing as new, becomes the
    same content there, bit for bit (type, data, checksum, group, author, key
    version, lineage and the writer's timestamp). *)
Theorem fetched_item_roundtrip `{Crypto} env envB id row dA our_groups relay dB :
  no_fault env -> lock_poisoned dA = false -> l2_items dA !! id = Some row -> item_wf id row ->
  l2_visibility row = "group"%string -> l2_owner_id row = None -> is_Some (l2_author_id row) ->
  - 2 ^ 31 <= l2_key_version row < 2 ^ 31 -> Z.of_nat (length (l2_data row)) <= MAX_ITEM_BYTES ->
  (exists gid, l2_group_id row = Some gid /\ accepts our_groups relay gid = true) ->
  sqlite_up envB dB ->
  supersedes (fetched_of_row row) (content_of <$> l2_items dB !! id) = true ->
  frs_items (handle_fetch_request env {| fr_item_ids := [id] |} dA) = [fetched_of_row row]
  /\ (@on_receive _ Db (sqlite_store envB) (fetched_of_row row) our_groups relay dB).2 = Stored
  /\ content_of <$> l2_items (@on_receive _ Db (sqlite_store envB) (fetched_of_row row) our_groups relay dB).1 !! id
     = Some (content_of row).
Proof.
  intros Hf Hl Hrow [Hkey Hck Hty Hvis] Hv Ho [au Hau] Hkv Hsz (gid & Hg & Hacc) Hup Hsup.
  split; [by apply fetch_serves_any_row|].
  assert (acceptable our_groups relay (fetched_of_row row) = true) as Hok.
  { unfold acceptable, blob_len, validate_checksum. simpl. rewrite Hg, Hck, Hty. simpl. rewrite Hacc.
    unfold checksum. rewrite String.eqb_refl, !andb_true_r. apply andb_true_iff. split; [by apply Z.leb_le|].
    apply negb_true_iff, String.eqb_neq. intros Ht. by rewrite Ht in Hty. }
  destruct (receive_acceptable (LAWS := sqlite_store_laws envB) our_groups relay (fetched_of_row row) dB Hup Hok) as [Hview Hout].
  cbn [store_view sqlite_store_laws] in Hview, Hout. rewrite lookup_fmap in Hview, Hout.
  change (fi_item_id (fetched_of_row row)) with (l2_id row) in *. rewrite Hkey in *. rewrite Hsup in Hview, Hout.
  split; [done|]. rewrite <- lookup_fmap, Hview, lookup_insert_eq. f_equal.
  unfold content_of_item, content_of_write, content_of. simpl.
  rewrite Hau, Hg, Hv, Ho, Hck, u32_i32_roundtrip by done. done.
Qed.

(** ** Outstanding requests *)

Inductive ReqKind := KShare | KSync | KFetch | KExchange.

#[export] Instance ReqKind_eq_dec : EqDecision ReqKind.
Proof. solve_decision. Defined.

Definition pending (k : ReqKind) (s : Swarm) : gmap Z Z :=
  match k with
  | KShare => pending_peer_share s
  | KSync => pending_sync s
  | KFetch => pending_fetch s
  | KExchange => pending_group_exchange s
  end.

(** The request that an event completes, and the result it brings. *)
Definition completes (e : BehaviourEvent) : option (ReqKind * Z * result Response string) :=
  match e with
  | BShareResponse rid r => Some (KShare, rid, Ok (RsPeerShare r))
  | BShareFailure rid err => Some (KShare, rid, Err err)
  | BSyncResponse rid r => Some (KSync, rid, Ok (RsSync r))
  | BSyncFailure rid err => Some (KSync, rid, Err err)
  | BFetchResponse rid r => Some (KFetch, rid, Ok (RsFetch r))
  | BFetchFailure rid err => Some (KFetch, rid, Err err)
  | BExchangeResponse rid r => Some (KExchange, rid, Ok (RsGroupExchange r))
  | BExchangeFailure rid err => Some (KExchange, rid, Err err)
  | _ => None
  end.

Definition replies (out : list Output) : list (Z * result Response string) :=
  omap (fun o => match o with OReply tx r => Some (tx, r) | _ => None end) out.

(** Every outstanding request is answered exactly once: a response or a
    failure for a request that is outstanding is handed to the channel that the
    command supplied, and the request is no longer outstanding; one for any
    other request is dropped; and nothing else answers or forgets a request. *)
Theorem requests_answered_once `{Crypto} `{NodeIdentity} `{HashIter} env entity groups e s s' out merged :
  handle_behaviour_event env entity groups e s = (s', out, merged) ->
  match completes e with
  | Some (k, rid, r) =>
      replies out = match pending k s !! rid with Some tx => [(tx, r)] | None => [] end
      /\ pending k s' = delete rid (pending k s)
      /\ forall k', k' <> k -> pending k' s' = pending k' s
  | None => replies out = [] /\ forall k, pending k s' = pending k s
  end.
Proof.
  assert (forall m rid r, replies (complete m rid r).2 = match m !! rid with Some tx => [(tx, r)] | None => [] end) as Hrep.
  { intros m rid r. unfold complete. simpl. by destruct (m !! rid). }
  destruct e; cbn [handle_behaviour_event completes]; unfold on_exchange_request, on_exchange_response.
  1-2, 5, 8, 14: intros [= <- <- _]; split; [done | by intros []].
  7: { destruct (merge_offered _ (gx_descriptors req) _) as [d m].
       destruct (build_descriptors env entity d) as [d' descs]. intros [= <- <- _]. split; [done | by intros []]. }
  all: try (lazymatch goal with |- context [complete ?p ?i ?r] => specialize (Hrep p i r); destruct (complete p i r) as [m o] eqn:E end;
    injection E as Hm _; intros [= <- <- _]; split_and!; [exact Hrep | by subst m | by intros []]).
  destruct (merge_offered _ (gxr_descriptors r) _) as [d mr].
  specialize (Hrep (pending_group_exchange s) rid (Ok (RsGroupExchange r))).
  destruct (complete _ rid _) as [m o] eqn:E. injection E as Hm _.
  intros [= <- <- _]. split_and!; [exact Hrep | by subst m | by intros []].
Qed.

(** ** Connections *)

(** The connection events of a peer as libp2p numbers them: [n] connections
    before, [m] after. *)
Inductive conn_trace (peer : NodeId) : Z -> list NetEvent -> Z -> Prop :=
| ct_nil n : conn_trace peer n [] n
| ct_open n a es m : conn_trace peer (n + 1) es m -> conn_trace peer n (EvConnected peer a (n + 1) :: es) m
| ct_close n es m : 0 < n -> conn_trace peer (n - 1) es m -> conn_trace peer n (EvClosed peer (n - 1) :: es) m
| ct_other n e es m :
    (forall a k, e <> EvConnected peer a k) -> (forall k, e <> EvClosed peer k) ->
    conn_trace peer n es m -> conn_trace peer n (e :: es) m.

(** What the rest of the node is told about the peer: connected or disconnected. *)
Definition told (peer : NodeId) (out : list Output) : list bool :=
  omap (fun o => match o with
                 | OEvent (PeerConnected p _) => if String.eqb p peer then Some true else None
                 | OEvent (PeerDisconnected p) => if String.eqb p peer then Some false else None
                 | _ => None
                 end) out.

(** Alternation from one status to another. *)
Fixpoint alternates (up : bool) (l : list bool) (up' : bool) : Prop :=
  match l with
  | [] => up = up'
  | b :: l => b = negb up /\ alternates b l up'
  end.

Section connections.
Context `{CR : Crypto} `{NI : NodeIdentity} `{HI : HashIter}.
Context (env : SqlEnv) (entity : string) (role : NodeRole) (rx : RelayCtx) (addr_text : list AddrProtocol -> string).

Definition run_events (es : list NetEvent) (s : Swarm) : Swarm * list Output :=
  foldl (fun '(s, out) e => let '(s', o) := handle_event env entity role rx addr_text e s in (s', out ++ o)) (s, []) es.

Lemma told_app peer o1 o2 : told peer (o1 ++ o2) = told peer o1 ++ told peer o2.
Proof. unfold told. apply omap_app. Qed.

Lemma told_complete peer m rid r : told peer (complete m rid r).2 = [].
Proof. unfold complete. simpl. by destruct (m !! rid). Qed.

Lemma told_push peer p req ch s : told peer (handle_push env rx p req ch s).2 = [].
Proof.
  unfold handle_push. destruct (handle_push_request _ _ _ _ _) as [d ack]. simpl. unfold told. simpl.
  induction (forward_peers rx ack p (sw_pool s)); [done|]. simpl. done.
Qed.

(** Only connection events tell anything about connections. *)
Lemma told_other peer e s :
  (forall a k, e <> EvConnected peer a k) -> (forall k, e <> EvClosed peer k) ->
  told peer (handle_event env entity role rx addr_text e s).2 = [].
Proof.
  intros Hc Hd. destruct e as [p a n|p n|p|a|req ch|p req ch|b|]; cbn [handle_event]; try done.
  - destruct (n =? 1); [|done]. unfold told. simpl. destruct (String.eqb_spec p peer) as [->|]; [by destruct (Hc a n) | done].
  - destruct (n =? 0); [|done]. unfold told. simpl. destruct (String.eqb_spec p peer) as [->|]; [by destruct (Hd n) | done].
  - apply told_push.
  - destruct (handle_behaviour_event _ _ _ b s) as [[s' out] mr] eqn:E. simpl.
    destruct b; cbn [handle_behaviour_event] in E; unfold on_exchange_request, on_exchange_response in E;
      try (injection E as _ <- _; done);
      try (match type of E with context [complete ?p ?i ?r] =>
             pose proof (told_complete peer p i r) as Ht; destruct (complete p i r) as [m o] end; injection E as _ <- _; exact Ht).
    + destruct (merge_offered _ (gx_descriptors req) _) as [d mm].
      destruct (build_descriptors env entity d) as [d' descs]. by injection E as _ <- _.
    + destruct (merge_offered _ (gxr_descriptors r) _) as [d mm].
      match type of E with context [complete ?p ?i ?r] =>
        pose proof (told_complete peer p i r) as Ht; destruct (complete p i r) as [m o] end. injection E as _ <- _. exact Ht.
Qed.

Lemma run_events_told peer es s out n m :
  0 <= n -> conn_trace peer n es m ->
  exists l, told peer (foldl (fun '(s, out) e => let '(s', o) := handle_event env entity role rx addr_text e s in (s', out ++ o))
                         (s, out) es).2 = told peer out ++ l
    /\ alternates (0 <? n) l (0 <? m).
Proof.
  intros Hn Ht. revert s out Hn. induction Ht as [n|n a es m Ht IH|n es m Hpos Ht IH|n e es m Hc Hd Ht IH]; intros s out Hn.
  - exists []. by rewrite app_nil_r.
  - cbn [foldl handle_event]. destruct (IH s (out ++ (if n + 1 =? 1 then [OEvent (PeerConnected peer [a])] else []))) as (l & Hl & Ha); [lia|].
    rewrite Hl, told_app, <- app_assoc. eexists. split; [done|].
    destruct (Z.eqb_spec (n + 1) 1) as [E|E]; unfold told; simpl; rewrite ?String.eqb_refl; simpl.
    + assert (n = 0) as -> by lia. done.
    + destruct (Z.ltb_spec 0 n), (Z.ltb_spec 0 (n + 1)); try lia. done.
  - cbn [foldl handle_event]. destruct (IH s (out ++ (if n - 1 =? 0 then [OEvent (PeerDisconnected peer)] else []))) as (l & Hl & Ha); [lia|].
    rewrite Hl, told_app, <- app_assoc. eexists. split; [done|].
    destruct (Z.eqb_spec (n - 1) 0) as [E|E]; unfold told; simpl; rewrite ?String.eqb_refl; simpl.
    + assert (n = 1) as -> by lia. done.
    + destruct (Z.ltb_spec 0 n), (Z.ltb_spec 0 (n - 1)); try lia. done.
  - cbn [foldl]. pose proof (told_other peer e s Hc Hd) as Hnone.
    destruct (handle_event env entity role rx addr_text e s) as [s' o]. cbn [snd] in Hnone.
    destruct (IH s' (out ++ o) Hn) as (l & Hl & Ha). exists l. by rewrite Hl, told_app, Hnone, app_nil_r.
Qed.

End connections.

(** Connections as the rest of the node sees them: however many parallel
    connections libp2p opens and closes to a peer, and whatever else happens in
    between, the connect and disconnect notices for that peer strictly
    alternate, starting from its actual status and ending with it. *)
Theorem connection_notices_alternate `{Crypto} `{NodeIdentity} `{HashIter} env entity role rx addr_text peer es s n m :
  0 <= n -> conn_trace peer n es m ->
  alternates (0 <? n) (told peer (run_events env entity role rx addr_text es s).2) (0 <? m).
Proof.
  intros Hn Ht. destruct (run_events_told env entity role rx addr_text peer es s [] n m Hn Ht) as (l & Hl & Ha).
  unfold run_events. by rewrite Hl.
Qed.

(** ** Witnesses *)

Definition toy_identity : NodeIdentity := {| public_key := [Byte.x41]; sign := fun m => Byte.x41 :: m |}.

Definition ex_desc (culture ts : string) (pk sg : option string) : GroupDescriptor := {|
  gd_id := "g"; gd_culture := culture; gd_updated_at := ts;
  gd_checksum := @compute_checksum toy_crypto "g" culture;
  gd_owner_id := Some "alice"%string; gd_owner_pubkey := pk; gd_signature := sg |}.

(** A descriptor signed with the toy key. *)
Definition ex_signed (culture ts : string) : GroupDescriptor :=
  ex_desc culture ts (Some "A"%string)
    (Some (String.append "A" (signing_text (ex_desc culture ts None None)))).


(** The database after the owner's descriptor has been merged. *)
Definition signed_db : Db := (@merge_one toy_crypto ex_env (ex_signed "chatty" "2027") ex_db).1.

Definition get_group (d : Db) (id : string) : GroupRow :=
  default (upsert_group "" "" "" "" "" None) (groups_t d !! id).

Lemma keyless_descriptor_replaces_signed_group_witness :
  exists d' row, @merge_one toy_crypto ex_env (ex_desc "hijacked" "2028" None (Some "x"%string)) signed_db = (d', Upserted)
    /\ groups_t d' !! "g"%string = Some row /\ gr_culture row = "hijacked"%string.
Proof.
  destruct (@keyless_descriptor_replaces_signed_group toy_crypto ex_env (ex_desc "hijacked" "2028" None (Some "x"%string))
    signed_db (get_group signed_db "g")) as (d' & row & H1 & H2 & H3 & _).
  - intros name. reflexivity.
  - vm_compute. reflexivity.
  - vm_compute. reflexivity.
  - vm_compute. eexists. reflexivity.
  - vm_compute. eexists. reflexivity.
  - reflexivity.
  - eexists. reflexivity.
  - reflexivity.
  - vm_compute. lia.
  - vm_compute. reflexivity.
  - vm_compute. reflexivity.
  - exists d', row. split; [exact H1|]. split; [exact H2 | exact H3].
Defined.

(** A group that alice owns and has not signed yet. *)
Definition owned_group : GroupRow := {|
  gr_id := "own"; gr_name := "Own"; gr_culture := "{}"; gr_security_policy := "{}"; gr_created_at := "2026";
  gr_updated_at := "2026"; gr_owner_id := Some "alice"%string; gr_owner_pubkey := None; gr_signature := None |}.

Definition owner_db : Db := set_groups_t (<["own"%string := owned_group]> (groups_t ex_db)) ex_db.

Lemma lazy_signature_verifies_witness :
  @signature_acceptable toy_crypto (@build_one toy_crypto toy_identity ex_env "alice" owner_db owned_group).2 = true.
Proof.
  assert (let '(d', desc) := @build_one toy_crypto toy_identity ex_env "alice" owner_db owned_group in
    @verify_checksum toy_crypto desc = true /\ @signature_acceptable toy_crypto desc = true
    /\ is_Some (gd_signature desc) /\ gd_owner_id desc = Some "alice"%string
    /\ gd_owner_pubkey desc = Some (@hex_encode toy_crypto (@public_key toy_identity))
    /\ exists g', groups_t d' !! gr_id owned_group = Some g'
         /\ @build_one toy_crypto toy_identity ex_env "alice" d' g' = (d', desc)) as H.
  { apply (@lazy_signature_verifies toy_crypto toy_identity ex_env "alice" owner_db owned_group).
    - intros msg. simpl. apply bool_decide_eq_true. reflexivity.
    - intros b. simpl. f_equal. apply String.list_byte_of_string_of_list_byte.
    - intros name. reflexivity.
    - reflexivity.
    - vm_compute. reflexivity.
    - reflexivity.
    - reflexivity. }
  destruct (@build_one toy_crypto toy_identity ex_env "alice" owner_db owned_group) as [d' desc]. apply H.
Defined.

Lemma merged_descriptor_is_not_relayed_witness :
  gd_signature (@build_one toy_crypto toy_identity ex_env "bob" signed_db (get_group signed_db "g")).2
  = gd_signature (ex_signed "chatty" "2027").
Proof.
  assert (let '(_, relayed) := @build_one toy_crypto toy_identity ex_env "bob" signed_db (get_group signed_db "g") in
    gd_owner_pubkey relayed = Some "A"%string /\ gd_signature relayed = gd_signature (ex_signed "chatty" "2027")
    /\ forall env2 d2, @merge_one toy_crypto env2 relayed d2 = (d2, Skipped)) as H.
  { eapply (@merged_descriptor_is_not_relayed toy_crypto toy_identity ex_env (ex_signed "chatty" "2027") ex_db signed_db).
    - intros name. reflexivity.
    - reflexivity.
    - vm_compute. reflexivity.
    - reflexivity.
    - reflexivity.
    - reflexivity.
    - reflexivity.
    - reflexivity.
    - intros msg Hv. simpl in Hv. apply bool_decide_eq_true in Hv. vm_compute in Hv. injection Hv as Hv.
      rewrite <- Hv. vm_compute. reflexivity.
    - vm_compute. discriminate.
    - reflexivity.
    - reflexivity.
    - reflexivity.
    - vm_compute. reflexivity. }
  destruct (@build_one toy_crypto toy_identity ex_env "bob" signed_db (get_group signed_db "g")) as [d' desc]. apply H.
Defined.

Definition ex_relay : RelayCtx :=
  {| rx_posture := Some Dynamic; rx_accepted := Some {["g"%string]}; rx_accepted_readable := true;
     rx_blocked := {["bad"%string]} |}.

Definition ex_push : MemoryPushRequest := {| mpr_items := ex_versions |}.

Lemma relay_push_acceptance_witness :
  ack_stored (@handle_push_request toy_crypto ex_env ex_push [] (relay_check ex_relay) empty_db).2 = 3.
Proof.
  destruct (@relay_push_acceptance toy_crypto ex_env ex_relay Dynamic ex_push [] empty_db
    (@handle_push_request toy_crypto ex_env ex_push [] (relay_check ex_relay) empty_db).1
    (@handle_push_request toy_crypto ex_env ex_push [] (relay_check ex_relay) empty_db).2) as (Ha & Hup & _).
  - reflexivity.
  - vm_compute. discriminate.
  - vm_compute. reflexivity.
  - destruct Hup as (_ & Hs & _); [split; [reflexivity|intros name; reflexivity]|]. rewrite Hs. vm_compute. reflexivity.
Defined.

Definition ex_swarm : Swarm := {|
  sw_db := empty_db; sw_groups := []; sw_pool := ∅; pending_peer_share := ∅; pending_sync := ∅;
  pending_fetch := ∅; pending_group_exchange := ∅ |}.

Lemma relay_forwards_once_witness :
  (@handle_push toy_crypto sorted_iter ex_env ex_relay "q" ex_push 2
     (@handle_push toy_crypto sorted_iter ex_env ex_relay "p" ex_push 1 ex_swarm).1).2
  = [OResponse 2 (RsPush {| ack_stored := 0; ack_rejected := 0 |})].
Proof.
  apply (@relay_forwards_once toy_crypto sorted_iter ex_env ex_relay ex_push "p"%string 1 [] "q"%string 2 ex_swarm).
  - split; [reflexivity | intros name; reflexivity].
  - apply ex_versions_consistent.
  - intros x Hx. cbn in Hx. repeat (apply elem_of_cons in Hx as [->|Hx]; [vm_compute; reflexivity|]). by apply elem_of_nil in Hx.
  - intros x c _ Hc. vm_compute in Hc. discriminate Hc.
Defined.

Lemma fetched_item_roundtrip_witness :
  frs_items (handle_fetch_request ex_env {| fr_item_ids := ["i1"%string] |} ex_db)
  = [fetched_of_row (@upsert_row toy_crypto (sql_now ex_env) (ex_item "i1" "2026-01-02" [Byte.x01]) None)].
Proof.
  apply (@fetched_item_roundtrip toy_crypto ex_env ex_env "i1"
    (@upsert_row toy_crypto (sql_now ex_env) (ex_item "i1" "2026-01-02" [Byte.x01]) None) ex_db ["g"%string] None empty_db).
  - intros name. reflexivity.
  - reflexivity.
  - vm_compute. reflexivity.
  - split; reflexivity.
  - reflexivity.
  - reflexivity.
  - eexists. reflexivity.
  - simpl. lia.
  - vm_compute. discriminate.
  - exists "g"%string. split; [reflexivity | vm_compute; reflexivity].
  - split; [reflexivity | intros name; reflexivity].
  - reflexivity.
Defined.

Lemma requests_answered_once_witness :
  replies (@handle_behaviour_event toy_crypto toy_identity sorted_iter ex_env "alice" []
    (BSyncFailure 7 "timeout") (set_pending_sync {[7 := 3]} ex_swarm)).1.2 = [(3, Err "timeout"%string)].
Proof.
  pose proof (@requests_answered_once toy_crypto toy_identity sorted_iter ex_env "alice" []
    (BSyncFailure 7 "timeout") (set_pending_sync {[7 := 3]} ex_swarm) _ _ _ eq_refl) as (H & _).
  exact H.
Defined.

Lemma connection_notices_alternate_witness :
  alternates false (told "p" (@run_events toy_crypto toy_identity sorted_iter ex_env "alice" Relay ex_relay (fun _ => EmptyString)
    [EvConnected "p" [] 1; EvConnected "p" [] 2; EvClosed "p" 1; EvClosed "p" 0] ex_swarm).2) false.
Proof.
  apply (@connection_notices_alternate toy_crypto toy_identity sorted_iter ex_env "alice" Relay ex_relay (fun _ => EmptyString)
    "p"%string _ ex_swarm 0 0); [lia|].
  apply (ct_open _ 0). apply (ct_open _ 1). apply (ct_close _ 2); [lia|]. apply (ct_close _ 1); [lia|]. constructor.
Defined.
