(* ===== verification/WireProps.v ===== *)
(** * Messages on the wire: theorems

    Requests and responses of the five mini-protocols ([CordeliaBehaviour] and
    [build_swarm], swarm_task.rs) through the codecs of [Wire.v]: what a node
    sends is read by its peer as it was meant. *)

From S2P Require Import Prelude Float64 Protocol Base64 Governor Storage Json Wire.
From S2P Require Import StorageProps ItemStore Replication PeerPool Config SwarmTask SwarmProps.

(** ** Mini-protocols *)

Inductive MiniProtocol := PeerSharing | MemorySync | MemoryFetch | MemoryPush | GroupExchanging.

Definition stream_protocol (p : MiniProtocol) : string :=
  match p with
  | PeerSharing => "/cordelia/peer-share/1"
  | MemorySync => "/cordelia/memory-sync/1"
  | MemoryFetch => "/cordelia/memory-fetch/1"
  | MemoryPush => "/cordelia/memory-push/1"
  | GroupExchanging => "/cordelia/group-exchange/1"
  end.

(** The behaviours do not get in each other's way. *)
Lemma stream_protocol_inj p q : stream_protocol p = stream_protocol q -> p = q.
Proof. by destruct p, q. Qed.

Definition request_protocol (r : Request) : MiniProtocol :=
  match r with
  | RqPeerShare _ => PeerSharing
  | RqSync _ => MemorySync
  | RqFetch _ => MemoryFetch
  | RqPush _ => MemoryPush
  | RqGroupExchange _ => GroupExchanging
  end.

Definition response_protocol (r : Response) : MiniProtocol :=
  match r with
  | RsPeerShare _ => PeerSharing
  | RsSync _ => MemorySync
  | RsFetch _ => MemoryFetch
  | RsPush _ => MemoryPush
  | RsGroupExchange _ => GroupExchanging
  end.

Section codecs.
Context `{B64 : Base64}.

Definition enc_request (r : Request) : Value :=
  match r with
  | RqPeerShare r => enc peer_share_request r
  | RqSync r => enc sync_request r
  | RqFetch r => enc fetch_request r
  | RqPush r => enc memory_push_request r
  | RqGroupExchange r => enc group_exchange r
  end.

Definition dec_request (p : MiniProtocol) (v : Value) : option Request :=
  match p with
  | PeerSharing => RqPeerShare <$> dec peer_share_request v
  | MemorySync => RqSync <$> dec sync_request v
  | MemoryFetch => RqFetch <$> dec fetch_request v
  | MemoryPush => RqPush <$> dec memory_push_request v
  | GroupExchanging => RqGroupExchange <$> dec group_exchange v
  end.

Definition enc_response (r : Response) : Value :=
  match r with
  | RsPeerShare peers => enc peer_share_response peers
  | RsSync r => enc sync_response r
  | RsFetch r => enc fetch_response r
  | RsPush a => enc push_ack a
  | RsGroupExchange r => enc group_exchange_response r
  end.

Definition dec_response (p : MiniProtocol) (v : Value) : option Response :=
  match p with
  | PeerSharing => RsPeerShare <$> dec peer_share_response v
  | MemorySync => RsSync <$> dec sync_response v
  | MemoryFetch => RsFetch <$> dec fetch_response v
  | MemoryPush => RsPush <$> dec push_ack v
  | GroupExchanging => RsGroupExchange <$> dec group_exchange_response v
  end.

End codecs.

(** ** Round trips *)

(** The numbers fit their types. *)
Definition request_ok (r : Request) : Prop :=
  match r with
  | RqPeerShare r => peer_share_request_ok r
  | RqSync r => sync_request_ok r
  | RqFetch _ | RqGroupExchange _ => True
  | RqPush r => Forall fetched_item_ok (mpr_items r)
  end.

Definition response_ok (r : Response) : Prop :=
  match r with
  | RsPeerShare peers => Forall peer_address_ok peers
  | RsSync _ | RsGroupExchange _ => True
  | RsFetch r => Forall fetched_item_ok (frs_items r)
  | RsPush a => push_ack_ok a
  end.

Lemma request_exact `{Base64Laws} r : request_ok r -> dec_request (request_protocol r) (enc_request r) = Some r.
Proof.
  intros Hr. destruct r; cbn [request_ok dec_request request_protocol enc_request] in *.
  - by rewrite peer_share_request_exact.
  - by rewrite sync_request_exact.
  - by rewrite fetch_request_exact.
  - by rewrite memory_push_request_exact.
  - by rewrite group_exchange_exact.
Qed.

Lemma response_exact `{Base64Laws} r : response_ok r -> dec_response (response_protocol r) (enc_response r) = Some r.
Proof.
  intros Hr. destruct r; cbn [response_ok dec_response response_protocol enc_response] in *.
  - by rewrite peer_share_response_exact.
  - by rewrite sync_response_exact.
  - by rewrite fetch_response_exact.
  - by rewrite push_ack_exact.
  - by rewrite group_exchange_response_exact.
Qed.

(** ** What a node answers *)

Lemma i32_as_u32_range z : 0 <= i32_as_u32 z < 2 ^ 32.
Proof. apply Z.mod_pos_bound. lia. Qed.

Lemma served_items_ok env req d : Forall fetched_item_ok (frs_items (handle_fetch_request env req d)).
Proof.
  apply Forall_forall. intros x (id & _ & Hx)%list_elem_of_omap.
  destruct (read_l2_item env id d).2 as [[row|]|]; [|done..]. injection Hx as <-. apply i32_as_u32_range.
Qed.

Lemma push_ack_fits `{Crypto} env our_groups relay l st :
  push_ack_ok st.2 -> push_ack_ok (foldl (push_step env our_groups relay) st l).2.
Proof.
  revert st. induction l as [|x l IH]; intros [d ack] Hack; [done|]. apply IH. cbn.
  pose proof (fun z => Z.mod_pos_bound z (2 ^ 32) ltac:(lia)) as Hw. destruct Hack as [H1 H2].
  destruct (on_receive x our_groups relay d) as [d' []]; split; cbn; solve [done | apply Hw].
Qed.

Lemma complete_no_response pending rid a ch r : OResponse ch r ∉ (complete pending rid a).2.
Proof.
  unfold complete. destruct (pending !! rid); cbn; [by intros Hin%list_elem_of_singleton|by intros Hin%elem_of_nil].
Qed.

Lemma behaviour_responses_ok `{Crypto} `{NodeIdentity} `{HashIter} env entity groups e s ch r :
  OResponse ch r ∈ (handle_behaviour_event env entity groups e s).1.2 -> response_ok r.
Proof.
  intros Hin.
  assert (forall pending rid a, OResponse ch r ∈ (complete pending rid a).2 -> response_ok r) as Hnone
    by (intros ??? Hc; by apply complete_no_response in Hc).
  destruct e as [| |rid peers|rid error|req ch'|rid resp|rid error|req ch'|rid resp|rid error|peer req ch'|rid resp|rid error|];
    cbn [handle_behaviour_event] in Hin; unfold on_exchange_request, on_exchange_response in Hin.
  all: try (destruct (complete _ _ _) as [m out] eqn:E; eapply Hnone; by rewrite E).
  all: try (apply list_elem_of_singleton in Hin as [= _ ->]).
  all: try solve [done | apply served_items_ok].
  - destruct (merge_offered _ (gx_descriptors req) _) as [d merged].
    destruct (build_descriptors _ _ _) as [d' descs]. by apply list_elem_of_singleton in Hin as [= _ ->].
  - destruct (merge_offered _ (gxr_descriptors resp) _) as [d merged].
    destruct (complete _ _ _) as [m out] eqn:E. eapply Hnone. by rewrite E.
  - by apply elem_of_nil in Hin.
Qed.

(** Every response that the swarm task gives fits the wire. *)
Lemma responses_ok `{Crypto} `{NodeIdentity} `{HashIter} env entity role rx addr_text e s ch r :
  OResponse ch r ∈ (handle_event env entity role rx addr_text e s).2 -> response_ok r.
Proof.
  intros Hin. destruct e as [peer addr n|peer n|peer|addr|req ch'|peer req ch'|be|]; cbn [handle_event snd] in Hin.
  - destruct (n =? 1); [by apply list_elem_of_singleton in Hin|by apply elem_of_nil in Hin].
  - destruct (n =? 0); [by apply list_elem_of_singleton in Hin|by apply elem_of_nil in Hin].
  - by apply list_elem_of_singleton in Hin.
  - by apply list_elem_of_singleton in Hin.
  - apply list_elem_of_singleton in Hin as [= _ ->]. apply Forall_fmap, Forall_true. intros h. split; cbn; lia.
  - unfold handle_push in Hin. destruct (handle_push_request env req (sw_groups s) (relay_check rx) (sw_db s)) as [d ack] eqn:E.
    apply elem_of_cons in Hin as [[= _ ->]|(p & Hp & _)%list_elem_of_fmap]; [|done].
    change (push_ack_ok (d, ack).2). rewrite <- E. by apply push_ack_fits.
  - destruct (handle_behaviour_event _ _ _ _ _) as [[s' out] merged] eqn:E.
    apply (behaviour_responses_ok env entity (advertised_groups (sw_groups s) (rx_accepted rx) (rx_accepted_readable rx)) be s ch).
    by rewrite E.
  - by apply elem_of_nil in Hin.
Qed.

(** [C19] Messages survive the wire: a peer reads the document of any request whose
    numbers fit their types as that request, and the document of every response
    that a node gives, to any event in any state, as that response (items with
    their bytes through base64, absent and present options, skipped signature
    fields); a group exchange without descriptors, as older peers send it, is
    read with none, and members that the receiver does not know are ignored. *)
Theorem messages_survive_the_wire `{Crypto} `{NodeIdentity} `{HashIter} `{Base64Laws} :
  (forall r, request_ok r -> dec_request (request_protocol r) (enc_request r) = Some r)
  /\ (forall env entity role rx addr_text e s ch r,
        OResponse ch r ∈ (handle_event env entity role rx addr_text e s).2 ->
        dec_response (response_protocol r) (enc_response r) = Some r)
  /\ (forall groups, dec group_exchange (Object [("groups", enc (vec_of text) groups)]%string)
                      = Some {| gx_groups := groups; gx_descriptors := None |})
  /\ (forall x name v, name ∉ ["groups"; "descriptors"]%string ->
        dec group_exchange (Object (("groups", enc (vec_of text) (gx_groups x))%string :: (name, v)
          :: write "descriptors" descriptors_field (gx_descriptors x))) = Some x).
Proof.
  split_and!.
  - apply request_exact.
  - intros env entity role rx addr_text e s ch r Hin. eapply response_exact, responses_ok, Hin.
  - intros groups. unfold group_exchange. cbn [dec struct]. unfold read_all.
    rewrite (read_member _ _ _ _ (enc (vec_of text) groups) groups), (read_absent _ _ _ _ None) by first [done | apply vec_text_exact].
    done.
  - intros [groups descs] name v Hname. unfold group_exchange. cbn [dec struct]. unfold read_all.
    assert (String.eqb name "groups" = false /\ String.eqb name "descriptors" = false) as [Hg Hd].
    { split; apply String.eqb_neq; intros ->; apply Hname; set_solver. }
    rewrite (read_member _ _ _ _ (enc (vec_of text) groups) groups);
      [|unfold members_named; cbn; by rewrite Hg|apply vec_text_exact].
    rewrite (read_member _ _ _ _ (enc (fd_codec descriptors_field) descs) descs);
      [done|unfold members_named; cbn; by rewrite Hd|apply descriptors_exact].
Qed.

(** ** Example *)

Lemma messages_survive_the_wire_witness :
  @dec_response standard_base64 MemoryFetch
    (@enc_response standard_base64 (RsFetch (handle_fetch_request ex_env {| fr_item_ids := ["i1"%string] |} (sw_db ex_swarm))))
  = Some (RsFetch (handle_fetch_request ex_env {| fr_item_ids := ["i1"%string] |} (sw_db ex_swarm))).
Proof.
  destruct (@messages_survive_the_wire toy_crypto toy_identity sorted_iter standard_base64 standard_base64_laws) as (_ & Hresp & _).
  exact (Hresp ex_env "alice"%string Relay ex_relay (fun _ => EmptyString)
    (EvBehaviour (BFetchRequest {| fr_item_ids := ["i1"%string] |} 5)) ex_swarm 5
    (RsFetch (handle_fetch_request ex_env {| fr_item_ids := ["i1"%string] |} (sw_db ex_swarm))) (list_elem_of_here _ _)).
Defined.
