(* ===== verification/ReplicationTask.v ===== *)
(** * The replication task

    Models [crates/cordelia-node/src/replication_task.rs]: the coalescing of
    local writes, the batched push with bounded retries, the per-group
    anti-entropy schedule and one anti-entropy round, bootstrap and garbage
    collection.  The answers of the peer in a round, the JSON parser of group
    cultures and the random choice of a peer are parameters. *)

From S2P Require Import Prelude Float64 Protocol Governor Storage StorageProps ItemStore Replication PeerPool Config SwarmTask.

(** ** Batches *)

(** [item.encrypted_blob.len() + item.item_id.len() + 256] *)
Definition item_size (item : FetchedItem) : Z :=
  Z.of_nat (length (fi_encrypted_blob item)) + Z.of_nat (String.length (fi_item_id item)) + 256.

(** The body of the loop: finished batches, current batch, its size. *)
Definition batch_step (st : list (list FetchedItem) * list FetchedItem * Z) (item : FetchedItem) :
    list (list FetchedItem) * list FetchedItem * Z :=
  let '(batches, current, size) := st in
  let '(batches, current, size) :=
    if negb (bool_decide (current = [])) && (MAX_MESSAGE_BYTES <? size + item_size item)
    then (batches ++ [current], [], 0)
    else (batches, current, size) in
  (batches, current ++ [item], size + item_size item).

Definition split_into_batches (items : list FetchedItem) : list (list FetchedItem) :=
  let '(batches, current, _) := foldl batch_step ([], [], 0) items in
  if bool_decide (current = []) then batches else batches ++ [current].

(** The pieces of [slice::chunks] for a positive size: every recursive call drops at least
    one element. *)
Fixpoint chunks_aux (fuel n : nat) (l : list string) : list (list string) :=
  match fuel, l with
  | S fuel, _ :: _ => take n l :: chunks_aux fuel n (drop n l)
  | _, _ => []
  end.

(** [slice::chunks] panics when the size is zero. *)
Definition chunks (n : nat) (l : list string) : Run (list (list string)) :=
  match n with
  | O => Panic
  | S _ => Finished (chunks_aux (length l) n l)
  end.

(** ** State *)

Record PendingPush := {
  pp_items : list FetchedItem;
  pp_group_id : string;
  pp_attempt : nat;
  pp_next_at : Instant;
}.

Record ReplicationStats := {
  items_pushed : Z;
  items_synced : Z;
  items_rejected : Z;
  items_duplicate : Z;
  sync_rounds : Z;
  sync_rounds_with_diff : Z;
  sync_errors : Z;
  push_retries_exhausted : Z;
  write_buffer_depth : Z;
  pending_push_count : Z;
}.

Record Repl := {
  rt_db : Db;
  rt_pool : gmap NodeId PeerHandle;
  pending_pushes : list PendingPush;
  next_sync_at : gmap string Instant;
  last_sync_at : gmap string string;
  sync_cycle_count : gmap string Z;
  write_buffer : gmap string (list FetchedItem);
  rt_stats : ReplicationStats;
}.

Definition FULL_SYNC_EVERY : Z := 10.

Definition rt_set_db (d : Db) (s : Repl) : Repl :=
  {| rt_db := d; rt_pool := rt_pool s; pending_pushes := pending_pushes s; next_sync_at := next_sync_at s;
     last_sync_at := last_sync_at s; sync_cycle_count := sync_cycle_count s; write_buffer := write_buffer s;
     rt_stats := rt_stats s |}.

Definition rt_set_pool (p : gmap NodeId PeerHandle) (s : Repl) : Repl :=
  {| rt_db := rt_db s; rt_pool := p; pending_pushes := pending_pushes s; next_sync_at := next_sync_at s;
     last_sync_at := last_sync_at s; sync_cycle_count := sync_cycle_count s; write_buffer := write_buffer s;
     rt_stats := rt_stats s |}.

Definition rt_set_pending (p : list PendingPush) (s : Repl) : Repl :=
  {| rt_db := rt_db s; rt_pool := rt_pool s; pending_pushes := p; next_sync_at := next_sync_at s;
     last_sync_at := last_sync_at s; sync_cycle_count := sync_cycle_count s; write_buffer := write_buffer s;
     rt_stats := rt_stats s |}.

Definition rt_set_buffer (b : gmap string (list FetchedItem)) (s : Repl) : Repl :=
  {| rt_db := rt_db s; rt_pool := rt_pool s; pending_pushes := pending_pushes s; next_sync_at := next_sync_at s;
     last_sync_at := last_sync_at s; sync_cycle_count := sync_cycle_count s; write_buffer := b;
     rt_stats := rt_stats s |}.

Definition rt_set_schedule (n : gmap string Instant) (l : gmap string string) (c : gmap string Z) (s : Repl) : Repl :=
  {| rt_db := rt_db s; rt_pool := rt_pool s; pending_pushes := pending_pushes s; next_sync_at := n;
     last_sync_at := l; sync_cycle_count := c; write_buffer := write_buffer s; rt_stats := rt_stats s |}.

Definition rt_set_stats (t : ReplicationStats) (s : Repl) : Repl :=
  {| rt_db := rt_db s; rt_pool := rt_pool s; pending_pushes := pending_pushes s; next_sync_at := next_sync_at s;
     last_sync_at := last_sync_at s; sync_cycle_count := sync_cycle_count s; write_buffer := write_buffer s;
     rt_stats := t |}.

(** [fetch_add] on the counters; the two gauges at the end keep their value. *)
Definition add_stats (a : ReplicationStats) (s : Repl) : Repl :=
  let t := rt_stats s in
  rt_set_stats
    {| items_pushed := wrap_u64 (items_pushed t + items_pushed a);
       items_synced := wrap_u64 (items_synced t + items_synced a);
       items_rejected := wrap_u64 (items_rejected t + items_rejected a);
       items_duplicate := wrap_u64 (items_duplicate t + items_duplicate a);
       sync_rounds := wrap_u64 (sync_rounds t + sync_rounds a);
       sync_rounds_with_diff := wrap_u64 (sync_rounds_with_diff t + sync_rounds_with_diff a);
       sync_errors := wrap_u64 (sync_errors t + sync_errors a);
       push_retries_exhausted := wrap_u64 (push_retries_exhausted t + push_retries_exhausted a);
       write_buffer_depth := write_buffer_depth t;
       pending_push_count := pending_push_count t |} s.

(** The head of the loop: the gauges are set before every iteration. *)
Definition update_gauges (s : Repl) : Repl :=
  let t := rt_stats s in
  rt_set_stats
    {| items_pushed := items_pushed t; items_synced := items_synced t; items_rejected := items_rejected t;
       items_duplicate := items_duplicate t; sync_rounds := sync_rounds t;
       sync_rounds_with_diff := sync_rounds_with_diff t; sync_errors := sync_errors t;
       push_retries_exhausted := push_retries_exhausted t;
       write_buffer_depth := wrap_u64 (map_fold (fun _ v n => Z.of_nat (length v) + n) 0 (write_buffer s));
       pending_push_count := wrap_u64 (Z.of_nat (length (pending_pushes s))) |} s.

Definition no_stats : ReplicationStats :=
  {| items_pushed := 0; items_synced := 0; items_rejected := 0; items_duplicate := 0; sync_rounds := 0;
     sync_rounds_with_diff := 0; sync_errors := 0; push_retries_exhausted := 0;
     write_buffer_depth := 0; pending_push_count := 0 |}.

Definition stat_pushed (n : Z) : ReplicationStats :=
  {| items_pushed := n; items_synced := 0; items_rejected := 0; items_duplicate := 0; sync_rounds := 0;
     sync_rounds_with_diff := 0; sync_errors := 0; push_retries_exhausted := 0;
     write_buffer_depth := 0; pending_push_count := 0 |}.

Definition stat_items (synced rejected duplicate : Z) : ReplicationStats :=
  {| items_pushed := 0; items_synced := synced; items_rejected := rejected; items_duplicate := duplicate;
     sync_rounds := 0; sync_rounds_with_diff := 0; sync_errors := 0; push_retries_exhausted := 0;
     write_buffer_depth := 0; pending_push_count := 0 |}.

Definition stat_rounds (rounds with_diff errors exhausted : Z) : ReplicationStats :=
  {| items_pushed := 0; items_synced := 0; items_rejected := 0; items_duplicate := 0; sync_rounds := rounds;
     sync_rounds_with_diff := with_diff; sync_errors := errors; push_retries_exhausted := exhausted;
     write_buffer_depth := 0; pending_push_count := 0 |}.

(** A notification of the API about a local write. *)
Record WriteNotification := {
  wn_item_id : string;
  wn_item_type : string;
  wn_group_id : option string;
  wn_data : bytes;
  wn_key_version : Z;
  wn_parent_id : option string;
  wn_is_copy : bool;
}.

Section task.
Context `{CR : Crypto} `{HI : HashIter}.
(** [serde_json::from_str::<GroupCulture>] *)
Context (parse_culture : string -> option GroupCulture).
Context (env : SqlEnv) (eng : ReplicationEngine).

Definition load_group_culture (gid : string) (d : Db) : option GroupCulture :=
  match (read_group env gid d).2 with
  | Ok (Some g) =>
      match parse_culture (gr_culture g) with
      | Some c => Some c
      | None => Some {| broadcast_eagerness := gr_culture g; ttl_default := None; notification_policy := None;
                        departure_policy := None |}
      end
  | _ => None
  end.

(** ** Local writes and pushes *)

Definition on_write_notification (rfc3339_now : string) (n : WriteNotification) (s : Repl) : Repl :=
  match wn_group_id n with
  | None => s
  | Some gid =>
      let culture := default default_culture (load_group_culture gid (rt_db s)) in
      match on_local_write eng rfc3339_now gid culture (wn_item_id n) (wn_item_type n) (wn_data n)
              (wn_key_version n) (wn_parent_id n) (wn_is_copy n) with
      | BroadcastItem gid item =>
          rt_set_buffer (<[gid := default [] (write_buffer s !! gid) ++ [item]]> (write_buffer s)) s
      | NoAction => s
      end
  end.

(** Sends every batch to every peer; [open]: the command channel is open. *)
Definition send_batches (open : bool) (peers : list PeerHandle) (batches : list (list FetchedItem)) (s : Repl) :
    Repl * list SwarmCommand :=
  foldl (fun '(s, out) batch =>
      foldl (fun '(s, out) peer =>
          if open
          then (rt_set_pool (pool_record_items_delivered (ph_node_id peer) (Z.of_nat (length batch)) (rt_pool s)) s,
                out ++ [CmdPush (ph_node_id peer) {| mpr_items := batch |}])
          else (s, out)) (s, out) peers) (s, []) batches.

Definition retry_delay (attempt : nat) : option Duration :=
  from_secs <$> push_retry_backoffs CURRENT_ERA !! attempt.

Definition first_retry (now : Instant) (gid : string) (items : list FetchedItem) : PendingPush :=
  {| pp_items := items; pp_group_id := gid; pp_attempt := 0; pp_next_at := now + default 0 (retry_delay 0) |}.

(** The flush of one group's buffer. *)
Definition flush_group (now : Instant) (open : bool) (gid : string) (items : list FetchedItem) (s : Repl) :
    Repl * list SwarmCommand :=
  if bool_decide (items = []) then (s, [])
  else
    let peers := active_peers_for_group_or_relays gid (rt_pool s) in
    let enqueue s := rt_set_pending (pending_pushes s ++ [first_retry now gid items]) s in
    if bool_decide (length peers = 0%nat) then (enqueue s, [])
    else
      let '(s, out) := send_batches open peers (split_into_batches items) s in
      (enqueue (add_stats (stat_pushed (Z.of_nat (length items))) s), out).

Definition on_flush (now : Instant) (open : bool) (s : Repl) : Repl * list SwarmCommand :=
  foldl (fun '(s, out) gi => let '(s, o) := flush_group now open gi.1 gi.2 s in (s, out ++ o))
    (rt_set_buffer ∅ s, []) (hash_iter (write_buffer s)).

(** One due entry of the retry queue: its next state, [None] when exhausted.
    [push_retry_backoffs[attempt]] panics out of range; [retries_bounded]
    shows that the index stays in range. *)
Definition retry_one (now : Instant) (open : bool) (p : PendingPush) (s : Repl) :
    Repl * list SwarmCommand * option PendingPush :=
  let peers := active_peers_for_group_or_relays (pp_group_id p) (rt_pool s) in
  let '(s, out) :=
    if bool_decide (length peers = 0%nat) then (s, [])
    else send_batches open peers (split_into_batches (pp_items p)) s in
  let attempt := S (pp_attempt p) in
  if push_retry_count CURRENT_ERA <=? Z.of_nat attempt
  then (add_stats (stat_rounds 0 0 0 1) s, out, None)
  else (s, out, Some {| pp_items := pp_items p; pp_group_id := pp_group_id p; pp_attempt := attempt;
                        pp_next_at := now + default 0 (retry_delay attempt) |}).

Definition retry_step (now : Instant) (open : bool) (st : Repl * list SwarmCommand * list PendingPush) (p : PendingPush) :
    Repl * list SwarmCommand * list PendingPush :=
  let '(s, out, keep) := st in
  if now <? pp_next_at p then (s, out, keep ++ [p])
  else
    let '(s, o, next) := retry_one now open p s in
    (s, out ++ o, keep ++ match next with Some p' => [p'] | None => [] end).

Definition on_retry (now : Instant) (open : bool) (s : Repl) : Repl * list SwarmCommand :=
  let '(s', out, keep) := foldl (retry_step now open) (s, [], []) (pending_pushes s) in
  (rt_set_pending keep s', out).

(** ** Anti-entropy *)

Record RoundStats := { r_stored : Z; r_rejected : Z; r_duplicate : Z }.

Definition receive_step (our_groups : list GroupId) (relay : option (GroupId -> bool)) (st : Db * RoundStats)
    (item : FetchedItem) : Db * RoundStats :=
  let '(d, r) := st in
  match @on_receive _ Db (sqlite_store env) item our_groups relay d with
  | (d, Stored) => (d, {| r_stored := r_stored r + 1; r_rejected := r_rejected r; r_duplicate := r_duplicate r |})
  | (d, Duplicate) => (d, {| r_stored := r_stored r; r_rejected := r_rejected r; r_duplicate := r_duplicate r + 1 |})
  | (d, Rejected _) => (d, {| r_stored := r_stored r; r_rejected := r_rejected r + 1; r_duplicate := r_duplicate r |})
  end.

(** What becomes of a request to the peer: the command channel is closed, the
    response channel is dropped, the swarm reports a failure, or an answer. *)
Inductive Answer (A : Type) :=
  | SendFailed
  | ResponseClosed
  | RequestFailed (e : string)
  | Answered (a : A).

(** Why a round fails. *)
Inductive SyncError :=
  | SyncSendFailed
  | SyncResponseClosed
  | SyncRequestFailed (e : string)
  | SyncStorageError (e : StorageError)
  | FetchSendFailed
  | FetchResponseClosed
  | FetchRequestFailed (e : string).

(** How [run_anti_entropy] ends: it returns, or it panics, which ends the task. *)
Inductive Ended :=
  | Returned (r : result (option string) SyncError)
  | Panicked.

(** The peer's answers in this round. *)
Record PeerAnswers := {
  ask_sync : SyncRequest -> Answer SyncResponse;
  ask_fetch : FetchRequest -> Answer FetchResponse;
}.

(** Fetching the needed items chunk by chunk; the items received before a failing
    chunk stay. *)
Fixpoint fetch_chunks (peer : PeerAnswers) (our_groups : list GroupId) (relay : option (GroupId -> bool))
    (cs : list (list string)) (st : Db * RoundStats) : Db * result RoundStats SyncError :=
  match cs with
  | [] => (st.1, Ok st.2)
  | c :: cs =>
      match ask_fetch peer {| fr_item_ids := c |} with
      | SendFailed _ => (st.1, Err FetchSendFailed)
      | ResponseClosed _ => (st.1, Err FetchResponseClosed)
      | RequestFailed _ e => (st.1, Err (FetchRequestFailed e))
      | Answered _ resp => fetch_chunks peer our_groups relay cs (foldl (receive_step our_groups relay) st (frs_items resp))
      end
  end.

(** [Iterator::max] over the timestamps of the headers. *)
Definition latest_ts (hs : list ItemHeader) : option string :=
  foldl (fun acc h => match acc with
                      | Some t => Some (if str_le t (ih_updated_at h) then ih_updated_at h else t)
                      | None => Some (ih_updated_at h)
                      end) None hs.

(** The exchange with the chosen peer; the batch size comes unchecked from the
    configuration, and with size zero the cutting of the needed items panics. *)
Definition sync_with (peer : PeerAnswers) (gid : string) (our_groups : list GroupId) (since : option string)
    (relay_accept_set : option (gset string)) (s : Repl) : Repl * Ended :=
  let limit := engine_max_batch_size eng in
  match ask_sync peer {| sr_group_id := gid; sr_since := since; sr_limit := limit |} with
  | SendFailed _ => (s, Returned (Err SyncSendFailed))
  | ResponseClosed _ => (s, Returned (Err SyncResponseClosed))
  | RequestFailed _ e => (s, Returned (Err (SyncRequestFailed e)))
  | Answered _ remote =>
      let latest := latest_ts (srs_items remote) in
      match (list_group_items env gid since limit (rt_db s)).2 with
      | Err e => (s, Returned (Err (SyncStorageError e)))
      | Ok local =>
          let needed := diff_headers local (srs_items remote) in
          if bool_decide (needed = []) then (s, Returned (Ok latest))
          else
            let s := add_stats (stat_rounds 0 1 0 0) s in
            match chunks (Z.to_nat limit) needed with
            | Panic => (s, Panicked)
            | Finished cs =>
                let relay := (fun set => fun gid => bool_decide (gid ∈ (set : gset string))) <$> relay_accept_set in
                match fetch_chunks peer our_groups relay cs (rt_db s, {| r_stored := 0; r_rejected := 0; r_duplicate := 0 |}) with
                | (d, Err e) => (rt_set_db d s, Returned (Err e))
                | (d, Ok r) =>
                    (add_stats (stat_items (r_stored r) (r_rejected r) (r_duplicate r)) (rt_set_db d s), Returned (Ok latest))
                end
            end
      end
  end.

(** The partner of a round: [idx] is the random index. *)
Definition choose_partner (is_relay : bool) (idx : nat) (gid : string) (pool : gmap NodeId PeerHandle) : option PeerHandle :=
  if is_relay then random_hot_peer_for_group_or_relays idx gid pool else random_hot_peer_for_group idx gid pool.

(** [run_anti_entropy]: [answers] is how each peer answers. *)
Definition run_anti_entropy (answers : NodeId -> PeerAnswers) (idx : nat) (gid : string) (our_groups : list GroupId)
    (since : option string) (is_relay : bool) (relay_accept_set : option (gset string)) (s : Repl) : Repl * Ended :=
  match choose_partner is_relay idx gid (rt_pool s) with
  | None => (s, Returned (Ok None))
  | Some peer => sync_with (answers (ph_node_id peer)) gid our_groups since relay_accept_set s
  end.

(** Appends the elements that are not there yet. *)
Definition extend_groups (groups more : list GroupId) : list GroupId :=
  foldl (fun acc g => if contains acc g then acc else acc ++ [g]) groups more.

(** The groups of a base tick. *)
Definition groups_to_sync (shared : list GroupId) (is_relay : bool) (learned : option (gset string))
    (blocked : gset string) (d : Db) : list GroupId :=
  let groups :=
    if is_relay then
      let groups := match learned with Some set => extend_groups shared (hash_set_iter set) | None => shared end in
      match (list_stored_group_ids env d).2 with
      | Ok stored => extend_groups groups stored
      | Err _ => groups
      end
    else shared in
  filterb (fun g => negb (bool_decide (g ∈ blocked))) groups.

(** What the loop does with the result of a round. *)
Definition record_round (gid : string) (r : result (option string) SyncError) (s : Repl) : Repl :=
  match r with
  | Ok latest =>
      let s := add_stats (stat_rounds 1 0 0 0) s in
      match latest with
      | Some ts => rt_set_schedule (next_sync_at s) (<[gid := ts]> (last_sync_at s)) (sync_cycle_count s) s
      | None => s
      end
  | Err _ => add_stats (stat_rounds 0 0 1 0) s
  end.

Definition accept_set (is_relay : bool) (groups : list GroupId) : option (gset string) :=
  if is_relay then Some (list_to_set groups) else None.

(** [deadline.is_some_and(|d| now < d)] *)
Definition not_yet_due (now : Instant) (s : Repl) (gid : string) : bool :=
  match next_sync_at s !! gid with Some d => now <? d | None => false end.

(** The bookkeeping before a round: the next deadline, the cycle, and since when to ask. *)
Definition schedule_group (now : Instant) (gid : string) (s : Repl) : Repl * option string :=
  let culture := default default_culture (load_group_culture gid (rt_db s)) in
  let next := <[gid := now + from_secs (sync_interval eng culture)]> (next_sync_at s) in
  let cycle := wrap_u32 (default 0 (sync_cycle_count s !! gid) + 1) in
  (rt_set_schedule next (last_sync_at s) (<[gid := cycle]> (sync_cycle_count s)) s,
   if cycle mod FULL_SYNC_EVERY =? 0 then None else last_sync_at s !! gid).

(** What the loop does with the end of a round; a panic ends the task. *)
Definition record_end (gid : string) (e : Ended) (s : Repl) : Repl * bool :=
  match e with
  | Returned r => (record_round gid r s, true)
  | Panicked => (s, false)
  end.

(** One group of a base tick; the flag says that the task is alive, [draw] gives the
    random index of each group's round. *)
Definition sync_group (answers : NodeId -> PeerAnswers) (draw : string -> nat) (now : Instant) (is_relay : bool)
    (current_groups : list GroupId) (st : Repl * bool) (gid : string) : Repl * bool :=
  let '(s, alive) := st in
  if negb alive then (s, alive)
  else if not_yet_due now s gid then (s, true)
  else
    let '(s, since) := schedule_group now gid s in
    let '(s, e) := run_anti_entropy answers (draw gid) gid current_groups since is_relay (accept_set is_relay current_groups) s in
    record_end gid e s.

Definition on_sync_tick (answers : NodeId -> PeerAnswers) (draw : string -> nat) (now : Instant) (is_relay : bool)
    (shared : list GroupId) (learned : option (gset string)) (blocked : gset string) (s : Repl) : Repl * bool :=
  let current_groups := groups_to_sync shared is_relay learned blocked (rt_db s) in
  foldl (sync_group answers draw now is_relay current_groups) (s, true) current_groups.

(** A bootstrap forgets what is known of the group's rounds. *)
Definition forget_group (gid : string) (s : Repl) : Repl :=
  rt_set_schedule (delete gid (next_sync_at s)) (delete gid (last_sync_at s)) (delete gid (sync_cycle_count s)) s.

Definition on_bootstrap (answers : NodeId -> PeerAnswers) (idx : nat) (is_relay : bool) (shared : list GroupId)
    (gid : string) (s : Repl) : Repl * bool :=
  let '(s, e) := run_anti_entropy answers idx gid shared None is_relay (accept_set is_relay shared) (forget_group gid s) in
  record_end gid e s.

(** Daily garbage collection of deleted groups. *)
Definition on_gc (s : Repl) : Repl :=
  rt_set_db (purge_deleted_groups env GROUP_TOMBSTONE_CULTURE (engine_tombstone_retention_days eng) (rt_db s)).1 s.

End task.
