(* ===== verification/SyncRound.v ===== *)
(** * Anti-entropy rounds with their await points

    [run_anti_entropy] (replication_task.rs) gives up the thread twice per
    exchange: after it sent the header request and after each fetch request; the
    other tasks run while it waits for the answer.  A [Round] is what the task
    remembers across such a point; a round is begun by a base tick or a
    bootstrap and goes on when an answer arrives.  A panic of the task leaves a
    round that is [Gone]: nothing goes on after it.  Run without interruption the
    pieces are the functions of [ReplicationTask.v] ([sync_tick_in_pieces],
    [bootstrap_in_pieces]). *)

From S2P Require Import Prelude Float64 Protocol Governor Storage StorageProps ItemStore Replication PeerPool Config.
From S2P Require Import SwarmTask ReplicationTask.

(** ** State *)

(** What the round waits for: the headers of the partner, or the items of a chunk,
    with the newest timestamp of the headers, the chunks to come and the counts
    so far; or nothing any more, because the task has panicked in it. *)
Inductive Waiting :=
| ForHeaders
| ForItems (latest : option string) (more : list (list string)) (counts : RoundStats)
| Gone.

Record Round := {
  rd_chan : Chan;
  rd_peer : NodeId;
  rd_group : string;
  rd_groups : list GroupId;
  rd_since : option string;
  rd_accept : option (gset string);
  rd_waiting : Waiting;
  (** of the tick that the round belongs to: its time, the role, the groups after this one *)
  rd_now : Instant;
  rd_is_relay : bool;
  rd_rest : list GroupId;
}.

Definition rd_wait (tx : Chan) (w : Waiting) (r : Round) : Round := {|
  rd_chan := tx; rd_peer := rd_peer r; rd_group := rd_group r; rd_groups := rd_groups r; rd_since := rd_since r;
  rd_accept := rd_accept r; rd_waiting := w; rd_now := rd_now r; rd_is_relay := rd_is_relay r; rd_rest := rd_rest r;
|}.

(** The task at its next await point: its state, the round it waits in (none: back
    in the [select!]) and the commands it sent. *)
Record Progress := { pg_repl : Repl; pg_round : option Round; pg_cmds : list SwarmCommand }.

(** ** Pieces *)

Section pieces.
Context `{CR : Crypto} `{HI : HashIter}.
Context (parse_culture : string -> option GroupCulture) (env : SqlEnv) (eng : ReplicationEngine).
(** the response channel of the next request, and the random indices *)
Context (tx : Chan) (draw : string -> nat).

Definition header_request (gid : string) (since : option string) : SyncRequest :=
  {| sr_group_id := gid; sr_since := since; sr_limit := engine_max_batch_size eng |}.

Definition new_round (peer : NodeId) (gid : string) (groups : list GroupId) (since : option string) (now : Instant)
    (is_relay : bool) (rest : list GroupId) : Round := {|
  rd_chan := tx; rd_peer := peer; rd_group := gid; rd_groups := groups; rd_since := since;
  rd_accept := accept_set is_relay groups; rd_waiting := ForHeaders; rd_now := now; rd_is_relay := is_relay; rd_rest := rest;
|}.

(** The loop over the groups of a tick, up to the first request. *)
Fixpoint next_group (now : Instant) (is_relay : bool) (groups todo : list GroupId) (s : Repl) : Progress :=
  match todo with
  | [] => {| pg_repl := s; pg_round := None; pg_cmds := [] |}
  | gid :: rest =>
      if not_yet_due now s gid then next_group now is_relay groups rest s
      else
        let '(s, since) := schedule_group parse_culture env eng now gid s in
        match choose_partner is_relay (draw gid) gid (rt_pool s) with
        | None => next_group now is_relay groups rest (record_round gid (Ok None) s)
        | Some h =>
            {| pg_repl := s; pg_round := Some (new_round (ph_node_id h) gid groups since now is_relay rest);
               pg_cmds := [CmdSync (ph_node_id h) (header_request gid since) tx] |}
        end
  end.

Definition start_tick (now : Instant) (is_relay : bool) (shared : list GroupId) (learned : option (gset string))
    (blocked : gset string) (s : Repl) : Progress :=
  let groups := groups_to_sync env shared is_relay learned blocked (rt_db s) in
  next_group now is_relay groups groups s.

(** A bootstrap is not followed by other groups; the time is not used. *)
Definition start_bootstrap (is_relay : bool) (shared : list GroupId) (gid : string) (s : Repl) : Progress :=
  let s := forget_group gid s in
  match choose_partner is_relay (draw gid) gid (rt_pool s) with
  | None => {| pg_repl := record_round gid (Ok None) s; pg_round := None; pg_cmds := [] |}
  | Some h =>
      {| pg_repl := s; pg_round := Some (new_round (ph_node_id h) gid shared None 0 is_relay []);
         pg_cmds := [CmdSync (ph_node_id h) (header_request gid None) tx] |}
  end.

(** The end of a round and on to the next group. *)
Definition finish (r : Round) (res : result (option string) SyncError) (s : Repl) : Progress :=
  next_group (rd_now r) (rd_is_relay r) (rd_groups r) (rd_rest r) (record_round (rd_group r) res s).

(** The head of the loop over the chunks. *)
Definition ask_next (r : Round) (latest : option string) (todo : list (list string)) (c : RoundStats) (s : Repl) : Progress :=
  match todo with
  | [] => finish r (Ok latest) (add_stats (stat_items (r_stored c) (r_rejected c) (r_duplicate c)) s)
  | ids :: more =>
      {| pg_repl := s; pg_round := Some (rd_wait tx (ForItems latest more c) r);
         pg_cmds := [CmdFetch (rd_peer r) {| fr_item_ids := ids |} tx] |}
  end.

Definition no_counts : RoundStats := {| r_stored := 0; r_rejected := 0; r_duplicate := 0 |}.

(** The answer to the header request. *)
Definition on_headers (r : Round) (a : Answer SyncResponse) (s : Repl) : Progress :=
  match a with
  | SendFailed _ => finish r (Err SyncSendFailed) s
  | ResponseClosed _ => finish r (Err SyncResponseClosed) s
  | RequestFailed _ e => finish r (Err (SyncRequestFailed e)) s
  | Answered _ remote =>
      let latest := latest_ts (srs_items remote) in
      match (list_group_items env (rd_group r) (rd_since r) (engine_max_batch_size eng) (rt_db s)).2 with
      | Err e => finish r (Err (SyncStorageError e)) s
      | Ok local =>
          let needed := diff_headers local (srs_items remote) in
          if bool_decide (needed = []) then finish r (Ok latest) s
          else
            let s := add_stats (stat_rounds 0 1 0 0) s in
            match chunks (Z.to_nat (engine_max_batch_size eng)) needed with
            | Panic => {| pg_repl := s; pg_round := Some (rd_wait tx Gone r); pg_cmds := [] |}
            | Finished cs => ask_next r latest cs no_counts s
            end
      end
  end.

Definition accept_test (r : Round) : option (GroupId -> bool) :=
  (fun set => fun gid => bool_decide (gid ∈ (set : gset string))) <$> rd_accept r.

(** The answer to a fetch request. *)
Definition on_items (r : Round) (latest : option string) (more : list (list string)) (c : RoundStats)
    (a : Answer FetchResponse) (s : Repl) : Progress :=
  match a with
  | SendFailed _ => finish r (Err FetchSendFailed) s
  | ResponseClosed _ => finish r (Err FetchResponseClosed) s
  | RequestFailed _ e => finish r (Err (FetchRequestFailed e)) s
  | Answered _ resp =>
      let '(d, c) := foldl (receive_step env (rd_groups r) (accept_test r)) (rt_db s, c) (frs_items resp) in
      ask_next r latest more c (rt_set_db d s)
  end.

End pieces.

(** ** Run without interruption *)

Section uninterrupted.
Context `{CR : Crypto} `{HI : HashIter}.
Context (parse_culture : string -> option GroupCulture) (env : SqlEnv) (eng : ReplicationEngine).
Context (tx : Chan) (draw : string -> nat) (answers : NodeId -> PeerAnswers).

(** Every request is answered at once, until the task is back in its loop ([true]) or has
    panicked; [fuel] bounds the requests. *)
Fixpoint drive (fuel : nat) (p : Progress) : option (Repl * bool) :=
  match pg_round p with
  | None => Some (pg_repl p, true)
  | Some r =>
      match rd_waiting r, fuel with
      | Gone, _ => Some (pg_repl p, false)
      | _, O => None
      | w, S fuel =>
          drive fuel
            match w, pg_cmds p with
            | ForHeaders, CmdSync peer req _ :: _ =>
                on_headers parse_culture env eng tx draw r (ask_sync (answers peer) req) (pg_repl p)
            | ForItems latest more c, CmdFetch peer req _ :: _ =>
                on_items parse_culture env eng tx draw r latest more c (ask_fetch (answers peer) req) (pg_repl p)
            | _, _ => p
            end
      end
  end.

Abbreviation next_group' := (next_group parse_culture env eng tx draw) (only parsing).
Abbreviation ask_next' := (ask_next parse_culture env eng tx draw) (only parsing).
Abbreviation finish' := (finish parse_culture env eng tx draw) (only parsing).
Abbreviation runs_to p s := (exists fuel, drive fuel p = Some s) (only parsing).

(** The chunks: what [fetch_chunks] returns is recorded and the tick goes on. *)
Lemma chunks_in_pieces r latest cs c s s' :
  runs_to (match fetch_chunks env (answers (rd_peer r)) (rd_groups r) (accept_test r) cs (rt_db s, c) with
           | (d, Err e) => finish' r (Err e) (rt_set_db d s)
           | (d, Ok c) => finish' r (Ok latest) (add_stats (stat_items (r_stored c) (r_rejected c) (r_duplicate c)) (rt_set_db d s))
           end) s' ->
  runs_to (ask_next' r latest cs c s) s'.
Proof.
  revert c s r. induction cs as [|ids cs IH]; intros c s r.
  { cbn [fetch_chunks fst snd ask_next]. by destruct s. }
  cbn [fetch_chunks ask_next]. intros Hrun.
  enough (runs_to (on_items parse_culture env eng tx draw (rd_wait tx (ForItems latest cs c) r) latest cs c
    (ask_fetch (answers (rd_peer r)) {| fr_item_ids := ids |}) s) s') as [k Hk] by (by exists (S k)).
  destruct (ask_fetch _ _) as [| |e|resp]; cbn [on_items]; [by destruct s..|].
  cbn [fst snd] in Hrun. change (rd_groups (rd_wait _ _ r)) with (rd_groups r). change (accept_test (rd_wait _ _ r)) with (accept_test r).
  destruct (foldl (receive_step env (rd_groups r) (accept_test r)) (rt_db s, c) (frs_items resp)) as [d c'].
  by apply IH.
Qed.

(** What the end of a round leads to: the rest of the tick, or the end of the task. *)
Definition goes_on (r : Round) (s : Repl) (e : Ended) (out : Repl * bool) : Prop :=
  match e with
  | Returned res => runs_to (finish' r res s) out
  | Panicked => out = (s, false)
  end.

(** One round and the rest of the tick. *)
Lemma round_in_pieces r s out :
  rd_waiting r = ForHeaders ->
  (let '(s1, e) := sync_with env eng (answers (rd_peer r)) (rd_group r) (rd_groups r) (rd_since r) (rd_accept r) s in
   goes_on r s1 e out) ->
  runs_to {| pg_repl := s; pg_round := Some r; pg_cmds := [CmdSync (rd_peer r) (header_request eng (rd_group r) (rd_since r)) tx] |} out.
Proof.
  intros Hw Hrun.
  enough (runs_to (on_headers parse_culture env eng tx draw r (ask_sync (answers (rd_peer r)) (header_request eng (rd_group r) (rd_since r))) s) out)
    as [k Hk] by (exists (S k); cbn [drive pg_round]; by rewrite Hw).
  unfold sync_with in Hrun. fold (header_request eng (rd_group r) (rd_since r)) in Hrun.
  destruct (ask_sync _ _) as [| |e|remote]; cbn [on_headers]; [done..|].
  destruct (list_group_items env _ _ _ _).2 as [local|e]; [|done]. case_bool_decide; [done|].
  destruct (chunks _ _) as [cs|]; [|exists 0%nat; cbn in *; by rewrite Hrun].
  apply chunks_in_pieces. fold (accept_test r) in Hrun. fold no_counts in Hrun.
  destruct (fetch_chunks _ _ _ _ _ _) as [d [c|e]]; exact Hrun.
Qed.

Lemma dead_groups now is_relay groups todo s :
  foldl (sync_group parse_culture env eng answers draw now is_relay groups) (s, false) todo = (s, false).
Proof. by induction todo. Qed.

Lemma groups_in_pieces now is_relay groups todo s :
  runs_to (next_group' now is_relay groups todo s) (foldl (sync_group parse_culture env eng answers draw now is_relay groups) (s, true) todo).
Proof.
  revert s. induction todo as [|gid rest IH]; intros s; [by exists 0%nat|]. cbn [next_group foldl].
  match goal with |- context [foldl _ (?f _ _) rest] => unfold sync_group at 2; cbn [negb] end.
  destruct (not_yet_due now s gid); [apply IH|]. destruct (schedule_group _ _ _ now gid s) as [s1 since].
  unfold run_anti_entropy. destruct (choose_partner is_relay (draw gid) gid (rt_pool s1)) as [h|]; [|apply IH].
  eapply (round_in_pieces (new_round tx (ph_node_id h) gid groups since now is_relay rest)); [done|].
  cbn [new_round rd_peer rd_group rd_groups rd_since rd_accept]. destruct (sync_with _ _ _ _ _ _ _ _) as [s2 [res|]]; [apply IH|].
  cbn [record_end goes_on]. apply dead_groups.
Qed.

End uninterrupted.

(** A base tick that is cut at its await points, with every request answered at once,
    does what [on_sync_tick] does: it comes to an end after finitely many
    requests, whatever the answers, in the same state. *)
Lemma sync_tick_in_pieces `{Crypto} `{HashIter} parse_culture env eng tx draw answers now is_relay shared learned blocked s :
  exists fuel,
    drive parse_culture env eng tx draw answers fuel (start_tick parse_culture env eng tx draw now is_relay shared learned blocked s)
    = Some (on_sync_tick parse_culture env eng answers draw now is_relay shared learned blocked s).
Proof. unfold start_tick, on_sync_tick. apply groups_in_pieces. Qed.

(** The same for a bootstrap. *)
Lemma bootstrap_in_pieces `{Crypto} `{HashIter} parse_culture env eng tx draw answers is_relay shared gid s :
  exists fuel,
    drive parse_culture env eng tx draw answers fuel (start_bootstrap eng tx draw is_relay shared gid s)
    = Some (on_bootstrap env eng answers (draw gid) is_relay shared gid s).
Proof.
  unfold start_bootstrap, on_bootstrap, run_anti_entropy.
  destruct (choose_partner is_relay (draw gid) gid _) as [h|]; [|by exists 0%nat].
  eapply (round_in_pieces parse_culture env eng tx draw answers (new_round tx (ph_node_id h) gid shared None 0 is_relay [])); [done|].
  cbn [new_round rd_peer rd_group rd_groups rd_since rd_accept]. destruct (sync_with _ _ _ _ _ _ _ _) as [s2 [res|]]; [by exists 0%nat|done].
Qed.
