(* ===== verification/ReplicationTaskProps.v ===== *)
(** * Properties of the replication task

    Batches carry every item once and fit the message limit; buffered writes
    reach every peer that should get them and are queued for a bounded number of
    retries; an anti-entropy round with an honest peer brings in everything the
    peer lists. *)

From S2P Require Import Prelude Float64 Protocol Governor Storage StorageProps ItemStore Replication ReplicationProps.
From S2P Require Import PeerPool Config SwarmTask SwarmProps ReplicationTask.

(** ** Batches *)

Definition total_size (l : list FetchedItem) : Z := foldr (fun x n => item_size x + n) 0 l.

Lemma total_size_snoc l x : total_size (l ++ [x]) = total_size l + item_size x.
Proof. unfold total_size. induction l as [|y l IH]; simpl; [lia|]. rewrite IH. lia. Qed.

(** A batch that may be sent: not empty, and within the limit unless it is a
    single item. *)
Definition batch_ok (b : list FetchedItem) : Prop :=
  b <> [] /\ (length b = 1%nat \/ total_size b <= MAX_MESSAGE_BYTES).

Lemma batch_loop items :
  let '(batches, current, size) := foldl batch_step ([], [], 0) items in
  concat batches ++ current = items /\ Forall batch_ok batches /\ size = total_size current
  /\ (current = [] \/ batch_ok current).
Proof.
  induction items as [|x items IH] using rev_ind; [by simpl; auto|].
  rewrite foldl_app. destruct (foldl batch_step ([], [], 0) items) as [[bs cur] sz].
  destruct IH as (Hc & Hall & Hsz & Hcur). simpl. unfold batch_step.
  destruct (bool_decide (cur = [])) eqn:Hemp; simpl.
  - apply bool_decide_eq_true in Hemp as ->. simpl. split_and!; [by rewrite <- Hc, app_nil_r | done | |].
    + subst sz. simpl. lia.
    + right. split; [done | by left].
  - apply bool_decide_eq_false in Hemp. destruct Hcur as [|Hcur]; [done|].
    destruct (Z.ltb_spec MAX_MESSAGE_BYTES (sz + item_size x)) as [Hgt|Hle].
    + rewrite concat_app. simpl. rewrite app_nil_r, Hc. split_and!; [done| |lia|].
      * apply Forall_app. split; [done|]. by constructor.
      * right. split; [done | by left].
    + split_and!; [by rewrite app_assoc, Hc | done | by rewrite total_size_snoc, Hsz |].
      right. split; [by destruct cur|]. right. rewrite total_size_snoc. lia.
Qed.

(** Batching loses nothing: the batches, concatenated, are the items in order;
    none is empty; and a batch of more than one item stays within the maximum
    message size (by the size estimate of the code). *)
Lemma split_batches_spec items :
  concat (split_into_batches items) = items /\ Forall batch_ok (split_into_batches items).
Proof.
  unfold split_into_batches. pose proof (batch_loop items) as H.
  destruct (foldl batch_step ([], [], 0) items) as [[bs cur] sz]. destruct H as (Hc & Hall & _ & Hcur).
  case_bool_decide as He; [subst cur; by rewrite app_nil_r in Hc|].
  destruct Hcur as [|Hcur]; [done|]. rewrite concat_app. simpl. rewrite app_nil_r. split; [done|].
  apply Forall_app. split; [done|]. by constructor.
Qed.

(** ** Chunks *)

Lemma chunks_aux_concat fuel n l : (0 < n)%nat -> (length l <= fuel)%nat -> concat (chunks_aux fuel n l) = l.
Proof.
  intros Hn. revert l. induction fuel as [|fuel IH]; intros l Hl; [by destruct l; simpl in *; [|lia]|].
  destruct l as [|x l]; [done|]. cbn [chunks_aux concat]. rewrite IH; [apply take_drop|].
  rewrite length_drop. simpl in *. lia.
Qed.

Lemma chunks_concat n l : (0 < n)%nat -> exists cs, chunks n l = Finished cs /\ concat cs = l.
Proof. intros Hn. destruct n as [|n]; [lia|]. eexists. split; [done|]. by apply chunks_aux_concat. Qed.

(** ** Retries *)

Definition MAX_ATTEMPTS : nat := Z.to_nat (push_retry_count CURRENT_ERA).

(** What a retry tick makes of one queue entry. *)
Definition retried (now : Instant) (p : PendingPush) : option PendingPush :=
  if now <? pp_next_at p then Some p
  else if (MAX_ATTEMPTS <=? S (pp_attempt p))%nat then None
  else Some {| pp_items := pp_items p; pp_group_id := pp_group_id p; pp_attempt := S (pp_attempt p);
               pp_next_at := now + default 0 (retry_delay (S (pp_attempt p))) |}.

(** Attempts that the queue can still make. *)
Definition attempts_left (l : list PendingPush) : nat := foldr (fun p n => (MAX_ATTEMPTS - pp_attempt p) + n)%nat 0%nat l.

Definition due (now : Instant) (p : PendingPush) : bool := negb (now <? pp_next_at p).

Section retry.
Context `{HI : HashIter}.

Lemma retry_one_next now open p s :
  due now p = true -> (retry_one now open p s).2 = retried now p.
Proof.
  intros Hd. unfold retry_one, retried. unfold due in Hd. apply negb_true_iff in Hd. rewrite Hd.
  destruct (if bool_decide _ then (s, []) else _) as [s' out].
  assert ((push_retry_count CURRENT_ERA <=? Z.of_nat (S (pp_attempt p))) = (MAX_ATTEMPTS <=? S (pp_attempt p))%nat) as ->.
  { change MAX_ATTEMPTS with 4%nat. change (push_retry_count CURRENT_ERA) with 4.
    destruct (Z.leb_spec 4 (Z.of_nat (S (pp_attempt p)))), (Nat.leb_spec 4 (S (pp_attempt p))); lia. }
  by case_match.
Qed.

Lemma retry_loop now open l s out keep :
  (foldl (retry_step now open) (s, out, keep) l).2 = keep ++ omap (retried now) l.
Proof.
  revert s out keep. induction l as [|p l IH]; intros s out keep; cbn [foldl omap list_omap].
  { simpl. by rewrite app_nil_r. }
  unfold retry_step at 2. destruct (now <? pp_next_at p) eqn:Hn.
  - rewrite IH. unfold retried at 2. rewrite Hn. by rewrite <- app_assoc.
  - pose proof (retry_one_next now open p s) as Hone. unfold due in Hone. rewrite Hn in Hone. specialize (Hone eq_refl).
    destruct (retry_one now open p s) as [[s' o] next]. simpl in Hone. rewrite IH, Hone.
    destruct (retried now p); by rewrite <- app_assoc.
Qed.

Lemma on_retry_queue now open s :
  pending_pushes (on_retry now open s).1 = omap (retried now) (pending_pushes s).
Proof.
  unfold on_retry. pose proof (retry_loop now open (pending_pushes s) s [] []) as H.
  destruct (foldl _ (s, [], []) (pending_pushes s)) as [[s' out] keep]. simpl in *. done.
Qed.

Lemma retried_left now l :
  Forall (fun p => (pp_attempt p < MAX_ATTEMPTS)%nat) l ->
  (attempts_left (omap (retried now) l) + length (filterb (due now) l) = attempts_left l)%nat
  /\ Forall (fun p => (pp_attempt p < MAX_ATTEMPTS)%nat) (omap (retried now) l).
Proof.
  induction 1 as [|p l Hp Hl [IH1 IH2]]; [done|]. rewrite length_filterb_cons. cbn [omap list_omap].
  unfold due at 1. destruct (now <? pp_next_at p) eqn:Hn.
  - assert (retried now p = Some p) as -> by (unfold retried; by rewrite Hn).
    simpl. split; [lia | by constructor].
  - destruct (retried now p) as [p'|] eqn:Hr; unfold retried in Hr; rewrite Hn in Hr;
      destruct (Nat.leb_spec MAX_ATTEMPTS (S (pp_attempt p))) as [Hle|Hlt]; simplify_eq/=.
    + split; [change MAX_ATTEMPTS with 4%nat in *; lia | by constructor].
    + split; [change MAX_ATTEMPTS with 4%nat in *; lia | done].
Qed.

Lemma retry_delay_in_range n : (n < MAX_ATTEMPTS)%nat -> exists t, retry_delay n = Some t /\ 0 < t.
Proof.
  intros H. change MAX_ATTEMPTS with 4%nat in H. unfold retry_delay.
  do 4 (destruct n as [|n]; [by eexists|]). lia.
Qed.

End retry.

(** [C34] Retries are bounded: in a queue whose entries have made fewer than the
    maximal number of attempts, a retry tick uses up exactly one of the
    remaining attempts per due entry, leaves the entries that are not due as
    they are, re-queues a due entry with the configured backoff unless that was
    its last attempt, and never indexes the backoffs out of range. *)
Theorem retries_bounded `{HashIter} now open s :
  Forall (fun p => (pp_attempt p < MAX_ATTEMPTS)%nat) (pending_pushes s) ->
  let q := pending_pushes s in
  let q' := pending_pushes (on_retry now open s).1 in
  (attempts_left q' + length (filterb (due now) q) = attempts_left q)%nat
  /\ Forall (fun p => (pp_attempt p < MAX_ATTEMPTS)%nat /\ is_Some (retry_delay (pp_attempt p))) q'
  /\ (forall p, p ∈ q -> due now p = false -> p ∈ q')
  /\ (forall p, p ∈ q -> due now p = true -> (S (pp_attempt p) < MAX_ATTEMPTS)%nat ->
        exists t, retry_delay (S (pp_attempt p)) = Some t /\ 0 < t
          /\ {| pp_items := pp_items p; pp_group_id := pp_group_id p; pp_attempt := S (pp_attempt p);
                pp_next_at := now + t |} ∈ q').
Proof.
  intros Hq q q'. unfold q'. rewrite on_retry_queue. destruct (retried_left now q Hq) as [H1 H2]. split_and!.
  - done.
  - eapply Forall_impl; [exact H2|]. intros p Hp. split; [done|].
    destruct (retry_delay_in_range _ Hp) as (t & Ht & _). by exists t.
  - intros p Hp Hd. apply list_elem_of_omap. exists p. split; [done|]. unfold retried, due in *.
    apply negb_false_iff in Hd. by rewrite Hd.
  - intros p Hp Hd Hlt. unfold due in Hd. apply negb_true_iff in Hd.
    destruct (retry_delay_in_range _ Hlt) as (t & Ht & Hpos). exists t. split_and!; [done..|].
    apply list_elem_of_omap. exists p. split; [done|]. unfold retried. rewrite Hd, Ht.
    by destruct (Nat.leb_spec MAX_ATTEMPTS (S (pp_attempt p))); [lia|].
Qed.

(** ** Flushing the write buffer *)

Lemma elem_of_concat {A} (x : A) (ls : list (list A)) : x ∈ concat ls <-> exists l, x ∈ l /\ l ∈ ls.
Proof.
  rewrite list_elem_of_In, in_concat. setoid_rewrite list_elem_of_In. split; intros (l & ? & ?); eauto.
Qed.

Section flush.
Context `{HI : HashIter}.

(** A peer to which items of the group are pushed: connected, and sharing the
    group or a relay. *)
Definition push_target (gid : GroupId) (id : NodeId) (pool : gmap NodeId PeerHandle) : Prop :=
  exists k h, pool !! k = Some h /\ ph_node_id h = id
    /\ is_active_handle h = true /\ (ph_is_relay h = true \/ shares_group gid h = true).

Lemma push_target_iff gid id pool :
  push_target gid id pool <-> exists h, h ∈ active_peers_for_group_or_relays gid pool /\ ph_node_id h = id.
Proof.
  unfold push_target, active_peers_for_group_or_relays. split.
  - intros (k & h & Hk & Hid & Ha & Hor). exists h. split; [|done]. apply elem_of_filterb.
    split; [|apply elem_of_values; eauto]. rewrite Ha. apply orb_true_iff. exact Hor.
  - intros (h & [[Ha Hor%orb_true_iff]%andb_prop [k Hk]%elem_of_values]%elem_of_filterb & Hid). by exists k, h.
Qed.

Lemma push_target_delivered gid id pool j n :
  push_target gid id (pool_record_items_delivered j n pool) <-> push_target gid id pool.
Proof.
  unfold push_target, pool_record_items_delivered. split.
  - intros (k & h & Hk & Hrest). destruct (decide (j = k)) as [->|Hne].
    + rewrite lookup_alter_eq in Hk. destruct (pool !! k) as [h0|] eqn:E; [|done]. injection Hk as <-. by exists k, h0.
    + rewrite lookup_alter_ne in Hk by done. by exists k, h.
  - intros (k & h & Hk & Hrest). destruct (decide (j = k)) as [->|Hne].
    + eexists k, _. rewrite lookup_alter_eq, Hk. by split.
    + exists k, h. by rewrite lookup_alter_ne.
Qed.

(** Sending changes nothing but the delivery counters of the pool. *)
Definition same_queues (s s' : Repl) : Prop :=
  pending_pushes s' = pending_pushes s /\ write_buffer s' = write_buffer s
  /\ forall gid id, push_target gid id (rt_pool s') <-> push_target gid id (rt_pool s).

Definition push_commands (peers : list PeerHandle) (batches : list (list FetchedItem)) : list SwarmCommand :=
  batches ≫= (fun b => (fun p => CmdPush (ph_node_id p) {| mpr_items := b |}) <$> peers).

Lemma send_batch_spec batch peers s out :
  let r := foldl (fun '(s, out) peer =>
    (rt_set_pool (pool_record_items_delivered (ph_node_id peer) (Z.of_nat (length batch)) (rt_pool s)) s,
     out ++ [CmdPush (ph_node_id peer) {| mpr_items := batch |}])) (s, out) peers in
  same_queues s r.1 /\ r.2 = out ++ ((fun p => CmdPush (ph_node_id p) {| mpr_items := batch |}) <$> peers).
Proof.
  revert s out. induction peers as [|p peers IH]; intros s out; simpl.
  { rewrite app_nil_r. split; [|done]. by split_and!. }
  destruct (IH (rt_set_pool (pool_record_items_delivered (ph_node_id p) (Z.of_nat (length batch)) (rt_pool s)) s)
    (out ++ [CmdPush (ph_node_id p) {| mpr_items := batch |}])) as [(Hp & Hw & Ht) Ho].
  rewrite Ho, <- app_assoc. split; [|done]. split_and!; [done..|]. intros gid id. rewrite Ht. apply push_target_delivered.
Qed.

Lemma send_batches_spec peers batches s :
  let r := send_batches true peers batches s in
  same_queues s r.1 /\ r.2 = push_commands peers batches.
Proof.
  assert (forall out s, let r := foldl (fun '(s, out) batch => foldl (fun '(s, out) peer =>
      (rt_set_pool (pool_record_items_delivered (ph_node_id peer) (Z.of_nat (length batch)) (rt_pool s)) s,
       out ++ [CmdPush (ph_node_id peer) {| mpr_items := batch |}])) (s, out) peers) (s, out) batches in
    same_queues s r.1 /\ r.2 = out ++ push_commands peers batches) as H; [|exact (H [] s)].
  induction batches as [|b bs IH]; intros out s'; cbn [foldl].
  { simpl. rewrite app_nil_r. split; [|done]. by split_and!. }
  pose proof (send_batch_spec b peers s' out) as Hb. cbv zeta in Hb.
  destruct (foldl _ (s', out) peers) as [s1 o1]. cbn [fst snd] in Hb. destruct Hb as [(Hp & Hw & Ht) ->].
  destruct (IH (out ++ ((fun p => CmdPush (ph_node_id p) {| mpr_items := b |}) <$> peers)) s1) as [(Hp' & Hw' & Ht') ->]. cbn [push_commands mbind list_bind]. rewrite <- app_assoc.
  split; [|done]. split_and!; [exact (eq_trans Hp' Hp) | exact (eq_trans Hw' Hw) |].
  intros gid id. exact (iff_trans (Ht' gid id) (Ht gid id)).
Qed.

Lemma elem_of_push_commands cmd peers batches :
  cmd ∈ push_commands peers batches <->
  exists p b, p ∈ peers /\ b ∈ batches /\ cmd = CmdPush (ph_node_id p) {| mpr_items := b |}.
Proof.
  unfold push_commands. rewrite list_elem_of_bind. split.
  - intros (b & (p & -> & Hp)%list_elem_of_fmap & Hb). by exists p, b.
  - intros (p & b & Hp & Hb & ->). exists b. split; [|done]. apply list_elem_of_fmap. eauto.
Qed.

(** One group of a flush. *)
Definition flushed (gid : GroupId) (items : list FetchedItem) (s : Repl) (out : list SwarmCommand) : Prop :=
  (forall x id, x ∈ items -> push_target gid id (rt_pool s) ->
     exists b, CmdPush id {| mpr_items := b |} ∈ out /\ x ∈ b)
  /\ (forall cmd, cmd ∈ out -> exists id b, cmd = CmdPush id {| mpr_items := b |}
        /\ push_target gid id (rt_pool s) /\ forall x, x ∈ b -> x ∈ items).

Lemma flush_group_spec now gid items s :
  let r := flush_group now true gid items s in
  flushed gid items s r.2 /\ write_buffer r.1 = write_buffer s
  /\ (forall g id, push_target g id (rt_pool r.1) <-> push_target g id (rt_pool s))
  /\ pending_pushes r.1 = pending_pushes s ++ (if bool_decide (items = []) then [] else [first_retry now gid items]).
Proof.
  unfold flush_group, flushed. case_bool_decide as Hemp.
  { subst items. simpl. rewrite app_nil_r. split_and!; try done; [by intros x id ?%elem_of_nil | by intros c ?%elem_of_nil]. }
  destruct (split_batches_spec items) as [Hconcat _].
  case_bool_decide as Hp.
  { apply length_zero_iff_nil in Hp. simpl. split_and!; try done; [|by intros c ?%elem_of_nil].
    intros x id _ (h & Hh & _)%push_target_iff. rewrite Hp in Hh. by apply elem_of_nil in Hh. }
  pose proof (send_batches_spec (active_peers_for_group_or_relays gid (rt_pool s)) (split_into_batches items) s) as Hs.
  cbv zeta in Hs. destruct (send_batches _ _ _ s) as [s1 out]. cbn [fst snd] in Hs. destruct Hs as [(Hq & Hw & Ht) ->].
  cbn [fst snd]. split_and!; [| |done|done|by simpl; rewrite Hq].
  - intros x id Hx (h & Hh & <-)%push_target_iff. rewrite <- Hconcat in Hx.
    apply elem_of_concat in Hx as (b & Hxb & Hb). exists b. split; [|done]. apply elem_of_push_commands. eauto.
  - intros cmd (p & b & Hpp & Hb & ->)%elem_of_push_commands. exists (ph_node_id p), b. split; [done|]. split.
    + apply push_target_iff. eauto.
    + intros x Hx. rewrite <- Hconcat. apply elem_of_concat. eauto.
Qed.

Lemma flush_loop now l s out :
  let '(s', out') := foldl (fun '(s, out) gi => let '(s, o) := flush_group now true gi.1 gi.2 s in (s, out ++ o)) (s, out) l in
  write_buffer s' = write_buffer s
  /\ (forall g id, push_target g id (rt_pool s') <-> push_target g id (rt_pool s))
  /\ pending_pushes s' = pending_pushes s ++
       ((fun gi => first_retry now gi.1 gi.2) <$> filterb (fun gi => negb (bool_decide (gi.2 = []))) l)
  /\ (forall gid items x id, (gid, items) ∈ l -> x ∈ items -> push_target gid id (rt_pool s) ->
        exists b, CmdPush id {| mpr_items := b |} ∈ out' /\ x ∈ b)
  /\ (forall cmd, cmd ∈ out' -> cmd ∈ out \/ exists gid items, (gid, items) ∈ l /\ exists id b,
        cmd = CmdPush id {| mpr_items := b |} /\ push_target gid id (rt_pool s) /\ forall x, x ∈ b -> x ∈ items).
Proof.
  induction l as [|[gid items] l IH] using rev_ind.
  { simpl. rewrite app_nil_r. split_and!; try done; [by intros ? ? ? ? ?%elem_of_nil | by left]. }
  rewrite foldl_app. destruct (foldl _ (s, out) l) as [s1 o1]. destruct IH as (Hw & Ht & Hq & Hall & Hcmd). cbn [foldl].
  pose proof (flush_group_spec now gid items s1) as Hg. cbv zeta in Hg. cbn [fst snd].
  destruct (flush_group now true gid items s1) as [s2 o2]. cbn [fst snd] in Hg.
  destruct Hg as ([Hsend Honly] & Hw2 & Ht2 & Hq2). split_and!.
  - by rewrite Hw2.
  - intros g id. by rewrite Ht2.
  - rewrite Hq2, Hq, <- app_assoc. f_equal. rewrite filter_app, fmap_app. f_equal.
    case_bool_decide as He.
    + rewrite filter_cons_False by (simpl; by rewrite bool_decide_eq_true_2). done.
    + rewrite filter_cons_True by (simpl; by rewrite bool_decide_eq_false_2). done.
  - intros g its x id [Hin|[= -> ->]%list_elem_of_singleton]%elem_of_app Hx Htgt.
    + destruct (Hall g its x id Hin Hx Htgt) as (b & Hb & Hxb). exists b. split; [|done]. apply elem_of_app. by left.
    + destruct (Hsend x id Hx) as (b & Hb & Hxb); [by apply Ht|]. exists b. split; [|done]. apply elem_of_app. by right.
  - intros cmd [Hc|Hc]%elem_of_app.
    + destruct (Hcmd cmd Hc) as [|(g & its & Hin & Hrest)]; [by left|]. right. exists g, its. split; [|done].
      apply elem_of_app. by left.
    + destruct (Honly cmd Hc) as (id & b & -> & Htgt & Hb). right. exists gid, items. split.
      * apply elem_of_app. right. by left.
      * exists id, b. split_and!; try done. by apply Ht.
Qed.

End flush.

(** A flush pushes everything to everyone concerned and to nobody else: while
    the command channel is open, every buffered item goes in some batch to every
    connected peer that shares the item's group or is a relay, every command
    sends items of one group only to such peers, the buffer is emptied, and each
    group's items are queued once for their first retry. *)
Theorem flush_pushes_exactly `{HashIter} now s :
  let '(s', out) := on_flush now true s in
  write_buffer s' = ∅
  /\ pending_pushes s' = pending_pushes s ++
       ((fun gi => first_retry now gi.1 gi.2) <$> filterb (fun gi => negb (bool_decide (gi.2 = []))) (hash_iter (write_buffer s)))
  /\ (forall gid items x id, write_buffer s !! gid = Some items -> x ∈ items -> push_target gid id (rt_pool s) ->
        exists b, CmdPush id {| mpr_items := b |} ∈ out /\ x ∈ b)
  /\ (forall cmd, cmd ∈ out -> exists gid items id b, cmd = CmdPush id {| mpr_items := b |}
        /\ write_buffer s !! gid = Some items /\ push_target gid id (rt_pool s) /\ forall x, x ∈ b -> x ∈ items).
Proof.
  pose proof (flush_loop now (hash_iter (write_buffer s)) (rt_set_buffer ∅ s) []) as Hl.
  unfold on_flush. destruct (foldl _ _ _) as [s' out]. destruct Hl as (Hw & _ & Hq & Hall & Hcmd). split_and!.
  - done.
  - done.
  - intros gid items x id Hg. apply Hall. by apply elem_of_hash_iter.
  - intros cmd Hc. destruct (Hcmd cmd Hc) as [Hnil|(gid & items & Hin & id & b & -> & Ht & Hb)]; [by apply elem_of_nil in Hnil|].
    exists gid, items, id, b. split_and!; try done. by apply elem_of_hash_iter.
Qed.

(** ** Witness *)

Definition ex_repl (d : Db) : Repl := {|
  rt_db := d; rt_pool := ex_pool; pending_pushes := [first_retry 0 "g" ex_versions]; next_sync_at := ∅;
  last_sync_at := ∅; sync_cycle_count := ∅; write_buffer := {["g"%string := ex_versions]}; rt_stats := no_stats |}.

Lemma retries_bounded_witness :
  attempts_left (pending_pushes (@on_retry sorted_iter (from_secs 5) true (ex_repl empty_db)).1) = 3%nat
  /\ attempts_left (pending_pushes (ex_repl empty_db)) = 4%nat.
Proof.
  assert (Forall (fun p => (pp_attempt p < MAX_ATTEMPTS)%nat) (pending_pushes (ex_repl empty_db))) as Hq.
  { constructor; [vm_compute; lia | constructor]. }
  destruct (@retries_bounded sorted_iter (from_secs 5) true (ex_repl empty_db) Hq) as [H _].
  change (length (filterb (due (from_secs 5)) (pending_pushes (ex_repl empty_db)))) with 1%nat in H.
  change (attempts_left (pending_pushes (ex_repl empty_db))) with 4%nat in *. split; [lia | reflexivity].
Defined.
