(* ===== verification/Api.v ===== *)
(** * The HTTP API

    Models [crates/cordelia-api/src/lib.rs]: the shared state of the handlers,
    the bearer-token check, the request types with their defaults, and every
    handler of the router, from the extracted request to the response.  A
    handler is a function on the state that returns the HTTP response; the
    results of [let _ = ..] calls are dropped as in the code.

    Axum's extraction of the JSON body is third-party code: the requests are
    taken as extracted, and the defaults that [serde] fills in are the functions
    of the code ([*_request] builds a request from fields that may be absent).
    The callbacks into the peer pool are represented by what they return.  A
    handler runs on one [SqlEnv]: all its statements see the same clock. *)

From S2P Require Import Prelude Float64 Protocol Governor Storage StorageProps Search Json.
From S2P Require Import ItemStore Replication PeerPool Config SwarmTask ReplicationTask.
From stdpp Require Import pretty.
#[local] Open Scope Z_scope.

(** ** Channels *)

(** The sending half of [tokio::sync::broadcast]: what was sent while somebody listens. *)
Record Broadcast (A : Type) := { bc_receivers : nat; bc_sent : list A }.
Arguments bc_receivers {A} _.
Arguments bc_sent {A} _.

(** [let _ = tx.send(a)]: fails without receivers. *)
Definition bc_send {A} (a : A) (c : Broadcast A) : Broadcast A :=
  match bc_receivers c with
  | O => c
  | S _ => {| bc_receivers := bc_receivers c; bc_sent := bc_sent c ++ [a] |}
  end.

(** A bounded [tokio::sync::mpsc] channel. *)
Record Mpsc (A : Type) := { mp_capacity : nat; mp_closed : bool; mp_queue : list A }.
Arguments mp_capacity {A} _.
Arguments mp_closed {A} _.
Arguments mp_queue {A} _.

(** [let _ = tx.try_send(a)]: fails when the channel is full or closed. *)
Definition mp_try_send {A} (a : A) (c : Mpsc A) : Mpsc A :=
  if mp_closed c || (mp_capacity c <=? length (mp_queue c))%nat then c
  else {| mp_capacity := mp_capacity c; mp_closed := false; mp_queue := mp_queue c ++ [a] |}.

(** ** State *)

Record PeerDetail := {
  pd_node_id : string;
  pd_addrs : list string;
  pd_state : string;
  pd_rtt_ms : option f64;
  pd_items_delivered : Z;
  pd_groups : list string;
  pd_group_intersection : list string;
  pd_is_relay : bool;
  pd_protocol_version : Z;
}.

Record AppState := {
  storage : Db;
  node_id : string;
  entity_id : string;
  bearer_token : string;
  start_time : Instant;
  write_notify : option (Broadcast WriteNotification);
  shared_groups : option (list GroupId);
  peer_count_fn : option (Z * Z);
  peer_list_fn : option (list PeerDetail);
  replication_stats : option ReplicationStats;
  bootstrap_sync : option (Mpsc string);
}.

Definition set_storage (d : Db) (s : AppState) : AppState :=
  {| storage := d; node_id := node_id s; entity_id := entity_id s; bearer_token := bearer_token s;
     start_time := start_time s; write_notify := write_notify s; shared_groups := shared_groups s;
     peer_count_fn := peer_count_fn s; peer_list_fn := peer_list_fn s;
     replication_stats := replication_stats s; bootstrap_sync := bootstrap_sync s |}.

Definition set_write_notify (c : option (Broadcast WriteNotification)) (s : AppState) : AppState :=
  {| storage := storage s; node_id := node_id s; entity_id := entity_id s; bearer_token := bearer_token s;
     start_time := start_time s; write_notify := c; shared_groups := shared_groups s;
     peer_count_fn := peer_count_fn s; peer_list_fn := peer_list_fn s;
     replication_stats := replication_stats s; bootstrap_sync := bootstrap_sync s |}.

Definition set_shared_groups (g : option (list GroupId)) (s : AppState) : AppState :=
  {| storage := storage s; node_id := node_id s; entity_id := entity_id s; bearer_token := bearer_token s;
     start_time := start_time s; write_notify := write_notify s; shared_groups := g;
     peer_count_fn := peer_count_fn s; peer_list_fn := peer_list_fn s;
     replication_stats := replication_stats s; bootstrap_sync := bootstrap_sync s |}.

Definition set_bootstrap_sync (c : option (Mpsc string)) (s : AppState) : AppState :=
  {| storage := storage s; node_id := node_id s; entity_id := entity_id s; bearer_token := bearer_token s;
     start_time := start_time s; write_notify := write_notify s; shared_groups := shared_groups s;
     peer_count_fn := peer_count_fn s; peer_list_fn := peer_list_fn s;
     replication_stats := replication_stats s; bootstrap_sync := c |}.

(** ** Responses *)

Inductive Body := Text (s : string) | Json (v : Value).

Record HttpResponse := { status_code : Z; body : Body }.

Definition OK : Z := 200.
Definition BAD_REQUEST : Z := 400.
Definition UNAUTHORIZED : Z := 401.
Definition NOT_FOUND : Z := 404.
Definition PAYLOAD_TOO_LARGE : Z := 413.
Definition INTERNAL_SERVER_ERROR : Z := 500.

Definition ok_json (v : Value) : HttpResponse := {| status_code := OK; body := Json v |}.

Definition error_text (code : Z) (text : string) : HttpResponse := {| status_code := code; body := Text text |}.

(** [Json(serde_json::json!({ "ok": true }))] *)
Definition ok_true : HttpResponse := ok_json (Object [("ok"%string, Bool true)]).

Definition not_found (text : string) : HttpResponse := error_text NOT_FOUND text.

(** [(StatusCode::INTERNAL_SERVER_ERROR, e.to_string())] *)
Definition server_error `{WireFormats} (e : StorageError) : HttpResponse :=
  error_text INTERNAL_SERVER_ERROR (storage_error_text e).

(** ** The monad of handlers *)

Definition Api (A : Type) : Type := AppState -> AppState * A.

Definition respond (r : HttpResponse) : Api HttpResponse := fun s => (s, r).

Definition api_bind {A B} (m : Api A) (k : A -> Api B) : Api B := fun s => let '(s', a) := m s in k a s'.

Declare Scope api_scope.
Delimit Scope api_scope with api.
#[global] Open Scope api_scope.

Notation "'let*' x := m 'in' k" := (api_bind m (fun x => k))
  (at level 10, x pattern, m at level 200, k at level 200) : api_scope.

(** [state.storage.m(..)] *)
Definition call {A} (m : M A) : Api (result A StorageError) := fun s =>
  let '(d, r) := m (storage s) in (set_storage d s, r).

Definition modify (f : AppState -> AppState) : Api unit := fun s => (f s, tt).

Definition get {A} (f : AppState -> A) : Api A := fun s => (s, f s).

(** [.ok().flatten()] *)
Definition ok_flatten {A E} (r : result (option A) E) : option A :=
  match r with Ok o => o | Err _ => None end.

(** ** Authentication *)

(** A header map: [None] when the header is absent, [Some None] when its value is
    not visible ASCII ([to_str] fails). *)
Abbreviation Headers := (string -> option (option string)) (only parsing).

Definition check_auth (s : AppState) (headers : Headers) : result unit (Z * string) :=
  let auth := default EmptyString (mjoin (headers "authorization"%string)) in
  let expected := "Bearer " +:+ bearer_token s in
  if negb (String.eqb auth expected) then Err (UNAUTHORIZED, "invalid bearer token"%string) else Ok tt.

(** The first lines of every handler. *)
Definition authed (headers : Headers) (handler : Api HttpResponse) : Api HttpResponse := fun s =>
  match check_auth s headers with
  | Err (code, text) => (s, error_text code text)
  | Ok _ => handler s
  end.

(** ** Requests *)

Record L1ReadRequest := { l1r_user_id : string }.
Record L1WriteRequest := { l1w_user_id : string; l1w_data : Value }.
Record L1DeleteRequest := { l1d_user_id : string }.

Record L2ReadRequest := { l2r_item_id : string }.

Record L2WriteMeta := {
  wm_owner_id : option string;
  wm_visibility : option string;
  wm_group_id : option string;
  wm_author_id : option string;
  wm_key_version : option Z;
  wm_parent_id : option string;
  wm_is_copy : option bool;
}.

(** [L2WriteMeta::default()] *)
Definition no_meta : L2WriteMeta :=
  {| wm_owner_id := None; wm_visibility := None; wm_group_id := None; wm_author_id := None;
     wm_key_version := None; wm_parent_id := None; wm_is_copy := None |}.

Record L2WriteRequest := {
  l2w_item_id : string;
  l2w_item_type : string;
  l2w_data : Value;
  l2w_meta : option L2WriteMeta;
}.

Record L2DeleteRequest := { l2d_item_id : string }.

Record L2SearchRequest := { l2s_query : string; l2s_limit : Z; l2s_group_id : option string }.

Definition default_limit : Z := 20.

Definition l2_search_request (query : string) (limit : option Z) (group_id : option string) : L2SearchRequest :=
  {| l2s_query := query; l2s_limit := default default_limit limit; l2s_group_id := group_id |}.

Record GroupReadRequest := { grq_group_id : string }.

Record GroupItemsRequest := { gi_group_id : string; gi_since : option string; gi_limit : Z }.

Definition group_items_request (group_id : string) (since : option string) (limit : option Z) : GroupItemsRequest :=
  {| gi_group_id := group_id; gi_since := since; gi_limit := default default_limit limit |}.

Record GroupCreateRequest := {
  gc_group_id : string;
  gc_name : string;
  gc_culture : string;
  gc_security_policy : string;
}.

Definition default_group_culture : string :=
  "{" +:+ quoted "broadcast_eagerness" +:+ ":" +:+ quoted "chatty" +:+ "}".

Definition default_security_policy : string := "{}".

Definition group_create_request (group_id name : string) (culture policy : option string) : GroupCreateRequest :=
  {| gc_group_id := group_id; gc_name := name; gc_culture := default default_group_culture culture;
     gc_security_policy := default default_security_policy policy |}.

Record GroupDeleteRequest := { gdl_group_id : string }.

Record GroupAddMemberRequest := { am_group_id : string; am_entity_id : string; am_role : string }.

Definition default_member_role : string := "member".

Definition group_add_member_request (group_id entity : string) (role : option string) : GroupAddMemberRequest :=
  {| am_group_id := group_id; am_entity_id := entity; am_role := default default_member_role role |}.

Record GroupRemoveMemberRequest := { rm_group_id : string; rm_entity_id : string }.

Record GroupUpdatePostureRequest := { up_group_id : string; up_entity_id : string; up_posture : string }.

Record DeviceRegisterRequest := {
  dr_device_id : string;
  dr_entity_id : string;
  dr_device_name : option string;
  dr_device_type : string;
  dr_auth_token_hash : string;
}.

Definition default_device_type : string := "node".

Definition device_register_request (device entity : string) (name : option string) (type : option string)
    (token_hash : string) : DeviceRegisterRequest :=
  {| dr_device_id := device; dr_entity_id := entity; dr_device_name := name;
     dr_device_type := default default_device_type type; dr_auth_token_hash := token_hash |}.

Record DeviceListRequest := { dl_entity_id : string }.
Record DeviceRevokeRequest := { dvk_entity_id : string; dvk_device_id : string }.

(** The bodies of the responses that have a type of their own. *)
Record L2MetaResponse := {
  mres_owner_id : option string;
  mres_visibility : string;
  mres_group_id : option string;
  mres_author_id : option string;
  mres_key_version : Z;
  mres_checksum : option string;
  mres_parent_id : option string;
  mres_is_copy : bool;
}.

Definition meta_json (m : L2MetaResponse) : Value := Object [
  ("owner_id", json_opt Str (mres_owner_id m));
  ("visibility", Str (mres_visibility m));
  ("group_id", json_opt Str (mres_group_id m));
  ("author_id", json_opt Str (mres_author_id m));
  ("key_version", Number (mres_key_version m));
  ("checksum", json_opt Str (mres_checksum m));
  ("parent_id", json_opt Str (mres_parent_id m));
  ("is_copy", Bool (mres_is_copy m))]%string.

Record L2ReadResponse := { res_data : Value; res_item_type : string; res_meta : L2MetaResponse }.

Definition l2_read_json (r : L2ReadResponse) : Value := Object [
  ("data", res_data r);
  ("type", Str (res_item_type r));
  ("meta", meta_json (res_meta r))]%string.

(** ** Handlers *)

Section handlers.
Context `{CR : Crypto} `{HI : HashIter} `{WF : WireFormats}.
Context (fts_match : Db -> string -> Z -> result (list string) SqlError).
(** The clock of the store and the monotonic clock of the process. *)
Context (env : SqlEnv) (now : Instant).

Definition l1_read (h : Headers) (req : L1ReadRequest) : Api HttpResponse := authed h (
  let* r := call (read_l1 env (l1r_user_id req)) in
  match r with
  | Ok (Some data) =>
      match json_from_slice data with
      | Some val => respond (ok_json val)
      | None => respond (ok_json (Object [("data"%string, Str (base64_encode data))]))
      end
  | Ok None => respond (not_found "not found")
  | Err e => respond (server_error e)
  end).

Definition l1_write (h : Headers) (req : L1WriteRequest) : Api HttpResponse := authed h (
  let data := match json_to_vec (l1w_data req) with Ok d => d | Err _ => [] end in
  let* r := call (write_l1 env (l1w_user_id req) data) in
  match r with
  | Ok _ => respond ok_true
  | Err e => respond (server_error e)
  end).

Definition l1_delete (h : Headers) (req : L1DeleteRequest) : Api HttpResponse := authed h (
  let* r := call (delete_l1 env (l1d_user_id req)) in
  match r with
  | Ok true => respond ok_true
  | Ok false => respond (not_found "not found")
  | Err e => respond (server_error e)
  end).

Definition l1_list (h : Headers) : Api HttpResponse := authed h (
  let* r := call (list_l1_users env) in
  match r with
  | Ok users => respond (ok_json (Object [("users"%string, json_strs users)]))
  | Err e => respond (server_error e)
  end).

Definition read_response (row : L2ItemRow) : L2ReadResponse := {|
  res_data := default Null (json_from_slice (l2_data row));
  res_item_type := l2_item_type row;
  res_meta := {|
    mres_owner_id := l2_owner_id row;
    mres_visibility := l2_visibility row;
    mres_group_id := l2_group_id row;
    mres_author_id := l2_author_id row;
    mres_key_version := l2_key_version row;
    mres_checksum := l2_checksum row;
    mres_parent_id := l2_parent_id row;
    mres_is_copy := l2_is_copy row |};
|}.

Definition l2_read (h : Headers) (req : L2ReadRequest) : Api HttpResponse := authed h (
  let* r := call (read_l2_item env (l2r_item_id req)) in
  match r with
  | Ok (Some row) => respond (ok_json (l2_read_json (read_response row)))
  | Ok None => respond (not_found "not found")
  | Err e => respond (server_error e)
  end).

(** The row that [l2_write] stores. *)
Definition write_of_request (entity : string) (req : L2WriteRequest) (data : bytes) : L2ItemWrite :=
  let meta := default no_meta (l2w_meta req) in {|
    lw_id := l2w_item_id req;
    lw_item_type := l2w_item_type req;
    lw_data := data;
    lw_owner_id := wm_owner_id meta;
    lw_visibility := default "private"%string (wm_visibility meta);
    lw_group_id := wm_group_id meta;
    lw_author_id := match wm_author_id meta with Some a => Some a | None => Some entity end;
    lw_key_version := default 1 (wm_key_version meta);
    lw_parent_id := wm_parent_id meta;
    lw_is_copy := default false (wm_is_copy meta);
    lw_updated_at := None;
  |}.

Definition notification_of (w : L2ItemWrite) : WriteNotification := {|
  wn_item_id := lw_id w;
  wn_item_type := lw_item_type w;
  wn_group_id := lw_group_id w;
  wn_data := lw_data w;
  wn_key_version := i32_as_u32 (lw_key_version w);
  wn_parent_id := lw_parent_id w;
  wn_is_copy := lw_is_copy w;
|}.

(** [if let Some(tx) = &state.write_notify { let _ = tx.send(n); }] *)
Definition notify (n : WriteNotification) (s : AppState) : AppState :=
  set_write_notify (bc_send n <$> write_notify s) s.

Definition too_large_text (len : Z) : string :=
  "Conditions Not Met: item is " +:+ pretty len +:+ " bytes but era limit is " +:+ pretty MAX_ITEM_BYTES
  +:+ " bytes -- memories should be dense, not large".

Definition l2_write (h : Headers) (req : L2WriteRequest) : Api HttpResponse := authed h (
  match json_to_vec (l2w_data req) with
  | Err e => respond (error_text BAD_REQUEST ("failed to serialise item data: " +:+ e))
  | Ok data =>
      if MAX_ITEM_BYTES <? Z.of_nat (length data)
      then respond (error_text PAYLOAD_TOO_LARGE (too_large_text (Z.of_nat (length data))))
      else
        let* entity := get entity_id in
        let write := write_of_request entity req data in
        let* r := call (write_l2_item env write) in
        match r with
        | Ok _ => let* _ := modify (notify (notification_of write)) in respond ok_true
        | Err e => respond (server_error e)
        end
  end).

Definition tombstone_notification (id gid : string) (key_version : Z) : WriteNotification := {|
  wn_item_id := id;
  wn_item_type := "__tombstone__"%string;
  wn_group_id := Some gid;
  wn_data := [];
  wn_key_version := i32_as_u32 key_version;
  wn_parent_id := None;
  wn_is_copy := false;
|}.

Definition l2_delete (h : Headers) (req : L2DeleteRequest) : Api HttpResponse := authed h (
  let* m := call (read_l2_item_meta env (l2d_item_id req)) in
  let meta := ok_flatten m in
  let* r := call (delete_l2_item env (l2d_item_id req)) in
  match r with
  | Ok true =>
      let* _ := modify (fun s =>
        match meta with
        | Some meta =>
            match lm_group_id meta with
            | Some gid => notify (tombstone_notification (l2d_item_id req) gid (lm_key_version meta)) s
            | None => s
            end
        | None => s
        end) in
      respond ok_true
  | Ok false => respond (not_found "not found")
  | Err e => respond (server_error e)
  end).

(** [req.limit * 4] wraps around in a release build and panics in a debug build. *)
Definition fetch_limit (req : L2SearchRequest) : Z :=
  match l2s_group_id req with Some _ => wrap_u32 (l2s_limit req * 4) | None => l2s_limit req end.

(** The post-filter of [l2_search]. *)
Definition in_requested_group (gid : string) (d : Db) (id : string) : bool :=
  match ok_flatten (read_l2_item_meta env id d).2 with
  | Some m => bool_decide (lm_group_id m = Some gid)
  | None => false
  end.

Definition search_results (req : L2SearchRequest) (d : Db) (ids : list string) : list string :=
  match l2s_group_id req with
  | Some gid => take (Z.to_nat (l2s_limit req)) (filterb (in_requested_group gid d) ids)
  | None => ids
  end.

Definition l2_search (h : Headers) (req : L2SearchRequest) : Api HttpResponse := authed h (
  let* r := call (fts_search fts_match env (l2s_query req) (fetch_limit req)) in
  match r with
  | Ok ids =>
      let* d := get storage in
      respond (ok_json (Object [("results"%string, json_strs (search_results req d ids))]))
  | Err e => respond (server_error e)
  end).

(** *** Groups *)

(** [if !groups.contains(id) { groups.push(id) }] *)
Definition push_group (gid : string) (groups : list GroupId) : list GroupId :=
  if contains groups gid then groups else groups ++ [gid].

Definition groups_create (h : Headers) (req : GroupCreateRequest) : Api HttpResponse := authed h (
  let gid := gc_group_id req in
  let* r := call (write_group env gid (gc_name req) (gc_culture req) (gc_security_policy req)) in
  match r with
  | Ok _ =>
      let* _ := modify (fun s => set_shared_groups (push_group gid <$> shared_groups s) s) in
      let* _ := modify (fun s => set_bootstrap_sync (mp_try_send gid <$> bootstrap_sync s) s) in
      respond (ok_json (Object [("ok", Bool true); ("group_id", Str gid)]%string))
  | Err e => respond (server_error e)
  end).

Definition live_group (g : GroupRow) : bool := negb (String.eqb (gr_culture g) GROUP_TOMBSTONE_CULTURE).

Definition groups_list (h : Headers) : Api HttpResponse := authed h (
  let* r := call (list_groups env) in
  match r with
  | Ok groups => respond (ok_json (Object [("groups"%string, Array (group_json <$> filterb live_group groups))]))
  | Err e => respond (server_error e)
  end).

Definition groups_read (h : Headers) (req : GroupReadRequest) : Api HttpResponse := authed h (
  let* r := call (read_group env (grq_group_id req)) in
  match r with
  | Ok (Some group) =>
      if String.eqb (gr_culture group) GROUP_TOMBSTONE_CULTURE then respond (not_found "group not found")
      else
        let* ms := call (list_members env (grq_group_id req)) in
        respond (ok_json (Object [("group", group_json group);
                                  ("members", Array (member_json <$> unwrap_or [] ms))]%string))
  | Ok None => respond (not_found "group not found")
  | Err e => respond (server_error e)
  end).

Definition groups_items (h : Headers) (req : GroupItemsRequest) : Api HttpResponse := authed h (
  let* r := call (list_group_items env (gi_group_id req) (gi_since req) (gi_limit req)) in
  match r with
  | Ok items => respond (ok_json (Object [("items"%string, Array (header_json <$> items))]))
  | Err e => respond (server_error e)
  end).

(** [let _ = state.storage.log_access(..)] *)
Definition log (e : AccessLogEntry) : Api unit := fun s => let '(s', _) := call (log_access env e) s in (s', tt).

(** The entry of a change to a group. *)
Definition group_entry (entity action gid detail : string) : AccessLogEntry := {|
  al_entity_id := entity;
  al_action := action;
  al_resource_type := "group"%string;
  al_resource_id := Some gid;
  al_group_id := Some gid;
  al_detail := Some detail;
|}.

(** [groups.retain(|g| g != id)] *)
Definition retain_other (gid : string) (groups : list GroupId) : list GroupId :=
  filterb (fun g => negb (String.eqb g gid)) groups.

Definition groups_delete (h : Headers) (req : GroupDeleteRequest) : Api HttpResponse := authed h (
  let gid := gdl_group_id req in
  let* r := call (read_group env gid) in
  match r with
  | Ok (Some _) =>
      let* w := call (write_group env gid gid GROUP_TOMBSTONE_CULTURE "{}") in
      match w with
      | Err e => respond (server_error e)
      | Ok _ =>
          let* _ := modify (fun s => set_storage (remove_all_members env gid (storage s)) s) in
          let* _ := modify (fun s => set_shared_groups (retain_other gid <$> shared_groups s) s) in
          let* entity := get entity_id in
          let* _ := log (group_entry entity "delete_group" gid "tombstone") in
          respond ok_true
      end
  | Ok None => respond (not_found "group not found")
  | Err e => respond (server_error e)
  end).

Definition groups_add_member (h : Headers) (req : GroupAddMemberRequest) : Api HttpResponse := authed h (
  if contains ["owner"; "admin"; "member"; "viewer"]%string (am_role req) then
    let* r := call (add_member env (am_group_id req) (am_entity_id req) (am_role req)) in
    match r with
    | Ok _ =>
        let* entity := get entity_id in
        let* _ := log (group_entry entity "add_member" (am_group_id req)
                         ("entity=" +:+ am_entity_id req +:+ " role=" +:+ am_role req)) in
        respond ok_true
    | Err e => respond (server_error e)
    end
  else respond (error_text BAD_REQUEST "invalid role: must be owner, admin, member, or viewer")).

Definition groups_remove_member (h : Headers) (req : GroupRemoveMemberRequest) : Api HttpResponse := authed h (
  let* r := call (remove_member env (rm_group_id req) (rm_entity_id req)) in
  match r with
  | Ok true =>
      let* entity := get entity_id in
      let* _ := log (group_entry entity "remove_member" (rm_group_id req) ("entity=" +:+ rm_entity_id req)) in
      respond ok_true
  | Ok false => respond (not_found "member not found")
  | Err e => respond (server_error e)
  end).

Definition groups_update_posture (h : Headers) (req : GroupUpdatePostureRequest) : Api HttpResponse := authed h (
  if contains ["active"; "silent"; "emcon"]%string (up_posture req) then
    let* r := call (update_member_posture env (up_group_id req) (up_entity_id req) (up_posture req)) in
    match r with
    | Ok true =>
        let* entity := get entity_id in
        let* _ := log (group_entry entity "update_posture" (up_group_id req)
                         ("entity=" +:+ up_entity_id req +:+ " posture=" +:+ up_posture req)) in
        respond ok_true
    | Ok false => respond (not_found "member not found")
    | Err e => respond (server_error e)
    end
  else respond (error_text BAD_REQUEST "invalid posture: must be active, silent, or emcon")).

(** *** Devices *)

Definition device_entry (entity action device : string) (detail : option string) : AccessLogEntry := {|
  al_entity_id := entity;
  al_action := action;
  al_resource_type := "device"%string;
  al_resource_id := Some device;
  al_group_id := None;
  al_detail := detail;
|}.

Definition device_of_request (req : DeviceRegisterRequest) : DeviceRow := {|
  dv_device_id := dr_device_id req;
  dv_entity_id := dr_entity_id req;
  dv_device_name := dr_device_name req;
  dv_device_type := dr_device_type req;
  dv_auth_token_hash := dr_auth_token_hash req;
  dv_created_at := EmptyString;
  dv_last_seen_at := None;
  dv_revoked_at := None;
|}.

Definition devices_register (h : Headers) (req : DeviceRegisterRequest) : Api HttpResponse := authed h (
  if contains ["node"; "browser"; "mobile"]%string (dr_device_type req) then
    let* r := call (register_device env (device_of_request req)) in
    match r with
    | Ok _ =>
        let* _ := log (device_entry (dr_entity_id req) "register_device" (dr_device_id req) (dr_device_name req)) in
        respond ok_true
    | Err e => respond (server_error e)
    end
  else respond (error_text BAD_REQUEST "invalid device_type: must be node, browser, or mobile")).

(** The object that [devices_list] builds for a device: no token hash. *)
Definition redacted (d : DeviceRow) : Value := Object [
  ("device_id", Str (dv_device_id d));
  ("entity_id", Str (dv_entity_id d));
  ("device_name", json_opt Str (dv_device_name d));
  ("device_type", Str (dv_device_type d));
  ("created_at", Str (dv_created_at d));
  ("last_seen_at", json_opt Str (dv_last_seen_at d));
  ("revoked_at", json_opt Str (dv_revoked_at d))]%string.

Definition devices_list (h : Headers) (req : DeviceListRequest) : Api HttpResponse := authed h (
  let* r := call (list_devices env (dl_entity_id req)) in
  match r with
  | Ok devices => respond (ok_json (Object [("devices"%string, Array (redacted <$> devices))]))
  | Err e => respond (server_error e)
  end).

Definition devices_revoke (h : Headers) (req : DeviceRevokeRequest) : Api HttpResponse := authed h (
  let* r := call (revoke_device env (dvk_entity_id req) (dvk_device_id req)) in
  match r with
  | Ok true =>
      let* _ := log (device_entry (dvk_entity_id req) "revoke_device" (dvk_device_id req) None) in
      respond ok_true
  | Ok false => respond (not_found "device not found or already revoked")
  | Err e => respond (server_error e)
  end).

(** *** Status *)

Definition peer_counts (s : AppState) : Z * Z := default (0, 0) (peer_count_fn s).

Definition current_groups (s : AppState) : list GroupId := default [] (shared_groups s).

Definition uptime_secs (s : AppState) : Z := (now - start_time s) / nanos_per_sec.

Definition status_json (s : AppState) : Value := Object [
  ("node_id", Str (node_id s));
  ("entity_id", Str (entity_id s));
  ("uptime_secs", Number (uptime_secs s));
  ("peers_warm", Number (peer_counts s).1);
  ("peers_hot", Number (peer_counts s).2);
  ("groups", json_strs (current_groups s))]%string.

Definition status (h : Headers) : Api HttpResponse := authed h (
  let* v := get status_json in respond (ok_json v)).

Definition peer_json (p : PeerDetail) : Value := Object [
  ("node_id", Str (pd_node_id p));
  ("addrs", json_strs (pd_addrs p));
  ("state", Str (pd_state p));
  ("rtt_ms", json_opt Float (pd_rtt_ms p));
  ("items_delivered", Number (pd_items_delivered p));
  ("groups", json_strs (pd_groups p));
  ("group_intersection", json_strs (pd_group_intersection p));
  ("is_relay", Bool (pd_is_relay p));
  ("protocol_version", Number (pd_protocol_version p))]%string.

Definition peers_json (s : AppState) : Value :=
  let '(warm, hot) := peer_counts s in Object [
    ("warm", Number warm);
    ("hot", Number hot);
    ("total", Number (warm + hot));
    ("peers", Array (peer_json <$> default [] (peer_list_fn s)))]%string.

Definition peers (h : Headers) : Api HttpResponse := authed h (
  let* v := get peers_json in respond (ok_json v)).

Definition repl_json (stats : option ReplicationStats) : Value :=
  match stats with
  | Some t => Object [
      ("items_pushed", Number (items_pushed t));
      ("items_synced", Number (items_synced t));
      ("items_rejected", Number (items_rejected t));
      ("items_duplicate", Number (items_duplicate t));
      ("push_retries_exhausted", Number (push_retries_exhausted t));
      ("sync_rounds", Number (sync_rounds t));
      ("sync_rounds_with_diff", Number (sync_rounds_with_diff t));
      ("sync_errors", Number (sync_errors t));
      ("write_buffer_depth", Number (write_buffer_depth t));
      ("pending_push_count", Number (pending_push_count t))]%string
  | None => Str "not available"
  end.

Definition group_stats_json (g : GroupStats) : Value := Object [
  ("group_id", Str (gs_group_id g));
  ("items", Number (gs_item_count g));
  ("data_bytes", Number (gs_data_bytes g));
  ("members", Number (gs_member_count g))]%string.

Definition mempool_json (r : result StorageStats StorageError) : Value :=
  match r with
  | Ok stats => Object [
      ("l2_items", Number (ss_l2_item_count stats));
      ("l2_data_bytes", Number (ss_l2_data_bytes stats));
      ("l2_data_human", Str (format_bytes (ss_l2_data_bytes stats)));
      ("groups", Number (ss_group_count stats));
      ("group_details", Array (group_stats_json <$> ss_groups stats))]%string
  | Err e => Object [("error"%string, Str (storage_error_text e))]
  end.

Definition diagnostics (h : Headers) : Api HttpResponse := authed h (
  let* s := get id in
  let* stats := call (storage_stats env) in
  respond (ok_json (Object [
    ("node_id", Str (node_id s));
    ("entity_id", Str (entity_id s));
    ("uptime_secs", Number (uptime_secs s));
    ("peers", Object [("warm", Number (peer_counts s).1); ("hot", Number (peer_counts s).2)]);
    ("groups", json_strs (current_groups s));
    ("replication", repl_json (replication_stats s));
    ("mempool", mempool_json stats)]%string))).

(** ** The router *)

Inductive ApiRequest :=
| RL1Read (r : L1ReadRequest)
| RL1Write (r : L1WriteRequest)
| RL1Delete (r : L1DeleteRequest)
| RL1List
| RL2Read (r : L2ReadRequest)
| RL2Write (r : L2WriteRequest)
| RL2Delete (r : L2DeleteRequest)
| RL2Search (r : L2SearchRequest)
| RGroupsCreate (r : GroupCreateRequest)
| RGroupsList
| RGroupsRead (r : GroupReadRequest)
| RGroupsItems (r : GroupItemsRequest)
| RGroupsDelete (r : GroupDeleteRequest)
| RGroupsAddMember (r : GroupAddMemberRequest)
| RGroupsRemoveMember (r : GroupRemoveMemberRequest)
| RGroupsUpdatePosture (r : GroupUpdatePostureRequest)
| RDevicesRegister (r : DeviceRegisterRequest)
| RDevicesList (r : DeviceListRequest)
| RDevicesRevoke (r : DeviceRevokeRequest)
| RStatus
| RPeers
| RDiagnostics.

Definition route (r : ApiRequest) : string :=
  match r with
  | RL1Read _ => "/api/v1/l1/read"
  | RL1Write _ => "/api/v1/l1/write"
  | RL1Delete _ => "/api/v1/l1/delete"
  | RL1List => "/api/v1/l1/list"
  | RL2Read _ => "/api/v1/l2/read"
  | RL2Write _ => "/api/v1/l2/write"
  | RL2Delete _ => "/api/v1/l2/delete"
  | RL2Search _ => "/api/v1/l2/search"
  | RGroupsCreate _ => "/api/v1/groups/create"
  | RGroupsList => "/api/v1/groups/list"
  | RGroupsRead _ => "/api/v1/groups/read"
  | RGroupsItems _ => "/api/v1/groups/items"
  | RGroupsDelete _ => "/api/v1/groups/delete"
  | RGroupsAddMember _ => "/api/v1/groups/add_member"
  | RGroupsRemoveMember _ => "/api/v1/groups/remove_member"
  | RGroupsUpdatePosture _ => "/api/v1/groups/update_posture"
  | RDevicesRegister _ => "/api/v1/devices/register"
  | RDevicesList _ => "/api/v1/devices/list"
  | RDevicesRevoke _ => "/api/v1/devices/revoke"
  | RStatus => "/api/v1/status"
  | RPeers => "/api/v1/peers"
  | RDiagnostics => "/api/v1/diagnostics"
  end.

(** The handler of each route. *)
Definition router (h : Headers) (r : ApiRequest) : Api HttpResponse :=
  match r with
  | RL1Read r => l1_read h r
  | RL1Write r => l1_write h r
  | RL1Delete r => l1_delete h r
  | RL1List => l1_list h
  | RL2Read r => l2_read h r
  | RL2Write r => l2_write h r
  | RL2Delete r => l2_delete h r
  | RL2Search r => l2_search h r
  | RGroupsCreate r => groups_create h r
  | RGroupsList => groups_list h
  | RGroupsRead r => groups_read h r
  | RGroupsItems r => groups_items h r
  | RGroupsDelete r => groups_delete h r
  | RGroupsAddMember r => groups_add_member h r
  | RGroupsRemoveMember r => groups_remove_member h r
  | RGroupsUpdatePosture r => groups_update_posture h r
  | RDevicesRegister r => devices_register h r
  | RDevicesList r => devices_list h r
  | RDevicesRevoke r => devices_revoke h r
  | RStatus => status h
  | RPeers => peers h
  | RDiagnostics => diagnostics h
  end.

End handlers.
