(* ===== verification/ApiProps.v ===== *)
(** * Properties of the HTTP API

    Authentication guards every handler, the handlers keep the integrity of the
    store and of the shared group list, a failing write leaves no trace, what is
    written is what is read and what is announced to the replication task, and
    a deleted group is out of sight. *)

From S2P Require Import Prelude Float64 Protocol Governor Storage StorageProps Search Json.
From S2P Require Import ItemStore Replication ReplicationProps PeerPool Config SwarmTask SwarmProps.
From S2P Require Import ReplicationTask ReplicationTaskProps Api.
From stdpp Require Import pretty.
#[local] Open Scope Z_scope.

(** ** Reasoning about handlers *)

(** Every run of the handler returns something in [Q], and ends in [I] if it starts there. *)
Definition runs {A} (I : AppState -> Prop) (Q : A -> Prop) (m : Api A) : Prop :=
  forall s, (I s -> I (m s).1) /\ Q (m s).2.

Section runs.
Context (I : AppState -> Prop).

Lemma runs_bind {A B} (P : A -> Prop) (Q : B -> Prop) (m : Api A) (k : A -> Api B) :
  runs I P m -> (forall a, P a -> runs I Q (k a)) -> runs I Q (let* x := m in k x).
Proof.
  intros Hm Hk s. unfold api_bind. destruct (Hm s) as [HI HP]. destruct (m s) as [s' a]. simpl in *.
  destruct (Hk a HP s') as [HI' HQ]. split; [|done]. intros Hs. by apply HI', HI.
Qed.

Lemma runs_respond (Q : HttpResponse -> Prop) r : Q r -> runs I Q (respond r).
Proof. by intros HQ s. Qed.

Lemma runs_modify f : (forall s, I s -> I (f s)) -> runs I (fun _ => True) (modify f).
Proof. intros Hf s. split; [apply Hf|done]. Qed.

Lemma runs_get {A} (f : AppState -> A) : runs I (fun _ => True) (get f).
Proof. by intros s. Qed.

End runs.

(** A response that is not an authentication failure. *)
Definition authorised_response (r : HttpResponse) : Prop := status_code r <> UNAUTHORIZED.

(** The header that the API expects. *)
Definition authorised (h : Headers) (s : AppState) : Prop :=
  h "authorization"%string = Some (Some ("Bearer " +:+ bearer_token s)).

Lemma check_auth_spec h s :
  check_auth s h = Ok tt /\ authorised h s
  \/ check_auth s h = Err (UNAUTHORIZED, "invalid bearer token"%string) /\ ~ authorised h s.
Proof.
  unfold check_auth, authorised. destruct (String.eqb_spec (default EmptyString (mjoin (h "authorization"%string)))
    ("Bearer " +:+ bearer_token s)) as [E|E]; simpl.
  - left. split; [done|]. destruct (h "authorization"%string) as [[a|]|]; simpl in E; [by subst|done..].
  - right. split; [done|]. intros Ha. by rewrite Ha in E.
Qed.

Lemma authed_ok h m s : authorised h s -> authed h m s = m s.
Proof.
  intros Ha. unfold authed. destruct (check_auth_spec h s) as [[-> _]|[_ Hn]]; [done|by destruct Hn].
Qed.

Lemma runs_authed (I : AppState -> Prop) Q h (m : Api HttpResponse) :
  Q (error_text UNAUTHORIZED "invalid bearer token") -> runs I Q m -> runs I Q (authed h m).
Proof.
  intros HQ Hm s. unfold authed. destruct (check_auth_spec h s) as [[-> _]|[-> _]]; [by apply Hm|done].
Qed.

(** ** The invariant of the shared state *)

Definition channel_ok {A} (c : Mpsc A) : Prop := (length (mp_queue c) <= mp_capacity c)%nat.

(** What no handler changes. *)
Definition identity (s : AppState) : string * string * string := (node_id s, entity_id s, bearer_token s).

Record app_wf `{Crypto} (i : string * string * string) (s : AppState) : Prop := {
  aw_identity : identity s = i;
  aw_db : db_wf (storage s);
  aw_groups : forall gs, shared_groups s = Some gs -> NoDup gs;
  aw_bootstrap : forall c, bootstrap_sync s = Some c -> channel_ok c;
}.

Section wf.
Context `{CR : Crypto}.

Lemma runs_call {A} i (m : M A) : preserves db_wf m -> runs (app_wf i) (fun _ => True) (call m).
Proof.
  intros Hm s. split; [|done]. intros [Hi Hd Hg Hb]. unfold call. specialize (Hm _ Hd).
  by destruct (m (storage s)) as [d r].
Qed.

(** *** What the handlers call *)

Lemma write_l1_wf env u x : preserves db_wf (write_l1 env u x).
Proof. intros d. apply (run_op_wf env (OpWriteL1 u x)). Qed.

Lemma delete_item_wf env i : preserves db_wf (delete_l2_item env i).
Proof. intros d. apply (run_op_wf env (OpDeleteItem i)). Qed.

Lemma log_access_wf env e : preserves db_wf (log_access env e).
Proof. intros d. apply (run_op_wf env (OpLog e)). Qed.

Lemma remove_all_members_wf (I : Db -> Prop) (HP : forall env g e p, preserves I (update_member_posture env g e p)) env gid d :
  I d -> I (remove_all_members env gid d).
Proof.
  intros Hd. unfold remove_all_members.
  assert (read_only (list_members env gid)) as Hro by (unfold list_members; auto with cordelia).
  specialize (Hro d). destruct (list_members env gid d) as [d1 [ms|e]]; simpl in Hro; subst d1; [|done].
  revert d Hd. induction ms as [|m ms IH]; intros d Hd; [done|]. cbn [foldl]. apply IH. by apply HP.
Qed.

Lemma list_devices_read `{HashIter} env e : read_only (list_devices env e).
Proof.
  unfold list_devices, device_stmt. apply read_only_bind; [auto with cordelia|]. intros _. apply read_only_stmt.
  intros d d' a. destruct (sc_devices (schema d)); [|done]. by intros [= <- _].
Qed.

Lemma storage_stats_read `{HashIter} env : read_only (storage_stats env).
Proof. unfold storage_stats. auto 20 with cordelia. Qed.

Lemma fts_search_read fts env q n : read_only (fts_search fts env q n).
Proof.
  unfold fts_search. do 2 (case_match; [auto with cordelia|]). apply read_only_bind; [auto with cordelia|].
  intros _. apply read_only_stmt. intros d d' a. destruct (fts d _ n); [|done]. by intros [= <- _].
Qed.

Lemma push_group_nodup gid gs : NoDup gs -> NoDup (push_group gid gs).
Proof.
  intros Hgs. unfold push_group. destruct (contains gs gid) eqn:E; [done|].
  apply contains_false in E. apply NoDup_app. split_and!; [done| |apply NoDup_singleton].
  intros x Hx ->%list_elem_of_singleton. done.
Qed.

Lemma try_send_ok {A} (a : A) c : channel_ok c -> channel_ok (mp_try_send a c).
Proof.
  unfold channel_ok, mp_try_send. intros Hc. destruct (mp_closed c); simpl; [done|].
  destruct (Nat.leb_spec (mp_capacity c) (length (mp_queue c))); simpl; [done|]. rewrite length_app. simpl. lia.
Qed.

End wf.

#[export] Hint Resolve write_l1_wf delete_item_wf log_access_wf list_devices_read storage_stats_read fts_search_read : cordelia.
#[export] Hint Resolve delete_l1_preserves write_l2_item_preserves write_group_preserves add_member_preserves
  remove_member_preserves update_posture_preserves register_device_preserves revoke_device_preserves : cordelia.

(** ** Every handler *)

Section every_handler.
Context `{CR : Crypto} `{HI : HashIter} `{WF : WireFormats}.
Context (fts_match : Db -> string -> Z -> result (list string) SqlError) (env : SqlEnv) (now : Instant).

Lemma runs_log i e : runs (app_wf i) (fun _ => True) (log env e).
Proof.
  intros s. unfold log. pose proof (runs_call i (log_access env e)) as Hc.
  destruct (Hc (log_access_wf env e) s) as [HI' _]. by destruct (call _ s).
Qed.

Lemma notify_wf i n s : app_wf i s -> app_wf i (notify n s).
Proof. by intros []. Qed.

Lemma set_storage_wf i d s : app_wf i s -> db_wf d -> app_wf i (set_storage d s).
Proof. by intros [] ?. Qed.

Lemma set_groups_wf i (f : list GroupId -> list GroupId) s :
  (forall gs, NoDup gs -> NoDup (f gs)) -> app_wf i s -> app_wf i (set_shared_groups (f <$> shared_groups s) s).
Proof.
  intros Hf [Hi Hd Hg Hb]. split; [done|done| |done]. intros gs. simpl. destruct (shared_groups s) as [gs0|] eqn:E; [|done].
  intros [= <-]. by apply Hf, Hg.
Qed.

Lemma bootstrap_wf i gid s : app_wf i s -> app_wf i (set_bootstrap_sync (mp_try_send gid <$> bootstrap_sync s) s).
Proof.
  intros [Hi Hd Hg Hb]. split; [done..|]. intros c. simpl. destruct (bootstrap_sync s) as [c0|] eqn:E; [|done].
  intros [= <-]. by apply try_send_ok, Hb.
Qed.

Lemma retain_nodup gid gs : NoDup gs -> NoDup (retain_other gid gs).
Proof. apply NoDup_filter. Qed.

Ltac api_state :=
  first [ by apply set_groups_wf; [apply push_group_nodup|] | by apply set_groups_wf; [apply retain_nodup|]
        | by apply bootstrap_wf | by apply notify_wf
        | apply set_storage_wf; [done | eapply (remove_all_members_wf db_wf); [intros; apply update_posture_preserves|by eapply aw_db]] ].

Ltac api_runs :=
  repeat lazymatch goal with
  | |- runs _ _ (api_bind (call _) _) =>
      eapply runs_bind; [apply runs_call; solve [auto 10 with cordelia] | intros ? _; cbv beta]
  | |- runs _ _ (api_bind (log _ _) _) => eapply runs_bind; [apply runs_log | intros ? _; cbv beta]
  | |- runs _ _ (api_bind (get _) _) => eapply runs_bind; [apply runs_get | intros ? _; cbv beta]
  | |- runs _ _ (api_bind (modify _) _) =>
      eapply runs_bind; [apply runs_modify; intros ? ?; repeat case_match; solve [done | api_state] | intros ? _; cbv beta]
  | |- runs _ _ (respond _) => apply runs_respond; done
  | |- runs _ _ (match ?x with _ => _ end) => destruct x
  end.

(** A handler is the authentication check followed by code that keeps the invariant
    and never answers 401. *)
Lemma router_authed i h req :
  exists m, router fts_match env now h req = authed h m /\ runs (app_wf i) authorised_response m.
Proof.
  destruct req; eexists; (split; [reflexivity|]); cbv zeta;
    unfold read_l1, list_l1_users, read_l2_item, read_l2_item_meta, list_groups, read_group, list_members, list_group_items;
    api_runs.
Qed.

End every_handler.

(** The invariant through any request. *)
Lemma router_wf `{Crypto} `{HashIter} `{WireFormats} i fts_match env now h req s :
  app_wf i s -> app_wf i (router fts_match env now h req s).1.
Proof.
  destruct (router_authed fts_match env now i h req) as (m & -> & Hm).
  apply (runs_authed (app_wf i) (fun _ => True) h m); [done|]. intros s0. split; [apply Hm|done].
Qed.

Lemma groups_delete_wf `{Crypto} `{WireFormats} i env h gid s :
  app_wf i s -> app_wf i (groups_delete env h {| gdl_group_id := gid |} s).1.
Proof. exact (router_wf (H0 := sorted_iter) i (fun _ _ _ => Ok []) env 0 h (RGroupsDelete {| gdl_group_id := gid |}) s). Qed.

(** [C16] Every route is guarded: a request whose authorization header is not exactly
    the bearer token of the node changes nothing and is answered 401 with a fixed
    text, and a request that carries the token is never answered 401. *)
Theorem api_guarded `{Crypto} `{HashIter} `{WireFormats} fts_match env now h req s :
  let '(s', r) := router fts_match env now h req s in
  (~ authorised h s -> s' = s /\ r = error_text UNAUTHORIZED "invalid bearer token")
  /\ (authorised h s -> status_code r <> UNAUTHORIZED).
Proof.
  destruct (router_authed fts_match env now (identity s) h req) as (m & -> & Hm).
  destruct (authed h m s) as [s' r] eqn:E. unfold authed in E.
  destruct (check_auth_spec h s) as [[Hc Ha]|[Hc Ha]]; rewrite Hc in E; simplify_eq.
  - split; [by intros []|]. intros _. destruct (Hm s) as [_ HQ]. by rewrite E in HQ.
  - by split; [|intros ?].
Qed.

(** ** Writing and reading items *)

Lemma set_storage_id s : set_storage (storage s) s = s.
Proof. by destruct s. Qed.

Lemma call_err {A} (m : M A) s s' e :
  (forall d d' e, m d = (d', Err e) -> d' = d) -> call m s = (s', Err e) -> s' = s.
Proof.
  intros Hm. unfold call. destruct (m (storage s)) as [d [a|e']] eqn:E; intros [= <- <-].
  apply Hm in E as ->. apply set_storage_id.
Qed.

Section items.
Context `{CR : Crypto} `{HI : HashIter} `{WF : WireFormats}.

(** The database after a successful item write. *)
Definition with_item (env : SqlEnv) (w : L2ItemWrite) (d : Db) : Db :=
  set_l2_items (<[lw_id w := upsert_row (sql_now env) w (l2_items d !! lw_id w)]> (l2_items d)) d.

Lemma write_item_cases env w d :
  (write_l2_item env w d = (with_item env w d, Ok tt) /\ write_ok w = true)
  \/ (exists e, write_l2_item env w d = (d, Err e)) /\ (sqlite_up env d -> write_ok w = false).
Proof.
  destruct (write_l2_item env w d) as [d' [[]|e]] eqn:E.
  - left. unfold write_l2_item in E. inv_ok E. fold (write_ok w) in E. destruct (write_ok w); [|done].
    by injection E as <-.
  - right. pose proof (stmt_err _ _ _ _ _ _ E) as ->. split; [by eexists|]. intros [Hl Hf].
    unfold write_l2_item in E. rewrite with_lock in E by done. unfold stmt in E. rewrite Hf in E.
    fold (write_ok w) in E. by destruct (write_ok w).
Qed.

Lemma read_item_eq env id d :
  sqlite_up env d -> read_l2_item env id d = (d, Ok (l2_items d !! id)).
Proof.
  intros [Hl Hf]. unfold read_l2_item. rewrite with_lock by done. unfold query, stmt. by rewrite Hf.
Qed.

(** The state after a successful [l2_write] of [w]. *)
Definition after_write (env : SqlEnv) (w : L2ItemWrite) (s : AppState) : AppState :=
  notify (notification_of w) (set_storage (with_item env w (storage s)) s).

Lemma after_write_item env w s :
  l2_items (storage (after_write env w s)) !! lw_id w
  = Some (upsert_row (sql_now env) w (l2_items (storage s) !! lw_id w)).
Proof. apply lookup_insert_eq. Qed.

(** The status of an authorised [l2_write] on a store that is up. *)
Definition l2_write_status (entity : string) (req : L2WriteRequest) : Z :=
  match json_to_vec (l2w_data req) with
  | Err _ => BAD_REQUEST
  | Ok data =>
      if MAX_ITEM_BYTES <? Z.of_nat (length data) then PAYLOAD_TOO_LARGE
      else if write_ok (write_of_request entity req data) then OK else INTERNAL_SERVER_ERROR
  end.

Lemma l2_write_cases env h req s s' r :
  l2_write env h req s = (s', r) ->
  (s' = s /\ status_code r <> OK
     /\ (sqlite_up env (storage s) -> authorised h s -> status_code r = l2_write_status (entity_id s) req))
  \/ (exists data, authorised h s /\ json_to_vec (l2w_data req) = Ok data /\ Z.of_nat (length data) <= MAX_ITEM_BYTES
     /\ write_ok (write_of_request (entity_id s) req data) = true
     /\ s' = after_write env (write_of_request (entity_id s) req data) s /\ r = ok_true).
Proof.
  unfold l2_write, authed, l2_write_status. destruct (check_auth_spec h s) as [[-> Ha]|[-> Ha]].
  2: { intros [= <- <-]. left. split_and!; [done..|by intros _ ?]. }
  destruct (json_to_vec (l2w_data req)) as [data|e]; [|intros [= <- <-]; by left].
  destruct (Z.ltb_spec MAX_ITEM_BYTES (Z.of_nat (length data))) as [Hlt|Hle]; [intros [= <- <-]; by left|].
  unfold api_bind, get, call, modify, respond. simpl.
  destruct (write_item_cases env (write_of_request (entity_id s) req data) (storage s)) as [[-> Hok]|[(e & ->) Hno]];
    intros [= <- <-].
  - right. exists data. by split_and!.
  - left. rewrite set_storage_id. split_and!; [done..|]. intros Hup _. by rewrite Hno.
Qed.

End items.

(** [C29] A write is all or nothing: when [l2_write] does not answer 200 the whole
    state of the API is as before; when it does, the request was authorised, the
    item is within the limit and of a legal type and visibility, the store holds
    exactly the row that was asked for, and the replication task was told of that
    same row.  On a store that is up the status says which of the checks failed. *)
Theorem l2_write_outcome `{Crypto} `{WireFormats} env h req s :
  let '(s', r) := l2_write env h req s in
  (status_code r <> OK -> s' = s)
  /\ (status_code r = OK -> exists data,
        authorised h s /\ json_to_vec (l2w_data req) = Ok data /\ Z.of_nat (length data) <= MAX_ITEM_BYTES
        /\ write_ok (write_of_request (entity_id s) req data) = true
        /\ s' = after_write env (write_of_request (entity_id s) req data) s)
  /\ (sqlite_up env (storage s) -> authorised h s -> status_code r = l2_write_status (entity_id s) req).
Proof.
  destruct (l2_write env h req s) as [s' r] eqn:E.
  apply l2_write_cases in E as [(-> & Hs & Hst)|(data & Ha & Hd & Hle & Hok & -> & ->)].
  - by split_and!.
  - split_and!; [done|by exists data|]. intros _ _. unfold l2_write_status. rewrite Hd, Hok.
    by destruct (Z.ltb_spec MAX_ITEM_BYTES (Z.of_nat (length data))); [lia|].
Qed.

(** [C21] What is written is read back: after [l2_write] answered 200, [l2_read] of the
    item answers with the same JSON value, type and metadata, the defaults filled in, and with the checksum of the
    serialised value, provided the serialiser's text of that value parses back to it. *)
Theorem l2_write_then_read `{Crypto} `{WireFormats} env env' h h' req s v :
  l2w_data req = v -> (forall data, json_to_vec v = Ok data -> json_from_slice data = Some v) ->
  sqlite_up env' (storage s) -> authorised h' s ->
  let '(s1, r) := l2_write env h req s in
  r = ok_true ->
  exists data, json_to_vec v = Ok data
  /\ l2_read env' h' {| l2r_item_id := l2w_item_id req |} s1 =
     (s1, ok_json (l2_read_json {|
        res_data := v;
        res_item_type := l2w_item_type req;
        res_meta :=
          let meta := default no_meta (l2w_meta req) in {|
            mres_owner_id := wm_owner_id meta;
            mres_visibility := default "private"%string (wm_visibility meta);
            mres_group_id := wm_group_id meta;
            mres_author_id := Some (default (entity_id s) (wm_author_id meta));
            mres_key_version := default 1 (wm_key_version meta);
            mres_checksum := Some (sha256_hex data);
            mres_parent_id := wm_parent_id meta;
            mres_is_copy := default false (wm_is_copy meta) |} |})).
Proof.
  intros <- Hjson Hup Ha. destruct (l2_write env h req s) as [s1 r] eqn:E. intros ->.
  apply l2_write_cases in E as [(_ & Hs & _)|(data & _ & Hd & _ & _ & -> & _)]; [done|].
  exists data. split; [done|]. unfold l2_read. rewrite authed_ok by done.
  unfold api_bind, call. rewrite read_item_eq by done. cbv beta iota zeta. rewrite set_storage_id.
  rewrite (after_write_item env (write_of_request (entity_id s) req data) s). unfold respond, read_response.
  cbn. rewrite (Hjson data Hd). by destruct (wm_author_id _).
Qed.

(** ** Methods of a store that is up *)

Section up.
Context (env : SqlEnv) (d : Db) (Hup : sqlite_up env d).

Lemma read_group_up id : read_group env id d = (d, Ok (groups_t d !! id)).
Proof. destruct Hup as [Hl Hf]. unfold read_group. rewrite with_lock by done. unfold query, stmt. by rewrite Hf. Qed.

Lemma list_groups_up `{HashIter} :
  list_groups env d = (d, Ok (sort_by (fun g g' => str_cmp (gr_name g) (gr_name g')) (values (groups_t d)))).
Proof. destruct Hup as [Hl Hf]. unfold list_groups. rewrite with_lock by done. unfold query, stmt. by rewrite Hf. Qed.

Lemma write_group_up id name culture policy :
  write_group env id name culture policy d =
  (set_groups_t (<[id := upsert_group (sql_now env) id name culture policy (groups_t d !! id)]> (groups_t d)) d, Ok tt).
Proof. destruct Hup as [Hl Hf]. unfold write_group. rewrite with_lock by done. unfold stmt. by rewrite Hf. Qed.

Lemma log_access_up e : log_access env e d = (set_access_log (access_log d ++ [e]) d, Ok tt).
Proof. destruct Hup as [Hl Hf]. unfold log_access. rewrite with_lock by done. unfold stmt. by rewrite Hf. Qed.

Lemma update_posture_up gid e p :
  posture_ok (schema d) p = true ->
  update_member_posture env gid e p d =
  (set_group_members (alter (set_posture p) (gid, e) (group_members d)) d, Ok (bool_decide (is_Some (group_members d !! (gid, e))))).
Proof.
  intros Hp. destruct Hup as [Hl Hf]. unfold update_member_posture. rewrite with_lock by done. unfold stmt. rewrite Hf.
  rewrite alter_alt. destruct (group_members d !! (gid, e)) as [m|]; [by rewrite Hp|]. by rewrite set_members_id.
Qed.

End up.

Section delete_group_outcome.
Context `{CR : Crypto} `{HI : HashIter} `{WF : WireFormats}.

(** What a successful [groups_delete] leaves. *)
Definition tombstone_of (env : SqlEnv) (gid : string) (old : option GroupRow) : GroupRow :=
  upsert_group (sql_now env) gid gid GROUP_TOMBSTONE_CULTURE "{}" old.

Lemma groups_delete_up env h gid s :
  app_wf (identity s) s -> sqlite_up env (storage s) -> posture_ok (schema (storage s)) "removed" = true ->
  authorised h s -> is_Some (groups_t (storage s) !! gid) ->
  exists t, groups_delete env h {| gdl_group_id := gid |} s =
    (set_shared_groups (retain_other gid <$> shared_groups s)
      (set_storage
        (set_access_log (access_log (storage s) ++ [group_entry (entity_id s) "delete_group" gid "tombstone"])
          (set_group_members t
            (set_groups_t (<[gid := tombstone_of env gid (groups_t (storage s) !! gid)]> (groups_t (storage s))) (storage s))))
        s), ok_true)
    /\ (forall u m, t !! (gid, u) = Some m -> not_removed m = false)
    /\ (forall k, k.1 <> gid -> t !! k = group_members (storage s) !! k).
Proof.
  intros Hwf Hup Hp Ha [g Hg].
  set (d1 := set_groups_t (<[gid := tombstone_of env gid (groups_t (storage s) !! gid)]> (groups_t (storage s))) (storage s)).
  destruct (remove_all_members_spec env gid d1) as (t & Ht & Hgone & Hother); [done| |done|].
  { pose proof (write_group_preserves env gid gid GROUP_TOMBSTONE_CULTURE "{}" _ (aw_db _ _ Hwf)) as Hd.
    by rewrite write_group_up in Hd. }
  exists t. split; [|done]. unfold groups_delete. rewrite authed_ok by done. cbn [gdl_group_id].
  unfold api_bind, call, modify, get, respond, log, call. rewrite read_group_up, Hg by done. cbn [storage set_storage].
  rewrite write_group_up by done. cbn [storage set_storage]. fold (tombstone_of env gid (groups_t (storage s) !! gid)). fold d1.
  rewrite Ht. cbn [storage set_storage set_shared_groups]. by rewrite log_access_up.
Qed.

End delete_group_outcome.

(** [C13] A deleted group is out of sight but not gone: on a database of the current
    schema and when no statement fails, deleting an existing group answers 200,
    after which reading it answers 404, the listing has exactly the
    other live groups, nobody is a member of it, the groups that replicate are
    the others, and the row that stays is a tombstone as of now, for the group
    exchange to carry to the peers. *)
Theorem deleted_group_is_hidden `{Crypto} `{HashIter} `{WireFormats} env env' h h' gid s :
  app_wf (identity s) s -> sqlite_up env (storage s) -> no_fault env' ->
  posture_ok (schema (storage s)) "removed" = true -> authorised h s -> authorised h' s ->
  is_Some (groups_t (storage s) !! gid) ->
  let '(s', r) := groups_delete env h {| gdl_group_id := gid |} s in
  r = ok_true
  /\ (groups_read env' h' {| grq_group_id := gid |} s').2 = not_found "group not found"
  /\ (exists gs, (groups_list env' h' s').2 = ok_json (Object [("groups"%string, Array (group_json <$> gs))])
        /\ forall g, g ∈ gs <-> groups_t (storage s) !! gr_id g = Some g /\ live_group g = true /\ gr_id g <> gid)
  /\ (list_members env' gid (storage s')).2 = Ok []
  /\ (forall g, g ∈ current_groups s' <-> g ∈ current_groups s /\ g <> gid)
  /\ exists g, groups_t (storage s') !! gid = Some g /\ is_tombstone (desc_of_group g) = true /\ gr_updated_at g = sql_now env.
Proof.
  intros Hwf Hup Hf' Hp Ha Ha' Hg.
  destruct (groups_delete_up env h gid s Hwf Hup Hp Ha Hg) as (t & -> & Hgone & Hother).
  set (s' := set_shared_groups _ _). assert (sqlite_up env' (storage s')) as Hup' by (split; [apply Hup|done]).
  assert (authorised h' s') as Ha'' by exact Ha'.
  split_and!.
  - done.
  - unfold groups_read. rewrite authed_ok by done. unfold api_bind, call. rewrite read_group_up by done.
    cbn. by rewrite lookup_insert_eq.
  - eexists. unfold groups_list. rewrite authed_ok by done. unfold api_bind, call. rewrite list_groups_up by done.
    split; [reflexivity|]. intros g. rewrite elem_of_filterb, elem_of_sort_by, elem_of_values.
    change (groups_t (storage s')) with (<[gid := tombstone_of env gid (groups_t (storage s) !! gid)]> (groups_t (storage s))).
    split.
    + intros [Hl [k Hk]]. destruct (decide (gid = k)) as [<-|Hne].
      { rewrite lookup_insert_eq in Hk. by injection Hk as <-. }
      rewrite lookup_insert_ne in Hk by done. pose proof (dw_groups _ (aw_db _ _ Hwf) _ _ Hk) as Hid. simpl in Hid. by subst k.
    + intros (Hk & Hl & Hne). split; [done|]. exists (gr_id g). by rewrite lookup_insert_ne.
  - rewrite list_members_eq by done. cbn [snd]. f_equal. rewrite filterb_false; [done|].
    intros m [k Hk]%elem_of_member_rows. change (group_members (storage s')) with t in Hk.
    apply andb_false_iff. destruct (String.eqb_spec (gm_group_id m) gid) as [<-|]; [right|by left].
    destruct (decide (k.1 = gm_group_id m)) as [Hk1|Hk1].
    + destruct k as [k1 k2]. simpl in Hk1. subst k1. by apply (Hgone k2).
    + rewrite Hother in Hk by done. destruct (dw_members _ (aw_db _ _ Hwf) _ _ Hk) as [-> _ _ _]. done.
  - intros g. change (current_groups s') with (default [] (retain_other gid <$> shared_groups s)).
    unfold current_groups. destruct (shared_groups s) as [gs|]; simpl; [|by rewrite elem_of_nil; tauto].
    unfold retain_other. rewrite elem_of_filterb, negb_true_iff, String.eqb_neq. tauto.
  - eexists. split; [apply lookup_insert_eq|done].
Qed.

(** A posture update brings a removed member back: [groups_update_posture] accepts
    a member that was soft-removed, also by the deletion of the group, answers 200
    and leaves an active membership, although [remove_member] and [get_membership]
    treat that member as gone. *)
Theorem posture_update_revives_removed `{WireFormats} env h gid u m s :
  sqlite_up env (storage s) -> authorised h s ->
  group_members (storage s) !! (gid, u) = Some m -> not_removed m = false ->
  (get_membership env gid u (storage s)).2 = Ok None
  /\ let '(s', r) := groups_update_posture env h {| up_group_id := gid; up_entity_id := u; up_posture := "active" |} s in
     r = ok_true /\ (get_membership env gid u (storage s')).2 = Ok (Some (set_posture "active" m)).
Proof.
  intros Hup Ha Hm Hr. destruct Hup as [Hl Hf] eqn:E. split.
  { rewrite get_membership_eq by done. by rewrite Hm, Hr. }
  unfold groups_update_posture. rewrite authed_ok by done. replace (contains _ (up_posture _)) with true by done.
  unfold api_bind, call, get, log, call, respond. cbn [up_group_id up_entity_id up_posture].
  rewrite update_posture_up by done. rewrite bool_decide_eq_true_2 by (by eexists). cbn [storage set_storage].
  rewrite log_access_up by done. split; [done|]. rewrite get_membership_eq by done. cbn. by rewrite lookup_alter_eq, Hm.
Qed.

(** ** Searching *)

Lemma item_group_up env gid d id :
  sqlite_up env d ->
  in_requested_group env gid d id = true <-> exists row, l2_items d !! id = Some row /\ l2_group_id row = Some gid.
Proof.
  intros [Hl Hf]. unfold in_requested_group, read_l2_item_meta. rewrite with_lock by done. unfold query, stmt. rewrite Hf.
  cbn. destruct (l2_items d !! id) as [row|]; cbn.
  - rewrite bool_decide_eq_true. split; [eauto|]. by intros (? & [= <-] & ?).
  - split; [done|]. by intros (? & ? & ?).
Qed.

Lemma phrases_of_query q :
  trim_is_empty q = false ->
  read_query (length (split_whitespace q)) (safe_query q) = Some (drop_quotes <$> split_whitespace q)
  /\ safe_query q <> EmptyString.
Proof.
  intros Hq. rewrite trim_is_empty_words in Hq. apply bool_decide_eq_false in Hq. rewrite safe_query_words. split.
  - by apply read_query_join.
  - destruct (split_whitespace q) as [|w [|u ws]]; done.
Qed.

(** [C31] A search asks for phrases only and answers with what was asked for: whatever
    the user types, the expression handed to the index reads as one quoted phrase
    per word and contains no operator; and a search within a group answers with
    items that matched and belong to the group, in rank order, at most [limit],
    leaving none of the fetched ones out unless the limit is reached. *)
Theorem search_in_group `{WireFormats} fts_match env h q limit gid ids s :
  sqlite_up env (storage s) -> authorised h s -> trim_is_empty q = false ->
  fts_match (storage s) (safe_query q) (wrap_u32 (limit * 4)) = Ok ids ->
  exists rs,
    l2_search fts_match env h {| l2s_query := q; l2s_limit := limit; l2s_group_id := Some gid |} s
      = (s, ok_json (Object [("results"%string, json_strs rs)]))
    /\ read_query (length (split_whitespace q)) (safe_query q) = Some (drop_quotes <$> split_whitespace q)
    /\ (length rs <= Z.to_nat limit)%nat /\ sublist rs ids
    /\ (forall id, id ∈ rs -> exists row, l2_items (storage s) !! id = Some row /\ l2_group_id row = Some gid)
    /\ (forall id row, id ∈ ids -> l2_items (storage s) !! id = Some row -> l2_group_id row = Some gid ->
          id ∈ rs \/ length rs = Z.to_nat limit).
Proof.
  intros Hup Ha Hq Hids. destruct (phrases_of_query q Hq) as [Hread Hne].
  exists (take (Z.to_nat limit) (filterb (in_requested_group env gid (storage s)) ids)).
  assert (fts_search fts_match env q (wrap_u32 (limit * 4)) (storage s) = (storage s, Ok ids)) as Hs.
  { unfold fts_search. rewrite Hq. destruct (String.eqb_spec (safe_query q) EmptyString); [done|].
    destruct Hup as [Hl Hf]. rewrite with_lock by done. unfold stmt. by rewrite Hf, Hids. }
  split_and!.
  - unfold l2_search. rewrite authed_ok by done. unfold api_bind, call, get, respond, fetch_limit. cbn.
    rewrite Hs. cbv beta iota zeta. by rewrite set_storage_id.
  - done.
  - rewrite length_take. lia.
  - etrans; [apply sublist_take|apply sublist_filter].
  - intros id Hid%elem_of_take_in. apply elem_of_filterb in Hid as [Hg _]. by apply item_group_up in Hg.
  - intros id row Hid Hrow Hg. set (l := filterb _ ids).
    assert (id ∈ l) as Hin. { apply elem_of_filterb. split; [|done]. apply item_group_up; eauto. }
    destruct (decide (length l <= Z.to_nat limit)%nat) as [Hle|Hgt]; [left; by rewrite take_ge|].
    right. rewrite length_take. lia.
Qed.

(** The headroom of a search within a group wraps around: a limit of 2^30 asks the
    index for no rows at all. *)
Lemma group_search_limit_wraps q gid :
  fetch_limit {| l2s_query := q; l2s_limit := 2 ^ 30; l2s_group_id := Some gid |} = 0.
Proof. done. Qed.

(** ** Witnesses *)

(** A serialiser for strings only. *)
Definition toy_wire : WireFormats := {|
  json_to_vec v := match v with Str s => Ok (str_bytes s) | _ => Err "unsupported"%string end;
  json_from_slice b := Some (Str (String.string_of_list_byte b));
  base64_encode b := String.string_of_list_byte b;
  sqlite_error_text _ := "error"%string;
|}.

Definition ex_app (d : Db) : AppState := {|
  storage := d; node_id := "n1"; entity_id := "alice"; bearer_token := "secret"; start_time := 0;
  write_notify := Some {| bc_receivers := 1; bc_sent := [] |}; shared_groups := Some ["g"%string; "dead"%string];
  peer_count_fn := None; peer_list_fn := None; replication_stats := None;
  bootstrap_sync := Some {| mp_capacity := 1; mp_closed := false; mp_queue := [] |} |}.

Definition ex_headers : Headers := fun name =>
  if String.eqb name "authorization" then Some (Some "Bearer secret"%string) else None.

Definition ex_write (id text : string) : L2WriteRequest := {|
  l2w_item_id := id; l2w_item_type := "entity"; l2w_data := Str text;
  l2w_meta := Some {| wm_owner_id := None; wm_visibility := Some "group"%string; wm_group_id := Some "g"%string;
                      wm_author_id := None; wm_key_version := Some 3; wm_parent_id := None; wm_is_copy := None |} |}.

Lemma ex_app_up d : lock_poisoned d = false -> sqlite_up ex_env d.
Proof. intros H. split; [exact H | intros name; reflexivity]. Qed.

Lemma ex_app_wf : @app_wf toy_crypto (identity (ex_app ex_db)) (ex_app ex_db).
Proof.
  split; [reflexivity| | |].
  - unfold ex_db, ex_app. cbn [storage]. repeat apply run_op_wf. apply empty_db_wf.
  - intros gs [= <-]. apply NoDup_cons. split; [by intros ?%list_elem_of_singleton | apply NoDup_singleton].
  - intros c [= <-]. unfold channel_ok. simpl. lia.
Qed.

Lemma l2_write_then_read_witness :
  exists data, @l2_read toy_wire ex_env ex_headers {| l2r_item_id := "i7" |}
      (@l2_write toy_crypto toy_wire ex_env ex_headers (ex_write "i7" "hello") (ex_app ex_db)).1
    = ((@l2_write toy_crypto toy_wire ex_env ex_headers (ex_write "i7" "hello") (ex_app ex_db)).1,
       ok_json (l2_read_json {| res_data := Str "hello"; res_item_type := "entity"; res_meta :=
         {| mres_owner_id := None; mres_visibility := "group"; mres_group_id := Some "g"%string;
            mres_author_id := Some "alice"%string; mres_key_version := 3;
            mres_checksum := Some (@sha256_hex toy_crypto data); mres_parent_id := None; mres_is_copy := false |} |})).
Proof.
  pose proof (@l2_write_then_read toy_crypto toy_wire ex_env ex_env ex_headers ex_headers
    (ex_write "i7" "hello") (ex_app ex_db) (Str "hello") eq_refl) as H.
  destruct (@l2_write toy_crypto toy_wire ex_env ex_headers (ex_write "i7" "hello") (ex_app ex_db)) as [s1 r] eqn:E.
  assert (r = ok_true) as Hr.
  { change r with (s1, r).2. rewrite <- E. vm_compute. reflexivity. }
  destruct H as (data & _ & H).
  - intros data [= <-]. reflexivity.
  - apply ex_app_up. reflexivity.
  - reflexivity.
  - exact Hr.
  - exists data. exact H.
Defined.

Lemma deleted_group_is_hidden_witness :
  (@groups_delete toy_wire ex_env ex_headers {| gdl_group_id := "g" |} (ex_app ex_db)).2 = ok_true.
Proof.
  pose proof (@deleted_group_is_hidden toy_crypto sorted_iter toy_wire ex_env ex_env ex_headers ex_headers "g" (ex_app ex_db)) as H.
  destruct (@groups_delete toy_wire ex_env ex_headers {| gdl_group_id := "g" |} (ex_app ex_db)) as [s' r].
  destruct H as [H _].
  - apply ex_app_wf.
  - apply ex_app_up. reflexivity.
  - intros name. reflexivity.
  - vm_compute. reflexivity.
  - reflexivity.
  - reflexivity.
  - vm_compute. eexists. reflexivity.
  - exact H.
Defined.

Definition ex_removed : AppState := ex_app (remove_member ex_env "g" "alice" ex_db).1.

Lemma posture_update_revives_removed_witness :
  (@groups_update_posture toy_wire ex_env ex_headers
     {| up_group_id := "g"; up_entity_id := "alice"; up_posture := "active" |} ex_removed).2 = ok_true.
Proof.
  destruct (group_members (storage ex_removed) !! ("g", "alice")%string) as [m|] eqn:Hm; [|vm_compute in Hm; discriminate].
  destruct (@posture_update_revives_removed toy_wire ex_env ex_headers "g" "alice" m ex_removed) as [_ H].
  - apply ex_app_up. vm_compute. reflexivity.
  - reflexivity.
  - exact Hm.
  - vm_compute in Hm. injection Hm as <-. reflexivity.
  - destruct (@groups_update_posture toy_wire ex_env ex_headers _ ex_removed) as [s' r]. destruct H as [H _]. exact H.
Defined.

Lemma search_in_group_witness :
  exists rs, (@l2_search toy_wire (fun _ _ _ => Ok ["i1"; "zz"; "i2"]%string) ex_env ex_headers
      {| l2s_query := "hello world"; l2s_limit := 1; l2s_group_id := Some "g"%string |} (ex_app ex_db)).2
    = ok_json (Object [("results"%string, json_strs rs)]) /\ (length rs <= 1)%nat.
Proof.
  destruct (@search_in_group toy_wire (fun _ _ _ => Ok ["i1"; "zz"; "i2"]%string) ex_env ex_headers
    "hello world" 1 "g" ["i1"; "zz"; "i2"]%string (ex_app ex_db)) as (rs & Hs & _ & Hlen & _).
  - apply ex_app_up. reflexivity.
  - reflexivity.
  - vm_compute. reflexivity.
  - reflexivity.
  - exists rs. rewrite Hs. split; [reflexivity | exact Hlen].
Defined.
