(* ===== verification/EndToEnd.v ===== *)
(** * From one node's API to another's

    The parts composed along the path of a write: the API handler of the node
    that takes the write, its replication task (notification, buffer, flush),
    the swarm task of a peer that receives the push, and the peer's API. *)

From S2P Require Import Prelude Float64 Protocol Governor Storage StorageProps Search Json.
From S2P Require Import ItemStore Replication ReplicationProps PeerPool Config SwarmTask SwarmProps.
From S2P Require Import ReplicationTask ReplicationTaskProps Api ApiProps.

(** ** From the notification to the wire *)

(** What the engine broadcasts for a notification. *)
Definition announced `{Crypto} (eng : ReplicationEngine) (ts : string) (gid : GroupId) (n : WriteNotification) : FetchedItem := {|
  fi_item_id := wn_item_id n; fi_item_type := wn_item_type n; fi_encrypted_blob := wn_data n;
  fi_checksum := sha256_hex (wn_data n); fi_author_id := re_entity_id eng; fi_group_id := gid;
  fi_key_version := wn_key_version n; fi_parent_id := wn_parent_id n; fi_is_copy := wn_is_copy n;
  fi_updated_at := ts |}.

Section push.
Context `{CR : Crypto} `{HI : HashIter}.
Context (parse_culture : string -> option GroupCulture) (env : SqlEnv) (eng : ReplicationEngine).

(** The group's items are pushed as they are written. *)
Definition pushes_eagerly (gid : GroupId) (r : Repl) : Prop :=
  strategy (default default_culture (load_group_culture parse_culture env gid (rt_db r))) = EagerPush.

Lemma on_write_buffers ts n gid r :
  wn_group_id n = Some gid -> Z.of_nat (length (wn_data n)) <= MAX_ITEM_BYTES -> pushes_eagerly gid r ->
  on_write_notification parse_culture env eng ts n r =
  rt_set_buffer (<[gid := default [] (write_buffer r !! gid) ++ [announced eng ts gid n]]> (write_buffer r)) r.
Proof.
  intros Hg Hsz He. unfold on_write_notification. rewrite Hg. unfold on_local_write, pushes_eagerly in *. rewrite He.
  by destruct (Z.ltb_spec MAX_ITEM_BYTES (Z.of_nat (length (wn_data n)))); [lia|].
Qed.

(** Every batch of a group's buffer goes to every target of the group. *)
Lemma flush_group_batches now gid items s b id :
  b ∈ split_into_batches items -> push_target gid id (rt_pool s) ->
  CmdPush id {| mpr_items := b |} ∈ (flush_group now true gid items s).2.
Proof.
  intros Hb (h & Hh & <-)%push_target_iff. unfold flush_group. case_bool_decide as Hemp.
  { subst items. by apply elem_of_nil in Hb. }
  case_bool_decide as Hp. { apply length_zero_iff_nil in Hp. rewrite Hp in Hh. by apply elem_of_nil in Hh. }
  pose proof (send_batches_spec (active_peers_for_group_or_relays gid (rt_pool s)) (split_into_batches items) s) as [_ Hs].
  destruct (send_batches _ _ _ s) as [s1 out]. cbn [fst snd] in *. subst out. apply elem_of_push_commands. eauto.
Qed.

Lemma on_flush_batches now gid items s b id :
  write_buffer s !! gid = Some items -> b ∈ split_into_batches items -> push_target gid id (rt_pool s) ->
  CmdPush id {| mpr_items := b |} ∈ (on_flush now true s).2.
Proof.
  intros Hg%elem_of_hash_iter Hb Ht. unfold on_flush.
  apply list_elem_of_split in Hg as (l1 & l2 & ->). rewrite foldl_app. cbn [foldl].
  pose proof (flush_loop now l1 (rt_set_buffer ∅ s) []) as H1.
  destruct (foldl _ (rt_set_buffer ∅ s, []) l1) as [s1 o1]. destruct H1 as (_ & Ht1 & _).
  pose proof (flush_group_batches now gid items s1 b id Hb) as Hin. cbn [fst snd].
  destruct (flush_group now true gid items s1) as [s2 o2]. cbn [snd] in Hin.
  assert (CmdPush id {| mpr_items := b |} ∈ o1 ++ o2) as Hin2. { apply elem_of_app. right. by apply Hin, Ht1. }
  clear -Hin2. revert s2 Hin2. generalize (o1 ++ o2) as o.
  induction l2 as [|[g its] l2 IH]; intros o s2 Hin; [done|]. cbn [foldl]. destruct (flush_group _ _ _ _ s2) as [s3 o3].
  apply IH. apply elem_of_app. by left.
Qed.

(** A lone write is pushed as a batch of its own. *)
Lemma lone_write_pushed ts now n gid r id :
  wn_group_id n = Some gid -> Z.of_nat (length (wn_data n)) <= MAX_ITEM_BYTES -> pushes_eagerly gid r ->
  write_buffer r !! gid = None -> push_target gid id (rt_pool r) ->
  CmdPush id {| mpr_items := [announced eng ts gid n] |}
    ∈ (on_flush now true (on_write_notification parse_culture env eng ts n r)).2.
Proof.
  intros Hg Hsz He Hw Ht. rewrite (on_write_buffers ts n gid r) by done.
  apply (on_flush_batches now gid [announced eng ts gid n]); [|by left|done].
  cbn [write_buffer rt_set_buffer]. by rewrite lookup_insert_eq, Hw.
Qed.

(** Otherwise it ends the batch that it is pushed in, after the last of the buffered items. *)
Lemma last_batch items x : exists pre, pre `suffix_of` items /\ pre ++ [x] ∈ split_into_batches (items ++ [x]).
Proof.
  destruct (split_batches_spec (items ++ [x])) as [Hc Hok]. revert Hc Hok. generalize (split_into_batches (items ++ [x])) as bs.
  intros bs. destruct bs as [|b bs _] using rev_ind; intros Hc Hok; [by destruct items|].
  apply Forall_app in Hok as [_ [Hne _]%Forall_singleton]. rewrite concat_app in Hc. cbn in Hc. rewrite app_nil_r in Hc.
  destruct b as [|y b _] using rev_ind; [done|]. rewrite app_assoc in Hc. apply app_inj_tail in Hc as [Hc ->].
  exists b. split; [by exists (concat bs)|]. apply elem_of_app; right; by left.
Qed.

(** The items of the group that wait for the next flush. *)
Definition buffered (gid : GroupId) (r : Repl) : list FetchedItem := default [] (write_buffer r !! gid).

Lemma write_pushed ts now n gid r id :
  wn_group_id n = Some gid -> Z.of_nat (length (wn_data n)) <= MAX_ITEM_BYTES -> pushes_eagerly gid r ->
  push_target gid id (rt_pool r) ->
  exists pre, pre `suffix_of` buffered gid r
    /\ CmdPush id {| mpr_items := pre ++ [announced eng ts gid n] |}
         ∈ (on_flush now true (on_write_notification parse_culture env eng ts n r)).2.
Proof.
  intros Hg Hsz He Ht. rewrite (on_write_buffers ts n gid r) by done.
  destruct (last_batch (buffered gid r) (announced eng ts gid n)) as (pre & Hpre & Hb). exists pre. split; [done|].
  apply (on_flush_batches now gid (buffered gid r ++ [announced eng ts gid n])); [|done|done]. apply lookup_insert_eq.
Qed.

End push.

(** ** At the peer *)

Section receive.
Context `{CR : Crypto} `{WF : WireFormats} (env : SqlEnv).

Abbreviation dbview := (@store_view Db CR (sqlite_store env) (sqlite_store_laws env)) (only parsing).

Lemma push_one item groups relay d :
  (handle_push_request env {| mpr_items := [item] |} groups relay d).1
  = (@on_receive _ Db (sqlite_store env) item groups relay d).1.
Proof.
  unfold handle_push_request, push_step. cbn [foldl mpr_items].
  by destruct (@on_receive _ Db (sqlite_store env) item groups relay d) as [d' [| |why]].
Qed.

Lemma content_row d id c : dbview d !! id = Some c -> exists row, l2_items d !! id = Some row /\ content_of row = c.
Proof. change (dbview d) with (content_of <$> l2_items d). rewrite lookup_fmap.
  intros (row & Hrow & ->)%fmap_Some. eauto. Qed.

(** A push that ends with an acceptable item that is news after the others. *)
Lemma push_stores pre item groups relay d :
  sqlite_up env d -> acceptable groups relay item = true ->
  supersedes item (dbview (@deliver _ Db (sqlite_store env) groups relay pre d) !! fi_item_id item) = true ->
  let d' := (handle_push_request env {| mpr_items := pre ++ [item] |} groups relay d).1 in
  sqlite_up env d' /\ exists row, l2_items d' !! fi_item_id item = Some row /\ content_of row = content_of_item item.
Proof.
  intros Hup Hacc Hsup d'. unfold d', handle_push_request. cbn [mpr_items]. rewrite (push_deliver env groups relay).
  set (d1 := @deliver _ Db (sqlite_store env) groups relay pre d) in *.
  assert (@deliver _ Db (sqlite_store env) groups relay (pre ++ [item]) d = (@on_receive _ Db (sqlite_store env) item groups relay d1).1) as ->.
  { unfold d1, deliver. by rewrite foldl_app. }
  assert (sqlite_up env d1) as Hup1 by (exact (deliver_up (LAWS := sqlite_store_laws env) groups relay pre d Hup)).
  split; [exact (receive_up (LAWS := sqlite_store_laws env) groups relay item d1 Hup1)|].
  destruct (receive_acceptable (LAWS := sqlite_store_laws env) groups relay item d1 Hup1 Hacc) as [Hv _].
  rewrite Hsup in Hv. apply content_row. rewrite Hv. apply lookup_insert_eq.
Qed.

(** The answer of [l2_read] is a function of the content of the row. *)
Definition content_response (c : Content) : L2ReadResponse := {|
  res_data := default Null (json_from_slice (c_data c));
  res_item_type := c_type c;
  res_meta := {|
    mres_owner_id := c_owner c; mres_visibility := c_visibility c; mres_group_id := c_group c;
    mres_author_id := c_author c; mres_key_version := c_key_version c; mres_checksum := c_checksum c;
    mres_parent_id := c_parent c; mres_is_copy := c_is_copy c |} |}.

Lemma read_response_content row c : content_of row = c -> read_response row = content_response c.
Proof. by intros <-. Qed.

Lemma l2_read_up h id s row :
  sqlite_up env (storage s) -> authorised h s -> l2_items (storage s) !! id = Some row ->
  l2_read env h {| l2r_item_id := id |} s = (s, ok_json (l2_read_json (read_response row))).
Proof.
  intros Hup Ha Hr. unfold l2_read. rewrite authed_ok by done. unfold api_bind, call. cbn [l2r_item_id].
  rewrite read_item_eq, Hr by done. cbv beta iota zeta. unfold respond. by rewrite set_storage_id.
Qed.

End receive.

(** An item that passed the checks of [l2_write] passes those of every node that
    accepts its group. *)
Lemma announced_acceptable `{Crypto} eng ts gid n groups relay :
  Z.of_nat (length (wn_data n)) <= MAX_ITEM_BYTES -> type_ok (wn_item_type n) = true ->
  accepts groups relay gid = true -> acceptable groups relay (announced eng ts gid n) = true.
Proof.
  intros Hsz Hty Hacc. unfold acceptable. rewrite !andb_true_iff. split_and!.
  - by apply Z.leb_le.
  - done.
  - apply negb_true_iff, String.eqb_neq. cbn. intros Ht. by rewrite Ht in Hty.
  - done.
  - apply String.eqb_refl.
Qed.

(** What an [l2_read] at another node answers about an item written with [req]. *)
Definition copy_response `{Crypto} (author : string) (gid : GroupId) (req : L2WriteRequest) (data : bytes) : L2ReadResponse :=
  let meta := default no_meta (l2w_meta req) in {|
  res_data := l2w_data req;
  res_item_type := l2w_item_type req;
  res_meta := {|
    mres_owner_id := None;
    mres_visibility := "group";
    mres_group_id := Some gid;
    mres_author_id := Some author;
    mres_key_version := default 1 (wm_key_version meta);
    mres_checksum := Some (sha256_hex data);
    mres_parent_id := wm_parent_id meta;
    mres_is_copy := default false (wm_is_copy meta) |} |}.

(** The node that receives the push has nothing newer and not this content. *)
Definition news_at `{Crypto} (ts : string) (id : string) (data : bytes) (d : Db) : Prop :=
  forall row, l2_items d !! id = Some row -> l2_checksum row <> Some (sha256_hex data) /\ str_lt (l2_updated_at row) ts = true.

(** Nor have the items that are pushed before it. *)
Definition news_after `{Crypto} (ts : string) (id : string) (data : bytes) (l : list FetchedItem) : Prop :=
  forall y, y ∈ l -> fi_item_id y = id -> fi_checksum y <> sha256_hex data /\ str_lt (fi_updated_at y) ts = true.

Lemma news_after_suffix `{Crypto} ts id data l l' : l `suffix_of` l' -> news_after ts id data l' -> news_after ts id data l.
Proof. intros [k ->] Hn y Hy. apply Hn, elem_of_app. by right. Qed.

Lemma deliver_news `{Crypto} env groups relay ts id data l d :
  news_at ts id data d -> news_after ts id data l -> news_at ts id data (@deliver _ Db (sqlite_store env) groups relay l d).
Proof.
  unfold deliver. revert d. induction l as [|y l IH]; intros d Hd Hl; [done|]. cbn [foldl]. apply IH.
  2: { intros z Hz. apply Hl. by right. }
  destruct (receive_effect (LAWS := sqlite_store_laws env) groups relay y d) as [Hother Heff]. intros row Hrow.
  assert (forall d, @store_view Db _ (sqlite_store env) (sqlite_store_laws env) d !! id = content_of <$> l2_items d !! id) as Hview
    by (intros; apply lookup_fmap).
  assert (l2_items d !! id = Some row \/ content_of <$> l2_items d !! id = Some (content_of row) \/
    (fi_item_id y = id /\ validate_checksum y = true /\ content_of row = content_of_item y)) as Hcases.
  { destruct (decide (id = fi_item_id y)) as [->|Hne].
    - destruct (on_receive y groups relay d) as [d' o]. cbn [fst snd] in *. destruct o.
      + destruct Heff as (_ & _ & Heff). rewrite !Hview, Hrow in Heff. destruct (String.eqb _ _); [by destruct Heff|].
        destruct Heff as (Hck & _ & Hc). right. right. split_and!; [done..|]. by apply (inj Some).
      + right. left. by rewrite <- Hview, <- Heff, Hview, Hrow.
      + right. left. by rewrite <- Hview, <- Heff, Hview, Hrow.
    - right. left. by rewrite <- Hview, <- (Hother id Hne), Hview, Hrow. }
  destruct Hcases as [Hr|[(row0 & Hr0 & Hc)%fmap_Some|(Hid & Hck & Hc)]].
  - by apply Hd.
  - destruct (Hd row0 Hr0) as [H1 H2]. apply (f_equal c_checksum) in Hc as Hc1. apply (f_equal c_updated_at) in Hc as Hc2. cbn in Hc1, Hc2.
    by rewrite Hc1, Hc2.
  - destruct (Hl y ltac:(left) Hid) as [H1 H2]. apply (f_equal c_checksum) in Hc as Hc1. apply (f_equal c_updated_at) in Hc as Hc2. cbn in Hc1, Hc2.
    rewrite Hc1, Hc2. split; [|done]. rewrite (validated_checksum y Hck). congruence.
Qed.

Lemma news_supersedes `{Crypto} env eng ts gid n d :
  news_at ts (wn_item_id n) (wn_data n) d ->
  supersedes (announced eng ts gid n) (@store_view Db _ (sqlite_store env) (sqlite_store_laws env) d !! wn_item_id n) = true.
Proof.
  intros Hnews. change (@store_view Db _ (sqlite_store env) (sqlite_store_laws env) d) with (content_of <$> l2_items d).
  rewrite lookup_fmap. destruct (l2_items d !! wn_item_id n) as [row|] eqn:E; [|done]. destruct (Hnews row E) as [Hck Hlt].
  cbn. rewrite bool_decide_eq_false_2 by exact Hck. by rewrite Hlt.
Qed.

(** The push of an accepted write, read back where it arrives. *)
Lemma push_read_back `{Crypto} `{WireFormats} envB hB eng ts gid entity req data pre sB groupsB relay :
  let n := notification_of (write_of_request entity req data) in
  json_from_slice data = Some (l2w_data req) -> Z.of_nat (length data) <= MAX_ITEM_BYTES -> type_ok (l2w_item_type req) = true ->
  - 2 ^ 31 <= default 1 (wm_key_version (default no_meta (l2w_meta req))) < 2 ^ 31 ->
  accepts groupsB relay gid = true -> sqlite_up envB (storage sB) -> authorised hB sB ->
  news_at ts (l2w_item_id req) data (storage sB) -> news_after ts (l2w_item_id req) data pre ->
  let dB := (handle_push_request envB {| mpr_items := pre ++ [announced eng ts gid n] |} groupsB relay (storage sB)).1 in
  (l2_read envB hB {| l2r_item_id := l2w_item_id req |} (set_storage dB sB)).2 =
  ok_json (l2_read_json (copy_response (re_entity_id eng) gid req data)).
Proof.
  intros n Hjson Hsz Hty Hkv Hacc Hup Ha Hnews Hpre dB.
  destruct (push_stores envB pre (announced eng ts gid n) groupsB relay (storage sB)) as [Hup' (row & Hrow & Hc)];
    [done|by apply announced_acceptable|by apply (news_supersedes envB eng ts gid n), deliver_news|].
  rewrite (l2_read_up envB hB (l2w_item_id req) _ row); [|exact Hup'|done|exact Hrow]. cbn [snd]. do 2 f_equal.
  rewrite (read_response_content row _ Hc). unfold content_response, copy_response. cbn. rewrite Hjson. by rewrite u32_i32_roundtrip.
Qed.

(** [C3] Written here, read there: when a node's API accepts an item for a group that
    pushes eagerly, the notification it sends makes the replication task push
    the item, at its next flush and after whatever is buffered already, to every
    connected peer that shares the group or is a relay; and a peer that belongs to
    the group answers an [l2_read] after that push with the JSON value that was
    written, its type, group, key version and lineage.  The rest of the metadata
    is not that of the request: the author is the entity of the writing node,
    whoever the request named, the owner is none and the visibility is group.
    Asked: neither the peer nor the buffer has this content or a newer version of
    the item, and the peer's store works. *)
Theorem written_here_read_there `{Crypto} `{HashIter} `{WireFormats} parse_culture envA envB eng h hB req gid ts now sA r idB sB groupsB :
  let v := l2w_data req in
  let meta := default no_meta (l2w_meta req) in
  let '(sA', resp) := l2_write envA h req sA in
  resp = ok_true -> wm_group_id meta = Some gid -> - 2 ^ 31 <= default 1 (wm_key_version meta) < 2 ^ 31 ->
  (forall data, json_to_vec v = Ok data -> json_from_slice data = Some v) ->
  rt_db r = storage sA' -> pushes_eagerly parse_culture envA gid r ->
  push_target gid idB (rt_pool r) ->
  sqlite_up envB (storage sB) -> authorised hB sB -> gid ∈ groupsB ->
  (forall data, json_to_vec v = Ok data ->
     news_after ts (l2w_item_id req) data (buffered gid r) /\ news_at ts (l2w_item_id req) data (storage sB)) ->
  exists n data batch,
    json_to_vec v = Ok data
    /\ write_notify sA' = bc_send n <$> write_notify sA
    /\ CmdPush idB {| mpr_items := batch |} ∈ (on_flush now true (on_write_notification parse_culture envA eng ts n r)).2
    /\ let dB := (handle_push_request envB {| mpr_items := batch |} groupsB None (storage sB)).1 in
       (l2_read envB hB {| l2r_item_id := l2w_item_id req |} (set_storage dB sB)).2 =
       ok_json (l2_read_json (copy_response (re_entity_id eng) gid req data)).
Proof.
  intros v meta. destruct (l2_write envA h req sA) as [sA' resp] eqn:E.
  intros -> Hgid Hkv Hjson Hdb Heager Htgt Hup HaB HgB Hnews.
  apply l2_write_cases in E as [(_ & Hs & _)|(data & _ & Hd & Hsz & Hok & -> & _)]; [done|].
  fold v in Hd. set (w := write_of_request (entity_id sA) req data) in *. set (n := notification_of w).
  apply andb_prop in Hok as [Hty _]. destruct (Hnews data Hd) as [Hbuf HnB].
  destruct (write_pushed parse_culture envA eng ts now n gid r idB) as (pre & Hpre & Hcmd); [done..|].
  exists n, data, (pre ++ [announced eng ts gid n]). split_and!; [done|done|done|].
  apply push_read_back; try done; [by apply Hjson|by apply contains_true|by eapply news_after_suffix].
Qed.

(** ** Deleting *)

Section delete.
Context `{WF : WireFormats}.

Lemma read_meta_up env id d :
  sqlite_up env d ->
  read_l2_item_meta env id d = (d, Ok ((fun r => {| lm_owner_id := l2_owner_id r; lm_visibility := l2_visibility r;
    lm_group_id := l2_group_id r; lm_author_id := l2_author_id r; lm_key_version := l2_key_version r;
    lm_parent_id := l2_parent_id r; lm_is_copy := l2_is_copy r |}) <$> l2_items d !! id)).
Proof. intros [Hl Hf]. unfold read_l2_item_meta. rewrite with_lock by done. unfold query, stmt. by rewrite Hf. Qed.

Lemma delete_item_up env id d :
  sqlite_up env d ->
  delete_l2_item env id d = (set_l2_items (delete id (l2_items d)) d, Ok (bool_decide (is_Some (l2_items d !! id)))).
Proof. intros [Hl Hf]. unfold delete_l2_item. rewrite with_lock by done. unfold stmt. by rewrite Hf. Qed.

Lemma l2_delete_group_item env h id s row gid :
  sqlite_up env (storage s) -> authorised h s -> l2_items (storage s) !! id = Some row -> l2_group_id row = Some gid ->
  l2_delete env h {| l2d_item_id := id |} s =
  (notify (tombstone_notification id gid (l2_key_version row))
     (set_storage (set_l2_items (delete id (l2_items (storage s))) (storage s)) s), ok_true).
Proof.
  intros Hup Ha Hr Hg. unfold l2_delete. rewrite authed_ok by done. unfold api_bind, call, modify, respond. cbn [l2d_item_id].
  rewrite read_meta_up, Hr by done. cbn [storage set_storage]. rewrite delete_item_up by done.
  rewrite bool_decide_eq_true_2 by (rewrite Hr; by eexists). cbn. by rewrite Hg.
Qed.

Lemma l2_read_missing env h id s :
  sqlite_up env (storage s) -> authorised h s -> l2_items (storage s) !! id = None ->
  l2_read env h {| l2r_item_id := id |} s = (s, not_found "not found").
Proof.
  intros Hup Ha Hr. unfold l2_read. rewrite authed_ok by done. unfold api_bind, call. cbn [l2r_item_id].
  rewrite read_item_eq, Hr by done. cbv beta iota zeta. unfold respond. by rewrite set_storage_id.
Qed.

End delete.

(** A push of one tombstone removes the item. *)
Lemma push_tombstone `{Crypto} env item groups relay d :
  sqlite_up env d -> fi_item_type item = TOMBSTONE -> blob_len item <= MAX_ITEM_BYTES ->
  accepts groups relay (fi_group_id item) = true ->
  (handle_push_request env {| mpr_items := [item] |} groups relay d).1 = set_l2_items (delete (fi_item_id item) (l2_items d)) d.
Proof.
  intros Hup Ht Hsz Hacc. rewrite push_one. unfold on_receive.
  destruct (Z.ltb_spec MAX_ITEM_BYTES (blob_len item)); [lia|]. rewrite Hacc, Ht. cbn [negb].
  replace (String.eqb TOMBSTONE TOMBSTONE) with true by done. cbn [store_delete sqlite_store].
  rewrite delete_item_up by done. by case_match.
Qed.

(** [C22] Deleted here, deleted there: deleting an item of an eagerly pushing group
    through the API answers 200, the item is gone at once, and the tombstone
    that the next flush pushes to every connected peer of the group makes the
    peer's [l2_read] answer 404, whatever version the peer had. *)
Theorem deleted_here_deleted_there `{Crypto} `{HashIter} `{WireFormats} parse_culture envA envB eng h hB id row gid ts now sA r idB sB groupsB :
  sqlite_up envA (storage sA) -> authorised h sA ->
  l2_items (storage sA) !! id = Some row -> l2_group_id row = Some gid ->
  let '(sA', resp) := l2_delete envA h {| l2d_item_id := id |} sA in
  rt_db r = storage sA' -> pushes_eagerly parse_culture envA gid r -> write_buffer r !! gid = None ->
  push_target gid idB (rt_pool r) ->
  sqlite_up envB (storage sB) -> authorised hB sB -> gid ∈ groupsB ->
  resp = ok_true
  /\ (l2_read envA h {| l2r_item_id := id |} sA').2 = not_found "not found"
  /\ exists n batch,
    write_notify sA' = bc_send n <$> write_notify sA
    /\ CmdPush idB {| mpr_items := batch |} ∈ (on_flush now true (on_write_notification parse_culture envA eng ts n r)).2
    /\ let dB := (handle_push_request envB {| mpr_items := batch |} groupsB None (storage sB)).1 in
       (l2_read envB hB {| l2r_item_id := id |} (set_storage dB sB)).2 = not_found "not found".
Proof.
  intros HupA Ha Hrow Hg. rewrite (l2_delete_group_item envA h id sA row gid) by done.
  intros Hdb Heager Hbuf Htgt HupB HaB HgB. set (n := tombstone_notification id gid (l2_key_version row)).
  split_and!; [done| |].
  { by rewrite l2_read_missing; [| |apply Ha|apply lookup_delete_eq]. }
  exists n, [announced eng ts gid n]. split_and!; [done|by apply lone_write_pushed|].
  cbv zeta. rewrite push_tombstone; [|done|done|done|by apply contains_true].
  by rewrite l2_read_missing; [| |apply HaB|apply lookup_delete_eq].
Qed.

(** ** Witnesses *)

(** The replication task of the writing node, with the eager group "g" and one peer. *)
Definition ex_task (d : Db) : Repl := {|
  rt_db := d; rt_pool := ex_pool; pending_pushes := []; next_sync_at := ∅;
  last_sync_at := ∅; sync_cycle_count := ∅; write_buffer := ∅; rt_stats := no_stats |}.

Definition ex_engine : ReplicationEngine := {| re_config := default_replication_config; re_entity_id := "alice" |}.

Lemma ex_target : push_target "g" "h1" ex_pool.
Proof. exists "h1"%string, (ex_handle "h1" Hot). split_and!; try reflexivity. right. vm_compute. reflexivity. Qed.

Definition ex_sent : AppState :=
  (@l2_write toy_crypto toy_wire ex_env ex_headers (ex_write "i7" "hello") (ex_app ex_db)).1.

Lemma written_here_read_there_witness :
  exists batch, CmdPush "h1" {| mpr_items := batch |}
      ∈ (@on_flush sorted_iter 5 true (@on_write_notification toy_crypto (fun _ => None) ex_env ex_engine "2026-02-01T10:00:00"
           (@notification_of (@write_of_request "alice" (ex_write "i7" "hello") (str_bytes "hello"))) (ex_task (storage ex_sent)))).2.
Proof.
  pose proof (@written_here_read_there toy_crypto sorted_iter toy_wire (fun _ => None) ex_env ex_env ex_engine ex_headers ex_headers
    (ex_write "i7" "hello") "g" "2026-02-01T10:00:00" 5 (ex_app ex_db) (ex_task (storage ex_sent)) "h1" (ex_app ex_db) ["g"%string]) as H.
  unfold ex_sent in *.
  destruct (@l2_write toy_crypto toy_wire ex_env ex_headers (ex_write "i7" "hello") (ex_app ex_db)) as [s' resp] eqn:E.
  destruct H as (n & data & batch & Hd & Hn & Hin & _).
  - change resp with (s', resp).2. rewrite <- E. vm_compute. reflexivity.
  - reflexivity.
  - cbn. lia.
  - intros data [= <-]. reflexivity.
  - reflexivity.
  - change s' with (s', resp).1. rewrite <- E. vm_compute. reflexivity.
  - apply ex_target.
  - apply ex_app_up. reflexivity.
  - reflexivity.
  - left.
  - intros data _. split; [intros y Hy; by apply elem_of_nil in Hy|]. intros row Hrow. vm_compute in Hrow. discriminate.
  - exists batch. change s' with (s', resp).1 in Hn. rewrite <- E in Hn. vm_compute in Hn. injection Hn as Hn. subst n.
    exact Hin.
Defined.

Lemma deleted_here_deleted_there_witness :
  (@l2_delete toy_wire ex_env ex_headers {| l2d_item_id := "i1" |} (ex_app ex_db)).2 = ok_true.
Proof.
  destruct (l2_items (storage (ex_app ex_db)) !! "i1"%string) as [row|] eqn:Hrow; [|vm_compute in Hrow; discriminate].
  pose proof (@deleted_here_deleted_there toy_crypto sorted_iter toy_wire (fun _ => None) ex_env ex_env ex_engine ex_headers ex_headers
    "i1" row "g" "2026-02-01T10:00:00" 5 (ex_app ex_db)
    (ex_task (storage (@l2_delete toy_wire ex_env ex_headers {| l2d_item_id := "i1" |} (ex_app ex_db)).1))
    "h1" (ex_app ex_db) ["g"%string]) as H.
  destruct (@l2_delete toy_wire ex_env ex_headers {| l2d_item_id := "i1" |} (ex_app ex_db)) as [s' resp] eqn:E.
  destruct H as [H _].
  - apply ex_app_up. reflexivity.
  - reflexivity.
  - exact Hrow.
  - vm_compute in Hrow. injection Hrow as <-. reflexivity.
  - reflexivity.
  - change s' with (s', resp).1. rewrite <- E. vm_compute. reflexivity.
  - reflexivity.
  - apply ex_target.
  - apply ex_app_up. reflexivity.
  - reflexivity.
  - left.
  - exact H.
Defined.

(** The author of a request does not travel: the node that took the write answers with the
    author that the request named, a peer that got the push with the entity of that node. *)
Definition ex_by_carol : L2WriteRequest := {|
  l2w_item_id := "i8"; l2w_item_type := "entity"; l2w_data := Str "hello";
  l2w_meta := Some {| wm_visibility := Some "group"; wm_group_id := Some "g"; wm_owner_id := None; wm_author_id := Some "carol";
                      wm_key_version := None; wm_parent_id := None; wm_is_copy := None |} |}%string.

Definition author_answered (r : HttpResponse) : option Value :=
  match body r with
  | Json (Object ms) =>
      match find (fun kv => String.eqb kv.1 "meta") ms with
      | Some (_, Object meta) => snd <$> find (fun kv => String.eqb kv.1 "author_id") meta
      | _ => None
      end
  | _ => None
  end%string.

Lemma pushed_copy_changes_author :
  let sA := (@l2_write toy_crypto toy_wire ex_env ex_headers ex_by_carol (ex_app ex_db)).1 in
  let n := @notification_of (@write_of_request "alice" ex_by_carol (str_bytes "hello")) in
  let dB := (@handle_push_request toy_crypto ex_env {| mpr_items := [@announced toy_crypto ex_engine "2026-02-01T10:00:00" "g" n] |}
               ["g"%string] None ex_db).1 in
  author_answered (@l2_read toy_wire ex_env ex_headers {| l2r_item_id := "i8" |} sA).2 = Some (Str "carol")
  /\ author_answered (@l2_read toy_wire ex_env ex_headers {| l2r_item_id := "i8" |} (ex_app dB)).2 = Some (Str "alice").
Proof. split; vm_compute; reflexivity. Qed.
