(* ===== verification/RelayPath.v ===== *)
(** * Through a relay

    The path of a write when the reader is connected to a relay only: the push
    that [EndToEnd.v] follows arrives at the relay, which stores it and forwards
    the request to its other connected peers (swarm_task.rs, the re-push after
    [handle_push_request]); the reader's node receives the forwarded push.  What
    the relay forwards is the request as it came, and only when it stored
    something of it. *)

From S2P Require Import Prelude Float64 Protocol Governor Storage StorageProps Search Json.
From S2P Require Import ItemStore Replication ReplicationProps PeerPool Config SwarmTask SwarmProps.
From S2P Require Import ReplicationTask ReplicationTaskProps Api ApiProps EndToEnd.

Section relay.
Context `{CR : Crypto} `{HI : HashIter} (env : SqlEnv) (rx : RelayCtx).

(** When a relay stores something of a push, every other connected peer gets the whole
    request: the items that the relay refused too. *)
Lemma stored_push_forwarded peer req ch s h :
  is_Some (rx_posture rx) -> 0 < ack_stored (handle_push_request env req (sw_groups s) (relay_check rx) (sw_db s)).2 ->
  h ∈ active_peers (sw_pool s) -> ph_node_id h <> peer ->
  ORequest (ph_node_id h) (RqPush req) ∈ (handle_push env rx peer req ch s).2.
Proof.
  intros Hp Hst Hh Hne. unfold handle_push. destruct (handle_push_request _ _ _ _ _) as [d ack]. cbn in Hst |- *.
  right. apply list_elem_of_fmap. exists (ph_node_id h). split; [by destruct req|]. unfold forward_peers.
  rewrite bool_decide_eq_true_2 by done. destruct (Z.ltb_spec 0 (ack_stored ack)); [|lia]. cbn [andb].
  apply list_elem_of_fmap. exists h. split; [done|]. apply elem_of_filterb. split; [|done]. by apply negb_true_iff, String.eqb_neq.
Qed.

(** Otherwise nobody gets anything. *)
Lemma unstored_push_stops peer req ch s :
  ack_stored (handle_push_request env req (sw_groups s) (relay_check rx) (sw_db s)).2 = 0 ->
  (handle_push env rx peer req ch s).2
  = [OResponse ch (RsPush (handle_push_request env req (sw_groups s) (relay_check rx) (sw_db s)).2)].
Proof.
  unfold handle_push, forward_peers. destruct (handle_push_request _ _ _ _ _) as [d ack]. cbn. intros ->.
  by rewrite andb_false_r.
Qed.

(** A push that ends with news counts something as stored. *)
Lemma news_counted eng ts gid n pre groups relay d :
  Z.of_nat (length (wn_data n)) <= MAX_ITEM_BYTES -> type_ok (wn_item_type n) = true -> accepts groups relay gid = true ->
  sqlite_up env d -> news_at ts (wn_item_id n) (wn_data n) d -> news_after ts (wn_item_id n) (wn_data n) pre ->
  Z.of_nat (length pre) < u32_max ->
  0 < ack_stored (handle_push_request env {| mpr_items := pre ++ [announced eng ts gid n] |} groups relay d).2.
Proof.
  intros Hsz Hty Hacc Hup Hnews Hpre Hlen. unfold handle_push_request. cbn [mpr_items].
  rewrite push_tally; [|done|lia|lia|rewrite length_app; cbn; unfold u32_max in *; lia]. cbn [ack_stored].
  rewrite verdicts_snoc, tally_snoc. set (v := @store_view Db _ (sqlite_store env) (sqlite_store_laws env) d).
  enough (judge (accepts groups relay) (foldl (absorb (accepts groups relay)) v pre) (announced eng ts gid n) = Taken) as ->.
  { rewrite decide_True by done. unfold tally. lia. }
  rewrite <- (deliver_absorbs (LAWS := sqlite_store_laws env) groups relay pre d Hup).
  assert (sqlite_up env (@deliver _ Db (sqlite_store env) groups relay pre d)) as Hup1 by (by apply (deliver_up (LAWS := sqlite_store_laws env))).
  destruct (receive_judged (LAWS := sqlite_store_laws env) groups relay (announced eng ts gid n) _ Hup1) as [<- _].
  destruct (receive_acceptable (LAWS := sqlite_store_laws env) groups relay (announced eng ts gid n) _ Hup1) as [_ ->];
    [by apply announced_acceptable|]. cbn [announced fi_item_id].
  by rewrite (news_supersedes env eng ts gid n) by (by apply deliver_news).
Qed.

End relay.

(** [C4] Written here, read behind a relay: when a node's API accepts an item for a
    group that pushes eagerly and the node is connected to a relay that accepts
    the group, the next flush pushes the item to the relay, after whatever is
    buffered already; the relay stores it and forwards the request to every other
    peer it is connected to; and such a peer that belongs to the group answers an
    [l2_read] with the JSON value that was written, its type, group, key version
    and lineage.  The author in the answer is the entity of the writing node,
    whoever the request named, the owner is none and the visibility is group.
    Asked: neither the relay, the reader nor the buffer has this content or a newer
    version of the item, the stores of relay and reader work, and fewer than 2^32 - 1
    items are buffered. *)
Theorem written_here_read_behind_relay `{Crypto} `{HashIter} `{WireFormats} parse_culture envA envR envB eng h hB req gid ts now
    sA r idA idR rx ch sR b sB groupsB :
  let v := l2w_data req in
  let meta := default no_meta (l2w_meta req) in
  let '(sA', resp) := l2_write envA h req sA in
  resp = ok_true -> wm_group_id meta = Some gid -> - 2 ^ 31 <= default 1 (wm_key_version meta) < 2 ^ 31 ->
  (forall data, json_to_vec v = Ok data -> json_from_slice data = Some v) ->
  rt_db r = storage sA' -> pushes_eagerly parse_culture envA gid r -> Z.of_nat (length (buffered gid r)) < u32_max ->
  push_target gid idR (rt_pool r) ->
  is_Some (rx_posture rx) -> accepts (sw_groups sR) (relay_check rx) gid = true -> sqlite_up envR (sw_db sR) ->
  b ∈ active_peers (sw_pool sR) -> ph_node_id b <> idA ->
  sqlite_up envB (storage sB) -> authorised hB sB -> gid ∈ groupsB ->
  (forall data, json_to_vec v = Ok data ->
     news_after ts (l2w_item_id req) data (buffered gid r)
     /\ news_at ts (l2w_item_id req) data (sw_db sR) /\ news_at ts (l2w_item_id req) data (storage sB)) ->
  exists n data batch,
    json_to_vec v = Ok data
    /\ write_notify sA' = bc_send n <$> write_notify sA
    /\ CmdPush idR {| mpr_items := batch |} ∈ (on_flush now true (on_write_notification parse_culture envA eng ts n r)).2
    /\ ORequest (ph_node_id b) (RqPush {| mpr_items := batch |}) ∈ (handle_push envR rx idA {| mpr_items := batch |} ch sR).2
    /\ let dB := (handle_push_request envB {| mpr_items := batch |} groupsB None (storage sB)).1 in
       (l2_read envB hB {| l2r_item_id := l2w_item_id req |} (set_storage dB sB)).2 =
       ok_json (l2_read_json (copy_response (re_entity_id eng) gid req data)).
Proof.
  intros v meta. destruct (l2_write envA h req sA) as [sA' resp] eqn:E.
  intros -> Hgid Hkv Hjson Hdb Heager Hlen Htgt Hpos Hacc HupR Hb Hne HupB HaB HgB Hnews.
  apply l2_write_cases in E as [(_ & Hs & _)|(data & _ & Hd & Hsz & Hok & -> & _)]; [done|].
  fold v in Hd. set (w := write_of_request (entity_id sA) req data) in *. set (n := notification_of w).
  apply andb_prop in Hok as [Hty _]. destruct (Hnews data Hd) as (Hbuf & HnR & HnB).
  destruct (write_pushed parse_culture envA eng ts now n gid r idR) as (pre & Hpre & Hcmd); [done..|].
  pose proof (news_after_suffix _ _ _ _ _ Hpre Hbuf) as Hbefore. apply suffix_length in Hpre.
  exists n, data, (pre ++ [announced eng ts gid n]). split_and!; [done|done|done| |].
  - apply stored_push_forwarded; [done| |done|done]. apply news_counted; try done. lia.
  - apply push_read_back; try done; [by apply Hjson|by apply contains_true].
Qed.

(** A deletion does not pass a relay that does not have the item: the tombstone counts
    as a duplicate there, nothing is stored and so nothing is forwarded, whatever the
    peers behind the relay hold. *)
Lemma tombstone_stops_at_relay `{Crypto} `{HashIter} env rx peer x ch s :
  sqlite_up env (sw_db s) -> fi_item_type x = TOMBSTONE -> l2_items (sw_db s) !! fi_item_id x = None ->
  (handle_push env rx peer {| mpr_items := [x] |} ch s).2
  = [OResponse ch (RsPush (handle_push_request env {| mpr_items := [x] |} (sw_groups s) (relay_check rx) (sw_db s)).2)].
Proof.
  intros Hup Ht Hno. apply unstored_push_stops. unfold handle_push_request, push_step. cbn [foldl mpr_items]. unfold on_receive.
  destruct (_ <? _); [done|]. destruct (negb _); [done|]. rewrite Ht. cbn [String.eqb]. cbn [store_delete sqlite_store].
  rewrite delete_item_up by done. by rewrite Hno.
Qed.

(** ** Example *)

(** A transparent relay that knows nothing of the group, connected to the peers of [ex_pool]. *)
Definition ex_open_relay : RelayCtx :=
  {| rx_posture := Some Transparent; rx_accepted := None; rx_accepted_readable := true; rx_blocked := ∅ |}.

Definition ex_relay_swarm : Swarm := {|
  sw_db := empty_db; sw_groups := []; sw_pool := ex_pool; pending_peer_share := ∅; pending_sync := ∅;
  pending_fetch := ∅; pending_group_exchange := ∅ |}.

Lemma written_here_read_behind_relay_witness :
  exists batch, ORequest "h2" (RqPush {| mpr_items := batch |})
    ∈ (@handle_push toy_crypto sorted_iter ex_env ex_open_relay "a" {| mpr_items := batch |} 7 ex_relay_swarm).2.
Proof.
  pose proof (@written_here_read_behind_relay toy_crypto sorted_iter toy_wire (fun _ => None) ex_env ex_env ex_env ex_engine ex_headers ex_headers
    (ex_write "i7" "hello") "g" "2026-02-01T10:00:00" 5 (ex_app ex_db) (ex_task (storage ex_sent)) "a" "h1" ex_open_relay 7 ex_relay_swarm
    (ex_handle "h2" Hot) (ex_app ex_db) ["g"%string]) as H.
  unfold ex_sent in *.
  destruct (@l2_write toy_crypto toy_wire ex_env ex_headers (ex_write "i7" "hello") (ex_app ex_db)) as [s' resp] eqn:E.
  destruct H as (n & data & batch & _ & _ & _ & Hf & _).
  - change resp with (s', resp).2. rewrite <- E. vm_compute. reflexivity.
  - reflexivity.
  - cbn. lia.
  - intros data [= <-]. reflexivity.
  - reflexivity.
  - change s' with (s', resp).1. rewrite <- E. vm_compute. reflexivity.
  - reflexivity.
  - apply ex_target.
  - by eexists.
  - reflexivity.
  - apply ex_app_up. reflexivity.
  - apply elem_of_filterb. split; [reflexivity|]. unfold values. apply list_elem_of_fmap. exists ("h2"%string, ex_handle "h2" Hot).
    split; [reflexivity|]. rewrite (@hash_iter_perm sorted_iter). by apply elem_of_map_to_list.
  - discriminate.
  - apply ex_app_up. reflexivity.
  - reflexivity.
  - left.
  - intros data _. split; [intros y Hy; by apply elem_of_nil in Hy|]. split; intros row Hrow; vm_compute in Hrow; discriminate.
  - exists batch. exact Hf.
Defined.
