(* ===== verification/Culture.v ===== *)
(** * Group cultures as text

    The culture of a group is stored as text: a JSON document that [serde] reads
    into a [GroupCulture] (cordelia-replication/src/lib.rs), or, when that fails,
    the bare eagerness ([load_group_culture], replication_task.rs).  The tasks
    take the reader as an argument; [parse_culture] here is the one of the code,
    on top of [serde_json]'s reading of text.  A culture that is given to
    [groups_create], as a JSON object with any of the four members or as a bare
    word, is what the replication task acts on ([created_culture_governs]); text that is not a culture falls back to eager
    pushes ([unreadable_culture_pushes]). *)

From S2P Require Import Prelude Float64 Protocol Governor Storage StorageProps Search Json Wire.
From S2P Require Import ItemStore Replication ReplicationProps PeerPool Config SwarmTask ReplicationTask ReplicationTaskProps Api ApiProps EndToEnd.

Definition default_eagerness : string := "chatty".

(** The serialisation that is derived for [GroupCulture]. *)
Definition group_culture : Codec GroupCulture :=
  (struct (fun c =>
      write "broadcast_eagerness" (defaulted default_eagerness text) (broadcast_eagerness c) ++
      write "ttl_default" (optional u64) (ttl_default c) ++
      write "notification_policy" (defaulted None (option_of text)) (notification_policy c) ++
      write "departure_policy" (defaulted None (option_of text)) (departure_policy c))
    (get e := read "broadcast_eagerness" (defaulted default_eagerness text) in
     get ttl := read "ttl_default" (optional u64) in
     get notification := read "notification_policy" (defaulted None (option_of text)) in
     get departure := read "departure_policy" (defaulted None (option_of text)) in
     pure {| broadcast_eagerness := e; ttl_default := ttl; notification_policy := notification; departure_policy := departure |}))%wire.

(** [serde_json::from_str::<GroupCulture>(..).ok()] *)
Definition parse_culture `{WireFormats} (culture : string) : option GroupCulture :=
  json_from_slice (str_bytes culture) ≫= dec group_culture.

(** ** What a text means *)

(** An optional member with a text: missing or null is none. *)
Definition optional_text (name : string) (ms : list (string * Value)) (o : option string) : Prop :=
  match members_named name ms with
  | [] | [Null] => o = None
  | [Str t] => o = Some t
  | _ => False
  end.

(** The members of an object, in any order and among any others, describe a culture: a
    missing eagerness is chatty, the other members may be missing or null. *)
Definition describes (ms : list (string * Value)) (c : GroupCulture) : Prop :=
  match members_named "broadcast_eagerness" ms with
  | [] => broadcast_eagerness c = "chatty"%string
  | [Str e] => broadcast_eagerness c = e
  | _ => False
  end
  /\ match members_named "ttl_default" ms with
     | [] | [Null] => ttl_default c = None
     | [Number t] => 0 <= t < 2 ^ 64 /\ ttl_default c = Some t
     | _ => False
     end
  /\ optional_text "notification_policy" ms (notification_policy c)
  /\ optional_text "departure_policy" ms (departure_policy c).

(** A culture given as a bare word. *)
Definition bare_culture (word : string) : GroupCulture :=
  {| broadcast_eagerness := word; ttl_default := None; notification_policy := None; departure_policy := None |}.

(** What the text of a culture means: a JSON object describes it, and text that is not JSON
    is its eagerness. *)
Definition means `{WireFormats} (culture : string) (c : GroupCulture) : Prop :=
  match json_from_slice (str_bytes culture) with
  | Some (Object ms) => describes ms c
  | Some _ => False
  | None => c = bare_culture culture
  end.

Lemma read_optional_text name ms o :
  optional_text name ms o -> read name (defaulted None (option_of text)) (Members ms) = Some (o, Members ms).
Proof.
  unfold optional_text, read. destruct (members_named name ms) as [|v [|? ?]]; [by intros ->| |by destruct v]. by destruct v; try done; intros ->.
Qed.

Lemma describes_dec ms c : describes ms c -> dec group_culture (Object ms) = Some c.
Proof.
  intros (He & Ht & Hn & Hd). destruct c as [e ttl no de]. cbn [broadcast_eagerness ttl_default notification_policy departure_policy] in *.
  unfold group_culture, struct, dec, read_all, then_read, pure.
  assert (read "broadcast_eagerness" (defaulted default_eagerness text) (Members ms) = Some (e, Members ms)) as ->.
  { unfold read. destruct (members_named _ ms) as [|v [|? ?]]; [by subst e| |by destruct v]. by destruct v; try done; subst e. }
  assert (read "ttl_default" (optional u64) (Members ms) = Some (ttl, Members ms)) as ->.
  { clear He. unfold read. destruct (members_named "ttl_default" ms) as [|v [|? ?]]; [by subst ttl| |by destruct v]. destruct v; try done; [by subst ttl|].
    destruct Ht as [Ht ->]. cbn. rewrite (proj2 (Z.leb_le _ _)), (proj2 (Z.ltb_lt _ _)) by lia. done. }
  by rewrite (read_optional_text _ _ _ Hn), (read_optional_text _ _ _ Hd).
Qed.

Lemma means_loaded `{WireFormats} culture c : means culture c -> default (bare_culture culture) (parse_culture culture) = c.
Proof.
  unfold means, parse_culture. destruct (json_from_slice _) as [v|]; [|by intros ->]. destruct v; try done.
  intros Hd. cbn [mbind option_bind]. by rewrite (describes_dec _ _ Hd).
Qed.

(** ** What the tasks do with it *)

Section culture.
Context `{CR : Crypto} `{WF : WireFormats} (env : SqlEnv).

Lemma load_stored gid d g :
  sqlite_up env d -> groups_t d !! gid = Some g ->
  load_group_culture parse_culture env gid d =
  Some (default (bare_culture (gr_culture g)) (parse_culture (gr_culture g))).
Proof. intros Hup Hg. unfold load_group_culture. rewrite read_group_up, Hg by done. cbn [snd]. by destruct (parse_culture _). Qed.

(** Only one word keeps a group from pushing. *)
Lemma strategy_passive c : strategy c = Passive <-> broadcast_eagerness c = "taciturn"%string.
Proof.
  unfold strategy. split.
  - destruct (String.eqb_spec (broadcast_eagerness c) "chatty"); [done|]. destruct (String.eqb_spec (broadcast_eagerness c) "moderate"); [done|].
    cbn. by destruct (String.eqb_spec (broadcast_eagerness c) "taciturn").
  - by intros ->.
Qed.

(** Text that does not parse as a culture is taken for the eagerness: anything but the
    bare word makes the group push, a quoted word and a misspelt document too. *)
Lemma unreadable_culture_pushes gid d g r :
  sqlite_up env d -> groups_t d !! gid = Some g -> parse_culture (gr_culture g) = None -> gr_culture g <> "taciturn"%string ->
  rt_db r = d -> pushes_eagerly parse_culture env gid r.
Proof.
  intros Hup Hg Hp Hne Hr. unfold pushes_eagerly. rewrite Hr, (load_stored gid d g), Hp by done. cbn [default].
  match goal with |- strategy ?c = _ => destruct (strategy c) eqn:E; [done|] end. by apply strategy_passive in E.
Qed.

(** The culture decides on pushing and on the interval of syncs. *)
Definition taciturn (c : GroupCulture) : bool := String.eqb (broadcast_eagerness c) "taciturn".

Lemma strategy_taciturn c : strategy c = if taciturn c then Passive else EagerPush.
Proof.
  unfold taciturn. destruct (String.eqb_spec (broadcast_eagerness c) "taciturn") as [E|E]; [by apply strategy_passive|].
  destruct (strategy c) eqn:Hs; [done|]. by apply strategy_passive in Hs.
Qed.

Lemma groups_create_up h req s :
  sqlite_up env (storage s) -> authorised h s ->
  let '(s', resp) := groups_create env h req s in
  resp = ok_json (Object [("ok", Bool true); ("group_id", Str (gc_group_id req))]%string)
  /\ storage s' = set_groups_t (<[gc_group_id req := upsert_group (sql_now env) (gc_group_id req) (gc_name req) (gc_culture req)
                                  (gc_security_policy req) (groups_t (storage s) !! gc_group_id req)]> (groups_t (storage s))) (storage s).
Proof.
  intros Hup Ha. unfold groups_create. rewrite authed_ok by done. unfold api_bind, call, modify, respond.
  by rewrite write_group_up.
Qed.

(** [C35] The culture that a group is created with governs its replication: after the
    API created a group with the text of a culture (a JSON object with any of the
    members, in any order, missing ones taking their defaults and unknown ones
    ignored, or text that is not JSON, which is the bare eagerness), the
    replication task reads that culture back; a write to the group is queued for
    pushing exactly when the eagerness is not taciturn, and the next sync of the
    group is due after the interval of the culture. *)
Theorem created_culture_governs (eng : ReplicationEngine) h req c s ts n now r :
  sqlite_up env (storage s) -> authorised h s ->
  means (gc_culture req) c ->
  let '(s', resp) := groups_create env h req s in
  let gid := gc_group_id req in
  rt_db r = storage s' -> wn_group_id n = Some gid -> Z.of_nat (length (wn_data n)) <= MAX_ITEM_BYTES ->
  resp = ok_json (Object [("ok", Bool true); ("group_id", Str gid)]%string)
  /\ load_group_culture parse_culture env gid (storage s') = Some c
  /\ write_buffer (on_write_notification parse_culture env eng ts n r) =
     (if taciturn c then write_buffer r
      else <[gid := default [] (write_buffer r !! gid) ++ [announced eng ts gid n]]> (write_buffer r))
  /\ next_sync_at (schedule_group parse_culture env eng now gid r).1 !! gid
     = Some (now + from_secs (if taciturn c then rc_sync_interval_taciturn_secs (re_config eng) else EAGER_PUSH_INTERVAL_SECS)).
Proof.
  intros Hup Ha Hm. pose proof (groups_create_up h req s Hup Ha) as Hcr. destruct (groups_create env h req s) as [s' resp].
  destruct Hcr as [-> Hs']. intros gid Hr Hn Hsz.
  assert (load_group_culture parse_culture env gid (storage s') = Some c) as Hl.
  { rewrite Hs'. erewrite load_stored; [|done|apply lookup_insert_eq]. cbn [gr_culture upsert_group].
    by rewrite (means_loaded _ _ Hm). }
  split_and!; [done|done| |].
  - unfold on_write_notification. rewrite Hn, Hr, Hl. change (default default_culture (Some c)) with c. unfold on_local_write.
    destruct (Z.ltb_spec MAX_ITEM_BYTES (Z.of_nat (length (wn_data n)))); [lia|]. rewrite strategy_taciturn. by destruct (taciturn c).
  - unfold schedule_group. cbn. rewrite lookup_insert_eq, Hr, Hl. change (from_option id default_culture (Some c)) with c. unfold sync_interval. rewrite strategy_taciturn.
    by destruct (taciturn c).
Qed.

End culture.

(** ** Example *)

(** A quiet group, by the one member that the documentation uses, with the others left out. *)
Definition ex_culture : GroupCulture := bare_culture "taciturn".

Definition quoted (t : string) : string := String (Ascii.ascii_of_nat 34) (t +:+ String (Ascii.ascii_of_nat 34) EmptyString).

Definition ex_culture_text : string := "{" +:+ quoted "broadcast_eagerness" +:+ ":" +:+ quoted "taciturn" +:+ "}".

(** Text forms for the example: the one document that is read. *)
Definition culture_wire : WireFormats := {|
  json_to_vec v := @json_to_vec toy_wire v;
  json_from_slice b := if String.eqb (String.string_of_list_byte b) ex_culture_text
                       then Some (Object [("broadcast_eagerness", Str "taciturn")]%string) else None;
  base64_encode b := @base64_encode toy_wire b;
  sqlite_error_text e := @sqlite_error_text toy_wire e;
|}.

Definition ex_create : GroupCreateRequest :=
  {| gc_group_id := "quiet"; gc_name := "Quiet"; gc_culture := ex_culture_text; gc_security_policy := "{}" |}.

Definition ex_note : WriteNotification :=
  {| wn_item_id := "i1"; wn_item_type := "entity"; wn_group_id := Some "quiet"%string; wn_data := [Byte.x01]; wn_key_version := 1;
     wn_parent_id := None; wn_is_copy := false |}.

Lemma created_culture_governs_witness :
  write_buffer (@on_write_notification toy_crypto (@parse_culture culture_wire) ex_env ex_engine "2026" ex_note
    (ex_task (storage (@groups_create culture_wire ex_env ex_headers ex_create (ex_app ex_db)).1))) = ∅.
Proof.
  pose proof (@created_culture_governs toy_crypto culture_wire ex_env ex_engine ex_headers ex_create ex_culture (ex_app ex_db) "2026" ex_note 5
    (ex_task (storage (@groups_create culture_wire ex_env ex_headers ex_create (ex_app ex_db)).1))) as H.
  destruct (@groups_create culture_wire ex_env ex_headers ex_create (ex_app ex_db)) as [s' resp].
  destruct H as (_ & _ & H & _).
  - apply ex_app_up. reflexivity.
  - reflexivity.
  - unfold means. replace (@json_from_slice culture_wire _) with (Some (Object [("broadcast_eagerness", Str "taciturn")]%string))
      by (vm_compute; reflexivity). vm_compute. repeat split.
  - reflexivity.
  - reflexivity.
  - vm_compute. discriminate.
  - exact H.
Defined.
