(* ===== verification/AntiEntropy.v ===== *)
(** * What an anti-entropy round achieves

    A round ([sync_with], the exchange part of [run_anti_entropy]) against a peer
    that answers with the request handlers of the swarm task over its own
    database: every item of the page the peer serves is caught up with, and
    which items an incremental round leaves out. *)

From S2P Require Import Prelude Float64 Protocol Governor Storage StorageProps ItemStore Replication ReplicationProps.
From S2P Require Import PeerPool Config SwarmTask SwarmProps ReplicationTask ReplicationTaskProps.

(** A peer that runs the same code over the database [dA]. *)
Definition honest_peer `{HashIter} (envA : SqlEnv) (dA : Db) : PeerAnswers := {|
  ask_sync req := Answered _ (handle_sync_request envA req dA);
  ask_fetch req := Answered _ (handle_fetch_request envA req dA);
|}.

(** The store has caught up with the item: it holds its data, or a version that is
    at least as new. *)
Definition reached (x : FetchedItem) (v : gmap string Content) : Prop :=
  exists c, v !! fi_item_id x = Some c
    /\ (c_checksum c = Some (fi_checksum x) \/ str_le (fi_updated_at x) (c_updated_at c) = true).

Section deliveries.
Context `{CR : Crypto} (env : SqlEnv) (our_groups : list GroupId) (relay : option (GroupId -> bool)).

Abbreviation dbview := (@store_view Db CR (sqlite_store env) (sqlite_store_laws env)) (only parsing).
Abbreviation receive x d := (@on_receive CR Db (sqlite_store env) x our_groups relay d) (only parsing).

Lemma receive_reaches x d :
  sqlite_up env d -> acceptable our_groups relay x = true -> reached x (dbview (receive x d).1).
Proof.
  intros Hup Hx. destruct (receive_acceptable (LAWS := sqlite_store_laws env) our_groups relay x d Hup Hx) as [-> _].
  destruct (supersedes x (dbview d !! fi_item_id x)) eqn:Hs.
  - exists (content_of_item x). rewrite lookup_insert_eq. split; [done|]. right. apply str_le_refl.
  - destruct (dbview d !! fi_item_id x) as [c|] eqn:Hc; [|done]. exists c. split; [done|].
    apply andb_false_iff in Hs as [Hs|Hs].
    + left. by apply negb_false_iff, bool_decide_eq_true in Hs.
    + right. rewrite str_lt_not_le in Hs. by apply negb_false_iff in Hs.
Qed.

Lemma receive_keeps_reached x y d :
  sqlite_up env d -> acceptable our_groups relay x = true -> (fi_item_id y = fi_item_id x -> y = x) ->
  reached x (dbview d) -> reached x (dbview (receive y d).1).
Proof.
  intros Hup Hx Hyx (c & Hc & Hr). destruct (decide (fi_item_id y = fi_item_id x)) as [->%Hyx|Hne].
  { by apply receive_reaches. }
  exists c. split; [|done].
  destruct (receive_effect (LAWS := sqlite_store_laws env) our_groups relay y d) as [Ho _].
  by rewrite Ho by (by intros ?).
Qed.

(** Delivering a list in which equal identifiers are equal items. *)
Lemma deliver_reaches x l d :
  sqlite_up env d -> acceptable our_groups relay x = true ->
  (forall y, y ∈ l -> fi_item_id y = fi_item_id x -> y = x) -> x ∈ l \/ reached x (dbview d) ->
  reached x (dbview (@deliver CR Db (sqlite_store env) our_groups relay l d)).
Proof.
  unfold deliver. intros Hup Hx. revert d Hup. induction l as [|y l IH]; intros d Hup Hl Hor; cbn [foldl].
  { destruct Hor as [Hin%elem_of_nil|]; done. }
  assert (sqlite_up env (receive y d).1) as Hup' by exact (receive_up (LAWS := sqlite_store_laws env) our_groups relay y d Hup).
  apply IH; [done|intros z Hz; apply Hl; by right|].
  destruct Hor as [[->|Hin]%elem_of_cons|Hr]; [right; by apply receive_reaches|by left|].
  right. apply receive_keeps_reached; [done..| |done]. apply Hl. left.
Qed.

Lemma receive_steps_deliver l d r :
  (foldl (receive_step env our_groups relay) (d, r) l).1 = @deliver CR Db (sqlite_store env) our_groups relay l d.
Proof.
  unfold deliver. revert d r. induction l as [|x l IH]; intros d r; [done|]. simpl.
  destruct (receive x d) as [d' []]; apply IH.
Qed.

End deliveries.

Section round.
Context `{CR : Crypto} `{HI : HashIter}.
Context (envA : SqlEnv) (dA : Db) (HfA : no_fault envA) (HlA : lock_poisoned dA = false).

Definition served (id : string) : option FetchedItem := fetched_of_row <$> l2_items dA !! id.

Lemma fetch_served ids : frs_items (handle_fetch_request envA {| fr_item_ids := ids |} dA) = omap served ids.
Proof.
  unfold handle_fetch_request. cbn [frs_items fr_item_ids].
  induction ids as [|id ids IH]; [done|]. cbn [omap list_omap]. rewrite IH. unfold served at 3, read_l2_item.
  rewrite with_lock by done. unfold query, stmt. rewrite HfA. simpl. by destruct (l2_items dA !! id).
Qed.

Lemma listing_eq env gid since limit d :
  no_fault env -> lock_poisoned d = false ->
  (list_group_items env gid since limit d).2 = Ok (header_of <$> take (Z.to_nat limit) (group_rows gid since d)).
Proof. intros Hf Hl. unfold list_group_items. rewrite with_lock by done. unfold query, stmt. by rewrite Hf. Qed.

Lemma sync_served req :
  srs_items (handle_sync_request envA req dA)
  = header_of <$> take (Z.to_nat (sr_limit req)) (group_rows (sr_group_id req) (sr_since req) dA).
Proof. unfold handle_sync_request. simpl. by rewrite listing_eq. Qed.

Lemma fetch_all env our_groups relay cs d r :
  exists r', fetch_chunks env (honest_peer envA dA) our_groups relay cs (d, r)
             = (@deliver CR Db (sqlite_store env) our_groups relay (omap served (concat cs)) d, Ok r').
Proof.
  revert d r. induction cs as [|c cs IH]; intros d r; [by exists r|]. cbn [fetch_chunks honest_peer ask_fetch].
  rewrite fetch_served. destruct (foldl (receive_step env our_groups relay) (d, r) (omap served c)) as [d1 r1] eqn:E.
  pose proof (receive_steps_deliver env our_groups relay (omap served c) d r) as Hd. rewrite E in Hd. cbn [fst] in Hd.
  destruct (IH d1 r1) as [r2 ->]. exists r2. rewrite Hd. cbn [concat]. rewrite omap_app. unfold deliver. by rewrite foldl_app.
Qed.

Context (HwA : map_Forall item_wf (l2_items dA)).

Lemma served_id id x : served id = Some x -> fi_item_id x = id.
Proof.
  unfold served. destruct (l2_items dA !! id) as [row|] eqn:Hrow; [|done]. intros [= <-].
  exact (iw_key _ _ (HwA id row Hrow)).
Qed.

Lemma served_acceptable our_groups relay id row gid :
  l2_items dA !! id = Some row -> Z.of_nat (length (l2_data row)) <= MAX_ITEM_BYTES ->
  l2_group_id row = Some gid -> accepts our_groups relay gid = true ->
  acceptable our_groups relay (fetched_of_row row) = true.
Proof.
  intros Hrow Hsz Hg Hacc. destruct (HwA id row Hrow) as [_ Hck Hty _].
  unfold acceptable, blob_len, validate_checksum. simpl. rewrite Hg, Hck, Hty. simpl. rewrite Hacc.
  unfold checksum. rewrite String.eqb_refl, !andb_true_r. apply andb_true_iff. split; [by apply Z.leb_le|].
  apply negb_true_iff, String.eqb_neq. intros Ht. by rewrite Ht in Hty.
Qed.

(** A row that the comparison does not ask for is held already. *)
Lemma known_reached gid since limit dB id row :
  map_Forall item_wf (l2_items dB) -> l2_items dA !! id = Some row ->
  needs_fetch (header_map (header_of <$> take limit (group_rows gid since dB))) (header_of row) = false ->
  reached (fetched_of_row row) (content_of <$> l2_items dB).
Proof.
  intros HwB Hrow Hn. unfold needs_fetch in Hn. destruct (HwA id row Hrow) as [Hk Hck _ _].
  destruct (header_map _ !! ih_item_id (header_of row)) as [c|] eqn:Hm; [|done].
  apply negb_false_iff, String.eqb_eq in Hn. apply header_map_inv in Hm as (h & Hh & Hid & Hc).
  apply list_elem_of_fmap in Hh as (rowB & -> & HrB%elem_of_take_in). apply elem_of_group_rows in HrB as (_ & idB & HrB).
  destruct (HwB idB rowB HrB) as [HkB HckB _ _]. exists (content_of rowB). simpl in *. split.
  - by rewrite lookup_fmap, <- Hid, HkB, HrB.
  - left. rewrite HckB. rewrite HckB in Hc. simpl in Hc. congruence.
Qed.

End round.

Lemma accept_own is_relay (groups : list GroupId) gid :
  gid ∈ groups ->
  accepts groups ((fun set => fun g => bool_decide (g ∈ (set : gset string))) <$> accept_set is_relay groups) gid = true.
Proof.
  intros Hin. unfold accept_set. destruct is_relay; simpl.
  - apply bool_decide_eq_true. by apply elem_of_list_to_set.
  - by apply contains_true.
Qed.

Lemma sync_with_honest `{Crypto} `{HashIter} env eng envA dA gid our_groups since accept s :
  no_fault envA -> lock_poisoned dA = false -> sqlite_up env (rt_db s) ->
  0 < engine_max_batch_size eng ->
  let limit := engine_max_batch_size eng in
  let page := take (Z.to_nat limit) (group_rows gid since dA) in
  let needed := diff_headers (header_of <$> take (Z.to_nat limit) (group_rows gid since (rt_db s))) (header_of <$> page) in
  let relay := (fun set => fun g => bool_decide (g ∈ (set : gset string))) <$> accept in
  let r := sync_with env eng (honest_peer envA dA) gid our_groups since accept s in
  r.2 = Returned (Ok (latest_ts (header_of <$> page)))
  /\ rt_db r.1 = @deliver _ Db (sqlite_store env) our_groups relay (omap (served dA) needed) (rt_db s).
Proof.
  intros HfA HlA [HlB HfB] Hlim limit page needed relay r. unfold r, sync_with. cbn [honest_peer ask_sync].
  rewrite sync_served, listing_eq by done. cbn [sr_limit sr_group_id sr_since]. fold limit page needed relay.
  case_bool_decide as Hn; [by rewrite Hn|].
  destruct (chunks_concat (Z.to_nat limit) needed ltac:(unfold limit; lia)) as (cs & -> & Hcs).
  destruct (fetch_all envA dA HfA HlA env our_groups relay cs (rt_db s)
    {| r_stored := 0; r_rejected := 0; r_duplicate := 0 |}) as [r' Hf].
  change (rt_db (add_stats (stat_rounds 0 1 0 0) s)) with (rt_db s). by rewrite Hf, Hcs.
Qed.

Lemma elem_of_page `{HashIter} gid since limit d id row :
  l2_items d !! id = Some row -> in_group_since gid since row = true ->
  (map_count (in_group_since gid since) (l2_items d) <= limit)%nat ->
  row ∈ take limit (group_rows gid since d).
Proof.
  intros Hrow Hin Hc. rewrite take_ge by (by rewrite length_group_rows).
  apply elem_of_group_rows. eauto.
Qed.

(** [C12] One anti-entropy round: when the drawn partner runs the same code over a
    well-formed database and neither side's storage fails, the round succeeds
    and returns the newest timestamp of the served page; afterwards this node
    has caught up with every item (within the size limit) that the page lists,
    that is, it holds the item's data or a version at least as new.  The page
    lists every item of the group newer than [since] when there are no more of
    them than the batch size. *)
Theorem anti_entropy_round `{Crypto} `{HashIter} env eng answers idx peer envA dA gid groups since (is_relay : bool) s :
  choose_partner is_relay idx gid (rt_pool s) = Some peer ->
  answers (ph_node_id peer) = honest_peer envA dA ->
  no_fault envA -> lock_poisoned dA = false -> map_Forall item_wf (l2_items dA) ->
  sqlite_up env (rt_db s) -> map_Forall item_wf (l2_items (rt_db s)) ->
  0 < engine_max_batch_size eng -> gid ∈ groups ->
  let limit := engine_max_batch_size eng in
  let page := srs_items (handle_sync_request envA {| sr_group_id := gid; sr_since := since; sr_limit := limit |} dA) in
  let r := run_anti_entropy env eng answers idx gid groups since is_relay (accept_set is_relay groups) s in
  r.2 = Returned (Ok (latest_ts page))
  /\ forall id row, l2_items dA !! id = Some row -> in_group_since gid since row = true ->
       Z.of_nat (length (l2_data row)) <= MAX_ITEM_BYTES ->
       header_of row ∈ page \/ (map_count (in_group_since gid since) (l2_items dA) <= Z.to_nat limit)%nat ->
       reached (fetched_of_row row) (content_of <$> l2_items (rt_db r.1)).
Proof.
  intros Hpeer Hans HfA HlA HwA Hup HwB Hlim Hgid limit page r. unfold r, run_anti_entropy. rewrite Hpeer, Hans.
  destruct (sync_with_honest env eng envA dA gid groups since (accept_set is_relay groups) s HfA HlA Hup Hlim) as [Hres Hdb].
  cbv zeta in Hres, Hdb. fold limit in Hres, Hdb.
  assert (page = header_of <$> take (Z.to_nat limit) (group_rows gid since dA)) as Hpage by (by apply sync_served).
  rewrite <- Hpage in Hres, Hdb. split; [done|]. intros id row Hrow Hin Hsz Hlisted.
  assert (header_of row ∈ page) as Hh.
  { destruct Hlisted as [|Hc]; [done|]. rewrite Hpage. apply list_elem_of_fmap. exists row. split; [done|].
    by eapply elem_of_page. }
  rewrite Hdb. clear Hres Hdb r.
  apply andb_prop in Hin as [Hg%bool_decide_eq_true _].
  assert (fi_item_id (fetched_of_row row) = id) as Hid by exact (iw_key _ _ (HwA id row Hrow)).
  apply (deliver_reaches env groups _ (fetched_of_row row)); [done| | |].
  - apply (served_acceptable dA HwA _ _ id row gid); [done..|]. by apply accept_own.
  - intros y Hy Hyid. apply list_elem_of_omap in Hy as (j & _ & Hj).
    pose proof (served_id dA HwA j y Hj) as Hjy. rewrite Hid in Hyid. subst j. rewrite Hyid in Hj.
    unfold served in Hj. rewrite Hrow in Hj. by injection Hj.
  - destruct (needs_fetch (header_map (header_of <$> take (Z.to_nat limit) (group_rows gid since (rt_db s)))) (header_of row)) eqn:Hn.
    + left. apply list_elem_of_omap. exists id. split.
      * unfold diff_headers. apply list_elem_of_fmap. exists (header_of row). split; [done|]. by apply elem_of_filterb.
      * unfold served. by rewrite Hrow.
    + right. exact (known_reached dA HwA gid since _ (rt_db s) id row HwB Hrow Hn).
Qed.

Lemma latest_ts_elem hs t : latest_ts hs = Some t -> exists h, h ∈ hs /\ ih_updated_at h = t.
Proof.
  unfold latest_ts. revert t. induction hs as [|h hs IH] using rev_ind; intros t; [done|].
  rewrite foldl_app. simpl. destruct (foldl _ None hs) as [t'|] eqn:E.
  - intros [= <-]. destruct (str_le t' (ih_updated_at h)).
    + exists h. split; [|done]. apply elem_of_app. right. by left.
    + destruct (IH t' eq_refl) as (h' & Hin & Ht). exists h'. split; [|done]. apply elem_of_app. by left.
  - intros [= <-]. exists h. split; [|done]. apply elem_of_app. right. by left.
Qed.

(** What incremental paging leaves out: after a page whose newest timestamp
    is [t], the items of the group that were not on the page and that the next
    request (since [t]) does not ask for are exactly those stamped [t].  Items
    that share the last timestamp of a full page are skipped until a full
    sync. *)
Theorem page_boundary_skips_ties `{Crypto} `{HashIter} env dA gid since limit t id row :
  no_fault env -> lock_poisoned dA = false ->
  latest_ts (srs_items (handle_sync_request env {| sr_group_id := gid; sr_since := since; sr_limit := limit |} dA)) = Some t ->
  l2_items dA !! id = Some row -> in_group_since gid since row = true ->
  header_of row ∉ srs_items (handle_sync_request env {| sr_group_id := gid; sr_since := since; sr_limit := limit |} dA) ->
  in_group_since gid (Some t) row = false <-> l2_updated_at row = t.
Proof.
  intros Hf Hl Ht Hrow Hin Hnot. rewrite sync_served in Ht, Hnot by done. cbn [sr_limit sr_group_id sr_since] in *.
  apply latest_ts_elem in Ht as (h & (r & -> & Hr)%list_elem_of_fmap & Ht). simpl in Ht.
  assert (row ∈ group_rows gid since dA) as Hel by (apply elem_of_group_rows; eauto).
  rewrite <- (take_drop (Z.to_nat limit)) in Hel. apply elem_of_app in Hel as [Hel|Hel].
  { destruct Hnot. apply list_elem_of_fmap. eauto. }
  pose proof (group_rows_before gid since dA (Z.to_nat limit) r row Hr Hel) as Hle. rewrite Ht in Hle.
  unfold in_group_since in *. apply andb_prop in Hin as [-> _]. simpl. rewrite str_lt_not_le.
  rewrite negb_false_iff. split; [|intros ->; apply str_le_refl].
  intros Hge. by apply str_le_antisym.
Qed.

(** ** Witnesses *)

Definition ex_engine (batch : Z) : ReplicationEngine := {|
  re_config := {| rc_sync_interval_taciturn_secs := 900; rc_tombstone_retention_days := 7; rc_max_batch_size := batch |};
  re_entity_id := "bob" |}.

Lemma ex_items_wf : map_Forall (@item_wf toy_crypto) (l2_items ex_db).
Proof.
  intros id row Hrow. apply elem_of_map_to_list in Hrow. vm_compute in Hrow.
  repeat (apply elem_of_cons in Hrow as [[= -> ->]|Hrow]; [split; vm_compute; reflexivity|]). by apply elem_of_nil in Hrow.
Qed.

(** An empty node asks the peer "h1", which holds [ex_db], and gets its item "i1". *)
Lemma anti_entropy_round_witness :
  exists c, (content_of <$> l2_items (rt_db (@run_anti_entropy toy_crypto sorted_iter ex_env (ex_engine 10)
      (fun _ => @honest_peer sorted_iter ex_env ex_db) 0 "g" ["g"%string] None false None (ex_repl empty_db)).1))
    !! "i1"%string = Some c.
Proof.
  destruct (@anti_entropy_round toy_crypto sorted_iter ex_env (ex_engine 10) (fun _ => @honest_peer sorted_iter ex_env ex_db)
    0 (ex_handle "h1" Hot) ex_env ex_db "g" ["g"%string] None false (ex_repl empty_db)) as [_ H].
  - vm_compute. reflexivity.
  - reflexivity.
  - intros name. reflexivity.
  - reflexivity.
  - apply ex_items_wf.
  - split; [reflexivity | intros name; reflexivity].
  - intros id row Hrow. vm_compute in Hrow. discriminate Hrow.
  - reflexivity.
  - left.
  - destruct (H "i1"%string (@upsert_row toy_crypto (sql_now ex_env) (ex_item "i1" "2026-01-02" [Byte.x01]) None)) as (c & Hc & _).
    + vm_compute. reflexivity.
    + vm_compute. reflexivity.
    + vm_compute. discriminate.
    + right. vm_compute. lia.
    + exists c. exact Hc.
Defined.

(** Two items of one second and a page of one: the second is not asked for again. *)
Definition ex_tie_db : Db :=
  foldl (fun d op => @run_op toy_crypto ex_env op d) empty_db
    [OpEnsureSchema; OpWriteGroup "g" "G" "{}" "{}";
     OpWriteItem (ex_item "t1" "2026-01-02" [Byte.x01]); OpWriteItem (ex_item "t2" "2026-01-02" [Byte.x02])]%string.

Lemma page_boundary_skips_ties_witness :
  exists id row, l2_items ex_tie_db !! id = Some row /\ in_group_since "g" (Some "2026-01-02"%string) row = false.
Proof.
  set (row n b := @upsert_row toy_crypto (sql_now ex_env) (ex_item n "2026-01-02" [b]) None).
  exists "t2"%string, (row "t2"%string Byte.x02). split; [vm_compute; reflexivity|].
  apply (@page_boundary_skips_ties toy_crypto sorted_iter ex_env ex_tie_db "g" None 1 "2026-01-02" "t2"%string (row "t2"%string Byte.x02)).
  - intros name. reflexivity.
  - reflexivity.
  - vm_compute. reflexivity.
  - vm_compute. reflexivity.
  - vm_compute. reflexivity.
  - intros Hin. vm_compute in Hin. apply list_elem_of_singleton in Hin. discriminate Hin.
  - reflexivity.
Defined.
