(* ===== verification/GovernorTask.v ===== *)
(** * The governor task

    Models [crates/cordelia-node/src/governor_task.rs]: the loop that feeds the
    swarm's notices to the governor and keeps the pool in step with it, seeds
    and re-dials bootnodes, runs group exchanges and discovers peers by gossip.

    Every arm of the loop is one function; what the code spawns as a task of its
    own is split at its await points into further functions.  DNS and address
    parsing, the placeholder identity derived from a bootnode address and the
    shuffle of the relays are parameters; commands are handed to the swarm task. *)

From S2P Require Import Prelude Float64 Protocol Governor PeerPool Config SwarmTask.

(** ** Addresses announced by identify *)

Definition proto_is_loopback (p : AddrProtocol) : bool :=
  match p with Ip4 a _ _ _ => a =? 127 | OtherProto _ => false end.

(** [Ipv4Addr::is_private] *)
Definition proto_is_private (p : AddrProtocol) : bool :=
  match p with
  | Ip4 a b _ _ => (a =? 10) || ((a =? 172) && (16 <=? b) && (b <=? 31)) || ((a =? 192) && (b =? 168))
  | OtherProto _ => false
  end.

Definition is_loopback_addr (addr : Multiaddr) : bool := existsb proto_is_loopback addr.

Definition is_public_addr (addr : Multiaddr) : bool := negb (existsb proto_is_private addr).

Definition filter_identify_addrs (addrs : list Multiaddr) : list Multiaddr :=
  let non_loopback := filterb (fun a => negb (is_loopback_addr a)) addrs in
  if existsb is_public_addr non_loopback then filterb is_public_addr non_loopback else non_loopback.

(** ** State *)

Record GovTask := {
  gt_gov : Governor;
  gt_pool : gmap NodeId PeerHandle;
  gt_learned : option (gset string);
  gt_pending_dials : gmap Multiaddr NodeId;
  gt_unresolved : list BootnodeEntry;
  gt_resolved : list (BootnodeEntry * Multiaddr);
  gt_tick_count : Z;
}.

Definition gt_set_gov (g : Governor) (s : GovTask) : GovTask :=
  {| gt_gov := g; gt_pool := gt_pool s; gt_learned := gt_learned s; gt_pending_dials := gt_pending_dials s;
     gt_unresolved := gt_unresolved s; gt_resolved := gt_resolved s; gt_tick_count := gt_tick_count s |}.

Definition gt_set_pool (p : gmap NodeId PeerHandle) (s : GovTask) : GovTask :=
  {| gt_gov := gt_gov s; gt_pool := p; gt_learned := gt_learned s; gt_pending_dials := gt_pending_dials s;
     gt_unresolved := gt_unresolved s; gt_resolved := gt_resolved s; gt_tick_count := gt_tick_count s |}.

Definition gt_set_learned (l : option (gset string)) (s : GovTask) : GovTask :=
  {| gt_gov := gt_gov s; gt_pool := gt_pool s; gt_learned := l; gt_pending_dials := gt_pending_dials s;
     gt_unresolved := gt_unresolved s; gt_resolved := gt_resolved s; gt_tick_count := gt_tick_count s |}.

Definition gt_set_pending (m : gmap Multiaddr NodeId) (s : GovTask) : GovTask :=
  {| gt_gov := gt_gov s; gt_pool := gt_pool s; gt_learned := gt_learned s; gt_pending_dials := m;
     gt_unresolved := gt_unresolved s; gt_resolved := gt_resolved s; gt_tick_count := gt_tick_count s |}.

Definition gt_set_boot (un : list BootnodeEntry) (res : list (BootnodeEntry * Multiaddr)) (s : GovTask) : GovTask :=
  {| gt_gov := gt_gov s; gt_pool := gt_pool s; gt_learned := gt_learned s; gt_pending_dials := gt_pending_dials s;
     gt_unresolved := un; gt_resolved := res; gt_tick_count := gt_tick_count s |}.

Definition gt_set_count (n : Z) (s : GovTask) : GovTask :=
  {| gt_gov := gt_gov s; gt_pool := gt_pool s; gt_learned := gt_learned s; gt_pending_dials := gt_pending_dials s;
     gt_unresolved := gt_unresolved s; gt_resolved := gt_resolved s; gt_tick_count := n |}.

(** Our groups as the pool sees them through its locks. *)
Definition pool_groups (shared : list GroupId) (s : GovTask) : PoolGroups :=
  {| pg_our_groups := shared; pg_learned := gt_learned s |}.

Section task.
Context `{HI : HashIter}.
(** The identity derived from the hash of a bootnode's address text. *)
Context (placeholder_id : string -> NodeId).

(** ** Bootnodes *)

Definition seed_bootnode (now : Instant) (boot : BootnodeEntry) (addr : Multiaddr) (g : Governor) : Governor :=
  set_peer_relay (placeholder_id (bn_addr boot)) true (add_peer now (placeholder_id (bn_addr boot)) [addr] [] g).

(** The seeding loop of the start and of the retries; [resolve] is
    [parse_bootnode_multiaddr] at that time. *)
Definition seed_step (now : Instant) (resolve : BootnodeEntry -> option Multiaddr)
    (st : Governor * list BootnodeEntry * list (BootnodeEntry * Multiaddr)) (boot : BootnodeEntry) :
    Governor * list BootnodeEntry * list (BootnodeEntry * Multiaddr) :=
  let '(g, unresolved, resolved) := st in
  match resolve boot with
  | Some addr => (seed_bootnode now boot addr g, unresolved, resolved ++ [(boot, addr)])
  | None => (g, unresolved ++ [boot], resolved)
  end.

(** [run_governor_loop] up to the loop. *)
Definition start (now : Instant) (resolve : BootnodeEntry -> option Multiaddr) (bootnodes : list BootnodeEntry)
    (g : Governor) (learned : option (gset string)) : GovTask :=
  let '(g, unresolved, resolved) := foldl (seed_step now resolve) (g, [], []) bootnodes in
  {| gt_gov := g; gt_pool := ∅; gt_learned := learned; gt_pending_dials := ∅; gt_unresolved := unresolved;
     gt_resolved := resolved; gt_tick_count := 0 |}.

Definition BOOT_RETRY_TICKS : Z := 6.
Definition BOOT_REDIAL_EVERY : Z := 6.

Definition retry_bootnodes (now : Instant) (resolve : BootnodeEntry -> option Multiaddr) (s : GovTask) : GovTask :=
  if negb (bool_decide (gt_unresolved s = [])) && (gt_tick_count s <=? BOOT_RETRY_TICKS) then
    let '(g, un, res) := foldl (seed_step now resolve) (gt_gov s, [], gt_resolved s) (gt_unresolved s) in
    gt_set_boot un res (gt_set_gov g s)
  else s.

(** Re-dialling the bootnodes that no connected peer's addresses show. *)
Definition redial_bootnodes (resolve : BootnodeEntry -> option Multiaddr) (s : GovTask) : list SwarmCommand :=
  if (0 <? gt_tick_count s) && (gt_tick_count s mod BOOT_REDIAL_EVERY =? 0) && negb (bool_decide (gt_resolved s = [])) then
    let active_addrs := active_peers (gt_pool s) ≫= ph_addrs in
    (fun ba => CmdDial (default ba.2 (resolve ba.1)))
      <$> filterb (fun ba => negb (contains active_addrs ba.2)) (gt_resolved s)
  else [].

(** ** The tick *)

(** Dialling the peers that the governor wants connected. *)
Definition dial_step (st : GovTask * list SwarmCommand) (id : NodeId) : GovTask * list SwarmCommand :=
  let '(s, out) := st in
  match peer_info (gt_gov s) id ≫= (fun p => head (addrs p)) with
  | Some addr => (gt_set_pending (<[addr := id]> (gt_pending_dials s)) s, out ++ [CmdDial addr])
  | None => (s, out)
  end.

Definition dial_promoted (ids : list NodeId) (s : GovTask) : GovTask * list SwarmCommand :=
  foldl dial_step (s, []) ids.

Definition exchange_request (shared : list GroupId) (s : GovTask) : GroupExchange :=
  {| gx_groups := advertised_groups shared (gt_learned s) true; gx_descriptors := None |}.

(** [tx]: the response channel of the exchange with a peer. *)
Definition periodic_exchange (shared : list GroupId) (tx : NodeId -> Chan) (s : GovTask) : list SwarmCommand :=
  if gt_tick_count s mod GROUP_EXCHANGE_TICKS =? 0
  then (fun h => CmdGroupExchange (ph_node_id h) (exchange_request shared s) (tx (ph_node_id h)))
         <$> active_peers (gt_pool s)
  else [].

(** The tick arm: the new state, the commands, and whether a discovery is spawned. *)
Definition on_tick (c : TickClock) (now : Instant) (shared : list GroupId) (resolve : BootnodeEntry -> option Multiaddr)
    (tx : NodeId -> Chan) (s : GovTask) : GovTask * list SwarmCommand * bool :=
  let '(g, actions) := tick c (set_groups_gov shared (gt_gov s)) in
  let '(pool, disconnected) := apply_governor_actions actions (gt_pool s) in
  let s := gt_set_pool pool (gt_set_gov g s) in
  let '(s, dials) := dial_promoted (connect actions) s in
  let s := gt_set_count (wrap_u64 (gt_tick_count s + 1)) s in
  let s := retry_bootnodes now resolve s in
  (s, (CmdDisconnect <$> disconnected) ++ dials ++ redial_bootnodes resolve s ++ periodic_exchange shared tx s,
   gt_tick_count s mod PEER_DISCOVERY_TICKS =? 0).

(** ** Notices of the swarm *)

(** [addrs.iter().find_map(|a| pending_dials.remove(a))] *)
Fixpoint take_pending (a : list Multiaddr) (m : gmap Multiaddr NodeId) : option NodeId * gmap Multiaddr NodeId :=
  match a with
  | [] => (None, m)
  | x :: a => match m !! x with Some id => (Some id, delete x m) | None => take_pending a m end
  end.

(** The governor's part of a connection notice. *)
Definition connect_governor (now : Instant) (peer : NodeId) (a : list Multiaddr) (placeholder : option NodeId) (g : Governor) :
    Governor :=
  match placeholder with
  | Some old_id =>
      mark_connected now peer
        (if negb (String.eqb old_id peer) then (replace_node_id old_id peer [] g).1 else g)
  | None =>
      if bool_decide (is_Some (peer_info g peer)) then mark_connected now peer g
      else mark_connected now peer (add_peer now peer a [] g)
  end.

Definition known_relay (g : Governor) (peer : NodeId) : bool :=
  match peer_info g peer with Some p => is_relay p | None => false end.

Definition on_connected (now : Instant) (shared : list GroupId) (peer : NodeId) (a : list Multiaddr) (tx : NodeId -> Chan)
    (s : GovTask) : GovTask * list SwarmCommand :=
  let '(placeholder, pending) := take_pending a (gt_pending_dials s) in
  let g := connect_governor now peer a placeholder (gt_gov s) in
  let s := gt_set_gov g (gt_set_pending pending s) in
  let s := gt_set_pool (pool_insert (pool_groups shared s) peer a [] Warm 1 (known_relay g peer) (gt_pool s)) s in
  (s, [CmdGroupExchange peer (exchange_request shared s) (tx peer)]).

Definition on_disconnected (now : Instant) (peer : NodeId) (s : GovTask) : GovTask :=
  let s := gt_set_pool (pool_remove peer (gt_pool s)).1 s in
  gt_set_gov (mark_disconnected now peer (gt_gov s)) s.

Definition on_ping (now : Instant) (peer : NodeId) (rtt : f64) (s : GovTask) : GovTask :=
  let s := gt_set_gov (record_activity now peer (Some rtt) (gt_gov s)) s in
  gt_set_pool (update_rtt peer rtt (gt_pool s)) s.

(** A Cold entry of another identity that has one of the announced addresses. *)
Definition is_placeholder_for (peer : NodeId) (listen : list Multiaddr) (p : PeerInfo) : bool :=
  negb (String.eqb (node_id p) peer) && is_cold (state p) && existsb (contains listen) (addrs p).

Definition on_identify (now : Instant) (peer : NodeId) (listen : list Multiaddr) (s : GovTask) : GovTask :=
  let g :=
    match head (filterb (is_placeholder_for peer listen) (all_peers (gt_gov s))) with
    | Some p => (replace_node_id (node_id p) peer [] (gt_gov s)).1
    | None => gt_gov s
    end in
  let s := gt_set_gov g s in
  let filtered := filter_identify_addrs listen in
  if bool_decide (filtered = []) then s
  else
    match pool_get peer (gt_pool s) with
    | Some handle =>
        if bool_decide (ph_addrs handle = filtered) then s
        else
          gt_set_pool (update_addrs peer filtered (gt_pool s))
            (gt_set_gov (add_peer now peer filtered (ph_groups handle) (gt_gov s)) s)
    | None => s
    end.

Definition on_dial_failure (now : Instant) (peer : option NodeId) (s : GovTask) : GovTask :=
  match peer with
  | Some id => gt_set_gov (mark_dial_failed now id (gt_gov s)) s
  | None => s
  end.

(** ** Group exchanges: what happens when the answer arrives *)

(** [pool.update_peer_groups(..)] *)
Definition exchange_groups (shared : list GroupId) (peer : NodeId) (theirs : list GroupId) (s : GovTask) : GovTask :=
  gt_set_pool (update_peer_groups (pool_groups shared s) peer theirs (gt_pool s)) s.

(** The address lookup of the first exchange after a connection ... *)
Definition exchange_addrs (peer : NodeId) (s : GovTask) : list Multiaddr :=
  match pool_get peer (gt_pool s) with Some h => ph_addrs h | None => [] end.

(** ... whose result is handed to the governor. *)
Definition exchange_register (now : Instant) (peer : NodeId) (a : list Multiaddr) (theirs : list GroupId) (s : GovTask) : GovTask :=
  gt_set_gov (add_peer now peer a theirs (gt_gov s)) s.

(** A dynamic relay learns the groups of peers that are not relays. *)
Definition exchange_learn (peer_is_relay : bool) (theirs : list GroupId) (s : GovTask) : GovTask :=
  match gt_learned s with
  | Some set => if negb peer_is_relay then gt_set_learned (Some (foldl (fun set g => {[g]} ∪ set) set theirs)) s else s
  | None => s
  end.

(** ** Discovery *)

Definition GOSSIP_FAN_OUT : nat := 3.

(** The relays that are asked; [shuffle] permutes them. *)
Definition discover_targets (shuffle : list PeerHandle -> list PeerHandle) (s : GovTask) : list PeerHandle :=
  take GOSSIP_FAN_OUT (shuffle (relay_peers (gt_pool s))).

Definition discover_requests (shuffle : list PeerHandle -> list PeerHandle) (tx : NodeId -> Chan) (s : GovTask) :
    list SwarmCommand :=
  (fun h => CmdPeerShare (ph_node_id h) {| psr_max_peers := 20 |} (tx (ph_node_id h))) <$> discover_targets shuffle s.

(** The registration of one shared peer; [parse_id] and [parse_addr] are the
    parsers of libp2p. *)
Definition register_shared (parse_id : string -> option NodeId) (parse_addr : string -> option Multiaddr) (our_id : NodeId)
    (now : Instant) (g : Governor) (pa : PeerAddress) : Governor :=
  match parse_id (pa_peer_id pa) with
  | None => g
  | Some id =>
      if String.eqb id our_id then g
      else if match peer_info g id with Some e => is_active (state e) | None => false end then g
      else
        let a := omap parse_addr (pa_addrs pa) in
        if bool_decide (a = []) then g
        else
          let g := add_peer now id a (pa_groups pa) g in
          if String.eqb (pa_role pa) "relay" then set_peer_relay id true g else g
  end.

Definition discover_register (parse_id : string -> option NodeId) (parse_addr : string -> option Multiaddr) (our_id : NodeId)
    (now : Instant) (all : list PeerAddress) (s : GovTask) : GovTask :=
  gt_set_gov (foldl (register_shared parse_id parse_addr our_id now) (gt_gov s) all) s.

End task.
