(* ===== verification/GovernorTaskProps.v ===== *)
(** * Properties of the governor task

    The loop as a transition system ([task_step]), with the spawned exchanges and
    discoveries as interleaved steps: the pool always shows exactly the peers
    the governor has as connected, in the governor's state; what gossip can and
    cannot change; which bootnodes are dialled again; which announced addresses
    are kept. *)

From S2P Require Import Prelude Float64 Protocol Governor GovernorFacts GovernorProps GovernorTick.
From S2P Require Import PeerPool Config SwarmTask GovernorTask.

(** ** The task as a transition system *)

(** The address of a notice was dialled for an entry that is still there and not
    connected, or was not dialled. *)
Definition dial_current (s : GovTask) (a : list Multiaddr) : Prop :=
  match (take_pending a (gt_pending_dials s)).1 with
  | Some old => exists p, peers (gt_gov s) !! old = Some p /\ state p = Cold
  | None => True
  end.

Inductive task_step `{HashIter} (placeholder_id : string -> NodeId) : GovTask -> GovTask -> Prop :=
| ts_tick c now shared resolve tx s :
    task_step placeholder_id s (on_tick placeholder_id c now shared resolve tx s).1.1
| ts_connected now shared peer a tx s :
    gt_pool s !! peer = None -> dial_current s a ->
    task_step placeholder_id s (on_connected now shared peer a tx s).1
| ts_disconnected now peer s : task_step placeholder_id s (on_disconnected now peer s)
| ts_ping now peer rtt s : task_step placeholder_id s (on_ping now peer rtt s)
| ts_identify now peer listen s : task_step placeholder_id s (on_identify now peer listen s)
| ts_dial_failure now peer s : task_step placeholder_id s (on_dial_failure now peer s)
| ts_groups shared peer theirs s : task_step placeholder_id s (exchange_groups shared peer theirs s)
| ts_register now peer a theirs s : task_step placeholder_id s (exchange_register now peer a theirs s)
| ts_learn r theirs s : task_step placeholder_id s (exchange_learn r theirs s)
| ts_discover parse_id parse_addr our_id now all s :
    task_step placeholder_id s (discover_register parse_id parse_addr our_id now all s)
| ts_delivered peer n s :
    task_step placeholder_id s (gt_set_pool (pool_record_items_delivered peer n (gt_pool s)) s).

Inductive task_reachable `{HashIter} (placeholder_id : string -> NodeId) : GovTask -> Prop :=
| tr_start now now' resolve bootnodes t gs pol learned :
    task_reachable placeholder_id (start placeholder_id now' resolve bootnodes (with_dial_policy now t gs pol) learned)
| tr_step s s' : task_reachable placeholder_id s -> task_step placeholder_id s s' -> task_reachable placeholder_id s'.

(** ** Governor operations that change no connection state *)

(** The connected peers are the same, and nobody becomes banned. *)
Definition same_active (g g' : Governor) : Prop :=
  (forall id, gov_active g' id = gov_active g id)
  /\ (forall id p, peers g' !! id = Some p -> is_banned (state p) = true ->
        exists q, peers g !! id = Some q /\ is_banned (state q) = true).

Lemma same_active_refl g : same_active g g.
Proof. split; eauto. Qed.

Lemma same_active_trans g1 g2 g3 : same_active g1 g2 -> same_active g2 g3 -> same_active g1 g3.
Proof.
  intros [H1 B1] [H2 B2]. split; [intros id; by rewrite H2|].
  intros id p Hp Hb. destruct (B2 id p Hp Hb) as (q & Hq & Hbq). eauto.
Qed.

Lemma modify_same_active id f g : (forall p, state (f p) = state p) -> same_active g (modify_peer id f g).
Proof.
  intros Hf. unfold modify_peer. destruct (peers g !! id) as [p|] eqn:Hp; [|apply same_active_refl].
  split.
  - intros j. unfold gov_active. simpl. destruct (decide (id = j)) as [<-|Hne].
    + by rewrite lookup_insert_eq, Hp, Hf.
    + by rewrite lookup_insert_ne.
  - simpl. intros j q. destruct (decide (id = j)) as [<-|Hne].
    + rewrite lookup_insert_eq. intros [= <-] Hb. rewrite Hf in Hb. eauto.
    + rewrite lookup_insert_ne by done. eauto.
Qed.

Lemma add_same_active now id a gs g : same_active g (add_peer now id a gs g).
Proof.
  unfold add_peer. destruct (peers g !! id) as [p|] eqn:Hp; split.
  - intros j. unfold gov_active. simpl. destruct (decide (id = j)) as [<-|Hne].
    + by rewrite lookup_insert_eq, Hp.
    + by rewrite lookup_insert_ne.
  - simpl. intros j q. destruct (decide (id = j)) as [<-|Hne].
    + rewrite lookup_insert_eq. intros [= <-] Hb. eauto.
    + rewrite lookup_insert_ne by done. eauto.
  - intros j. unfold gov_active. simpl. destruct (decide (id = j)) as [<-|Hne].
    + by rewrite lookup_insert_eq, Hp.
    + by rewrite lookup_insert_ne.
  - simpl. intros j q. destruct (decide (id = j)) as [<-|Hne].
    + rewrite lookup_insert_eq. by intros [= <-].
    + rewrite lookup_insert_ne by done. eauto.
Qed.

(** Replacing the identity of an entry that is not connected. *)
Lemma replace_same_active old new gs g p :
  peers g !! old = Some p -> state p = Cold -> same_active g (replace_node_id old new gs g).1.
Proof.
  intros Hp Hc. assert (gov_active g old = None) as Hold by (unfold gov_active; by rewrite Hp, Hc).
  assert (same_active g (set_peers (delete old (peers g)) g)) as Hdel.
  { split.
    - intros j. unfold gov_active at 1. simpl. destruct (decide (old = j)) as [<-|Hne].
      + by rewrite lookup_delete_eq.
      + by rewrite lookup_delete_ne.
    - simpl. intros j q. destruct (decide (old = j)) as [<-|Hne]; [by rewrite lookup_delete_eq|].
      rewrite lookup_delete_ne by done. eauto. }
  unfold replace_node_id. rewrite Hp.
  destruct (match peers g !! new with Some e => is_active (state e) | None => false end) eqn:Ht; simpl.
  - destruct (is_relay p); [|done]. destruct (delete old (peers g) !! new) as [t|] eqn:Hn; [|done].
    eapply same_active_trans; [exact Hdel|].
    assert (set_peers (<[new:=set_is_relay true t]> (delete old (peers g))) g
      = modify_peer new (set_is_relay true) (set_peers (delete old (peers g)) g)) as ->.
    { unfold modify_peer. simpl. by rewrite Hn. }
    by apply modify_same_active.
  - split.
    + intros j. unfold gov_active at 1. simpl. destruct (decide (new = j)) as [<-|Hne].
      * rewrite lookup_insert_eq. simpl. rewrite Hc. simpl. unfold gov_active. destruct (peers g !! new) as [e|]; [|done].
        by rewrite Ht.
      * rewrite lookup_insert_ne by done. apply Hdel.
    + simpl. intros j q. destruct (decide (new = j)) as [<-|Hne].
      * rewrite lookup_insert_eq. intros [= <-]. simpl. by rewrite Hc.
      * rewrite lookup_insert_ne by done. apply Hdel.
Qed.

(** ** The pool follows *)

(** The pool holds exactly the connected peers, and the governor has no banned ones. *)
Definition in_step (pool : gmap NodeId PeerHandle) (g : Governor) : Prop :=
  gov_wf g /\ follows pool g /\ forall id p, peers g !! id = Some p -> is_banned (state p) = false.

Lemma in_step_gov pool g g' : gov_wf g' -> same_active g g' -> in_step pool g -> in_step pool g'.
Proof.
  intros Hwf' [Ha Hb] (Hwf & Hf & Hn). split; [done|]. split; [intros id; by rewrite Ha|].
  intros id p Hp. destruct (is_banned (state p)) eqn:E; [|done].
  destruct (Hb id p Hp E) as (q & Hq & Hbq). by rewrite (Hn id q Hq) in Hbq.
Qed.

Lemma in_step_pool pool f id g : (forall h, ph_state (f h) = ph_state h) -> in_step pool g -> in_step (alter f id pool) g.
Proof.
  intros Hs (Hwf & Hf & Hn). split; [done|]. split; [|done]. intros j. rewrite <- (Hf j).
  destruct (decide (id = j)) as [<-|Hne].
  - rewrite lookup_alter_eq. destruct (pool !! id); [|done]. simpl. by rewrite Hs.
  - by rewrite lookup_alter_ne.
Qed.

Section steps.
Context `{HI : HashIter} (placeholder_id : string -> NodeId).

Lemma seed_in_step now resolve boots pool g un res :
  in_step pool g -> in_step pool (foldl (seed_step placeholder_id now resolve) (g, un, res) boots).1.1.
Proof.
  revert g un res. induction boots as [|b boots IH]; intros g un res Hs; [done|]. cbn [foldl].
  unfold seed_step at 2. destruct (resolve b) as [addr|]; apply IH; [|done]. unfold seed_bootnode.
  eapply in_step_gov; [|apply modify_same_active; done|].
  - eapply gov_step_wf; [apply step_relay|]. apply add_peer_wf, Hs.
  - eapply in_step_gov; [|apply add_same_active|exact Hs]. apply add_peer_wf, Hs.
Qed.

(** A connection notice: the peer becomes Warm on both sides. *)
Lemma connect_in_step now peer a placeholder ctx relay pool g :
  in_step pool g -> pool !! peer = None ->
  match placeholder with Some old => exists p, peers g !! old = Some p /\ state p = Cold | None => True end ->
  in_step (pool_insert ctx peer a [] Warm 1 relay pool) (connect_governor now peer a placeholder g).
Proof.
  intros Hs Hnone Hph.
  assert (forall g0, in_step pool g0 -> is_Some (peers g0 !! peer) ->
    in_step (pool_insert ctx peer a [] Warm 1 relay pool) (mark_connected now peer g0)) as Hmark.
  { intros g0 (Hwf & Hf & Hn) [p Hp]. split; [eapply gov_step_wf; [apply step_connected | done]|].
    assert (state p = Cold) as Hc.
    { specialize (Hf peer). rewrite Hnone in Hf. unfold gov_active in Hf. rewrite Hp in Hf.
      specialize (Hn peer p Hp). by destruct (state p). }
    unfold mark_connected, modify_peer. rewrite Hp, Hc. simpl. split.
    - intros j. unfold pool_insert, gov_active. simpl. destruct (decide (peer = j)) as [<-|Hne].
      + by rewrite !lookup_insert_eq.
      + rewrite !lookup_insert_ne by done. apply Hf.
    - intros j q. simpl. destruct (decide (peer = j)) as [<-|Hne].
      + rewrite lookup_insert_eq. by intros [= <-].
      + rewrite lookup_insert_ne by done. apply Hn. }
  unfold connect_governor. destruct placeholder as [old|].
  - destruct Hph as (p & Hp & Hc). destruct (String.eqb_spec old peer) as [->|Hne]; simpl; [apply Hmark; eauto|].
    apply Hmark.
    + eapply in_step_gov; [|by eapply replace_same_active|done]. apply replace_node_id_wf, Hs.
    + unfold replace_node_id. rewrite Hp. destruct (match peers g !! peer with Some _ => _ | None => _ end) eqn:Ht; simpl.
      * destruct (peers g !! peer) as [e|] eqn:He; [|done].
        assert (delete old (peers g) !! peer = Some e) as Hd by (by rewrite lookup_delete_ne).
        destruct (is_relay p); [rewrite Hd, lookup_insert_eq|rewrite Hd]; eauto.
      * rewrite lookup_insert_eq. eauto.
  - case_bool_decide as Hk; [by apply Hmark|]. apply Hmark.
    + eapply in_step_gov; [|apply add_same_active|done]. apply add_peer_wf, Hs.
    + unfold add_peer. destruct (peers g !! peer) eqn:He; simpl; rewrite lookup_insert_eq; eauto.
Qed.

Lemma disconnect_in_step now peer s :
  in_step (gt_pool s) (gt_gov s) -> in_step (gt_pool (on_disconnected now peer s)) (gt_gov (on_disconnected now peer s)).
Proof.
  intros (Hwf & Hf & Hn). unfold on_disconnected. simpl. split; [eapply gov_step_wf; [apply step_disconnected | done]|].
  unfold mark_disconnected, modify_peer. destruct (peers (gt_gov s) !! peer) as [p|] eqn:Hp.
  - assert (forall q, state q = state p -> is_active (state (if is_active (state q) then set_last_disconnected (Some now)
        (set_disconnect_count (wrap_u32 (disconnect_count q + 1)) (set_connected_since None (set_state Cold q))) else q)) = false) as Hq.
    { intros q Hst. destruct (is_active (state q)) eqn:E; [done | by rewrite E]. }
    split.
    + intros j. unfold gov_active. simpl. destruct (decide (peer = j)) as [<-|Hne].
      * rewrite lookup_delete_eq, lookup_insert_eq. by rewrite Hq.
      * rewrite lookup_delete_ne, lookup_insert_ne by done. apply Hf.
    + simpl. intros j q. destruct (decide (peer = j)) as [<-|Hne].
      * rewrite lookup_insert_eq. intros [= <-]. destruct (is_active (state p)); [done|]. by apply (Hn peer).
      * rewrite lookup_insert_ne by done. apply Hn.
  - split; [|done]. intros j. destruct (decide (peer = j)) as [<-|Hne].
    + rewrite lookup_delete_eq. unfold gov_active. by rewrite Hp.
    + rewrite lookup_delete_ne by done. apply Hf.
Qed.

(** A tick of the governor whose actions are applied to the pool. *)
Lemma tick_in_step c pool g :
  in_step pool g -> in_step (apply_governor_actions (tick c g).2 pool).1 (tick c g).1.
Proof.
  intros (Hwf & Hf & Hn). destruct (ph_log _ _ _ _ (tick_phase c g Hwf) Hwf) as (ts & Ht & Hd & Hleg & Hlog).
  split; [by apply (ph_wf _ _ _ _ (tick_phase c g Hwf))|]. split; [by eapply follows_log|].
  intros id p Hp. destruct (is_banned (state p)) eqn:Hb; [|done]. specialize (Hlog id). rewrite Hp in Hlog.
  destruct (peers g !! id) as [q|] eqn:Hq; [|done]. simpl in Hlog.
  assert (state_name (state p) = "banned"%string) as Hname by (by destruct (state p)). rewrite Hname in Hlog.
  pose proof (chain_to_banned id _ _ (legal_log_of id _ Hleg) Hlog) as Hnil. rewrite Hnil in Hlog. simpl in Hlog.
  specialize (Hn id q Hq). by destruct (state q).
Qed.

Lemma dial_loop ids s out :
  let r := foldl dial_step (s, out) ids in
  gt_gov r.1 = gt_gov s /\ gt_pool r.1 = gt_pool s /\ gt_tick_count r.1 = gt_tick_count s
  /\ gt_unresolved r.1 = gt_unresolved s /\ gt_resolved r.1 = gt_resolved s.
Proof.
  revert s out. induction ids as [|id ids IH]; intros s out; [done|]. cbn [foldl].
  destruct (dial_step (s, out) id) as [s1 o1] eqn:E. unfold dial_step in E.
  destruct (IH s1 o1) as (-> & -> & -> & -> & ->).
  destruct (peer_info (gt_gov s) id ≫= _) as [addr|]; by injection E as <- _.
Qed.

Definition task_in_step (s : GovTask) : Prop := in_step (gt_pool s) (gt_gov s).

Lemma on_tick_in_step c now shared resolve tx s :
  task_in_step s -> task_in_step (on_tick placeholder_id c now shared resolve tx s).1.1.
Proof.
  intros Hs. unfold on_tick. assert (in_step (gt_pool s) (set_groups_gov shared (gt_gov s))) as Hg by exact Hs.
  pose proof (tick_in_step c _ _ Hg) as Ht. destruct (tick c (set_groups_gov shared (gt_gov s))) as [g actions].
  cbn [fst snd] in Ht. destruct (apply_governor_actions actions (gt_pool s)) as [pool gone].
  destruct (dial_loop (connect actions) (gt_set_pool pool (gt_set_gov g s)) []) as (Hgov & Hpool & _).
  fold (dial_promoted (connect actions) (gt_set_pool pool (gt_set_gov g s))) in Hgov, Hpool.
  destruct (dial_promoted (connect actions) (gt_set_pool pool (gt_set_gov g s))) as [s1 dials]. cbn [fst snd] in *.
  unfold task_in_step, retry_bootnodes. destruct (_ && _).
  - pose proof (seed_in_step now resolve (gt_unresolved s1) (gt_pool s1) (gt_gov s1) [] (gt_resolved s1)) as Hseed.
    simpl in *. destruct (foldl _ _ _) as [[g2 un] res]. simpl in *. apply Hseed. rewrite Hgov, Hpool. exact Ht.
  - simpl. by rewrite Hgov, Hpool.
Qed.

Lemma identify_in_step now peer listen s : task_in_step s -> task_in_step (on_identify now peer listen s).
Proof.
  intros Hs. unfold on_identify. set (g := match head _ with Some _ => _ | None => _ end).
  assert (in_step (gt_pool s) g) as Hg.
  { unfold g. destruct (head (filterb _ _)) as [p|] eqn:Hh; [|done]. apply head_Some_elem_of in Hh.
    apply elem_of_filterb in Hh as [Hph [id Hid]%elem_of_values]. unfold is_placeholder_for in Hph.
    apply andb_prop in Hph as [[_ Hc]%andb_prop _].
    assert (node_id p = id) as -> by (by eapply wf_key, gov_wf_lookup; [apply Hs|]).
    eapply in_step_gov; [|eapply replace_same_active; [exact Hid|]|exact Hs].
    - apply replace_node_id_wf, Hs.
    - by destruct (state p). }
  case_bool_decide; [done|]. simpl. unfold pool_get. destruct (gt_pool s !! peer) as [h|]; [|done].
  case_bool_decide; [done|]. unfold task_in_step, update_addrs. simpl. apply in_step_pool; [done|].
  eapply in_step_gov; [|apply add_same_active|done]. apply add_peer_wf, Hg.
Qed.

Lemma register_same_active parse_id parse_addr our_id now all g :
  gov_wf g -> same_active g (foldl (register_shared parse_id parse_addr our_id now) g all)
              /\ gov_wf (foldl (register_shared parse_id parse_addr our_id now) g all).
Proof.
  revert g. induction all as [|pa all IH]; intros g Hwf; cbn [foldl]; [split; [apply same_active_refl | done]|].
  assert (same_active g (register_shared parse_id parse_addr our_id now g pa)
    /\ gov_wf (register_shared parse_id parse_addr our_id now g pa)) as [Hsame Hwf'].
  { unfold register_shared. destruct (parse_id _) as [id|]; [|split; [apply same_active_refl | done]].
    destruct (String.eqb id our_id); [split; [apply same_active_refl | done]|].
    destruct (match peer_info g id with Some _ => _ | None => _ end); [split; [apply same_active_refl | done]|].
    case_bool_decide; [split; [apply same_active_refl | done]|].
    destruct (String.eqb (pa_role pa) "relay"); split.
    - eapply same_active_trans; [apply add_same_active | by apply modify_same_active].
    - eapply gov_step_wf; [apply step_relay|]. by apply add_peer_wf.
    - apply add_same_active.
    - by apply add_peer_wf. }
  destruct (IH _ Hwf') as [Hs Hw]. split; [by eapply same_active_trans | done].
Qed.

Lemma task_step_in_step s s' : task_step placeholder_id s s' -> task_in_step s -> task_in_step s'.
Proof.
  destruct 1 as [c now shared resolve tx s|now shared peer a tx s Hnone Hdial|now peer s|now peer rtt s|now peer listen s
    |now peer s|shared peer theirs s|now peer a theirs s|r theirs s|parse_id parse_addr our_id now all s|peer n s];
    intros Hs; unfold task_in_step.
  - by apply on_tick_in_step.
  - unfold on_connected, dial_current in *. destruct (take_pending a (gt_pending_dials s)) as [ph pending].
    simpl. by apply connect_in_step.
  - by apply disconnect_in_step.
  - unfold on_ping, update_rtt. simpl. apply in_step_pool; [done|].
    eapply in_step_gov; [|by apply modify_same_active|done]. eapply gov_step_wf; [apply step_activity | apply Hs].
  - by apply identify_in_step.
  - destruct peer as [id|]; [|done]. simpl. eapply in_step_gov; [|by apply modify_same_active|done].
    eapply gov_step_wf; [apply step_dial_failed | apply Hs].
  - by apply in_step_pool.
  - eapply in_step_gov; [|apply add_same_active|done]. apply add_peer_wf, Hs.
  - unfold exchange_learn. destruct (gt_learned s); [|done]. by destruct (negb r).
  - simpl. destruct (register_same_active parse_id parse_addr our_id now all (gt_gov s)) as [Ha Hw]; [apply Hs|].
    by eapply in_step_gov.
  - by apply in_step_pool.
Qed.

Lemma start_in_step now now' resolve boots t gs pol learned :
  task_in_step (start placeholder_id now' resolve boots (with_dial_policy now t gs pol) learned).
Proof.
  assert (in_step ∅ (with_dial_policy now t gs pol)) as H0.
  { split; [apply map_Forall_empty|]. split; [|by intros id p Hp]. intros id. by rewrite lookup_empty. }
  pose proof (seed_in_step now' resolve boots ∅ _ [] [] H0) as Hs. unfold task_in_step, start.
  by destruct (foldl _ _ _) as [[g un] res].
Qed.

(** What being in step means for a peer. *)
Lemma in_step_agrees s :
  task_in_step s ->
  forall id, match gt_pool s !! id, peers (gt_gov s) !! id with
             | Some h, Some p => ph_state h = state p /\ is_active (state p) = true
             | None, Some p => is_active (state p) = false
             | Some _, None => False
             | None, None => True
             end.
Proof.
  intros (_ & Hf & _) id. specialize (Hf id). unfold gov_active in Hf.
  destruct (gt_pool s !! id) as [h|], (peers (gt_gov s) !! id) as [p|]; simpl in Hf; try done.
  - destruct (is_active (state p)); [|done]. by injection Hf as ->.
  - by destruct (is_active (state p)).
Qed.

End steps.

(** The pool is always in step with the governor: in every state that the
    task reaches, whatever the order of ticks, notices, exchanges, discoveries
    and deliveries, the pool holds exactly the peers that the governor has as
    connected, in the same state (Warm or Hot).  Connection notices are assumed
    to be for peers that are not in the pool and, when the address was dialled
    for an entry, to find that entry present and Cold. *)
Theorem pool_follows_governor `{HashIter} placeholder_id s :
  task_reachable placeholder_id s ->
  forall id, match gt_pool s !! id, peers (gt_gov s) !! id with
             | Some h, Some p => ph_state h = state p /\ is_active (state p) = true
             | None, Some p => is_active (state p) = false
             | Some _, None => False
             | None, None => True
             end.
Proof.
  intros Hr. apply in_step_agrees.
  induction Hr as [now now' resolve boots t gs pol learned|s s' _ IH Hstep]; [apply start_in_step|by eapply task_step_in_step].
Qed.

(** ** Announced addresses *)

(** What is kept of announced addresses: no loopback address, and the private
    ones only if there is no public one. *)
Lemma filter_identify_addrs_spec l x :
  x ∈ filter_identify_addrs l <->
  x ∈ l /\ is_loopback_addr x = false
  /\ (is_public_addr x = true \/ forall y, y ∈ l -> is_loopback_addr y = false -> is_public_addr y = false).
Proof.
  unfold filter_identify_addrs. set (nl := filterb (fun a => negb (is_loopback_addr a)) l).
  assert (forall y, y ∈ nl <-> y ∈ l /\ is_loopback_addr y = false) as Hnl.
  { intros y. unfold nl. rewrite elem_of_filterb, negb_true_iff. tauto. }
  destruct (existsb is_public_addr nl) eqn:E.
  - apply existsb_exists in E as (z & Hz%list_elem_of_In%Hnl & Hpub). rewrite elem_of_filterb, Hnl. split; [tauto|].
    intros (Hx & Hl & [Hp|Hall]); [tauto|]. rewrite (Hall z) in Hpub by apply Hz. done.
  - rewrite Hnl. split; [|tauto]. intros [Hx Hl]. split_and!; try done. right. intros y Hy Hly.
    destruct (is_public_addr y) eqn:Hp; [|done]. rewrite <- E. symmetry. apply existsb_exists. exists y.
    split; [|done]. by apply list_elem_of_In, Hnl.
Qed.

(** ** Entries of the governor *)

Lemma add_peer_lookup now id a gs g j :
  peers (add_peer now id a gs g) !! j
  = if decide (id = j) then
      Some (match peers g !! id with Some p => set_groups gs (set_addrs a p) | None => new_peer now id a gs end)
    else peers g !! j.
Proof.
  unfold add_peer. case_decide as Hj; [subst j|]; destruct (peers g !! id); simpl;
    by rewrite ?lookup_insert_eq, ?lookup_insert_ne by done.
Qed.

Lemma set_peer_relay_lookup id r g j :
  peers (set_peer_relay id r g) !! j = if decide (id = j) then set_is_relay r <$> peers g !! j else peers g !! j.
Proof.
  unfold set_peer_relay, modify_peer. case_decide as Hj; [subst j|]; destruct (peers g !! id) eqn:E; simpl;
    by rewrite ?lookup_insert_eq, ?lookup_insert_ne, ?E by done.
Qed.

(** ** Bootnodes *)

Section bootnodes.
Context `{HI : HashIter} (placeholder_id : string -> NodeId).

Definition known_bootnodes (s : GovTask) : list BootnodeEntry := (gt_resolved s).*1 ++ gt_unresolved s.

Lemma seed_loop_known now resolve boots g un res :
  let '(_, un', res') := foldl (seed_step placeholder_id now resolve) (g, un, res) boots in
  res'.*1 ++ un' ≡ₚ (res.*1 ++ un) ++ boots.
Proof.
  revert g un res. induction boots as [|b boots IH]; intros g un res; cbn [foldl]; [by rewrite app_nil_r|].
  unfold seed_step at 2. destruct (resolve b) as [addr|].
  - specialize (IH (seed_bootnode placeholder_id now b addr g) un (res ++ [(b, addr)])).
    destruct (foldl _ _ boots) as [[g' un'] res']. rewrite IH, fmap_app. simpl. by rewrite <- !app_assoc, (Permutation_app_comm [b] (un ++ boots)), <- !app_assoc, (Permutation_app_comm boots [b]).
  - specialize (IH g (un ++ [b]) res). destruct (foldl _ _ boots) as [[g' un'] res']. rewrite IH. by rewrite <- !app_assoc.
Qed.

Lemma on_tick_known c now shared resolve tx s :
  known_bootnodes (on_tick placeholder_id c now shared resolve tx s).1.1 ≡ₚ known_bootnodes s.
Proof.
  unfold on_tick. destruct (tick c _) as [g actions]. destruct (apply_governor_actions actions (gt_pool s)) as [pool gone].
  destruct (dial_loop (connect actions) (gt_set_pool pool (gt_set_gov g s)) []) as (_ & _ & _ & Hu & Hr).
  fold (dial_promoted (connect actions) (gt_set_pool pool (gt_set_gov g s))) in Hu, Hr.
  destruct (dial_promoted _ _) as [s1 dials]. cbn [fst snd] in *. unfold known_bootnodes.
  change (gt_unresolved s) with (gt_unresolved (gt_set_pool pool (gt_set_gov g s))). rewrite <- Hu.
  change (gt_resolved s) with (gt_resolved (gt_set_pool pool (gt_set_gov g s))). rewrite <- Hr.
  unfold retry_bootnodes. destruct (_ && _); [|done]. simpl.
  pose proof (seed_loop_known now resolve (gt_unresolved s1) (gt_gov s1) [] (gt_resolved s1)) as Hk.
  destruct (foldl _ _ _) as [[g2 un] res]. simpl. rewrite Hk. by rewrite app_nil_r.
Qed.

(** The governor knows the peer as a relay. *)
Definition relay_entry (g : Governor) (id : NodeId) : Prop := exists p, peers g !! id = Some p /\ is_relay p = true.

Lemma seed_bootnode_entry now boot addr g id :
  id = placeholder_id (bn_addr boot) \/ relay_entry g id -> relay_entry (seed_bootnode placeholder_id now boot addr g) id.
Proof.
  unfold relay_entry, seed_bootnode. rewrite set_peer_relay_lookup, add_peer_lookup.
  destruct (decide (placeholder_id (bn_addr boot) = id)) as [->|Hne]; [by eexists|]. intros [->|Hr]; [done|exact Hr].
Qed.

(** A pass over unresolved bootnodes: those that resolve now are seeded, none is lost. *)
Lemma seed_loop_resolves now resolve boots g un res :
  let '(g', un', res') := foldl (seed_step placeholder_id now resolve) (g, un, res) boots in
  (forall x, x ∈ res -> x ∈ res') /\ (forall id, relay_entry g id -> relay_entry g' id)
  /\ forall b addr, b ∈ boots -> resolve b = Some addr -> (b, addr) ∈ res' /\ relay_entry g' (placeholder_id (bn_addr b)).
Proof.
  revert g un res. induction boots as [|b boots IH]; intros g un res; cbn [foldl].
  { split_and!; [done|done|]. by intros b addr ?%elem_of_nil. }
  unfold seed_step at 2. destruct (resolve b) as [addr|] eqn:Er.
  - specialize (IH (seed_bootnode placeholder_id now b addr g) un (res ++ [(b, addr)])).
    destruct (foldl _ _ boots) as [[g' un'] res']. destruct IH as (Hres & Hent & Hall). split_and!.
    + intros x Hx. apply Hres, elem_of_app. by left.
    + intros id Hid. apply Hent, seed_bootnode_entry. by right.
    + intros b' a' [->|Hin]%elem_of_cons Hb'; [|by apply Hall]. rewrite Er in Hb'. injection Hb' as <-. split.
      * apply Hres, elem_of_app. right. by left.
      * apply Hent, seed_bootnode_entry. by left.
  - specialize (IH g (un ++ [b]) res). destruct (foldl _ _ boots) as [[g' un'] res']. destruct IH as (Hres & Hent & Hall).
    split_and!; [done|done|]. intros b' a' [->|Hin]%elem_of_cons Hb'; [congruence|by apply Hall].
Qed.

(** What a tick does to the bootnodes is the retry after its other work. *)
Lemma on_tick_bootnodes c now shared resolve tx s :
  exists s1, gt_unresolved s1 = gt_unresolved s /\ gt_resolved s1 = gt_resolved s /\ gt_tick_count s1 = wrap_u64 (gt_tick_count s + 1)
    /\ (on_tick placeholder_id c now shared resolve tx s).1.1 = retry_bootnodes placeholder_id now resolve s1
    /\ forall x, x ∈ redial_bootnodes resolve (retry_bootnodes placeholder_id now resolve s1)
       -> x ∈ (on_tick placeholder_id c now shared resolve tx s).1.2.
Proof.
  unfold on_tick. destruct (tick c _) as [g actions]. destruct (apply_governor_actions actions (gt_pool s)) as [pool gone].
  destruct (dial_loop (connect actions) (gt_set_pool pool (gt_set_gov g s)) []) as (Hc & _ & _ & Hu & Hr).
  fold (dial_promoted (connect actions) (gt_set_pool pool (gt_set_gov g s))) in Hu, Hr.
  destruct (dial_promoted _ _) as [s1 dials] eqn:E. cbn [fst snd] in *. exists (gt_set_count (wrap_u64 (gt_tick_count s1 + 1)) s1).
  assert (gt_tick_count s1 = gt_tick_count s) as Ht.
  { clear -E. unfold dial_promoted in E. change (gt_tick_count s) with (gt_tick_count (gt_set_pool pool (gt_set_gov g s))).
    revert E. generalize (gt_set_pool pool (gt_set_gov g s)) as s0, (@nil SwarmCommand) as out. induction (connect actions) as [|id ids IH];
      intros s0 out; cbn [foldl]; [by intros [= <- _]|]. unfold dial_step at 2. destruct (_ ≫= _); intros E; by rewrite (IH _ _ E). }
  split_and!; [exact Hu|exact Hr|cbn; by rewrite Ht|done|]. intros x Hx. rewrite !elem_of_app. auto.
Qed.

Lemma retry_unresolved now resolve s :
  gt_tick_count (retry_bootnodes placeholder_id now resolve s) = gt_tick_count s
  /\ (forall x, x ∈ gt_resolved s -> x ∈ gt_resolved (retry_bootnodes placeholder_id now resolve s))
  /\ (gt_tick_count s <= BOOT_RETRY_TICKS -> forall b addr, b ∈ gt_unresolved s -> resolve b = Some addr ->
       let s' := retry_bootnodes placeholder_id now resolve s in
       (b, addr) ∈ gt_resolved s' /\ relay_entry (gt_gov s') (placeholder_id (bn_addr b)))
  /\ (BOOT_RETRY_TICKS < gt_tick_count s -> retry_bootnodes placeholder_id now resolve s = s).
Proof.
  unfold retry_bootnodes. case_bool_decide as Hu; cbn [negb andb].
  { split_and!; [done|done| |done]. intros _ b addr Hb. rewrite Hu in Hb. by apply elem_of_nil in Hb. }
  destruct (Z.leb_spec (gt_tick_count s) BOOT_RETRY_TICKS) as [Hle|Hlt]; [|split_and!; [done|done|lia|done]].
  pose proof (seed_loop_resolves now resolve (gt_unresolved s) (gt_gov s) [] (gt_resolved s)) as Hs.
  destruct (foldl _ _ _) as [[g' un'] res']. destruct Hs as (Hres & _ & Hall). split_and!; [done|exact Hres|intros _; exact Hall|lia].
Qed.

Lemma task_step_known s s' : task_step placeholder_id s s' -> known_bootnodes s' ≡ₚ known_bootnodes s.
Proof.
  destruct 1 as [c now shared resolve tx s|now shared peer a tx s _ _| | |now peer listen s|now peer s| | |r theirs s| |]; try done.
  - apply on_tick_known.
  - unfold on_connected. by destruct (take_pending a (gt_pending_dials s)).
  - unfold on_identify. case_bool_decide; [done|]. simpl. destruct (pool_get _ _); [|done]. by case_bool_decide.
  - by destruct peer.
  - unfold exchange_learn. destruct (gt_learned s); [|done]. by destruct (negb r).
Qed.

End bootnodes.

(** [C30] What becomes of the bootnodes.  In every state reached from the start the
    configured bootnodes are, as a multiset, those resolved and those still
    unresolved.  A tick that brings the tick count to at most six makes every
    unresolved bootnode that resolves then a resolved one, which the governor
    knows as a relay from then on; a later tick never looks at the unresolved ones
    again.  A resolved bootnode stays resolved, and whenever a tick brings the
    count to a multiple of six it is dialled again, at its newly resolved address
    if there is one, or a connected peer has its address. *)
Theorem bootnodes_kept_and_redialled `{HashIter} placeholder_id start_time resolve0 bootnodes g learned s :
  rtc (task_step placeholder_id) (start placeholder_id start_time resolve0 bootnodes g learned) s ->
  known_bootnodes s ≡ₚ bootnodes
  /\ forall c now shared resolve tx,
       let '(s', out, _) := on_tick placeholder_id c now shared resolve tx s in
       (forall x, x ∈ gt_resolved s -> x ∈ gt_resolved s')
       /\ (if gt_tick_count s' <=? BOOT_RETRY_TICKS
           then forall boot addr, boot ∈ gt_unresolved s -> resolve boot = Some addr ->
                  (boot, addr) ∈ gt_resolved s' /\ relay_entry (gt_gov s') (placeholder_id (bn_addr boot))
           else gt_unresolved s' = gt_unresolved s /\ gt_resolved s' = gt_resolved s)
       /\ (0 < gt_tick_count s' -> gt_tick_count s' mod BOOT_REDIAL_EVERY = 0 ->
           forall boot addr, (boot, addr) ∈ gt_resolved s' ->
             CmdDial (default addr (resolve boot)) ∈ out
             \/ exists id h, gt_pool s' !! id = Some h /\ is_active_handle h = true /\ addr ∈ ph_addrs h).
Proof.
  intros Hr. split.
  { assert (forall s0, rtc (task_step placeholder_id) s0 s -> known_bootnodes s ≡ₚ known_bootnodes s0) as Hk.
    { intros s0. induction 1 as [|s0 s1 s2 Hstep _ IH]; [done|]. rewrite (IH Hr). by eapply task_step_known. }
    rewrite (Hk _ Hr). unfold known_bootnodes, start.
    pose proof (seed_loop_known placeholder_id start_time resolve0 bootnodes g [] []) as Hs.
    destruct (foldl _ _ _) as [[g' un] res]. exact Hs. }
  intros c now shared resolve tx. destruct (on_tick_bootnodes placeholder_id c now shared resolve tx s) as (s1 & Hu & Hres & _ & Hs' & Hout).
  destruct (on_tick _ _ _ _ _ _ s) as [[s' out] b]. cbn [fst snd] in Hs', Hout. rewrite <- Hs' in Hout.
  destruct (retry_unresolved placeholder_id now resolve s1) as (Hc & Hkeep & Hearly & Hlate). rewrite <- Hs' in Hc, Hkeep, Hearly, Hlate.
  split; [by rewrite <- Hres|]. split.
  - rewrite Hc. destruct (Z.leb_spec (gt_tick_count s1) BOOT_RETRY_TICKS) as [Hle|Hlt]; [by rewrite <- Hu; apply Hearly|].
    by rewrite Hlate, Hu, Hres by done.
  - intros Hpos Hmod boot addr Hin. destruct (contains (active_peers (gt_pool s') ≫= ph_addrs) addr) eqn:Ec.
    + right. apply contains_true in Ec as (h & Ha & [Hact [id Hh]%elem_of_values]%elem_of_filterb)%list_elem_of_bind. eauto.
    + left. apply Hout. unfold redial_bootnodes. rewrite (proj2 (Z.ltb_lt _ _) Hpos), (proj2 (Z.eqb_eq _ _) Hmod).
      rewrite bool_decide_eq_false_2 by (intros E; rewrite E in Hin; by apply elem_of_nil in Hin). cbn [andb negb].
      apply list_elem_of_fmap. exists (boot, addr). split; [done|]. apply elem_of_filterb. cbn [snd]. by rewrite Ec.
Qed.

(** ** Discovery *)

Definition registers (parse_id : string -> option NodeId) (parse_addr : string -> option Multiaddr) (our_id id : NodeId)
    (pa : PeerAddress) : Prop :=
  parse_id (pa_peer_id pa) = Some id /\ id <> our_id /\ omap parse_addr (pa_addrs pa) <> [].

Ltac by_cases_entry := split_and?; intros; destruct_and?; simplify_eq; eauto; done.

(** What gossip about one peer does to an entry. *)
Lemma register_shared_lookup parse_id parse_addr our_id now g pa j :
  let g' := register_shared parse_id parse_addr our_id now g pa in
  (forall p, peers g !! j = Some p -> is_active (state p) = true -> peers g' !! j = Some p)
  /\ (forall p, peers g !! j = Some p -> exists p', peers g' !! j = Some p' /\ state p' = state p)
  /\ (j = our_id -> peers g' !! j = peers g !! j)
  /\ (peers g !! j = None -> forall p, peers g' !! j = Some p -> state p = Cold /\ registers parse_id parse_addr our_id j pa)
  /\ (registers parse_id parse_addr our_id j pa -> is_Some (peers g' !! j)).
Proof.
  unfold register_shared, registers. destruct (parse_id (pa_peer_id pa)) as [id|]; [|by_cases_entry].
  destruct (String.eqb_spec id our_id) as [->|Hne]; [by_cases_entry|]. unfold peer_info.
  destruct (match peers g !! id with Some e => is_active (state e) | None => false end) eqn:Hact.
  { split_and!; try by_cases_entry. intros ([= ->] & _). destruct (peers g !! j); [eauto | done]. }
  case_bool_decide as Ha; [by_cases_entry|].
  assert (forall g1, g1 = add_peer now id (omap parse_addr (pa_addrs pa)) (pa_groups pa) g \/
    g1 = set_peer_relay id true (add_peer now id (omap parse_addr (pa_addrs pa)) (pa_groups pa) g) ->
    (id <> j -> peers g1 !! j = peers g !! j)
    /\ (id = j -> exists p', peers g1 !! j = Some p' /\ state p' = match peers g !! j with Some p => state p | None => Cold end)) as Hg1.
  { intros g1 [-> | ->]; rewrite ?set_peer_relay_lookup, !add_peer_lookup; (split; [intros Hj; by rewrite !decide_False|]);
      intros <-; rewrite !decide_True by done; destruct (peers g !! id); simpl; eauto. }
  set (g1 := if String.eqb (pa_role pa) "relay" then _ else _).
  destruct (Hg1 g1) as [H1 H2]; [unfold g1; destruct (String.eqb _ _); auto|].
  destruct (decide (id = j)) as [->|Hj].
  - destruct (H2 eq_refl) as (p' & Hp' & Hst). rewrite Hp'. split_and!; try done.
    + intros p Hp Hap. by rewrite Hp, Hap in Hact.
    + intros p Hp. rewrite Hp in Hst. eauto.
    + intros Hn p [= <-]. rewrite Hn in Hst. done.
  - rewrite H1 by done. by_cases_entry.
Qed.

Lemma discover_lookup parse_id parse_addr our_id now all g j :
  let g' := foldl (register_shared parse_id parse_addr our_id now) g all in
  (forall p, peers g !! j = Some p -> is_active (state p) = true -> peers g' !! j = Some p)
  /\ (forall p, peers g !! j = Some p -> exists p', peers g' !! j = Some p' /\ state p' = state p)
  /\ (j = our_id -> peers g' !! j = peers g !! j)
  /\ (peers g !! j = None -> forall p, peers g' !! j = Some p ->
        state p = Cold /\ exists pa, pa ∈ all /\ registers parse_id parse_addr our_id j pa)
  /\ (forall pa, pa ∈ all -> registers parse_id parse_addr our_id j pa -> is_Some (peers g' !! j)).
Proof.
  induction all as [|pa all IH] using rev_ind; cbn zeta.
  { split_and!; [done | eauto | done | intros Hn p Hp; cbn in *; congruence | by intros pa ?%elem_of_nil]. }
  rewrite foldl_app. cbn [foldl]. set (g1 := foldl _ g all) in *. destruct IH as (I1 & I2 & I3 & I4 & I5).
  destruct (register_shared_lookup parse_id parse_addr our_id now g1 pa j) as (R1 & R2 & R3 & R4 & R5). split_and!.
  - intros p Hp Ha. by apply R1; [apply I1|].
  - intros p Hp. destruct (I2 p Hp) as (p1 & Hp1 & Hs1). destruct (R2 p1 Hp1) as (p2 & Hp2 & Hs2). exists p2.
    split; [done | congruence].
  - intros Hj. by rewrite R3, I3.
  - intros Hn p Hp. destruct (peers g1 !! j) as [q|] eqn:Hq.
    + destruct (I4 Hn q eq_refl) as (Hc & pa' & Hin & Hreg). destruct (R2 q eq_refl) as (p' & Hp' & Hs').
      assert (p' = p) as -> by congruence. split; [congruence|]. exists pa'. split; [|done]. apply elem_of_app. by left.
    + destruct (R4 eq_refl p Hp) as [Hc Hreg]. split; [done|]. exists pa. split; [|done]. apply elem_of_app. right. by left.
  - intros pa' [Hin|Heq%list_elem_of_singleton]%elem_of_app Hreg; [|subst pa'; by apply R5].
    destruct (I5 pa' Hin Hreg) as [q Hq]. destruct (R2 q Hq) as (p' & Hp' & _). eauto.
Qed.

(** Gossip can only add: whatever peers the relays claim to know, the entries
    of connected peers stay exactly as they are, no entry disappears or changes
    state, the node never registers itself, and the new entries are Cold and
    are exactly the shared peers with a valid identity and address. *)
Theorem discovery_only_adds parse_id parse_addr our_id now all s :
  let g := gt_gov s in
  let g' := gt_gov (discover_register parse_id parse_addr our_id now all s) in
  (forall id p, peers g !! id = Some p -> exists p', peers g' !! id = Some p' /\ state p' = state p
      /\ (is_active (state p) = true -> p' = p))
  /\ peers g' !! our_id = peers g !! our_id
  /\ (forall id, peers g !! id = None ->
        (is_Some (peers g' !! id) <-> exists pa, pa ∈ all /\ parse_id (pa_peer_id pa) = Some id /\ id <> our_id
                                                /\ omap parse_addr (pa_addrs pa) <> [])
        /\ forall p, peers g' !! id = Some p -> state p = Cold).
Proof.
  intros g g'. unfold g', discover_register. simpl. fold g. split_and!.
  - intros id p Hp. destruct (discover_lookup parse_id parse_addr our_id now all g id) as (D1 & D2 & _).
    destruct (D2 p Hp) as (p' & Hp' & Hs). exists p'. split_and!; [done..|]. intros Ha. rewrite (D1 p Hp Ha) in Hp'. congruence.
  - by apply discover_lookup.
  - intros id Hn. destruct (discover_lookup parse_id parse_addr our_id now all g id) as (_ & _ & _ & D4 & D5).
    split; [split|].
    + intros [p Hp]. by apply (D4 Hn p Hp).
    + intros (pa & Hin & Hreg). by eapply D5.
    + intros p Hp. by apply (D4 Hn p Hp).
Qed.

Lemma advertised_includes `{HashIter} shared learned b x : x ∈ shared -> x ∈ advertised_groups shared learned b.
Proof.
  intros Hx. unfold advertised_groups. destruct learned as [set|]; [|done]. destruct b; [|done].
  generalize (hash_set_iter set). intros l. revert shared Hx. induction l as [|g l IH]; intros shared Hx; [done|]. simpl.
  apply IH. destruct (contains shared g); [done|]. apply elem_of_app. by left.
Qed.

(** A dialled bootnode gets its real identity: when the connection of an
    address that was dialled for a Cold placeholder reports another identity
    that is not connected, the placeholder disappears and the reported peer is
    Warm in the governor and in the pool, is a relay in both exactly if the
    placeholder was one, and the dial is no longer pending; the commands ask
    it for its groups. *)
Theorem placeholder_replaced `{HashIter} now shared peer a tx s old p :
  (take_pending a (gt_pending_dials s)).1 = Some old -> old <> peer ->
  peers (gt_gov s) !! old = Some p -> state p = Cold -> gov_active (gt_gov s) peer = None ->
  let '(s', out) := on_connected now shared peer a tx s in
  peers (gt_gov s') !! old = None
  /\ (exists q, peers (gt_gov s') !! peer = Some q /\ state q = Warm /\ is_relay q = is_relay p /\ connected_since q = Some now)
  /\ (exists h, gt_pool s' !! peer = Some h /\ ph_state h = Warm /\ ph_is_relay h = is_relay p /\ ph_addrs h = a)
  /\ gt_pending_dials s' = (take_pending a (gt_pending_dials s)).2
  /\ exists req, out = [CmdGroupExchange peer req (tx peer)] /\ forall g, g ∈ shared -> g ∈ gx_groups req.
Proof.
  intros Hph Hne Hp Hc Hnot. unfold on_connected. destruct (take_pending a (gt_pending_dials s)) as [ph pend]. simpl in Hph. subst ph.
  set (g := connect_governor now peer a (Some old) (gt_gov s)).
  assert (peers g = <[peer := set_last_activity now (set_connected_since (Some now)
      (set_state Warm (set_groups [] (set_node_id peer p))))]> (<[peer := set_groups [] (set_node_id peer p)]> (delete old (peers (gt_gov s))))) as Hg.
  { unfold g, connect_governor, replace_node_id. rewrite (proj2 (String.eqb_neq _ _) Hne). simpl. rewrite Hp.
    assert (match peers (gt_gov s) !! peer with Some e => is_active (state e) | None => false end = false) as ->.
    { unfold gov_active in Hnot. destruct (peers (gt_gov s) !! peer) as [e|]; [|done]. by destruct (is_active (state e)). }
    simpl. unfold mark_connected, modify_peer. simpl. rewrite lookup_insert_eq. simpl. by rewrite Hc. }
  assert (peers g !! peer = Some (set_last_activity now (set_connected_since (Some now)
      (set_state Warm (set_groups [] (set_node_id peer p)))))) as Hpeer by (by rewrite Hg, lookup_insert_eq).
  split_and!.
  - simpl. by rewrite Hg, !lookup_insert_ne, lookup_delete_eq by done.
  - eexists. simpl. split; [exact Hpeer|]. done.
  - eexists. simpl. unfold pool_insert. rewrite lookup_insert_eq. split; [done|]. simpl. unfold known_relay, peer_info.
    by rewrite Hpeer.
  - done.
  - eexists. split; [done|]. intros x Hx. simpl. by apply advertised_includes.
Qed.

(** Why the connection notices of [task_step] are restricted: when the entry for
    which an address was dialled has been evicted or replaced in the meantime,
    the connected peer enters the pool and stays unknown to the governor. *)
Lemma stale_dial_hides_peer `{HashIter} now shared peer a tx s old :
  (take_pending a (gt_pending_dials s)).1 = Some old ->
  peers (gt_gov s) !! old = None -> peers (gt_gov s) !! peer = None ->
  let s' := (on_connected now shared peer a tx s).1 in
  peers (gt_gov s') !! peer = None /\ ph_state <$> gt_pool s' !! peer = Some Warm.
Proof.
  intros Hph Ho Hp. unfold on_connected. destruct (take_pending a (gt_pending_dials s)) as [ph pend]. simpl in Hph. subst ph.
  simpl. unfold pool_insert. rewrite lookup_insert_eq. split; [|done].
  unfold replace_node_id. rewrite Ho, Hp. simpl. unfold mark_connected, modify_peer.
  destruct (negb (String.eqb old peer)); simpl; by rewrite Hp.
Qed.

(** And a banned peer that connects is Warm in the pool. *)
Lemma banned_peer_enters_pool `{HashIter} now shared peer a tx s p :
  (take_pending a (gt_pending_dials s)).1 = None -> peers (gt_gov s) !! peer = Some p -> is_banned (state p) = true ->
  let s' := (on_connected now shared peer a tx s).1 in
  peers (gt_gov s') !! peer = Some p /\ ph_state <$> gt_pool s' !! peer = Some Warm.
Proof.
  intros Hph Hp Hb. unfold on_connected. destruct (take_pending a (gt_pending_dials s)) as [ph pend]. simpl in Hph. subst ph.
  simpl. unfold pool_insert. rewrite lookup_insert_eq. split; [|done]. unfold peer_info.
  rewrite bool_decide_eq_true_2 by (by rewrite Hp). unfold mark_connected, modify_peer. rewrite Hp. simpl.
  rewrite lookup_insert_eq. by destruct (state p).
Qed.

(** ** Witnesses *)

Definition ex_boot : BootnodeEntry := {| bn_addr := "boot1:9474" |}.
Definition ex_boot_addr : Multiaddr := [Ip4 203 0 113 7; OtherProto "tcp/9474"].
Definition ex_placeholder (text : string) : NodeId := String.append "placeholder-" text.
Definition ex_resolve (b : BootnodeEntry) : option Multiaddr := Some ex_boot_addr.

Definition ex_start : GovTask :=
  start ex_placeholder 0 ex_resolve [ex_boot] (with_dial_policy 0 ex_targets ["g"%string] DialAll) None.

(** The first tick dials the placeholder. *)
Definition ex_ticked : GovTask :=
  (@on_tick sorted_iter ex_placeholder (ex_clock 1) 1 ["g"%string] ex_resolve (fun _ => 0) ex_start).1.1.

Definition ex_joined : GovTask :=
  (@on_connected sorted_iter 2 ["g"%string] "real" [ex_boot_addr] (fun _ => 0) ex_ticked).1.

Lemma ex_ticked_dials :
  (take_pending [ex_boot_addr] (gt_pending_dials ex_ticked)).1 = Some "placeholder-boot1:9474"%string
  /\ exists p, peers (gt_gov ex_ticked) !! "placeholder-boot1:9474"%string = Some p /\ state p = Cold.
Proof. split; [vm_compute; reflexivity|]. eexists. split; vm_compute; reflexivity. Qed.

Lemma ex_tick_step : @task_step sorted_iter ex_placeholder ex_start ex_ticked.
Proof. exact (@ts_tick sorted_iter ex_placeholder (ex_clock 1) 1 ["g"%string] ex_resolve (fun _ => 0) ex_start). Qed.

Lemma ex_joined_reachable : @task_reachable sorted_iter ex_placeholder ex_joined.
Proof.
  refine (@tr_step sorted_iter ex_placeholder ex_ticked ex_joined _ _).
  - refine (@tr_step sorted_iter ex_placeholder ex_start ex_ticked _ ex_tick_step).
    exact (@tr_start sorted_iter ex_placeholder 0 0 ex_resolve [ex_boot] ex_targets ["g"%string] DialAll None).
  - refine (@ts_connected sorted_iter ex_placeholder 2 ["g"%string] "real"%string [ex_boot_addr] (fun _ => 0) ex_ticked _ _).
    + vm_compute. reflexivity.
    + destruct ex_ticked_dials as [Ht Hp]. unfold dial_current. rewrite Ht. exact Hp.
Qed.

Lemma pool_follows_governor_witness :
  exists h p, gt_pool ex_joined !! "real"%string = Some h /\ peers (gt_gov ex_joined) !! "real"%string = Some p
    /\ ph_state h = state p /\ is_active (state p) = true.
Proof.
  pose proof (@pool_follows_governor sorted_iter ex_placeholder ex_joined ex_joined_reachable "real"%string) as H.
  destruct (gt_pool ex_joined !! "real"%string) as [h|] eqn:Eh; [|vm_compute in Eh; discriminate Eh].
  destruct (peers (gt_gov ex_joined) !! "real"%string) as [p|] eqn:Ep; [|vm_compute in Ep; discriminate Ep].
  exists h, p. split; [reflexivity|]. split; [reflexivity|]. exact H.
Defined.

Lemma bootnodes_kept_and_redialled_witness : known_bootnodes ex_ticked ≡ₚ [ex_boot].
Proof.
  destruct (@bootnodes_kept_and_redialled sorted_iter ex_placeholder 0 ex_resolve [ex_boot]
    (with_dial_policy 0 ex_targets ["g"%string] DialAll) None ex_ticked (rtc_once _ _ ex_tick_step)) as [H _].
  exact H.
Defined.

Lemma placeholder_replaced_witness :
  peers (gt_gov ex_joined) !! "placeholder-boot1:9474"%string = None.
Proof.
  destruct (peers (gt_gov ex_ticked) !! "placeholder-boot1:9474"%string) as [p|] eqn:Ep; [|vm_compute in Ep; discriminate Ep].
  pose proof (@placeholder_replaced sorted_iter 2 ["g"%string] "real"%string [ex_boot_addr] (fun _ => 0) ex_ticked
    "placeholder-boot1:9474"%string p) as H.
  assert (state p = Cold) as Hc by (vm_compute in Ep; injection Ep as <-; reflexivity).
  unfold ex_joined. destruct (@on_connected sorted_iter 2 _ _ _ _ ex_ticked) as [s' out]. apply H.
  - vm_compute. reflexivity.
  - discriminate.
  - exact Ep.
  - exact Hc.
  - vm_compute. reflexivity.
Defined.
