(* ===== verification/Startup.v ===== *)
(** * Starting a node, and the command line

    Models [crates/cordelia-node/src/main.rs] and the helpers of [lib.rs]: the
    expansion of paths, the bearer token file, the listen address, the seeding
    of configured groups, and the assembly of the tasks' initial states in
    [run_node], up to the point where the tasks run; and the commands that
    query a running node.  The file system, DNS, address parsers, the clap
    parser and the construction of the libp2p swarm are parameters. *)

From S2P Require Import Prelude Float64 Protocol Governor Storage StorageProps Search Json Envelope.
From S2P Require Import ItemStore Replication PeerPool Config SwarmTask ReplicationTask Api GovernorTask.

(** ** Paths *)

Definition slash : Ascii.ascii := Ascii.ascii_of_nat 47.

Definition is_absolute (p : string) : bool := match p with String c _ => Ascii.eqb c slash | EmptyString => false end.

Fixpoint ends_with_slash (p : string) : bool :=
  match p with
  | EmptyString => false
  | String c EmptyString => Ascii.eqb c slash
  | String _ r => ends_with_slash r
  end.

(** [PathBuf::join]: an absolute path replaces, an empty one is extended without separator. *)
Definition path_join (base p : string) : string :=
  if is_absolute p then p
  else if String.eqb base EmptyString || ends_with_slash base then base +:+ p
  else base +:+ String slash p.

(** [path.strip_prefix("~/")] *)
Definition strip_tilde (p : string) : option string :=
  match p with
  | String a (String b r) => if Ascii.eqb a (Ascii.ascii_of_nat 126) && Ascii.eqb b slash then Some r else None
  | _ => None
  end.

(** [home]: the variable HOME. *)
Definition expand_tilde (home : option string) (path : string) : string :=
  match strip_tilde path, home with
  | Some stripped, Some h => path_join h stripped
  | _, _ => path
  end.

(** ** The bearer token *)

Fixpoint trim_start_aux (fuel : nat) (s : string) : string :=
  match fuel with
  | O => s
  | S fuel => match strip_space s with Some r => trim_start_aux fuel r | None => s end
  end.

Fixpoint trim_end (s : string) : string :=
  match s with
  | EmptyString => EmptyString
  | String a r => if trim_is_empty s then EmptyString else String a (trim_end r)
  end.

(** [str::trim] *)
Definition trim (s : string) : string := trim_end (trim_start_aux (String.length s) s).

(** The token file and what the operating system does with it. *)
Record TokenFs := {
  tf_content : option string;
  tf_private : bool;
  tf_read_error : option string;
  tf_mkdir_error : option string;
  tf_write_error : option string;
  tf_chmod_error : option string;
}.

(** [sampled]: the 48 characters of the random generator. *)
Definition load_or_create_token (sampled : string) (fs : TokenFs) : TokenFs * result string string :=
  match tf_content fs with
  | Some content =>
      match tf_read_error fs with
      | Some e => (fs, Err e)
      | None => (fs, Ok (trim content))
      end
  | None =>
      match tf_mkdir_error fs with
      | Some e => (fs, Err e)
      | None =>
          match tf_write_error fs with
          | Some e => (fs, Err e)
          | None =>
              let written p :=
                {| tf_content := Some sampled; tf_private := p; tf_read_error := tf_read_error fs;
                   tf_mkdir_error := None; tf_write_error := None; tf_chmod_error := tf_chmod_error fs |} in
              match tf_chmod_error fs with
              | Some e => (written false, Err e)
              | None => (written true, Ok sampled)
              end
          end
      end
  end.

(** ** The listen address *)

Section addresses.
Context (parse_multiaddr : string -> option Multiaddr) (parse_socket : string -> option (string * string)).
Context (lookup_host : string -> result (list (string * string)) string).

(** [format!("/ip4/{}/tcp/{}", ip, port).parse()?]: address and port as text. *)
Definition tcp_multiaddr (a : string * string) : result Multiaddr string :=
  match parse_multiaddr ("/ip4/" +:+ a.1 +:+ "/tcp/" +:+ a.2) with
  | Some m => Ok m
  | None => Err "invalid multiaddr"%string
  end.

Definition parse_listen_addr (addr : string) : result Multiaddr string :=
  match parse_multiaddr addr with
  | Some m => Ok m
  | None =>
      match parse_socket addr with
      | Some a => tcp_multiaddr a
      | None =>
          match lookup_host addr with
          | Err e => Err ("DNS resolution failed for '" +:+ addr +:+ "': " +:+ e)
          | Ok [] => Err ("DNS resolution returned no results for '" +:+ addr +:+ "'")
          | Ok (a :: _) => tcp_multiaddr a
          end
      end
  end.

(** [parse_bootnode_multiaddr] of the governor task. *)
Definition parse_bootnode_multiaddr (boot : BootnodeEntry) : option Multiaddr :=
  match parse_multiaddr (bn_addr boot) with
  | Some m => Some m
  | None =>
      match parse_socket (bn_addr boot) with
      | Some (ip, port) => parse_multiaddr ("/ip4/" +:+ ip +:+ "/tcp/" +:+ port)
      | None =>
          match lookup_host (bn_addr boot) with
          | Ok [] => None
          | Ok ((ip, port) :: _) => parse_multiaddr ("/ip4/" +:+ ip +:+ "/tcp/" +:+ port)
          | Err _ => None
          end
      end
  end.

End addresses.

(** ** Groups *)

Definition seed_group (env : SqlEnv) (d : Db) (gid : string) : Db :=
  let exists_ := match (read_group env gid d).2 with Ok o => bool_decide (is_Some o) | Err _ => false end in
  if exists_ then d else (write_group env gid gid default_group_culture "{}" d).1.

Definition seed_groups (env : SqlEnv) (groups : list string) (d : Db) : Db := foldl (seed_group env) d groups.

Definition initial_groups `{HashIter} (env : SqlEnv) (d : Db) : list GroupId :=
  gr_id <$> unwrap_or [] (list_groups env d).2.

(** ** What the configuration decides *)

Definition relay_posture_val (c : NodeConfig) : option RelayPosture :=
  if bool_decide (cfg_role c = Relay) then Some (cfg_relay_posture c) else None.

Definition relay_accepted_groups (c : NodeConfig) : option (gset string) :=
  match relay_posture_val c with
  | Some Dynamic => Some ∅
  | Some Explicit => Some (relay_allowed_groups c)
  | _ => None
  end.

(** The same set, shared with the governor, on a dynamic relay. *)
Definition relay_learned_groups (c : NodeConfig) : option (gset string) :=
  if bool_decide (relay_posture_val c = Some Dynamic) then relay_accepted_groups c else None.

Definition initial_relay_ctx (c : NodeConfig) : RelayCtx :=
  {| rx_posture := relay_posture_val c; rx_accepted := relay_accepted_groups c; rx_accepted_readable := true;
     rx_blocked := relay_blocked_groups c |}.

Definition governor_targets (c : NodeConfig) : GovernorTargets :=
  let g := effective_governor_targets c in
  {| hot_min := gvs_hot_min g; hot_max := gvs_hot_max g; warm_min := gvs_warm_min g; warm_max := gvs_warm_max g;
     cold_max := gvs_cold_max g; gt_churn_interval_secs := gvs_churn_interval_secs g;
     churn_fraction := gvs_churn_fraction g |}.

Section derived_ids.
Context `{CR : Crypto} `{KL : KeyLib} (base58 : PeerId -> string).

(** [seed[..len].copy_from_slice(&hash_bytes[..len])] into 32 zeros. *)
Definition seed_of_hash (hash_bytes : bytes) : bytes := take 32 hash_bytes ++ replicate (32 - length hash_bytes) Byte.x00.

(** [PeerId::from(Keypair::ed25519_from_bytes(seed)?.public())], as text. *)
Definition peer_of_seed (seed : bytes) : option NodeId :=
  match ed25519_from_bytes seed with Ok kp => Some (base58 (to_peer_id kp)) | Err _ => None end.

(** The identity of a bootnode before its real one is known; for a seed that
    libp2p refuses the code panics (it refuses none of 32 bytes). *)
Definition placeholder_id (bootnode_addr : string) : NodeId :=
  let hash_bytes := default [] (hex_decode (sha256_hex (str_bytes bootnode_addr))) in
  default EmptyString (peer_of_seed (seed_of_hash hash_bytes)).

Definition trusted_id (entry : BootnodeEntry) : option NodeId :=
  match hex_decode (sha256_hex (str_bytes (bn_addr entry))) with
  | None => None
  | Some hash_bytes => peer_of_seed (seed_of_hash hash_bytes)
  end.

Definition dial_policy_of (c : NodeConfig) : DialPolicy :=
  match cfg_role c with
  | Relay => DialAll
  | Personal => RelaysOnly
  | Keeper => TrustedOnly (omap trusted_id (nw_trusted_relays (cfg_network c)))
  end.

End derived_ids.

Definition repl_config (c : NodeConfig) : ReplicationConfig :=
  {| rc_sync_interval_taciturn_secs := rps_sync_interval_taciturn_secs (cfg_replication c);
     rc_tombstone_retention_days := rps_tombstone_retention_days (cfg_replication c);
     rc_max_batch_size := rps_max_batch_size (cfg_replication c) |}.

(** ** [run_node] *)

Inductive Transport := Http (addr : string) | Unix (path : string).

Definition api_transport (home : option string) (c : NodeConfig) : result Transport string :=
  let t := ns_api_transport (cfg_node c) in
  if String.eqb t "http" then Ok (Http (default "127.0.0.1:9473"%string (ns_api_addr (cfg_node c))))
  else if String.eqb t "unix"
  then Ok (Unix (expand_tilde home (default "~/.cordelia/node.sock"%string (ns_api_socket (cfg_node c)))))
  else Err ("unsupported api_transport: " +:+ t).

Inductive StartError :=
| StartIdentity (e : CryptoError)
| StartOpen (e : string)
| StartStorage (e : StorageError)
| StartToken (e : string)
| StartAddr (e : string)
| StartSwarm (e : string)
| StartTransport (e : string)
| StartBind (e : string).

(** The initial states of the tasks. *)
Record NodeInit := {
  ni_app : AppState;
  ni_governor : Governor;
  ni_task : GovTask;
  ni_relay : RelayCtx;
  ni_engine : ReplicationEngine;
  ni_listen : Multiaddr;
  ni_external : option Multiaddr;
  ni_transport : Transport;
}.

(** What a start reads from its surroundings. *)
Record World := {
  w_home : option string;
  w_env : SqlEnv;
  w_now : Instant;
  (** creating the directory of the database and connecting to it *)
  w_open_error : option string;
  (** building the swarm on a listen address, and binding the API's listener *)
  w_swarm_error : Multiaddr -> option string;
  w_bind_error : Transport -> option string;
  w_parse_multiaddr : string -> option Multiaddr;
  w_parse_socket : string -> option (string * string);
  w_lookup : string -> result (list (string * string)) string;
  w_sampled_token : string;
  w_generated : result bytes string;
}.

(** The files of the node. *)
Record Files := { f_key : KeyFs; f_token : TokenFs; f_db : Db }.

Section run.
Context `{CR : Crypto} `{HI : HashIter} `{KL : KeyLib}.
Context (base58 : PeerId -> string).

Definition initial_app (c : NodeConfig) (id : NodeKey) (token : string) (now : Instant) (groups : list GroupId) (d : Db) : AppState := {|
  storage := d;
  Api.node_id := base58 (nk_peer_id id);
  entity_id := ns_entity_id (cfg_node c);
  bearer_token := token;
  start_time := now;
  write_notify := Some {| bc_receivers := 1; bc_sent := [] |};
  shared_groups := Some groups;
  peer_count_fn := Some (0, 0);
  peer_list_fn := Some [];
  replication_stats := Some no_stats;
  bootstrap_sync := Some {| mp_capacity := 32; mp_closed := false; mp_queue := [] |};
|}.

Definition parse_addr (w : World) : string -> result Multiaddr string :=
  parse_listen_addr (w_parse_multiaddr w) (w_parse_socket w) (w_lookup w).

Definition resolve_bootnode (w : World) : BootnodeEntry -> option Multiaddr :=
  parse_bootnode_multiaddr (w_parse_multiaddr w) (w_parse_socket w) (w_lookup w).

(** The optional external address. *)
Definition external_addr (w : World) (c : NodeConfig) : result (option Multiaddr) string :=
  match nw_external_addr (cfg_network c) with
  | None => Ok None
  | Some ext => match parse_addr w ext with Ok a => Ok (Some a) | Err e => Err e end
  end.

Definition assemble (w : World) (c : NodeConfig) (id : NodeKey) (token : string) (d : Db)
    (listen : Multiaddr) (ext : option Multiaddr) (t : Transport) : NodeInit :=
  let groups := initial_groups (w_env w) d in
  let gov := with_dial_policy (w_now w) (governor_targets c) groups (dial_policy_of base58 c) in
  {| ni_app := initial_app c id token (w_now w) groups d;
     ni_governor := gov;
     ni_task := start (placeholder_id base58) (w_now w) (resolve_bootnode w) (nw_bootnodes (cfg_network c)) gov (relay_learned_groups c);
     ni_relay := initial_relay_ctx c;
     ni_engine := {| re_config := repl_config c; re_entity_id := ns_entity_id (cfg_node c) |};
     ni_listen := listen;
     ni_external := ext;
     ni_transport := t |}.

(** The tail of [run_node], once the files are in order: the swarm on its listen
    address, the external address, the states of the tasks, and the listener of
    the API. *)
Definition start_tasks (w : World) (c : NodeConfig) (id : NodeKey) (token : string) (d : Db) : result NodeInit StartError :=
  match parse_addr w (nw_listen_addr (cfg_network c)) with
  | Err e => Err (StartAddr e)
  | Ok listen =>
      match w_swarm_error w listen with
      | Some e => Err (StartSwarm e)
      | None =>
          match external_addr w c with
          | Err e => Err (StartAddr e)
          | Ok ext =>
              match api_transport (w_home w) c with
              | Err e => Err (StartTransport e)
              | Ok t =>
                  match w_bind_error w t with
                  | Some e => Err (StartBind e)
                  | None => Ok (assemble w c id token d listen ext t)
                  end
              end
          end
      end
  end.

(** The steps of [run_node] in their order: key, key pair, database, token, groups,
    then the tasks.  A failure leaves the files as the steps before it left
    them. *)
Definition run_node (w : World) (c : NodeConfig) (f : Files) : Files * result NodeInit StartError :=
  let '(kfs, rid) := load_or_create (w_generated w) (f_key f) in
  let f := {| f_key := kfs; f_token := f_token f; f_db := f_db f |} in
  match rid with
  | Err e => (f, Err (StartIdentity e))
  | Ok id =>
      match to_libp2p_keypair id with
      | Err e => (f, Err (StartIdentity e))
      | Ok _ =>
          match w_open_error w with
          | Some e => (f, Err (StartOpen e))
          | None =>
              let '(d, ro) := ensure_schema (w_env w) (f_db f) in
              let f := {| f_key := kfs; f_token := f_token f; f_db := d |} in
              match ro with
              | Err e => (f, Err (StartStorage e))
              | Ok _ =>
                  let '(tfs, rt) := load_or_create_token (w_sampled_token w) (f_token f) in
                  match rt with
                  | Err e => ({| f_key := kfs; f_token := tfs; f_db := d |}, Err (StartToken e))
                  | Ok token =>
                      let d := seed_groups (w_env w) (ns_groups (cfg_node c)) d in
                      ({| f_key := kfs; f_token := tfs; f_db := d |}, start_tasks w c id token d)
                  end
              end
          end
      end
  end.

End run.

(** ** The command line *)

Inductive IdentityAction := IdGenerate | IdShow.

Inductive Commands :=
| CmdIdentity (action : option IdentityAction)
| CmdRun
| CmdStatus
| CmdPeers
| CmdGroups
| CmdDiagnostics
| CmdQuery (item_id : string).

(** The commands that call the API: path of the call and the request that its body is. *)
Definition cli_request (cmd : Commands) : option (string * ApiRequest) :=
  match cmd with
  | CmdIdentity _ | CmdRun => None
  | CmdStatus => Some ("/api/v1/status"%string, RStatus)
  | CmdPeers => Some ("/api/v1/peers"%string, RPeers)
  | CmdGroups => Some ("/api/v1/groups/list"%string, RGroupsList)
  | CmdDiagnostics => Some ("/api/v1/diagnostics"%string, RDiagnostics)
  | CmdQuery id => Some ("/api/v1/l2/read"%string, RL2Read {| l2r_item_id := id |})
  end.

(** The host that [cli_api_call] posts to, whatever the transport is. *)
Definition cli_host (c : NodeConfig) : string := default "127.0.0.1:9473"%string (ns_api_addr (cfg_node c)).

Definition cli_token (fs : TokenFs) : result string string :=
  match tf_content fs with
  | None => Ok EmptyString
  | Some content => match tf_read_error fs with Some e => Err e | None => Ok (trim content) end
  end.

Definition cli_headers (token : string) : Headers := fun name =>
  if String.eqb name "authorization" then Some (Some ("Bearer " +:+ token)) else None.

(** [StatusCode::is_success] *)
Definition is_success (r : HttpResponse) : bool := (200 <=? status_code r) && (status_code r <? 300).

(** How a command ends. *)
Inductive Outcome :=
| Printed (body : Body)             (** the answer, exit code 0 *)
| PrintedId (node_id : string)      (** the identifier, exit code 0 *)
| NoIdentity                        (** message and exit code 1 *)
| ErrorAnswer (r : HttpResponse)    (** message and exit code 1 *)
| Failed (e : string)               (** an error returned from main *)
| FailedIdentity (e : CryptoError)
| Ran (r : result unit StartError).

(** [send host path headers request]: the HTTP client. *)
Definition cli_api_call (send : string -> string -> Headers -> ApiRequest -> result HttpResponse string)
    (c : NodeConfig) (fs : TokenFs) (call : string * ApiRequest) : Outcome :=
  match cli_token fs with
  | Err e => Failed e
  | Ok token =>
      match send (cli_host c) call.1 (cli_headers token) call.2 with
      | Err e => Failed e
      | Ok r => if is_success r then Printed (body r) else ErrorAnswer r
      end
  end.

Section main.
Context `{CR : Crypto} `{HI : HashIter} `{KL : KeyLib}.
Context (base58 : PeerId -> string).

Definition identity_command (action : option IdentityAction) (generated : result bytes string) (fs : KeyFs) : KeyFs * Outcome :=
  match action with
  | Some IdGenerate | None =>
      let '(fs', r) := load_or_create generated fs in
      (fs', match r with Ok id => PrintedId (base58 (nk_peer_id id)) | Err e => FailedIdentity e end)
  | Some IdShow =>
      (fs, if bool_decide (is_Some (kf_content fs))
           then match from_file fs with Ok id => PrintedId (base58 (nk_peer_id id)) | Err e => FailedIdentity e end
           else NoIdentity)
  end.

(** [main], with the configuration loaded; no command is [Run]. *)
Definition main (w : World) (send : string -> string -> Headers -> ApiRequest -> result HttpResponse string)
    (c : NodeConfig) (cmd : option Commands) (f : Files) : Files * Outcome :=
  match default CmdRun cmd with
  | CmdIdentity action =>
      let '(kfs, o) := identity_command action (w_generated w) (f_key f) in
      ({| f_key := kfs; f_token := f_token f; f_db := f_db f |}, o)
  | CmdRun =>
      let '(f', r) := run_node base58 w c f in
      (f', Ran (match r with Ok _ => Ok tt | Err e => Err e end))
  | cmd =>
      match cli_request cmd with
      | Some call => (f, cli_api_call send c (f_token f) call)
      | None => (f, Ran (Ok tt))
      end
  end.

End main.
