(* ===== verification/StartupProps.v ===== *)
(** * Properties of the start

    A successful start hands well-formed states to the tasks, configured groups
    exist without disturbing those that are there, a restart is the same node,
    and the command line is served by the node it is configured for. *)

From S2P Require Import Prelude Float64 Protocol Governor Storage StorageProps Search Json Envelope EnvelopeProps.
From S2P Require Import ItemStore Replication PeerPool Config SwarmTask ReplicationTask Api ApiProps GovernorTask Startup.

(** ** The steps of a successful start *)

Section steps.
Context `{CR : Crypto} `{HI : HashIter} `{KL : KeyLib}.
Context (base58 : PeerId -> string).

Abbreviation start_node := (run_node base58) (only parsing).

(** What a successful start did, step by step. *)
Record started (w : World) (c : NodeConfig) (f f' : Files) (n : NodeInit) (id : NodeKey) (token : string) (d : Db) : Prop := {
  st_key : load_or_create (w_generated w) (f_key f) = (f_key f', Ok id);
  st_open : ensure_schema (w_env w) (f_db f) = (d, Ok tt);
  st_token : load_or_create_token (w_sampled_token w) (f_token f) = (f_token f', Ok token);
  st_db : f_db f' = seed_groups (w_env w) (ns_groups (cfg_node c)) d;
  st_node : exists listen ext t,
    api_transport (w_home w) c = Ok t
    /\ n = assemble base58 w c id token (f_db f') listen ext t;
}.

Lemma start_tasks_ok w c id token d n :
  start_tasks base58 w c id token d = Ok n ->
  exists listen ext t, api_transport (w_home w) c = Ok t
    /\ n = assemble base58 w c id token d listen ext t.
Proof.
  unfold start_tasks. destruct (parse_addr w _) as [listen|e]; [|done]. destruct (w_swarm_error w listen); [done|].
  destruct (external_addr w c) as [ext|e]; [|done]. destruct (api_transport (w_home w) c) as [t|e]; [|done].
  destruct (w_bind_error w t); [done|]. intros [= <-]. eauto.
Qed.

Lemma run_node_ok w c f f' n :
  start_node w c f = (f', Ok n) -> exists id token d, started w c f f' n id token d.
Proof.
  unfold run_node. destruct (load_or_create (w_generated w) (f_key f)) as [kfs [id|e]] eqn:Hk; [|done].
  destruct (to_libp2p_keypair id); [|done]. destruct (w_open_error w); [done|]. cbn [f_db f_token].
  destruct (ensure_schema (w_env w) (f_db f)) as [d [[]|e]] eqn:Ho; [|done].
  destruct (load_or_create_token (w_sampled_token w) (f_token f)) as [tfs [token|e]] eqn:Ht; [|done].
  intros [= <- (listen & ext & t & Htr & ->)%start_tasks_ok]. exists id, token, d. by split; eauto 6.
Qed.

End steps.

(** ** Groups at the start *)

Section groups.
Context `{CR : Crypto} `{HI : HashIter}.

Lemma seed_group_wf env d gid : db_wf d -> db_wf (seed_group env d gid).
Proof.
  intros Hd. unfold seed_group. case_match; [done|]. by apply write_group_preserves.
Qed.

Lemma seed_groups_wf env gs d : db_wf d -> db_wf (seed_groups env gs d).
Proof. unfold seed_groups. revert d. induction gs as [|g gs IH]; intros d Hd; [done|]. cbn [foldl]. by apply IH, seed_group_wf. Qed.

Lemma seed_group_up env d gid :
  sqlite_up env d ->
  sqlite_up env (seed_group env d gid)
  /\ forall k, groups_t (seed_group env d gid) !! k =
       match groups_t d !! k with
       | Some g => Some g
       | None => if bool_decide (k = gid) then Some (upsert_group (sql_now env) gid gid default_group_culture "{}" None) else None
       end.
Proof.
  intros Hup. unfold seed_group. rewrite read_group_up by done. cbn [snd]. case_bool_decide as Hs.
  - split; [done|]. intros k. destruct (groups_t d !! k) as [g|] eqn:E; [done|].
    case_bool_decide as Hk; [|done]. subst k. rewrite E in Hs. by destruct Hs.
  - rewrite write_group_up by done. split; [done|]. intros k. cbn.
    destruct (groups_t d !! gid) eqn:E; [by destruct Hs|]. case_bool_decide as Hk.
    + subst k. by rewrite lookup_insert_eq, E.
    + rewrite lookup_insert_ne by done. by destruct (groups_t d !! k).
Qed.

Lemma seed_groups_up env gs d :
  sqlite_up env d ->
  sqlite_up env (seed_groups env gs d)
  /\ forall k, groups_t (seed_groups env gs d) !! k =
       match groups_t d !! k with
       | Some g => Some g
       | None => if bool_decide (k ∈ gs) then Some (upsert_group (sql_now env) k k default_group_culture "{}" None) else None
       end.
Proof.
  intros Hup. unfold seed_groups. induction gs as [|g gs IH] using rev_ind.
  { split; [done|]. intros k. cbn. by destruct (groups_t d !! k). }
  destruct IH as [Hup' Hk]. rewrite foldl_app. cbn [foldl]. destruct (seed_group_up env _ g Hup') as [Hup2 Hg].
  split; [done|]. intros k. rewrite Hg, Hk. destruct (groups_t d !! k); [done|].
  destruct (decide (k ∈ gs)) as [Hin|Hin].
  - rewrite !bool_decide_eq_true_2; [done|apply elem_of_app; by left|done].
  - rewrite (bool_decide_eq_false_2 (k ∈ gs)) by done. case_bool_decide as Hkg.
    + subst k. rewrite bool_decide_eq_true_2; [done|]. apply elem_of_app. right. left.
    + rewrite bool_decide_eq_false_2; [done|]. intros [|Hs%list_elem_of_singleton]%elem_of_app; done.
Qed.

(** The groups loaded at the start are those of the table. *)
Lemma elem_of_initial_groups env d gid :
  sqlite_up env d -> db_wf d -> gid ∈ initial_groups env d <-> is_Some (groups_t d !! gid).
Proof.
  intros Hup Hwf. unfold initial_groups. rewrite list_groups_up by done. cbn [snd unwrap_or].
  rewrite list_elem_of_fmap. setoid_rewrite elem_of_sort_by. setoid_rewrite elem_of_values. split.
  - intros (g & -> & k & Hk). rewrite (dw_groups _ Hwf _ _ Hk). eauto.
  - intros [g Hg]. exists g. pose proof (dw_groups _ Hwf _ _ Hg) as Hid. simpl in Hid. eauto.
Qed.

Lemma values_ids_nodup d : db_wf d -> NoDup (gr_id <$> values (groups_t d)).
Proof.
  intros Hwf. rewrite (fmap_Permutation gr_id _ _ (values_perm (groups_t d))), <- list_fmap_compose.
  erewrite list_fmap_ext; [apply (NoDup_fst_map_to_list (groups_t d))|].
  intros i [k g] Hl. apply list_elem_of_lookup_2, elem_of_map_to_list in Hl. exact (dw_groups _ Hwf _ _ Hl).
Qed.

Lemma initial_groups_nodup env d : db_wf d -> NoDup (initial_groups env d).
Proof.
  intros Hwf. unfold initial_groups. destruct (list_groups env d) as [d' [gs|e]] eqn:E; cbn [snd unwrap_or]; [|apply NoDup_nil_2].
  unfold list_groups in E. inv_ok E. injection E as _ <-.
  rewrite (fmap_Permutation gr_id _ _ (sort_by_perm _ _)). by apply values_ids_nodup.
Qed.

End groups.

(** ** The token *)

Definition alphanumeric (a : Ascii.ascii) : bool :=
  let n := Ascii.nat_of_ascii a in
  ((48 <=? n) && (n <=? 57) || (65 <=? n) && (n <=? 90) || (97 <=? n) && (n <=? 122))%nat.

Fixpoint all_alphanumeric (s : string) : bool :=
  match s with EmptyString => true | String a r => alphanumeric a && all_alphanumeric r end.

Lemma strip_space_alphanumeric a r : alphanumeric a = true -> strip_space (String a r) = None.
Proof.
  unfold alphanumeric, strip_space, ascii_space, space2, space3. generalize (Ascii.nat_of_ascii a) as n. intros n Hn.
  assert (9 <= n <= 122 /\ n <> 9 /\ n <> 10 /\ n <> 11 /\ n <> 12 /\ n <> 13 /\ n <> 32)%nat as Hr.
  { rewrite !orb_true_iff, !andb_true_iff, !Nat.leb_le in Hn. lia. }
  replace ((9 <=? n) && (n <=? 13) || (n =? 32))%nat with false.
  2: { symmetry. rewrite orb_false_iff, andb_false_iff, Nat.eqb_neq, !Nat.leb_gt. lia. }
  destruct r as [|b [|c r]]; try done; destruct (Nat.eqb_spec n 194), (Nat.eqb_spec n 225), (Nat.eqb_spec n 226), (Nat.eqb_spec n 227); try lia; done.
Qed.

Lemma trim_alphanumeric s : all_alphanumeric s = true -> trim s = s.
Proof.
  intros Hs. unfold trim. assert (forall fuel, trim_start_aux fuel s = s) as ->.
  { intros [|fuel]; [done|]. cbn. destruct s as [|a r]; [done|]. apply andb_prop in Hs as [Ha _].
    by rewrite strip_space_alphanumeric. }
  induction s as [|a r IH]; [done|]. apply andb_prop in Hs as [Ha Hr]. cbn [trim_end].
  assert (trim_is_empty (String a r) = false) as ->.
  { unfold trim_is_empty. cbn [String.length blank_aux]. by rewrite strip_space_alphanumeric. }
  f_equal. by apply IH.
Qed.

(** A token that was handed out is what the file says from then on. *)
Lemma token_persists sampled fs fs' token :
  all_alphanumeric sampled = true -> tf_read_error fs = None -> load_or_create_token sampled fs = (fs', Ok token) ->
  (exists content, tf_content fs' = Some content /\ trim content = token) /\ tf_read_error fs' = None
  /\ forall sampled', load_or_create_token sampled' fs' = (fs', Ok token).
Proof.
  intros Hs Hr. unfold load_or_create_token. destruct (tf_content fs) as [content|] eqn:Hc.
  - rewrite Hr. intros [= <- <-]. rewrite Hc, Hr. eauto.
  - destruct (tf_mkdir_error fs); [done|]. destruct (tf_write_error fs); [done|]. destruct (tf_chmod_error fs); [done|].
    intros [= <- <-]. cbn. rewrite Hr, trim_alphanumeric by done. split_and!; [|done|done]. eexists. split; [done|].
    by apply trim_alphanumeric.
Qed.

(** ** Theorems *)

(** The API's invariant at the start. *)
Lemma start_app_wf `{Crypto} `{HashIter} `{KL : KeyLib} base58 w c f f' n :
  db_wf (f_db f) -> run_node base58 w c f = (f', Ok n) -> app_wf (identity (ni_app n)) (ni_app n).
Proof.
  intros Hwf (id & token & d & [Hk Ho Ht Hd (listen & ext & t & Htr & ->)])%run_node_ok.
  assert (db_wf (f_db f')) as Hwf'.
  { rewrite Hd. apply seed_groups_wf. pose proof (ensure_schema_preserves (w_env w) _ Hwf) as H'. by rewrite Ho in H'. }
  split; [done|done| |].
  - intros gs [= <-]. by apply initial_groups_nodup.
  - intros ch [= <-]. unfold channel_ok. cbn. lia.
Qed.

(** What the governor task starts with. *)
Lemma assemble_task `{Crypto} `{HashIter} `{KL : KeyLib} base58 w c id token d listen ext t :
  gt_pool (ni_task (assemble base58 w c id token d listen ext t)) = ∅
  /\ gt_learned (ni_task (assemble base58 w c id token d listen ext t)) = relay_learned_groups c.
Proof. unfold assemble, start. cbn [ni_task]. by destruct (foldl _ _ _) as [[g un] res]. Qed.

(** [C25] A start hands well-formed states to the tasks: from a database in order, a
    start that succeeds gives the API a state with its invariant, on the
    database that was opened, whose groups are those of the governor; the pool is
    empty; the sets that a relay consults exist exactly for the postures that
    need them, the one the governor fills being the one that is consulted; and
    the governor's four targets, minima and maxima, are within the documented
    bounds of the role: hot 2-5 and warm 5-10 on a personal node, hot 1-3 and
    warm 2-5 on a keeper, the configured values on a relay; and a minimum is not
    above its maximum when it was not in the configuration. *)
Theorem start_well_formed `{Crypto} `{HashIter} `{KL : KeyLib} base58 w c f f' n :
  db_wf (f_db f) -> run_node base58 w c f = (f', Ok n) ->
  app_wf (identity (ni_app n)) (ni_app n)
  /\ storage (ni_app n) = f_db f'
  /\ our_groups (ni_governor n) = current_groups (ni_app n)
  /\ gt_pool (ni_task n) = ∅
  /\ match rx_posture (ni_relay n) with
     | None => cfg_role c <> Relay /\ rx_accepted (ni_relay n) = None /\ gt_learned (ni_task n) = None
     | Some Transparent => rx_accepted (ni_relay n) = None /\ gt_learned (ni_task n) = None
     | Some Dynamic => rx_accepted (ni_relay n) = Some ∅ /\ gt_learned (ni_task n) = rx_accepted (ni_relay n)
     | Some Explicit => rx_accepted (ni_relay n) = Some (relay_allowed_groups c) /\ gt_learned (ni_task n) = None
     end
  /\ (let t := targets (ni_governor n) in
      let g := cfg_governor c in
      match cfg_role c with
      | Personal => hot_min t <= 2 /\ hot_max t <= 5 /\ warm_min t <= 5 /\ warm_max t <= 10
      | Keeper => hot_min t <= 1 /\ hot_max t <= 3 /\ warm_min t <= 2 /\ warm_max t <= 5
      | Relay => hot_min t = gvs_hot_min g /\ hot_max t = gvs_hot_max g /\ warm_min t = gvs_warm_min g /\ warm_max t = gvs_warm_max g
      end
      /\ (gvs_hot_min g <= gvs_hot_max g -> hot_min t <= hot_max t)
      /\ (gvs_warm_min g <= gvs_warm_max g -> warm_min t <= warm_max t))%nat.
Proof.
  intros Hwf Hrun. pose proof (start_app_wf _ _ _ _ _ _ Hwf Hrun) as Happ.
  apply run_node_ok in Hrun as (id & token & d & [Hk Ho Ht Hd (listen & ext & t & Htr & ->)]).
  destruct (assemble_task base58 w c id token (f_db f') listen ext t) as [Hp Hl].
  split_and!; [exact Happ|done|done|done| |].
  - rewrite Hl. cbn. unfold relay_learned_groups, relay_accepted_groups, relay_posture_val.
    case_bool_decide as Hr; [|done]. destruct (cfg_relay_posture c); done.
  - cbn. unfold effective_governor_targets. destruct (cfg_role c); cbn; lia.
Qed.

(** [C26] Starting again is starting the same node: after a start that succeeded, a
    later start on the same files, whatever the random generators give, has the
    same identifier and the same bearer token; every group that was there is
    there with the same row, the configured ones that were not are created, and
    no other group is. *)
Theorem restart_same_node `{Crypto} `{HashIter} `{KL : KeyLib} base58 w w' c c' f f1 f2 n n' :
  run_node base58 w c f = (f1, Ok n) ->
  run_node base58 w' c' f1 = (f2, Ok n') ->
  kf_read_error (f_key f) = None -> tf_read_error (f_token f) = None -> all_alphanumeric (w_sampled_token w) = true ->
  no_fault (w_env w') ->
  Api.node_id (ni_app n') = Api.node_id (ni_app n)
  /\ bearer_token (ni_app n') = bearer_token (ni_app n)
  /\ (forall k, groups_t (f_db f2) !! k =
        match groups_t (f_db f1) !! k with
        | Some g => Some g
        | None => if bool_decide (k ∈ ns_groups (cfg_node c'))
                  then Some (upsert_group (sql_now (w_env w')) k k default_group_culture "{}" None) else None
        end).
Proof.
  intros (id & token & d & [Hk _ Ht _ (? & ? & ? & _ & ->)])%run_node_ok.
  intros (id' & token' & d' & [Hk' Ho' Ht' Hd' (? & ? & ? & _ & ->)])%run_node_ok Hkr Htr Hs Hf.
  destruct (identity_persists _ _ _ _ Hkr Hk) as [_ (_ & _ & Hid & _)]. rewrite Hid in Hk'. injection Hk' as _ <-.
  destruct (token_persists _ _ _ _ Hs Htr Ht) as (_ & _ & Htok). rewrite Htok in Ht'. injection Ht' as _ <-.
  split_and!; [done..|].
  pose proof (ensure_schema_same_data (w_env w') (f_db f1) (f_db f1)) as Hsame. rewrite Ho' in Hsame.
  destruct Hsame as (_ & _ & _ & Hg & _ & _ & _ & Hlock & _); [done|]. cbn [fst] in *.
  assert (sqlite_up (w_env w') d') as Hup.
  { split; [|done]. rewrite Hlock. unfold ensure_schema in Ho'. apply bind_ok in Ho' as (? & ? & Hl & _).
    by apply lock_ok in Hl as [_ Hl]. }
  destruct (seed_groups_up (w_env w') (ns_groups (cfg_node c')) d' Hup) as [_ Hgroups].
  intros k. by rewrite Hd', Hgroups, Hg.
Qed.

(** A start takes every stored group for one of the node's own, tombstones and groups
    known from others included, and keeps their rows. *)
Lemma start_loads_groups `{Crypto} `{HashIter} `{KL : KeyLib} base58 w c f f' n gid g :
  db_wf (f_db f) -> lock_poisoned (f_db f) = false -> no_fault (w_env w) -> run_node base58 w c f = (f', Ok n) ->
  groups_t (f_db f) !! gid = Some g ->
  (gid ∈ current_groups (ni_app n)) /\ (gid ∈ our_groups (ni_governor n)) /\ groups_t (storage (ni_app n)) !! gid = Some g.
Proof.
  intros Hwf Hl Hf (id & token & d & [_ Ho _ Hd (? & ? & ? & _ & ->)])%run_node_ok Hg.
  pose proof (ensure_schema_same_data (w_env w) (f_db f) (f_db f)) as Hsame. rewrite Ho in Hsame.
  destruct Hsame as (_ & _ & _ & Hgs & _ & _ & _ & Hlock & _); [done|]. cbn [fst] in *.
  assert (sqlite_up (w_env w) d) as Hupd. { split; [|done]. by rewrite Hlock. }
  destruct (seed_groups_up (w_env w) (ns_groups (cfg_node c)) d Hupd) as [Hup' Hrows].
  assert (groups_t (f_db f') !! gid = Some g) as Hrow by (by rewrite Hd, Hrows, Hgs, Hg).
  assert (db_wf (f_db f')) as Hdwf.
  { rewrite Hd. apply seed_groups_wf. pose proof (ensure_schema_preserves (w_env w) (f_db f)) as He. rewrite Ho in He. by apply He. }
  assert (gid ∈ initial_groups (w_env w) (f_db f')) as Hin.
  { apply elem_of_initial_groups; [by rewrite Hd|done|by rewrite Hrow]. }
  by split_and!.
Qed.

(** A restart brings deleted groups back into replication: a group that the API
    deleted is not in the groups of the running node, but the next start loads
    the groups of the store with the tombstones among them, and the group is
    synchronised and advertised again until it is purged. *)
Theorem restart_revives_deleted_group `{Crypto} `{HashIter} `{WireFormats} `{KL : KeyLib} base58 env h gid s s' w c f f' n :
  app_wf (identity s) s -> sqlite_up env (storage s) -> posture_ok (schema (storage s)) "removed" = true ->
  authorised h s -> is_Some (groups_t (storage s) !! gid) ->
  groups_delete env h {| gdl_group_id := gid |} s = (s', ok_true) ->
  f_db f = storage s' -> no_fault (w_env w) ->
  run_node base58 w c f = (f', Ok n) ->
  (gid ∉ current_groups s') /\ (gid ∈ current_groups (ni_app n)) /\ (gid ∈ our_groups (ni_governor n))
  /\ exists g, groups_t (storage (ni_app n)) !! gid = Some g /\ is_tombstone (desc_of_group g) = true.
Proof.
  intros Hwf Hup Hp Ha Hg Hdel Hdb Hf Hrun.
  pose proof (groups_delete_wf (identity s) env h gid s Hwf) as Hwf'. rewrite Hdel in Hwf'.
  destruct (groups_delete_up env h gid s Hwf Hup Hp Ha Hg) as (t & Hs' & _ & _). rewrite Hs' in Hdel. injection Hdel as <-.
  destruct (start_loads_groups base58 w c f f' n gid (tombstone_of env gid (groups_t (storage s) !! gid))) as (Hin & Hgov & Hrow);
    [by rewrite Hdb; apply Hwf'|by rewrite Hdb; apply Hup|done|done|rewrite Hdb; cbn; by rewrite lookup_insert_eq|].
  split_and!; [|done|done|by eexists].
  unfold current_groups. cbn. destruct (shared_groups s); cbn; [|by intros ?%elem_of_nil].
  unfold retain_other. rewrite elem_of_filterb. intros [Hn _]. by rewrite String.eqb_refl in Hn.
Qed.

(** The HTTP client and the server of a started node, parameters of the development: a
    request sent to the address on which the node listens, at the path of a route, is
    answered by that route. *)
Definition delivers `{HashIter} `{WireFormats} `{Crypto} fts_match env now (n : NodeInit)
    (send : string -> string -> Headers -> ApiRequest -> result HttpResponse string) : Prop :=
  forall addr h req, ni_transport n = Http addr -> send addr (route req) h req = Ok (router fts_match env now h req (ni_app n)).2.

Lemma cli_request_route cmd call : cli_request cmd = Some call -> call.1 = route call.2.
Proof. destruct cmd; intros [= <-]; done. Qed.

(** [C33] The command line talks to the node: on the files that a successful start
    left, the identity command prints the identifier that the node reports and
    changes nothing; every command that queries the node makes one HTTP call,
    with the token that the node checks, at the path of an existing route, to the
    configured address, and prints the body of a successful answer.  When the
    node's API listens on HTTP, at any configured or default address, this is
    the address it listens on, so that the command gets an answer of that route,
    and never 401. *)
Theorem cli_is_served `{Crypto} `{HashIter} `{WireFormats} `{KL : KeyLib} base58 fts_match env now w w' c f f' n send :
  run_node base58 w c f = (f', Ok n) ->
  kf_read_error (f_key f) = None -> tf_read_error (f_token f) = None -> all_alphanumeric (w_sampled_token w) = true ->
  (forall action, main base58 w' send c (Some (CmdIdentity action)) f' = (f', PrintedId (Api.node_id (ni_app n))))
  /\ forall cmd call, cli_request cmd = Some call ->
       main base58 w' send c (Some cmd) f'
         = (f', match send (cli_host c) (route call.2) (cli_headers (bearer_token (ni_app n))) call.2 with
                | Ok r => if is_success r then Printed (body r) else ErrorAnswer r
                | Err e => Failed e
                end)
       /\ (forall addr, ni_transport n = Http addr -> delivers fts_match env now n send ->
            exists r, main base58 w' send c (Some cmd) f' = (f', if is_success r then Printed (body r) else ErrorAnswer r)
              /\ status_code r <> UNAUTHORIZED).
Proof.
  intros (id & token & d & [Hk _ Ht _ (? & ? & t & Htr & ->)])%run_node_ok Hkr Hr Hs.
  destruct (token_persists _ _ _ _ Hs Hr Ht) as ((content & Hc & Htrim) & Hre & _).
  destruct (identity_persists _ _ _ _ Hkr Hk) as [_ (Hkc & Hkr' & Hid & _)]. split.
  - intros action. unfold main, identity_command. cbn [default].
    assert (from_file (f_key f') = Ok id) as Hff.
    { specialize (Hid (Err EmptyString)). unfold load_or_create in Hid. rewrite Hkc in Hid. by injection Hid. }
    rewrite Hid, Hff, Hkc, bool_decide_eq_true_2 by done. destruct f' as [? ? ?], action as [[]|]; done.
  - intros cmd call Hcall. set (n := assemble _ _ _ _ _ _ _ _ _).
    assert (main base58 w' send c (Some cmd) f' = (f', cli_api_call send c (f_token f') call)) as ->.
    { unfold main. cbn [default]. destruct cmd; try done; by injection Hcall as <-. }
    unfold cli_api_call, cli_token. rewrite Hc, Hre, Htrim, (cli_request_route _ _ Hcall). split; [done|].
    intros addr Haddr Hsend. assert (cli_host c = addr) as ->.
    { change (ni_transport n) with t in Haddr. subst t. unfold api_transport in Htr. unfold cli_host.
      destruct (String.eqb _ "http"); [by injection Htr|by case_match]. }
    rewrite (Hsend addr _ call.2 Haddr). eexists. split; [reflexivity|].
    destruct (router_authed fts_match env now (ApiProps.identity (ni_app n)) (cli_headers token) call.2) as (m & -> & Hm).
    rewrite authed_ok by done. apply Hm.
Qed.

(** The two readers of addresses agree: a bootnode resolves to what the same text
    would be as a listen address. *)
Lemma bootnode_and_listen_agree pm ps lk b :
  parse_bootnode_multiaddr pm ps lk b = match parse_listen_addr pm ps lk (bn_addr b) with Ok a => Some a | Err _ => None end.
Proof.
  unfold parse_bootnode_multiaddr, parse_listen_addr, tcp_multiaddr. destruct (pm (bn_addr b)); [done|].
  destruct (ps (bn_addr b)) as [[ip port]|]; cbn [fst snd]; [by destruct (pm ("/ip4/" +:+ ip +:+ "/tcp/" +:+ port))|].
  destruct (lk (bn_addr b)) as [[|[ip port] l]|e]; [done| |done]. cbn [fst snd].
  by destruct (pm ("/ip4/" +:+ ip +:+ "/tcp/" +:+ port)).
Qed.

(** A keeper may dial the placeholder of a bootnode that it trusts. *)
Lemma trusted_placeholder_dialable `{Crypto} `{KeyLib} base58 c b id g p :
  cfg_role c = Keeper -> b ∈ nw_trusted_relays (cfg_network c) -> trusted_id base58 b = Some id ->
  Governor.dial_policy g = dial_policy_of base58 c -> Governor.node_id p = placeholder_id base58 (bn_addr b) ->
  is_dialable g p = true.
Proof.
  intros Hr Hb Hid Hg Hp. unfold is_dialable. rewrite Hg. unfold dial_policy_of. rewrite Hr. apply contains_true.
  apply list_elem_of_omap. exists b. split; [done|]. rewrite Hid, Hp. unfold placeholder_id. revert Hid. unfold trusted_id.
  destruct (hex_decode _) as [l|]; [|done]. intros Hid. change (default [] (Some l)) with l. by rewrite Hid.
Qed.

(** With the default configuration the API is on a Unix socket, which the commands do
    not use. *)
Lemma cli_misses_default_transport home :
  api_transport home default_config = Ok (Unix (expand_tilde home "~/.cordelia/node.sock"))
  /\ cli_host default_config = "127.0.0.1:9473"%string.
Proof. done. Qed.

(** Without a [network] section the listen address is empty, not the documented default. *)
Lemma default_listen_addr_is_empty : nw_listen_addr (cfg_network default_config) = EmptyString.
Proof. done. Qed.

(** ** Examples *)

Definition ex_world : World := {|
  w_home := Some "/home/a"%string; w_env := ex_env; w_now := 0; w_open_error := None; w_swarm_error := fun _ => None; w_bind_error := fun _ => None;
  w_parse_multiaddr := fun a => Some [OtherProto a]; w_parse_socket := fun _ => None; w_lookup := fun _ => Ok [];
  w_sampled_token := "abc123";
  w_generated := ex_document Byte.x07 |}.

Definition ex_files (d : Db) : Files := {|
  f_key := ex_key_fs;
  f_token := {| tf_content := None; tf_private := false; tf_read_error := None; tf_mkdir_error := None;
                tf_write_error := None; tf_chmod_error := None |};
  f_db := d |}.

(** A keeper with a bootnode and without trusted relays. *)
Definition keeper_config : NodeConfig := {|
  cfg_node :=
    {| ns_identity_key := "k"; ns_api_transport := "http"; ns_api_socket := None; ns_api_addr := None;
       ns_database := "d"; ns_entity_id := "vault"; ns_role := "keeper"; ns_groups := ["g"; "new"]%string |};
  cfg_network := {| nw_listen_addr := "0.0.0.0:9474"; nw_bootnodes := [{| bn_addr := "boot:1" |}];
                    nw_trusted_relays := []; nw_external_addr := None |};
  cfg_governor := default_governor_section; cfg_replication := default_replication_section; cfg_relay := None |}.

Abbreviation ex_start w c f :=
  (@run_node toy_crypto sorted_iter toy_keys String.string_of_list_byte w c f) (only parsing).

(** The first start: its files and the states it hands to the tasks. *)
Abbreviation ex_started := (ex_start ex_world keeper_config (ex_files ex_db)) (only parsing).

Lemma ex_started_ok : is_ok ex_started.2 = true.
Proof. vm_compute. reflexivity. Qed.

Definition ex_files1 : Files := ex_started.1.
Definition ex_init : NodeInit := from_ok _ ex_started_ok.

Lemma ex_started_eq : ex_started = (ex_files1, Ok ex_init).
Proof. exact (pair_ok _ ex_started_ok). Qed.

Lemma start_well_formed_witness :
  ex_started = (ex_files1, Ok ex_init) /\ (hot_max (targets (ni_governor ex_init)) <= 3)%nat.
Proof.
  split; [exact ex_started_eq|].
  destruct (@start_well_formed toy_crypto sorted_iter toy_keys _ ex_world keeper_config (ex_files ex_db) _ _
    (aw_db _ _ ex_app_wf) ex_started_eq) as (_ & _ & _ & _ & _ & H).
  apply H.
Defined.

(** Ticks of the governor task in which nobody connects, and the commands of the last one. *)
Fixpoint quiet_ticks (n : nat) (s : GovTask) : GovTask * list SwarmCommand :=
  match n with
  | O => (s, [])
  | S n =>
      let now := from_secs (10 * Z.of_nat n) in
      let '(s, _) := quiet_ticks n s in
      let '(s', out, _) := @on_tick sorted_iter (fun a => a) {| at_unban := now; at_reap := now; at_cold := now; at_hot := now;
                              at_demote := now; at_churn := now |} now [] (resolve_bootnode ex_world) (fun _ => 0) s in
      (s', out)
  end.

(** A keeper dials bootnodes that it does not trust: with the role keeper, no
    trusted relay configured and one bootnode, the governor's dial policy admits
    nobody, and yet after six quiet ticks the task dials the bootnode: the
    persistent reconnection does not consult the policy. *)
Theorem keeper_dials_untrusted_bootnode :
  ex_started = (ex_files1, Ok ex_init)
  /\ cfg_role keeper_config = Keeper /\ nw_trusted_relays (cfg_network keeper_config) = []
  /\ Governor.dial_policy (gt_gov (ni_task ex_init)) = TrustedOnly []
  /\ (quiet_ticks 6 (ni_task ex_init)).2 = [CmdDial [OtherProto "boot:1"]].
Proof. split; [exact ex_started_eq|]. do 2 (split; [reflexivity|]). split; vm_compute; reflexivity. Qed.

Definition ex_world2 : World := {|
  w_home := None; w_env := later_env; w_now := 100; w_open_error := None; w_swarm_error := fun _ => None; w_bind_error := fun _ => None;
  w_parse_multiaddr := fun a => Some [OtherProto a]; w_parse_socket := fun _ => None; w_lookup := fun _ => Ok [];
  w_sampled_token := "zzz"; w_generated := ex_document Byte.x08 |}.

Lemma ex_restarted_ok : is_ok (ex_start ex_world2 keeper_config ex_files1).2 = true.
Proof. vm_compute. reflexivity. Qed.

Lemma restart_same_node_witness :
  exists f2 n', ex_start ex_world2 keeper_config ex_files1 = (f2, Ok n') /\ bearer_token (ni_app n') = bearer_token (ni_app ex_init).
Proof.
  pose proof (pair_ok _ ex_restarted_ok) as E2. eexists _, _. split; [exact E2|].
  apply (@restart_same_node toy_crypto sorted_iter toy_keys _ _ _ _ _ _ _ _ _ _ ex_started_eq E2); try reflexivity.
  intros name. reflexivity.
Defined.

(** The node deletes a group and starts again. *)
Abbreviation ex_delete := (@groups_delete toy_wire ex_env ex_headers {| gdl_group_id := "g" |} (ex_app ex_db)) (only parsing).

Lemma ex_delete_eq : ex_delete = (ex_delete.1, ok_true).
Proof.
  assert (ex_delete.2 = ok_true) as H by (vm_compute; reflexivity). rewrite <- H. apply surjective_pairing.
Qed.

Lemma ex_after_delete_ok : is_ok (ex_start ex_world keeper_config (ex_files (storage ex_delete.1))).2 = true.
Proof. vm_compute. reflexivity. Qed.

Lemma restart_revives_deleted_group_witness :
  exists f' n, ex_start ex_world keeper_config (ex_files (storage ex_delete.1)) = (f', Ok n)
    /\ "g"%string ∈ current_groups (ni_app n).
Proof.
  pose proof (pair_ok _ ex_after_delete_ok) as E. eexists _, _. split; [exact E|].
  refine (proj1 (proj2 (@restart_revives_deleted_group toy_crypto sorted_iter toy_wire toy_keys
    _ ex_env ex_headers "g" (ex_app ex_db) _ _ _ _ _ _ ex_app_wf _ _ _ _ ex_delete_eq _ _ E))).
  - apply ex_app_up. reflexivity.
  - vm_compute. reflexivity.
  - reflexivity.
  - vm_compute. eexists. reflexivity.
  - reflexivity.
  - intros name. reflexivity.
Defined.

(** A client that reaches the example node at its address. *)
Definition ex_send (host path : string) (h : Headers) (req : ApiRequest) : result HttpResponse string :=
  if String.eqb host "127.0.0.1:9473" && String.eqb path (route req)
  then Ok (@router toy_crypto sorted_iter toy_wire (fun _ _ _ => Ok []) ex_env 0 h req (ni_app ex_init)).2
  else Err "connection refused"%string.

Lemma cli_is_served_witness :
  ex_started = (ex_files1, Ok ex_init) /\ exists r, status_code r <> UNAUTHORIZED
    /\ (@main toy_crypto sorted_iter toy_keys String.string_of_list_byte ex_world ex_send keeper_config (Some CmdStatus) ex_files1).2
       = if is_success r then Printed (body r) else ErrorAnswer r.
Proof.
  split; [exact ex_started_eq|].
  destruct (@cli_is_served toy_crypto sorted_iter toy_wire toy_keys _ (fun _ _ _ => Ok []) ex_env 0 _ ex_world _ _ _ _ ex_send ex_started_eq)
    as [_ H]; [reflexivity..|].
  assert (ni_transport ex_init = Http "127.0.0.1:9473") as Htr by (vm_compute; reflexivity).
  destruct (proj2 (H CmdStatus _ eq_refl) "127.0.0.1:9473"%string) as (r & Hr & Hu).
  - exact Htr.
  - intros addr h req Ha. rewrite Htr in Ha. injection Ha as <-. unfold ex_send. rewrite !String.eqb_refl. reflexivity.
  - exists r. split; [exact Hu|]. exact (f_equal snd Hr).
Defined.
