(* ===== verification/Node.v ===== *)
(** * The node: its tasks over the shared state

    [run_node] (main.rs) spawns the swarm task, the governor task and the
    replication task and serves the API; they share the store, the group list,
    the peer pool, the learned groups of a dynamic relay and the statistics, and
    talk over channels.  [Node] is the shared state with what each task keeps
    for itself; each task sees the shared parts through a view and puts them
    back.  A [Label] is the environment's choice of what happens next, with the
    clock readings and answers it brings; [step] runs the arm of the task that
    it concerns, and is undefined where nothing is there to be received or where
    libp2p would not report such an event.

    The tasks run on the same threads, and others may run where an arm awaits an
    answer: a sync round is cut at these points ([SyncRound.v]), and while the
    replication task waits in a round it serves none of its other arms; when it
    panics in a round it serves none ever again and its receivers are dropped
    ([hang_up]), while the other tasks go on.  The
    spawned parts of the governor task (group exchanges and discovery) are steps
    of their own.  The other arms await only locks and room in a channel, and
    are one step each. *)

From S2P Require Import Prelude Float64 Protocol Governor Storage StorageProps Search Json Envelope.
From S2P Require Import ItemStore Replication PeerPool Config SwarmTask ReplicationTask SyncRound Api GovernorTask Startup.

(** ** State *)

Record Node := {
  nd_db : Db;
  nd_groups : list GroupId;
  (** the state of the governor task; its pool and learned groups are the shared ones *)
  nd_gov : GovTask;
  (** what the other tasks keep: their copies of shared parts are not used *)
  nd_swarm : Swarm;
  nd_repl : Repl;
  nd_app : AppState;
  (** commands to the swarm task and its events, not yet received *)
  nd_cmds : list SwarmCommand;
  nd_events : list SwarmEvent2;
  (** the connections that libp2p has, per peer *)
  nd_conns : gmap NodeId Z;
  (** the round in which the replication task waits, the answer that has arrived for
      it, and the number of response channels it has made *)
  nd_round : option Round;
  nd_reply : option (result Response string);
  nd_chans : Z;
}.

(** [PeerPool::peer_details] *)
Definition peer_details `{HashIter} (addr_text : Multiaddr -> string) (pool : gmap NodeId PeerHandle) : list PeerDetail :=
  (fun h => {| pd_node_id := ph_node_id h; pd_addrs := addr_text <$> ph_addrs h; pd_state := state_name (ph_state h);
               pd_rtt_ms := ph_rtt_ms h; pd_items_delivered := ph_items_delivered h; pd_groups := ph_groups h;
               pd_group_intersection := ph_group_intersection h; pd_is_relay := ph_is_relay h;
               pd_protocol_version := ph_protocol_version h |}) <$> values pool.

Definition nd_pool (n : Node) : gmap NodeId PeerHandle := gt_pool (nd_gov n).

(** ** Views *)

Definition swarm_view (n : Node) : Swarm := {|
  sw_db := nd_db n; sw_groups := nd_groups n; sw_pool := nd_pool n;
  pending_peer_share := pending_peer_share (nd_swarm n); pending_sync := pending_sync (nd_swarm n);
  pending_fetch := pending_fetch (nd_swarm n); pending_group_exchange := pending_group_exchange (nd_swarm n);
|}.

(** Events go to the governor task, the other outputs to libp2p and to the waiting requests. *)
Definition events_of (out : list Output) : list SwarmEvent2 :=
  omap (fun o => match o with OEvent e => Some e | _ => None end) out.

(** The answer to the request of the waiting round; other answers go to the parts of
    the governor task that wait for them. *)
Definition take_reply (round : option Round) (out : list Output) (reply : option (result Response string)) :
    option (result Response string) :=
  match round with
  | None => reply
  | Some r => foldl (fun reply o => match o with
                                    | OReply tx a => if tx =? rd_chan r then Some a else reply
                                    | _ => reply
                                    end) reply out
  end.

Definition put_swarm (r : Swarm * list Output) (n : Node) : Node := {|
  nd_db := sw_db r.1; nd_groups := sw_groups r.1; nd_gov := nd_gov n; nd_swarm := r.1; nd_repl := nd_repl n;
  nd_app := nd_app n; nd_cmds := nd_cmds n; nd_events := nd_events n ++ events_of r.2; nd_conns := nd_conns n;
  nd_round := nd_round n; nd_reply := take_reply (nd_round n) r.2 (nd_reply n); nd_chans := nd_chans n;
|}.

(** The task has panicked in this round. *)
Definition is_gone (r : Round) : bool := match rd_waiting r with Gone => true | _ => false end.

Definition repl_view (n : Node) : Repl := rt_set_pool (nd_pool n) (rt_set_db (nd_db n) (nd_repl n)).

Definition put_repl (r : Repl * list SwarmCommand) (n : Node) : Node := {|
  nd_db := rt_db r.1; nd_groups := nd_groups n; nd_gov := gt_set_pool (rt_pool r.1) (nd_gov n); nd_swarm := nd_swarm n;
  nd_repl := r.1; nd_app := nd_app n; nd_cmds := nd_cmds n ++ r.2; nd_events := nd_events n; nd_conns := nd_conns n;
  nd_round := nd_round n; nd_reply := nd_reply n; nd_chans := nd_chans n;
|}.

(** The replication task at its next await point: an answer that was waiting is used up. *)
Definition put_progress (p : Progress) (n : Node) : Node := {|
  nd_db := rt_db (pg_repl p); nd_groups := nd_groups n; nd_gov := gt_set_pool (rt_pool (pg_repl p)) (nd_gov n);
  nd_swarm := nd_swarm n; nd_repl := pg_repl p; nd_app := nd_app n; nd_cmds := nd_cmds n ++ pg_cmds p;
  nd_events := nd_events n; nd_conns := nd_conns n; nd_round := pg_round p; nd_reply := None; nd_chans := nd_chans n + 1;
|}.

(** The callbacks of the API read the pool, the statistics are those of the replication task. *)
Definition app_view `{HashIter} (addr_text : Multiaddr -> string) (n : Node) : AppState :=
  let '(warm, hot) := peer_count_by_state (nd_pool n) in {|
  storage := nd_db n; Api.node_id := Api.node_id (nd_app n); entity_id := entity_id (nd_app n);
  bearer_token := bearer_token (nd_app n); start_time := start_time (nd_app n); write_notify := write_notify (nd_app n);
  shared_groups := Some (nd_groups n); peer_count_fn := Some (Z.of_nat warm, Z.of_nat hot);
  peer_list_fn := Some (peer_details addr_text (nd_pool n)); replication_stats := Some (rt_stats (nd_repl n));
  bootstrap_sync := bootstrap_sync (nd_app n);
|}.

Definition put_app (s : AppState) (n : Node) : Node := {|
  nd_db := storage s; nd_groups := default [] (shared_groups s); nd_gov := nd_gov n; nd_swarm := nd_swarm n;
  nd_repl := nd_repl n; nd_app := s; nd_cmds := nd_cmds n; nd_events := nd_events n; nd_conns := nd_conns n;
  nd_round := nd_round n; nd_reply := nd_reply n; nd_chans := nd_chans n;
|}.

Definition put_gov (r : GovTask * list SwarmCommand) (n : Node) : Node := {|
  nd_db := nd_db n; nd_groups := nd_groups n; nd_gov := r.1; nd_swarm := nd_swarm n; nd_repl := nd_repl n;
  nd_app := nd_app n; nd_cmds := nd_cmds n ++ r.2; nd_events := nd_events n; nd_conns := nd_conns n;
  nd_round := nd_round n; nd_reply := nd_reply n; nd_chans := nd_chans n;
|}.

Definition set_cmds (cmds : list SwarmCommand) (n : Node) : Node := {|
  nd_db := nd_db n; nd_groups := nd_groups n; nd_gov := nd_gov n; nd_swarm := nd_swarm n; nd_repl := nd_repl n;
  nd_app := nd_app n; nd_cmds := cmds; nd_events := nd_events n; nd_conns := nd_conns n;
  nd_round := nd_round n; nd_reply := nd_reply n; nd_chans := nd_chans n;
|}.

Definition set_events (events : list SwarmEvent2) (n : Node) : Node := {|
  nd_db := nd_db n; nd_groups := nd_groups n; nd_gov := nd_gov n; nd_swarm := nd_swarm n; nd_repl := nd_repl n;
  nd_app := nd_app n; nd_cmds := nd_cmds n; nd_events := events; nd_conns := nd_conns n;
  nd_round := nd_round n; nd_reply := nd_reply n; nd_chans := nd_chans n;
|}.

Definition set_conns (conns : gmap NodeId Z) (n : Node) : Node := {|
  nd_db := nd_db n; nd_groups := nd_groups n; nd_gov := nd_gov n; nd_swarm := nd_swarm n; nd_repl := nd_repl n;
  nd_app := nd_app n; nd_cmds := nd_cmds n; nd_events := nd_events n; nd_conns := conns;
  nd_round := nd_round n; nd_reply := nd_reply n; nd_chans := nd_chans n;
|}.

Definition set_app (s : AppState) (n : Node) : Node := {|
  nd_db := nd_db n; nd_groups := nd_groups n; nd_gov := nd_gov n; nd_swarm := nd_swarm n; nd_repl := nd_repl n;
  nd_app := s; nd_cmds := nd_cmds n; nd_events := nd_events n; nd_conns := nd_conns n;
  nd_round := nd_round n; nd_reply := nd_reply n; nd_chans := nd_chans n;
|}.

(** ** Channels *)

(** The capacity of the broadcast channels; a receiver that is further behind loses
    the oldest entries. *)
Definition BROADCAST_CAPACITY : nat := 256.

(** The next write notification and the state of the API without it. *)
Definition recv_write (s : AppState) : option (WriteNotification * AppState) :=
  match write_notify s with
  | Some {| bc_receivers := r; bc_sent := w :: ws |} =>
      Some (w, set_write_notify (Some {| bc_receivers := r; bc_sent := ws |}) s)
  | _ => None
  end.

(** The next bootstrap request. *)
Definition recv_bootstrap (s : AppState) : option (string * AppState) :=
  match bootstrap_sync s with
  | Some {| mp_capacity := c; mp_closed := b; mp_queue := gid :: q |} =>
      Some (gid, set_bootstrap_sync (Some {| mp_capacity := c; mp_closed := b; mp_queue := q |}) s)
  | _ => None
  end.

(** Lagging behind: all but the newest 256 notifications are gone. *)
Definition drop_old {A} (l : list A) : option (list A) :=
  if (BROADCAST_CAPACITY <? length l)%nat then Some (drop (length l - BROADCAST_CAPACITY) l) else None.

Definition lose_writes (s : AppState) : option AppState :=
  match write_notify s with
  | Some c => (fun l => set_write_notify (Some {| bc_receivers := bc_receivers c; bc_sent := l |}) s) <$> drop_old (bc_sent c)
  | None => None
  end.

(** The replication task is gone: its receivers of write notifications and bootstrap
    requests are dropped, with what they had not received. *)
Definition hang_up (s : AppState) : AppState :=
  set_write_notify ((fun c => {| bc_receivers := pred (bc_receivers c); bc_sent := [] |}) <$> write_notify s)
    (set_bootstrap_sync ((fun c => {| mp_capacity := mp_capacity c; mp_closed := true; mp_queue := [] |}) <$> bootstrap_sync s) s).

(** How libp2p numbers connections: the count after the event. *)
Definition count_connections (e : NetEvent) (conns : gmap NodeId Z) : option (gmap NodeId Z) :=
  match e with
  | EvConnected peer _ k =>
      if k =? default 0 (conns !! peer) + 1 then Some (<[peer := k]> conns) else None
  | EvClosed peer k =>
      if (0 <? default 0 (conns !! peer)) && (k =? default 0 (conns !! peer) - 1) then Some (<[peer := k]> conns) else None
  | _ => Some conns
  end.

(** ** Steps *)

Inductive Label :=
(** a request to the API *)
| LApi (env : SqlEnv) (now : Instant) (h : Headers) (req : ApiRequest)
(** the swarm task receives a command; an event of libp2p *)
| LCommand (env : SqlEnv) (rid : ReqId)
| LNetwork (env : SqlEnv) (readable : bool) (e : NetEvent)
(** the governor task receives an event, or lags behind; a tick of it; its spawned parts *)
| LEvent (now : Instant) (tx : NodeId -> Chan)
| LEventsLost
| LTick (c : TickClock) (now : Instant) (resolve : BootnodeEntry -> option Multiaddr) (tx : NodeId -> Chan)
| LExchangeGroups (peer : NodeId) (theirs : list GroupId)
| LExchangeRegister (now : Instant) (peer : NodeId) (a : list Multiaddr) (theirs : list GroupId)
| LExchangeLearn (peer_is_relay : bool) (theirs : list GroupId)
| LDiscover (shuffle : list PeerHandle -> list PeerHandle) (tx : NodeId -> Chan)
| LDiscovered (parse_id : string -> option NodeId) (parse_addr : string -> option Multiaddr) (our_id : NodeId)
    (now : Instant) (all : list PeerAddress)
(** the replication task: a notification, lagging behind, and its timers *)
| LWrite (env : SqlEnv) (rfc3339_now : string)
| LWritesLost
| LFlush (now : Instant) (open : bool)
| LRetry (now : Instant) (open : bool)
| LSync (env : SqlEnv) (draw : string -> nat) (now : Instant)
| LBootstrap (draw : string -> nat)
(** an answer lets the round go on *)
| LResume (env : SqlEnv) (draw : string -> nat)
| LGc (env : SqlEnv).

(** The arms of the governor task for the events of the swarm. *)
Definition on_event `{HashIter} (now : Instant) (shared : list GroupId) (tx : NodeId -> Chan) (e : SwarmEvent2) (s : GovTask) :
    GovTask * list SwarmCommand :=
  match e with
  | PeerConnected peer a => on_connected now shared peer a tx s
  | PeerDisconnected peer => (on_disconnected now peer s, [])
  | PingRtt peer rtt => (on_ping now peer rtt s, [])
  | IdentifyReceived peer listen _ _ => (on_identify now peer listen s, [])
  | DialFailure peer => (on_dial_failure now peer s, [])
  | ExternalAddrConfirmed _ => (s, [])
  end.

(** What the tasks were given at the start and the code they call. *)
Record Setting := {
  st_role : NodeRole;
  st_entity_id : string;
  st_relay : RelayCtx;
  st_engine : ReplicationEngine;
  st_parse_culture : string -> option GroupCulture;
  st_placeholder_id : string -> NodeId;
  st_addr_text : Multiaddr -> string;
  st_fts_match : Db -> string -> Z -> result (list string) SqlError;
}.

Section node.
Context `{CR : Crypto} `{NI : NodeIdentity} `{HI : HashIter} `{WF : WireFormats}.
Context (st : Setting).

(** The relay context of the swarm task: on a dynamic relay the accepted groups are
    the set that the governor task fills. *)
Definition relay_ctx (readable : bool) (n : Node) : RelayCtx := {|
  rx_posture := rx_posture (st_relay st);
  rx_accepted := match gt_learned (nd_gov n) with Some l => Some l | None => rx_accepted (st_relay st) end;
  rx_accepted_readable := readable;
  rx_blocked := rx_blocked (st_relay st);
|}.

Definition is_relay_node : bool := bool_decide (st_role st = Relay).

(** An iteration of the replication loop: the gauges, then the arm.  The loop is at
    its head only when no round is waiting. *)
Definition repl_arm (arm : Repl -> Repl * list SwarmCommand) (n : Node) : option Node :=
  match nd_round n with
  | Some _ => None
  | None => Some (put_repl (arm (update_gauges (repl_view n))) n)
  end.

(** An arm that begins with a round. *)
Definition round_arm (arm : Repl -> Progress) (n : Node) : option Node :=
  match nd_round n with
  | Some _ => None
  | None => Some (put_progress (arm (update_gauges (repl_view n))) n)
  end.

(** Response channels: those of rounds are odd, those of the governor task even. *)
Definition round_chan (n : Node) : Chan := 2 * nd_chans n + 1.
Definition gov_chan (tx : NodeId -> Chan) (peer : NodeId) : Chan := 2 * tx peer.

(** When the task panics its channels are closed. *)
Definition settle_channels (p : Progress) (n : Node) : Node :=
  match pg_round p with
  | Some r => if is_gone r then set_app (hang_up (nd_app n)) n else n
  | None => n
  end.

(** What the task does with an answer; it is of the kind that was asked for. *)
Definition answered (env : SqlEnv) (draw : string -> nat) (r : Round) (a : result Response string) (n : Node) : option Progress :=
  match rd_waiting r, a with
  | ForHeaders, Ok (RsSync x) =>
      Some (on_headers (st_parse_culture st) env (st_engine st) (round_chan n) draw r (Answered _ x) (repl_view n))
  | ForHeaders, Err e =>
      Some (on_headers (st_parse_culture st) env (st_engine st) (round_chan n) draw r (RequestFailed _ e) (repl_view n))
  | ForItems latest more c, Ok (RsFetch x) =>
      Some (on_items (st_parse_culture st) env (st_engine st) (round_chan n) draw r latest more c (Answered _ x) (repl_view n))
  | ForItems latest more c, Err e =>
      Some (on_items (st_parse_culture st) env (st_engine st) (round_chan n) draw r latest more c (RequestFailed _ e) (repl_view n))
  | _, _ => None
  end.

(** The round goes on with its answer. *)
Definition resume (env : SqlEnv) (draw : string -> nat) (n : Node) : option Node :=
  match nd_round n, nd_reply n with
  | Some r, Some a => (fun p => put_progress p (settle_channels p n)) <$> answered env draw r a n
  | _, _ => None
  end.

Definition step (l : Label) (n : Node) : option Node :=
  let shared := nd_groups n in
  match l with
  | LApi env now h req => Some (put_app (router (st_fts_match st) env now h req (app_view (st_addr_text st) n)).1 n)
  | LCommand env rid =>
      match nd_cmds n with
      | [] => None
      | cmd :: rest => Some (put_swarm (handle_command env (st_entity_id st) rid cmd (swarm_view n)) (set_cmds rest n))
      end
  | LNetwork env readable e =>
      match count_connections e (nd_conns n) with
      | None => None
      | Some conns =>
          Some (put_swarm (handle_event env (st_entity_id st) (st_role st) (relay_ctx readable n) (st_addr_text st) e
                             (swarm_view n)) (set_conns conns n))
      end
  | LEvent now tx =>
      match nd_events n with
      | [] => None
      | e :: rest => Some (put_gov (on_event now shared (gov_chan tx) e (nd_gov n)) (set_events rest n))
      end
  | LEventsLost => (fun l => set_events l n) <$> drop_old (nd_events n)
  | LTick c now resolve tx => Some (put_gov (on_tick (st_placeholder_id st) c now shared resolve (gov_chan tx) (nd_gov n)).1 n)
  | LExchangeGroups peer theirs => Some (put_gov (exchange_groups shared peer theirs (nd_gov n), []) n)
  | LExchangeRegister now peer a theirs => Some (put_gov (exchange_register now peer a theirs (nd_gov n), []) n)
  | LExchangeLearn peer_is_relay theirs => Some (put_gov (exchange_learn peer_is_relay theirs (nd_gov n), []) n)
  | LDiscover shuffle tx => Some (put_gov (nd_gov n, discover_requests shuffle (gov_chan tx) (nd_gov n)) n)
  | LDiscovered parse_id parse_addr our_id now all =>
      Some (put_gov (discover_register parse_id parse_addr our_id now all (nd_gov n), []) n)
  | LWrite env rfc3339_now =>
      match recv_write (nd_app n) with
      | None => None
      | Some (w, app) =>
          repl_arm (fun s => (on_write_notification (st_parse_culture st) env (st_engine st) rfc3339_now w s, []))
            (set_app app n)
      end
  | LWritesLost => (fun app => set_app app n) <$> lose_writes (nd_app n)
  | LFlush now open => repl_arm (on_flush now open) n
  | LRetry now open => repl_arm (on_retry now open) n
  | LSync env draw now =>
      round_arm (start_tick (st_parse_culture st) env (st_engine st) (round_chan n) draw now is_relay_node shared
                   (gt_learned (nd_gov n)) (rx_blocked (st_relay st))) n
  | LBootstrap draw =>
      match recv_bootstrap (nd_app n) with
      | None => None
      | Some (gid, app) =>
          round_arm (start_bootstrap (st_engine st) (round_chan n) draw is_relay_node shared gid) (set_app app n)
      end
  | LResume env draw => resume env draw n
  | LGc env => repl_arm (fun s => (on_gc env (st_engine st) s, [])) n
  end.

(** What the swarm task hands out in a step: requests and responses for libp2p, and
    answers and events for the other tasks. *)
Definition outputs (l : Label) (n : Node) : list Output :=
  match l with
  | LCommand env rid =>
      match nd_cmds n with
      | [] => []
      | cmd :: _ => (handle_command env (st_entity_id st) rid cmd (swarm_view n)).2
      end
  | LNetwork env readable e =>
      match count_connections e (nd_conns n) with
      | None => []
      | Some _ =>
          (handle_event env (st_entity_id st) (st_role st) (relay_ctx readable n) (st_addr_text st) e (swarm_view n)).2
      end
  | _ => []
  end.

(** A run: the labels that are not possible are skipped. *)
Definition run (ls : list Label) (n : Node) : Node := foldl (fun n l => default n (step l n)) n ls.

End node.

(** ** The beginning *)

Definition no_swarm (d : Db) (groups : list GroupId) : Swarm :=
  {| sw_db := d; sw_groups := groups; sw_pool := ∅; pending_peer_share := ∅; pending_sync := ∅; pending_fetch := ∅;
     pending_group_exchange := ∅ |}.

Definition no_repl (d : Db) : Repl :=
  {| rt_db := d; rt_pool := ∅; pending_pushes := []; next_sync_at := ∅; last_sync_at := ∅; sync_cycle_count := ∅;
     write_buffer := ∅; rt_stats := no_stats |}.

Definition first_node (i : NodeInit) : Node := {|
  nd_db := storage (ni_app i); nd_groups := current_groups (ni_app i); nd_gov := ni_task i;
  nd_swarm := no_swarm (storage (ni_app i)) (current_groups (ni_app i)); nd_repl := no_repl (storage (ni_app i));
  nd_app := ni_app i; nd_cmds := []; nd_events := []; nd_conns := ∅; nd_round := None; nd_reply := None; nd_chans := 0;
|}.
