(* ===== verification/NodeProps.v ===== *)
(** * Properties of the node as a whole

    Whatever the order in which requests, network events, timers and answers
    come, the tasks keep the shared state in order: the integrity of the store
    and of the group list survives every arm of every task ([node_integrity]);
    and the pool agrees with the governor in every state that a started node
    reaches, because the swarm's connection notices alternate and arrive in
    order ([node_pool_in_step]). *)

From S2P Require Import Prelude Float64 Protocol Governor GovernorFacts GovernorProps GovernorTick.
From S2P Require Import Storage StorageProps Search Json Envelope EnvelopeProps ItemStore Replication PeerPool Config.
From S2P Require Import SwarmTask SwarmProps ReplicationTask SyncRound Api ApiProps GovernorTask GovernorTaskProps Startup StartupProps Node.

(** ** The store in the hands of the swarm task *)

(** A property of the store that survives everything the tasks do to it, except
    perhaps the writing of an item. *)
Record tame (I : Db -> Prop) : Prop := {
  tm_group : forall env i n c p, preserves I (write_group env i n c p);
  tm_sign : forall env i o p s, preserves I (write_group_signature env i o p s);
  tm_posture : forall env g e p, preserves I (update_member_posture env g e p);
  tm_purge : forall env c n, preserves I (purge_deleted_groups env c n);
  tm_delete : forall env i, preserves I (delete_l2_item env i);
  tm_log : forall env e, preserves I (log_access env e);
}.

(** Storing the item does not disturb the property; only items of accepted groups are
    stored. *)
Definition admits `{Crypto} (I : Db -> Prop) (x : FetchedItem) : Prop := forall env, preserves I (write_l2_item env (write_of x)).

Lemma tame_wf `{Crypto} : tame db_wf.
Proof.
  split; intros; [apply write_group_preserves|apply sign_group_preserves|apply update_posture_preserves|apply purge_preserves
    |apply delete_item_wf|apply log_access_wf].
Qed.

Lemma admits_wf `{Crypto} x : admits db_wf x.
Proof. intros env. apply write_l2_item_preserves. Qed.

Section store.
Context `{CR : Crypto} `{NI : NodeIdentity} `{HI : HashIter}.
Context (I : Db -> Prop) (HI_tame : tame I).

Lemma on_receive_wf env item gs relay d :
  (accepts gs relay (fi_group_id item) = true -> admits I item) -> I d -> I (@on_receive _ Db (sqlite_store env) item gs relay d).1.
Proof.
  intros Hadm Hd. unfold on_receive. case_match; [done|]. destruct (accepts gs relay (fi_group_id item)); [|done]. specialize (Hadm eq_refl).
  repeat (case_match; try done); cbn [fst].
  all: try (match goal with H : store_delete _ _ = (?x, _) |- I ?x =>
              pose proof (tm_delete _ HI_tame env (fi_item_id item) d Hd) as Hw; cbn in H; by rewrite H in Hw end).
  all: match goal with H : store_write _ _ = (?x, _) |- _ =>
         pose proof (Hadm env d Hd) as Hw; cbn in H; rewrite H in Hw end; try done.
  by apply (tm_log _ HI_tame env).
Qed.

Lemma push_request_wf env req gs relay d :
  (forall x, x ∈ mpr_items req -> accepts gs relay (fi_group_id x) = true -> admits I x) -> I d -> I (handle_push_request env req gs relay d).1.
Proof.
  unfold handle_push_request. generalize {| ack_stored := 0; ack_rejected := 0 |} as ack. revert d.
  induction (mpr_items req) as [|x l IH]; intros d ack Hadm Hd; [done|]. cbn [foldl]. unfold push_step at 2.
  pose proof (on_receive_wf env x gs relay d (Hadm x (list_elem_of_here _ _)) Hd) as Hx.
  destruct (on_receive x gs relay d) as [d' []]; (apply IH; [intros y Hy; apply Hadm; by right|done]).
Qed.

Lemma persist_signature_wf env desc d : I d -> I (persist_signature env desc d).
Proof.
  intros Hd. unfold persist_signature. repeat (case_match; try done). by apply (tm_sign _ HI_tame).
Qed.

Lemma merge_one_wf env desc d : I d -> I (merge_one env desc d).1.
Proof.
  intros Hd. unfold merge_one. do 4 (match goal with |- context [if ?b then (d, Skipped) else _] => destruct b end; [done|]).
  match goal with |- context [let '(_, _) := ?p in _] => destruct p as [[] name] end; [done|].
  match goal with |- context [write_group ?e ?i ?n ?c ?p ?d] => pose proof (tm_group _ HI_tame e i n c p d Hd) as Hw;
    destruct (write_group e i n c p d) as [d1 [u|err]] end; [|done]. cbn [fst] in Hw.
  case_match; cbn [fst]; [apply (remove_all_members_wf I (tm_posture _ HI_tame))|]; by apply persist_signature_wf.
Qed.

Lemma merge_descriptors_wf env descs d : I d -> I (merge_descriptors env descs d).1.
Proof.
  unfold merge_descriptors. generalize {| mr_upserted := []; mr_tombstoned := [] |} as r. revert d.
  induction descs as [|x l IH]; intros d r Hd; [done|]. cbn [foldl].
  pose proof (merge_one_wf env x d Hd) as Hx. destruct (merge_one env x d) as [d' []]; by apply IH.
Qed.

Lemma build_descriptors_wf env entity d : I d -> I (build_descriptors env entity d).1.
Proof.
  intros Hd. unfold build_descriptors.
  assert (I (list_groups env d).1) as Hl.
  { unfold list_groups. apply read_only_preserves; [auto with cordelia|done]. }
  destruct (list_groups env d) as [d1 [gs|e]]; [|done]. cbn [fst] in Hl. case_bool_decide; [done|].
  assert (forall gs d acc, I d -> I (foldl (fun '(d, acc) g =>
     let '(d', desc) := build_one env entity d g in (d', acc ++ [desc])) (d, acc) gs).1) as Hf.
  { clear - HI_tame. induction gs as [|g gs IH]; intros d acc Hd; [done|]. cbn [foldl].
    assert (I (build_one env entity d g).1) as Hb.
    { unfold build_one. case_match; [|done]. by apply (tm_sign _ HI_tame). }
    destruct (build_one env entity d g) as [d' desc]. by apply IH. }
  specialize (Hf gs d1 [] Hl). by destruct (foldl _ _ _).
Qed.

End store.

Lemma drop_tombstoned_nodup gone gs : NoDup gs -> NoDup (drop_tombstoned gone gs).
Proof.
  unfold drop_tombstoned. revert gs. induction gone as [|g gone IH]; intros gs Hgs; [done|]. cbn [foldl].
  by apply IH, NoDup_filter.
Qed.

Section swarm.
Context `{CR : Crypto} `{NI : NodeIdentity} `{HI : HashIter}.
Context (I : Db -> Prop) (HI_tame : tame I).

(** What the swarm task must leave in order: the store and the group list. *)
Definition swarm_wf (s : Swarm) : Prop := I (sw_db s) /\ NoDup (sw_groups s).

(** The items that an event brings to the store. *)
Definition pushed (e : NetEvent) : list FetchedItem := match e with EvPush _ req _ => mpr_items req | _ => [] end.

Lemma handle_command_wf env entity rid cmd s : swarm_wf s -> swarm_wf (handle_command env entity rid cmd s).1.
Proof.
  intros [Hd Hg]. destruct cmd as [| | | | | |peer req tx]; try done. cbn [handle_command].
  destruct (gx_descriptors req); [done|]. pose proof (build_descriptors_wf I HI_tame env entity (sw_db s) Hd) as Hb.
  by destruct (build_descriptors env entity (sw_db s)).
Qed.

Lemma behaviour_wf env entity gs e s : swarm_wf s -> swarm_wf (handle_behaviour_event env entity gs e s).1.1.
Proof.
  intros [Hd Hg]. destruct e; cbn [handle_behaviour_event]; unfold on_exchange_request, on_exchange_response, merge_offered;
    repeat match goal with |- context [complete ?m ?i ?r] => destruct (complete m i r) end; try done.
  - destruct (gx_descriptors req) as [descs|].
    + pose proof (merge_descriptors_wf I HI_tame env descs _ Hd) as Hm. destruct (merge_descriptors env descs (sw_db s)) as [d mr].
      pose proof (build_descriptors_wf I HI_tame env entity d Hm) as Hb. by destruct (build_descriptors env entity d).
    + pose proof (build_descriptors_wf I HI_tame env entity _ Hd) as Hb. by destruct (build_descriptors env entity (sw_db s)).
  - destruct (gxr_descriptors r) as [descs|].
    + pose proof (merge_descriptors_wf I HI_tame env descs _ Hd) as Hm. by destruct (merge_descriptors env descs (sw_db s)).
    + done.
Qed.

Lemma handle_event_wf env entity role rx addr_text e s :
  (forall x, x ∈ pushed e -> accepts (sw_groups s) (relay_check rx) (fi_group_id x) = true -> admits I x) -> swarm_wf s -> swarm_wf (handle_event env entity role rx addr_text e s).1.
Proof.
  intros Hadm Hs. destruct e; try done; cbn [handle_event].
  - unfold handle_push. destruct Hs as [Hd Hg]. pose proof (push_request_wf I HI_tame env req (sw_groups s) (relay_check rx) _ Hadm Hd) as Hp.
    by destruct (handle_push_request _ _ _ _ _).
  - pose proof (behaviour_wf env entity (advertised_groups (sw_groups s) (rx_accepted rx) (rx_accepted_readable rx)) e s Hs) as Hb.
    destruct (handle_behaviour_event _ _ _ _ _) as [[s' out] mr]. destruct Hb as [Hd Hg]. split; [done|].
    by apply drop_tombstoned_nodup.
Qed.

End swarm.

(** ** The replication task *)

Section repl.
Context `{CR : Crypto} `{HI : HashIter}.
Context (I : Db -> Prop) (HI_tame : tame I).
(** A property of the pool that deliveries do not disturb. *)
Context (Q : gmap NodeId PeerHandle -> Prop) (HQ : forall id k p, Q p -> Q (pool_record_items_delivered id k p)).

Definition repl_wf (s : Repl) : Prop := I (rt_db s) /\ Q (rt_pool s).

Lemma send_batches_wf open peers batches s : repl_wf s -> repl_wf (send_batches open peers batches s).1.
Proof.
  unfold send_batches. match goal with |- context [foldl ?f (s, []) batches] => set (F := f) end.
  assert (forall b s out, repl_wf s -> repl_wf (F (s, out) b).1) as HF.
  { intros b. unfold F. clear F s. induction peers as [|p ps IH]; intros s out Hs; [done|]. cbn [foldl].
    destruct open; apply IH; [|done]. destruct Hs as [Hd Hp]. split; [done|]. by apply HQ. }
  clearbody F. generalize (@nil SwarmCommand) as out. revert s. induction batches as [|b bs IH]; intros s out Hs; [done|].
  cbn [foldl]. specialize (HF b s out Hs). destruct (F (s, out) b) as [s' out']. by apply IH.
Qed.

Lemma flush_wf now open s : repl_wf s -> repl_wf (on_flush now open s).1.
Proof.
  intros Hs. unfold on_flush. assert (repl_wf (rt_set_buffer ∅ s)) as H0 by done. revert H0.
  generalize (rt_set_buffer ∅ s) as s0, (@nil SwarmCommand) as out. clear Hs.
  induction (hash_iter (write_buffer s)) as [|gi l IH]; intros s0 out Hs; [done|]. cbn [foldl].
  assert (repl_wf (flush_group now open gi.1 gi.2 s0).1) as Hf.
  { unfold flush_group. case_bool_decide; [done|]. case_bool_decide; [done|].
    pose proof (send_batches_wf open (active_peers_for_group_or_relays gi.1 (rt_pool s0)) (split_into_batches gi.2) s0 Hs) as Hb.
    by destruct (send_batches _ _ _ _). }
  destruct (flush_group _ _ _ _ _) as [s1 o]. by apply IH.
Qed.

Lemma retry_wf now open s : repl_wf s -> repl_wf (on_retry now open s).1.
Proof.
  intros Hs. unfold on_retry. assert (repl_wf (foldl (retry_step now open) (s, [], []) (pending_pushes s)).1.1) as Hr.
  { revert Hs. generalize (@nil SwarmCommand) as out, (@nil PendingPush) as keep. generalize (pending_pushes s) as l.
    intros l. revert s. induction l as [|p l IH]; intros s out keep Hs; [done|]. cbn [foldl].
    assert (repl_wf (retry_step now open (s, out, keep) p).1.1) as Hp.
    { unfold retry_step, retry_one. destruct (now <? pp_next_at p); [done|]. case_bool_decide.
      - by destruct (_ <=? _).
      - pose proof (send_batches_wf open (active_peers_for_group_or_relays (pp_group_id p) (rt_pool s))
          (split_into_batches (pp_items p)) s Hs) as Hb.
        destruct (send_batches _ _ _ _) as [s1 o]. by destruct (_ <=? _). }
    destruct (retry_step now open (s, out, keep) p) as [[s1 o1] k1]. by apply IH. }
  destruct (foldl _ _ _) as [[s1 o1] k1]. exact Hr.
Qed.

Context (parse_culture : string -> option GroupCulture) (env : SqlEnv) (eng : ReplicationEngine).

Lemma receive_steps_wf gs relay items st :
  (forall x, x ∈ items -> accepts gs relay (fi_group_id x) = true -> admits I x) -> I st.1 -> I (foldl (receive_step env gs relay) st items).1.
Proof.
  revert st. induction items as [|x l IH]; intros [d r] Hadm Hst; [done|]. cbn [foldl].
  apply IH; [intros y Hy; apply Hadm; by right|]. unfold receive_step.
  pose proof (on_receive_wf I HI_tame env x gs relay d (Hadm x (list_elem_of_here _ _)) Hst) as Hx.
  by destruct (on_receive x gs relay d) as [d' []].
Qed.

Lemma record_round_wf gid r s : repl_wf s -> repl_wf (record_round gid r s).
Proof. intros Hs. destruct r as [[ts|]|e]; exact Hs. Qed.

Context (tx : Chan) (draw : string -> nat).

(** The pieces of a round. *)
Lemma next_group_wf now is_relay groups todo s :
  repl_wf s -> repl_wf (pg_repl (next_group parse_culture env eng tx draw now is_relay groups todo s)).
Proof.
  revert s. induction todo as [|gid rest IH]; intros s Hs; [done|]. cbn [next_group].
  destruct (not_yet_due now s gid); [by apply IH|]. unfold schedule_group. destruct (choose_partner _ _ _ _); [exact Hs|].
  by apply IH, record_round_wf.
Qed.

Lemma finish_wf r res s : repl_wf s -> repl_wf (pg_repl (finish parse_culture env eng tx draw r res s)).
Proof. intros Hs. by apply next_group_wf, record_round_wf. Qed.

Lemma ask_next_wf r latest todo c s : repl_wf s -> repl_wf (pg_repl (ask_next parse_culture env eng tx draw r latest todo c s)).
Proof. intros Hs. destruct todo; [by apply finish_wf|done]. Qed.

Lemma on_headers_wf r a s : repl_wf s -> repl_wf (pg_repl (on_headers parse_culture env eng tx draw r a s)).
Proof.
  intros Hs. destruct a; cbn [on_headers]; try by apply finish_wf.
  destruct (list_group_items env _ _ _ _).2; [|by apply finish_wf]. case_bool_decide; [by apply finish_wf|].
  destruct (chunks _ _); [by apply ask_next_wf|done].
Qed.

(** The items that an answer brings to the store. *)
Definition fetched (a : Answer FetchResponse) : list FetchedItem := match a with Answered _ resp => frs_items resp | _ => [] end.

Lemma on_items_wf r latest more c a s :
  (forall x, x ∈ fetched a -> accepts (rd_groups r) (accept_test r) (fi_group_id x) = true -> admits I x) -> repl_wf s -> repl_wf (pg_repl (on_items parse_culture env eng tx draw r latest more c a s)).
Proof.
  intros Hadm Hs. destruct a as [| | |resp]; cbn [on_items]; try by apply finish_wf.
  pose proof (receive_steps_wf (rd_groups r) (accept_test r) (frs_items resp) (rt_db s, c) Hadm (proj1 Hs)) as Hd.
  destruct (foldl _ _ _) as [d c']. apply ask_next_wf. by destruct Hs.
Qed.

Lemma start_tick_wf now is_relay shared learned blocked s :
  repl_wf s -> repl_wf (pg_repl (start_tick parse_culture env eng tx draw now is_relay shared learned blocked s)).
Proof. apply next_group_wf. Qed.

Lemma start_bootstrap_wf is_relay shared gid s :
  repl_wf s -> repl_wf (pg_repl (start_bootstrap eng tx draw is_relay shared gid s)).
Proof. intros Hs. unfold start_bootstrap. destruct (choose_partner _ _ _ _); [exact Hs|]. by apply record_round_wf. Qed.

Lemma gc_wf s : repl_wf s -> repl_wf (on_gc env eng s).
Proof. intros [Hd Hp]. split; [|done]. by apply (tm_purge _ HI_tame). Qed.

Lemma write_notification_wf rfc w s : repl_wf s -> repl_wf (on_write_notification parse_culture env eng rfc w s).
Proof. intros Hs. unfold on_write_notification. case_match; [|done]. by case_match. Qed.

End repl.

(** ** The pool in the hands of the governor task *)

(** Nobody enters the pool. *)
Definition pool_sub (pool pool' : gmap NodeId PeerHandle) : Prop := forall id, is_Some (pool' !! id) -> is_Some (pool !! id).

Lemma pool_sub_alter f id pool : pool_sub pool (alter f id pool).
Proof.
  intros j. destruct (decide (id = j)) as [<-|Hne]; [rewrite lookup_alter_eq; by intros ?%fmap_is_Some|by rewrite lookup_alter_ne].
Qed.

Lemma pool_sub_delete id pool : pool_sub pool (delete id pool).
Proof. intros j. rewrite lookup_delete_is_Some. tauto. Qed.

Lemma actions_sub a pool : pool_sub pool (apply_governor_actions a pool).1.
Proof.
  intros id Hid. unfold apply_governor_actions in Hid.
  assert (forall ts p, pool_sub p (apply_transitions ts p)) as Ht.
  { intros ts. unfold apply_transitions. induction ts as [|t ts IH]; intros p j Hj; [done|]. cbn [foldl] in Hj.
    exact (pool_sub_alter _ _ p j (IH _ j Hj)). }
  apply (Ht (transitions a)). revert Hid. unfold remove_disconnected.
  match goal with |- context [foldl ?f _ _] => set (F := f) end.
  assert (forall x p gone, pool_sub p (F (p, gone) x).1) as HF.
  { intros x p gone. unfold F. destruct (p !! x); [apply pool_sub_delete|by intros j]. }
  clearbody F. generalize (apply_transitions (transitions a) pool) as p, (@nil NodeId) as gone.
  induction (disconnect a) as [|x l IH]; intros p gone Hid; [done|]. cbn [foldl] in Hid.
  apply (HF x p gone). destruct (F (p, gone) x) as [p' gone']. exact (IH _ _ Hid).
Qed.

Section governor.
Context `{HI : HashIter} (placeholder_id : string -> NodeId).

Lemma tick_sub c now shared resolve tx s :
  pool_sub (gt_pool s) (gt_pool (on_tick placeholder_id c now shared resolve tx s).1.1).
Proof.
  unfold on_tick. destruct (tick c (set_groups_gov shared (gt_gov s))) as [g actions].
  pose proof (actions_sub actions (gt_pool s)) as Ha. destruct (apply_governor_actions actions (gt_pool s)) as [pool gone].
  destruct (dial_loop (connect actions) (gt_set_pool pool (gt_set_gov g s)) []) as (_ & Hp & _).
  fold (dial_promoted (connect actions) (gt_set_pool pool (gt_set_gov g s))) in Hp.
  destruct (dial_promoted _ _) as [s1 dials]. cbn [fst] in *. unfold retry_bootnodes. cbn.
  destruct (_ && _); [destruct (foldl _ _ _) as [[? ?] ?]|]; cbn; by rewrite Hp.
Qed.

Lemma identify_sub now peer listen s : pool_sub (gt_pool s) (gt_pool (on_identify now peer listen s)).
Proof.
  unfold on_identify. case_bool_decide; [by intros id|]. cbn. destruct (pool_get _ _); [|by intros id].
  case_bool_decide; [by intros id|]. apply pool_sub_alter.
Qed.

(** An event that does not announce a connection lets nobody in, and the one that
    does lets in the peer it announces. *)
Lemma event_sub now shared tx e s id :
  is_Some (gt_pool (on_event now shared tx e s).1 !! id) ->
  match e with
  | PeerConnected peer _ => id = peer \/ is_Some (gt_pool s !! id)
  | PeerDisconnected peer => id <> peer /\ is_Some (gt_pool s !! id)
  | _ => is_Some (gt_pool s !! id)
  end.
Proof.
  destruct e as [peer a|peer|peer rtt|peer listen obs ag|addr|peer]; cbn [on_event].
  - unfold on_connected. destruct (take_pending _ _). cbn. unfold pool_insert.
    destruct (decide (peer = id)) as [<-|Hne]; [by left|]. rewrite lookup_insert_ne by done. by right.
  - cbn. rewrite lookup_delete_is_Some. intros [Hne Hs]. by split.
  - apply pool_sub_alter.
  - apply identify_sub.
  - done.
  - by destruct peer.
Qed.

End governor.

(** ** Notices *)

Definition notices (peer : NodeId) (events : list SwarmEvent2) : list bool := told peer (OEvent <$> events).

Lemma notices_app peer l l' : notices peer (l ++ l') = notices peer l ++ notices peer l'.
Proof. unfold notices. by rewrite fmap_app, told_app. Qed.

Lemma notices_events_of peer out : notices peer (events_of out) = told peer out.
Proof. unfold notices, told, events_of. induction out as [|[] out IH]; try done. cbn in *. by rewrite IH. Qed.

Lemma alternates_app u l v l' w : alternates u l v -> alternates v l' w -> alternates u (l ++ l') w.
Proof. revert u. induction l as [|b l IH]; intros u; cbn; [by intros ->|]. intros [-> Hl] Hl'. eauto. Qed.

Definition connections (n : Node) (peer : NodeId) : Z := default 0 (nd_conns n !! peer).

(** The notices under way lead from what the governor task last heard of a peer to
    libp2p's connections, and only peers it heard to be connected are in the pool. *)
Record links (n : Node) : Prop := {
  lk_counts : forall peer, 0 <= connections n peer;
  lk_heard : exists up : NodeId -> bool,
    (forall peer, is_Some (nd_pool n !! peer) -> up peer = true)
    /\ forall peer, alternates (up peer) (notices peer (nd_events n)) (0 <? connections n peer);
}.

Lemma links_sub n n' :
  nd_conns n' = nd_conns n -> nd_events n' = nd_events n -> pool_sub (nd_pool n) (nd_pool n') -> links n -> links n'.
Proof.
  intros Hc He Hp [H1 (up & Hu & Ha)]. unfold connections in *. split; [intros peer; unfold connections; by rewrite Hc|].
  exists up. unfold connections. rewrite He, Hc. split; [eauto|done].
Qed.

(** The next event is heard. *)
Lemma links_heard n r e rest :
  nd_events n = e :: rest ->
  (forall id, is_Some (gt_pool r.1 !! id) ->
     match e with
     | PeerConnected peer _ => id = peer \/ is_Some (nd_pool n !! id)
     | PeerDisconnected peer => id <> peer /\ is_Some (nd_pool n !! id)
     | _ => is_Some (nd_pool n !! id)
     end) ->
  links n -> links (put_gov r (set_events rest n)).
Proof.
  intros He Hg [H1 (up & Hu & Ha)]. split; [done|].
  exists (fun id => match e with
    | PeerConnected peer _ => String.eqb peer id || up id
    | PeerDisconnected peer => negb (String.eqb peer id) && up id
    | _ => up id end). split.
  - intros id Hid%Hg. destruct e as [peer a|peer| | | |]; try by apply Hu.
    + destruct Hid as [->|Hid]; [by rewrite String.eqb_refl|]. by rewrite (Hu id), orb_true_r.
    + destruct Hid as [Hne Hid]. rewrite (Hu id) by done. by destruct (String.eqb_spec peer id).
  - intros id. specialize (Ha id). rewrite He in Ha. change (e :: rest) with ([e] ++ rest) in Ha. rewrite notices_app in Ha.
    destruct e as [peer a|peer| | | |]; [| |exact Ha..]; cbn in Ha; destruct (String.eqb_spec peer id) as [->|Hne]; cbn in *;
      [by destruct Ha|exact Ha|by destruct Ha|exact Ha].
Qed.

(** A connection notice that is next finds its peer outside the pool. *)
Lemma links_fresh n peer a rest : nd_events n = PeerConnected peer a :: rest -> links n -> nd_pool n !! peer = None.
Proof.
  intros He [_ (up & Hu & Ha)]. specialize (Ha peer). rewrite He in Ha. unfold notices, told in Ha. cbn in Ha.
  rewrite String.eqb_refl in Ha. destruct Ha as [Hup _]. destruct (nd_pool n !! peer) eqn:E; [|done].
  rewrite Hu in Hup; [done|by rewrite E].
Qed.

Lemma count_trace peer e c c' :
  count_connections e c = Some c' -> (forall p, 0 <= default 0 (c !! p)) ->
  conn_trace peer (default 0 (c !! peer)) [e] (default 0 (c' !! peer)) /\ 0 <= default 0 (c' !! peer).
Proof.
  intros Hc Hn. specialize (Hn peer) as Hp.
  assert (forall e', (forall a k, e' <> EvConnected peer a k) -> (forall k, e' <> EvClosed peer k) ->
    conn_trace peer (default 0 (c !! peer)) [e'] (default 0 (c !! peer))) as Hother.
  { intros e' H1 H2. apply ct_other; [done..|constructor]. }
  destruct e as [p a k|p k| | | | | |]; cbn in Hc;
    try (injection Hc as <-; split; [apply Hother; congruence|done]).
  - destruct (Z.eqb_spec k (default 0 (c !! p) + 1)) as [->|]; [|done]. injection Hc as <-.
    destruct (decide (p = peer)) as [->|Hne].
    + rewrite lookup_insert_eq. cbn. split; [repeat constructor|lia].
    + rewrite lookup_insert_ne by done. split; [apply Hother; congruence|done].
  - destruct (Z.ltb_spec 0 (default 0 (c !! p))); [|done]. cbn in Hc.
    destruct (Z.eqb_spec k (default 0 (c !! p) - 1)) as [->|]; [|done]. injection Hc as <-.
    destruct (decide (p = peer)) as [->|Hne].
    + rewrite lookup_insert_eq. cbn. split; [apply ct_close; [done|constructor]|lia].
    + rewrite lookup_insert_ne by done. split; [apply Hother; congruence|done].
Qed.

Lemma links_network `{Crypto} `{NodeIdentity} `{HashIter} env entity role rx addr_text e conns n :
  count_connections e (nd_conns n) = Some conns -> links n ->
  links (put_swarm (handle_event env entity role rx addr_text e (swarm_view n)) (set_conns conns n)).
Proof.
  intros Hc [Hn (up & Hu & Ha)]. unfold connections in *. split; unfold connections; cbn [put_swarm set_conns nd_conns nd_events].
  - intros peer. by apply (count_trace peer e (nd_conns n)).
  - exists up. split; [done|]. intros peer. rewrite notices_app, notices_events_of. eapply alternates_app; [apply Ha|].
    destruct (count_trace peer e (nd_conns n) conns Hc Hn) as [Ht _].
    destruct (run_events_told env entity role rx addr_text peer [e] (swarm_view n) [] _ _ (Hn peer) Ht) as (l & Hl & Hal).
    cbn [foldl] in Hl. unfold connections. destruct (handle_event _ _ _ _ _ e (swarm_view n)) as [s' o]. cbn [snd app] in Hl |- *.
    by rewrite Hl.
Qed.

(** ** Every step *)

(** The invariant of a node: that of the API on the shared state. *)
Definition node_wf `{Crypto} `{HashIter} (addr_text : Multiaddr -> string) (i : string * string * string) (n : Node) : Prop :=
  app_wf i (app_view addr_text n).

Section every_step.
Context `{CR : Crypto} `{NI : NodeIdentity} `{HI : HashIter} `{WF : WireFormats}.
Context (st : Setting).

Abbreviation nwf := (node_wf (st_addr_text st)) (only parsing).

Lemma node_wf_iff i n :
  nwf i n <-> identity (nd_app n) = i /\ db_wf (nd_db n) /\ NoDup (nd_groups n)
              /\ forall c, bootstrap_sync (nd_app n) = Some c -> channel_ok c.
Proof.
  unfold node_wf, app_view. destruct (peer_count_by_state _) as [warm hot]. split.
  - intros [Hi Hd Hg Hb]. split_and!; [done|done|by apply Hg|done].
  - intros (Hi & Hd & Hg & Hb). split; [done|done|by intros gs [= <-]|done].
Qed.

Lemma repl_arm_wf i arm n n' :
  (forall s, repl_wf db_wf (fun _ => True) s -> repl_wf db_wf (fun _ => True) (arm s).1) -> repl_arm arm n = Some n' -> nwf i n -> nwf i n'.
Proof.
  intros Harm. unfold repl_arm. destruct (nd_round n); [done|]. intros [= <-].
  rewrite !node_wf_iff. intros (Hi & Hd & Hg & Hb). split_and!; try done. by apply (Harm (update_gauges (repl_view n))).
Qed.

Lemma put_progress_wf i p n : db_wf (rt_db (pg_repl p)) -> nwf i n -> nwf i (put_progress p n).
Proof. rewrite !node_wf_iff. by intros Hp (Hi & _ & Hg & Hb). Qed.

Lemma round_arm_wf i arm n n' :
  (forall s, repl_wf db_wf (fun _ => True) s -> repl_wf db_wf (fun _ => True) (pg_repl (arm s))) -> round_arm arm n = Some n' -> nwf i n -> nwf i n'.
Proof.
  intros Harm. unfold round_arm. destruct (nd_round n); [done|]. intros [= <-] Hn. apply put_progress_wf; [|done].
  apply node_wf_iff in Hn as (_ & Hd & _). by apply (Harm (update_gauges (repl_view n))).
Qed.

(** Only the channels of the task are closed when it panics. *)
Lemma settle_cases p n : settle_channels p n = n \/ settle_channels p n = set_app (hang_up (nd_app n)) n.
Proof. unfold settle_channels. destruct (pg_round p) as [r|]; [|by left]. destruct (is_gone r); [by right|by left]. Qed.

(** Whatever the round waits for, it goes on with a state in order. *)
Lemma resume_inv env draw n n' :
  resume st env draw n = Some n' ->
  exists p, n' = put_progress p (settle_channels p n) /\ forall Q, repl_wf db_wf Q (repl_view n) -> repl_wf db_wf Q (pg_repl p).
Proof.
  unfold resume, answered. destruct (nd_round n) as [r|]; [|done]. destruct (nd_reply n) as [a|]; [|done].
  intros (p & Hp & ->)%fmap_Some_1. exists p. split; [done|]. intros Q Hs.
  destruct (rd_waiting r), a as [[]|]; try done; apply Some_inj in Hp; subst p; (by apply on_headers_wf) || (by apply on_items_wf; [apply tame_wf|intros; apply admits_wf|]).
Qed.

Lemma set_app_wf i app n :
  identity app = identity (nd_app n) -> bootstrap_sync app = bootstrap_sync (nd_app n) \/
    (exists c, bootstrap_sync app = Some c /\ (forall c0, bootstrap_sync (nd_app n) = Some c0 -> channel_ok c0 -> channel_ok c)
               /\ is_Some (bootstrap_sync (nd_app n))) ->
  nwf i n -> nwf i (set_app app n).
Proof.
  rewrite !node_wf_iff. cbn. intros -> Hb' (Hi & Hd & Hg & Hb). split_and!; try done. intros c Hc.
  destruct Hb' as [Hb'|(c' & Hc' & Hok & [c0 Hc0])]; [rewrite Hb' in Hc; by apply Hb|].
  rewrite Hc' in Hc. injection Hc as <-. by eapply Hok, Hb.
Qed.

Lemma recv_write_wf i n w app : recv_write (nd_app n) = Some (w, app) -> nwf i n -> nwf i (set_app app n).
Proof.
  unfold recv_write. destruct (write_notify (nd_app n)) as [[r [|w' ws]]|]; [done| |done]. intros [= -> <-].
  apply set_app_wf; [done|by left].
Qed.

Lemma recv_bootstrap_wf i n gid app : recv_bootstrap (nd_app n) = Some (gid, app) -> nwf i n -> nwf i (set_app app n).
Proof.
  unfold recv_bootstrap. destruct (bootstrap_sync (nd_app n)) as [[c b [|g q]]|] eqn:E; [done| |done]. intros [= -> <-].
  apply set_app_wf; [done|]. right. eexists. split; [done|]. rewrite E. split; [|by eexists].
  intros c0 [= <-]. unfold channel_ok. cbn. lia.
Qed.

Lemma lose_writes_wf i n app : lose_writes (nd_app n) = Some app -> nwf i n -> nwf i (set_app app n).
Proof.
  unfold lose_writes. destruct (write_notify (nd_app n)) as [c|]; [|done]. intros (l & _ & ->)%fmap_Some_1.
  apply set_app_wf; [done|by left].
Qed.

Lemma settle_wf i p n : nwf i n -> nwf i (settle_channels p n).
Proof.
  intros Hn. destruct (settle_cases p n) as [->| ->]; [done|]. apply set_app_wf; [done| |done]. cbn.
  destruct (bootstrap_sync (nd_app n)) as [c|]; [right|by left]. eexists. split; [done|]. split; [|by eexists].
  intros c0 _ _. unfold channel_ok. cbn. lia.
Qed.

Lemma swarm_view_wf i n : nwf i n -> swarm_wf db_wf (swarm_view n).
Proof. rewrite node_wf_iff. by intros (_ & Hd & Hg & _). Qed.

Lemma put_swarm_wf i r n : swarm_wf db_wf r.1 -> nwf i n -> nwf i (put_swarm r n).
Proof. intros [Hd Hg]. rewrite !node_wf_iff. by intros (Hi & _ & _ & Hb). Qed.

Lemma put_gov_wf i r n : nwf i n -> nwf i (put_gov r n).
Proof. by rewrite !node_wf_iff. Qed.

(** Every step keeps the store, the groups, the channel and the identity in order. *)
Lemma step_wf i l n n' : step st l n = Some n' -> nwf i n -> nwf i n'.
Proof.
  intros Hs Hn. destruct l; cbn [step] in Hs.
  - injection Hs as <-. apply (router_wf i (st_fts_match st) env now h req) in Hn as Hr.
    destruct (router _ _ _ _ _ _) as [s r]. destruct Hr as [Hi Hd Hg Hb]. apply node_wf_iff. cbn. split_and!; [done..| |done].
    cbn in Hg. destruct (shared_groups s); [by apply Hg|apply NoDup_nil_2].
  - destruct (nd_cmds n); [done|]. injection Hs as <-. apply put_swarm_wf; [|exact Hn].
    eapply (handle_command_wf _ tame_wf), swarm_view_wf, Hn.
  - destruct (count_connections _ _); [|done]. injection Hs as <-. apply put_swarm_wf; [|exact Hn].
    eapply (handle_event_wf _ tame_wf); [intros; apply admits_wf|eapply swarm_view_wf, Hn].
  - destruct (nd_events n); [done|]. injection Hs as <-. by apply put_gov_wf.
  - destruct (drop_old _); [|done]. by injection Hs as <-.
  - injection Hs as <-. by apply put_gov_wf.
  - injection Hs as <-. by apply put_gov_wf.
  - injection Hs as <-. by apply put_gov_wf.
  - injection Hs as <-. by apply put_gov_wf.
  - injection Hs as <-. by apply put_gov_wf.
  - injection Hs as <-. by apply put_gov_wf.
  - destruct (recv_write (nd_app n)) as [[w app]|] eqn:E; [|done].
    eapply repl_arm_wf; [|exact Hs|exact (recv_write_wf i n w app E Hn)]. intros s Hw. cbn [fst]. by apply write_notification_wf.
  - destruct (lose_writes (nd_app n)) eqn:E; [|done]. injection Hs as <-. by eapply lose_writes_wf.
  - eapply repl_arm_wf; [|exact Hs|done]. intros s Hw. by apply flush_wf.
  - eapply repl_arm_wf; [|exact Hs|done]. intros s Hw. by apply retry_wf.
  - eapply round_arm_wf; [|exact Hs|done]. intros s Hw. by apply start_tick_wf.
  - destruct (recv_bootstrap (nd_app n)) as [[gid app]|] eqn:E; [|done].
    eapply round_arm_wf; [|exact Hs|exact (recv_bootstrap_wf i n gid app E Hn)]. intros s Hw. by apply start_bootstrap_wf.
  - apply resume_inv in Hs as (p & -> & Hp). apply put_progress_wf; [|by apply settle_wf]. apply node_wf_iff in Hn as (_ & Hd & _).
    by apply (Hp (fun _ => True)).
  - eapply repl_arm_wf; [|exact Hs|done]. intros s Hw. cbn [fst]. by apply gc_wf; [apply tame_wf|].
Qed.

Definition node_ok (n : Node) : Prop := task_in_step (nd_gov n) /\ links n.

(** What is asked of the environment: the governor task does not lag behind the
    swarm's events, and a connection to an address that was dialled for an entry
    finds the entry still there and not connected. *)
Definition permitted (l : Label) (n : Node) : Prop :=
  match l with
  | LEventsLost => False
  | LEvent _ _ => match nd_events n with PeerConnected _ a :: _ => dial_current (nd_gov n) a | _ => True end
  | _ => True
  end.

Lemma ok_same n n' :
  nd_gov n' = nd_gov n -> nd_conns n' = nd_conns n -> nd_events n' = nd_events n -> node_ok n -> node_ok n'.
Proof.
  intros Hg Hc He [Ht Hl]. split; [by rewrite Hg|]. eapply (links_sub n); [done|done| |done]. intros id. unfold nd_pool. by rewrite Hg.
Qed.

Lemma command_events env entity rid cmd s : events_of (handle_command env entity rid cmd s).2 = [].
Proof.
  destruct cmd as [| | | | | |peer req tx]; try done. cbn [handle_command]. destruct (gx_descriptors req); [done|].
  by destruct (build_descriptors env entity (sw_db s)).
Qed.

(** Deliveries of the replication task leave the pool in step. *)
Lemma repl_ok n n' s s' :
  (forall Q, (forall id k p, Q p -> Q (pool_record_items_delivered id k p)) -> repl_wf db_wf Q s -> repl_wf db_wf Q s') ->
  rt_db s = nd_db n -> rt_pool s = nd_pool n ->
  nd_gov n' = gt_set_pool (rt_pool s') (nd_gov n) -> nd_conns n' = nd_conns n -> nd_events n' = nd_events n ->
  db_wf (nd_db n) -> node_ok n -> node_ok n'.
Proof.
  intros Hk Hd0 Hp0 Hg Hc He Hd (Ht & Hl).
  destruct (Hk (fun p => in_step p (gt_gov (nd_gov n)) /\ pool_sub (nd_pool n) p)) as (_ & Ht' & Hp').
  { intros id j p [Hi Hs]. split; [by apply in_step_pool|]. intros x Hx. by eapply Hs, pool_sub_alter. }
  { split; [by rewrite Hd0|]. rewrite Hp0. split; [exact Ht|by intros id]. }
  split; [by rewrite Hg|]. eapply (links_sub n); [done|done| |done]. unfold nd_pool at 2. rewrite Hg. exact Hp'.
Qed.

Lemma repl_arm_ok arm n n' :
  (forall Q s, (forall id k p, Q p -> Q (pool_record_items_delivered id k p)) -> repl_wf db_wf Q s -> repl_wf db_wf Q (arm s).1) ->
  repl_arm arm n = Some n' -> db_wf (nd_db n) -> node_ok n -> node_ok n'.
Proof.
  intros Harm. unfold repl_arm. destruct (nd_round n); [done|]. intros [= <-].
  apply (repl_ok n _ (update_gauges (repl_view n)) (arm (update_gauges (repl_view n))).1); auto.
Qed.

Lemma round_arm_ok arm n n' :
  (forall Q s, repl_wf db_wf Q s -> repl_wf db_wf Q (pg_repl (arm s))) -> round_arm arm n = Some n' -> db_wf (nd_db n) -> node_ok n -> node_ok n'.
Proof.
  intros Harm. unfold round_arm. destruct (nd_round n); [done|]. intros [= <-].
  apply (repl_ok n _ (update_gauges (repl_view n)) (pg_repl (arm (update_gauges (repl_view n))))); auto.
Qed.

Lemma gov_ok r n : task_step (st_placeholder_id st) (nd_gov n) r.1 -> pool_sub (nd_pool n) (gt_pool r.1) -> node_ok n -> node_ok (put_gov r n).
Proof. intros Hs Hp (Ht & Hl). split; [by eapply task_step_in_step|by eapply (links_sub n)]. Qed.

Lemma event_ok now tx e rest n :
  nd_events n = e :: rest -> match e with PeerConnected _ a => dial_current (nd_gov n) a | _ => True end ->
  node_ok n -> node_ok (put_gov (on_event now (nd_groups n) tx e (nd_gov n)) (set_events rest n)).
Proof.
  intros He Hc (Ht & Hl). split.
  - cbn [put_gov nd_gov set_events]. destruct e; cbn [on_event fst]; [| | | |done|]; (eapply (task_step_in_step (st_placeholder_id st)); [|exact Ht]).
    + apply ts_connected; [by eapply links_fresh|done].
    + apply ts_disconnected.
    + apply ts_ping.
    + apply ts_identify.
    + apply ts_dial_failure.
  - eapply links_heard; [done| |done]. intros id Hid. exact (event_sub _ _ _ _ _ _ Hid).
Qed.

Lemma step_ok i l n n' : permitted l n -> step st l n = Some n' -> nwf i n -> node_ok n -> node_ok n'.
Proof.
  intros Hp Hs (_ & Hd & _)%node_wf_iff Hok. pose proof Hok as (Ht & Hl).
  destruct l; cbn [step] in Hs; try (injection Hs as <-).
  - by eapply (ok_same n).
  - destruct (nd_cmds n); [done|]. injection Hs as <-. split; [exact Ht|]. eapply (links_sub n); [done| |by intros id|done].
    cbn [put_swarm nd_events set_cmds]. by rewrite command_events, app_nil_r.
  - destruct (count_connections _ _) eqn:E; [|done]. injection Hs as <-. split; [exact Ht|]. by apply links_network.
  - cbn [permitted] in Hp. destruct (nd_events n) as [|e rest] eqn:E; [done|]. injection Hs as <-. apply event_ok; [done| |done].
    by destruct e.
  - done.
  - apply gov_ok; [apply ts_tick|apply tick_sub|done].
  - apply gov_ok; [apply ts_groups|apply pool_sub_alter|done].
  - apply gov_ok; [apply ts_register|by intros id|done].
  - apply gov_ok; [apply ts_learn| |done]. intros id. cbn [fst].
    unfold exchange_learn, nd_pool. destruct (gt_learned (nd_gov n)); [|done]. by destruct (negb peer_is_relay).
  - by eapply (ok_same n).
  - apply gov_ok; [apply ts_discover|by intros id|done].
  - destruct (recv_write (nd_app n)) as [[w app]|]; [|done]. eapply repl_arm_ok; [|exact Hs|exact Hd|by eapply (ok_same n)].
    intros Q s HQ Hw. cbn [fst]. by apply write_notification_wf.
  - destruct (lose_writes _); [|done]. injection Hs as <-. by eapply (ok_same n).
  - eapply repl_arm_ok; [|exact Hs|exact Hd|done]. intros Q s HQ Hw. by apply flush_wf.
  - eapply repl_arm_ok; [|exact Hs|exact Hd|done]. intros Q s HQ Hw. by apply retry_wf.
  - eapply round_arm_ok; [|exact Hs|exact Hd|done]. intros Q s Hw. by apply start_tick_wf.
  - destruct (recv_bootstrap (nd_app n)) as [[gid app]|]; [|done]. eapply round_arm_ok; [|exact Hs|exact Hd|by eapply (ok_same n)].
    intros Q s Hw. by apply start_bootstrap_wf.
  - apply resume_inv in Hs as (p & -> & Hp'). destruct (settle_cases p n) as [->| ->]; apply (repl_ok n _ (repl_view n) (pg_repl p)); auto.
  - eapply repl_arm_ok; [|exact Hs|exact Hd|done]. intros Q s HQ Hw. cbn [fst]. by apply gc_wf; [apply tame_wf|].
Qed.

(** The permitted runs. *)
Fixpoint orderly (ls : list Label) (n : Node) : Prop :=
  match ls with
  | [] => True
  | l :: ls => permitted l n /\ orderly ls (default n (step st l n))
  end.

Lemma run_ok i ls n : orderly ls n -> nwf i n -> node_ok n -> node_ok (run st ls n).
Proof.
  unfold run. revert n. induction ls as [|l ls IH]; intros n Ho Hn Hok; [done|]. destruct Ho as [Hp Ho]. cbn [foldl].
  destruct (step st l n) eqn:E; cbn [default] in *; [|by apply IH].
  apply IH; [done|by eapply step_wf|by eapply step_ok].
Qed.

Lemma run_wf i ls n : nwf i n -> nwf i (run st ls n).
Proof.
  unfold run. revert n. induction ls as [|l ls IH]; intros n Hn; [done|]. cbn [foldl]. apply IH.
  destruct (step st l n) eqn:E; [by eapply step_wf|done].
Qed.

End every_step.

Lemma first_node_wf `{Crypto} `{HashIter} `{KeyLib} st i :
  app_wf (identity (ni_app i)) (ni_app i) -> node_wf (st_addr_text st) (identity (ni_app i)) (first_node i).
Proof.
  intros [Hi Hd Hg Hb]. apply node_wf_iff. split_and!; [done|done| |done].
  cbn. unfold current_groups. destruct (shared_groups (ni_app i)); [by apply Hg|apply NoDup_nil_2].
Qed.

(** ** Groups that were only heard of *)

(** Known groups stay known. *)
Definition rows_kept (d d' : Db) : Prop :=
  lock_poisoned d' = lock_poisoned d /\ forall gid, is_Some (groups_t d !! gid) -> is_Some (groups_t d' !! gid).

Lemma rows_kept_refl d : rows_kept d d.
Proof. by split. Qed.

Lemma rows_kept_trans d1 d2 d3 : rows_kept d1 d2 -> rows_kept d2 d3 -> rows_kept d1 d3.
Proof. intros [L1 H1] [L2 H2]. split; [congruence|auto]. Qed.

Lemma sign_rows_kept env id o pk sg d : rows_kept d (write_group_signature env id o pk sg d).1.
Proof.
  unfold write_group_signature, bind, db_lock. destruct (lock_poisoned d) eqn:E; [apply rows_kept_refl|]. unfold stmt.
  destruct (fault env _); [apply rows_kept_refl|]. split; [done|]. intros gid. cbn.
  destruct (decide (id = gid)) as [<-|Hne]; [rewrite lookup_alter_eq; intros Hs; by apply fmap_is_Some|by rewrite lookup_alter_ne].
Qed.

Lemma build_rows_kept `{Crypto} `{NodeIdentity} `{HashIter} env entity d : rows_kept d (build_descriptors env entity d).1.
Proof.
  unfold build_descriptors.
  assert ((list_groups env d).1 = d) as Hl by (unfold list_groups; apply read_only_bind; auto with cordelia).
  destruct (list_groups env d) as [d1 [gs|e]]; cbn in Hl; subst d1; [|apply rows_kept_refl].
  case_bool_decide; [apply rows_kept_refl|].
  match goal with |- context [foldl ?f _ gs] => set (F := f) end.
  assert (forall g d acc, rows_kept d (F (d, acc) g).1) as HF.
  { intros g d0 acc. unfold F, build_one. match goal with |- context [if ?b then _ else _] => destruct b end;
      [apply sign_rows_kept|apply rows_kept_refl]. }
  clearbody F. assert (forall gs d acc, rows_kept d (foldl F (d, acc) gs).1) as Hall.
  { clear - HF. induction gs as [|g gs IH]; intros d acc; [apply rows_kept_refl|]. cbn [foldl].
    specialize (HF g d acc). destruct (F (d, acc) g) as [d' acc']. by eapply rows_kept_trans. }
  specialize (Hall gs d []). by destruct (foldl F (d, []) gs).
Qed.

Lemma upserted_rows_kept `{Crypto} env desc d d' : merge_one env desc d = (d', Upserted) -> rows_kept d d'.
Proof.
  unfold merge_one. do 4 (match goal with |- context [if ?b then (d, Skipped) else _] => destruct b end; [done|]).
  match goal with |- context [let '(_, _) := ?p in _] => destruct p as [[] name] end; [done|].
  destruct (write_group env _ _ _ _ d) as [d1 [u|e]] eqn:Hw; [|done]. apply write_group_inv in Hw as [_ Hd1].
  destruct (is_tombstone desc); [done|]. intros [= <-]. apply (rows_kept_trans d d1).
  - subst d1. split; [done|]. intros gid. cbn. apply is_Some_insert.
  - unfold persist_signature. repeat (case_match; try apply rows_kept_refl). apply sign_rows_kept.
Qed.

(** ** Theorems *)

(** [C6] Integrity of the whole node: started on a database in order, a node keeps
    it in order whatever requests, network events, commands, ticks, exchanges,
    retries, syncs and collections follow, in any order, with any failing
    statements, dishonest peers and lost notifications: the database satisfies
    its keys, constraints and references with correct checksums, the list of
    groups has no duplicates, the bootstrap channel is within its capacity, and
    identifier, entity and token stay what they were. *)
Theorem node_integrity `{Crypto} `{NodeIdentity} `{HashIter} `{WireFormats} `{KL : KeyLib} base58
    st w c f f' i ls :
  db_wf (f_db f) -> run_node base58 w c f = (f', Ok i) ->
  let n := run st ls (first_node i) in
  db_wf (nd_db n) /\ NoDup (nd_groups n) /\ identity (nd_app n) = identity (ni_app i)
  /\ forall ch, bootstrap_sync (nd_app n) = Some ch -> (length (mp_queue ch) <= mp_capacity ch)%nat.
Proof.
  intros Hd Hrun n. pose proof (first_node_wf st _ (start_app_wf _ _ _ _ _ _ Hd Hrun)) as Hw.
  apply (run_wf st _ ls) in Hw. apply node_wf_iff in Hw as (Hi & Hd' & Hg & Hb). by split_and!.
Qed.

(** [C14] The pool of a running node agrees with its governor: in every state that a
    started node reaches by an orderly run, however its tasks interleave, the pool that pushes,
    forwarding and syncs use holds exactly the peers that the governor has as
    connected, in the same state; and once the governor task has heard all
    events, every peer in the pool has a connection.  Orderly means: libp2p
    numbers connections as documented, the governor task does not lag more than
    256 events behind, and a connection to an address dialled for an entry finds
    that entry present and Cold.  Without the last the statement is false: a dial
    that failed or whose entry is gone stays in the table of pending dials
    ([stale_dial_hides_peer]). *)
Theorem node_pool_in_step `{Crypto} `{NodeIdentity} `{HashIter} `{WireFormats} `{KL : KeyLib} base58
    st w c f f' i ls :
  db_wf (f_db f) -> run_node base58 w c f = (f', Ok i) -> orderly st ls (first_node i) ->
  let n := run st ls (first_node i) in
  (forall id, match nd_pool n !! id, Governor.peers (gt_gov (nd_gov n)) !! id with
              | Some h, Some p => ph_state h = state p /\ is_active (state p) = true
              | None, Some p => is_active (state p) = false
              | Some _, None => False
              | None, None => True
              end)
  /\ (nd_events n = [] -> forall id, is_Some (nd_pool n !! id) -> 0 < connections n id).
Proof.
  intros Hd Hrun Ho n. pose proof (first_node_wf st _ (start_app_wf _ _ _ _ _ _ Hd Hrun)) as Hw.
  assert (node_ok (first_node i)) as Hok.
  { apply run_node_ok in Hrun as (id & token & d & [_ _ _ _ (? & ? & ? & _ & ->)]). split; [apply start_in_step|].
    split; [done|]. exists (fun _ => false). split; [|done]. intros peer. cbn. unfold nd_pool, assemble, start. cbn.
    destruct (foldl _ _ _) as [[? ?] ?]. cbn. by intros [? ?]. }
  destruct (run_ok st _ ls _ Ho Hw Hok) as [Ht [Hc (up & Hu & Ha)]]. split; [by apply in_step_agrees|].
  intros He id Hid. specialize (Ha id). fold n in Ha. rewrite He in Ha. cbn in Ha. rewrite (Hu id Hid) in Ha.
  by apply Z.ltb_lt.
Qed.

(** [C40] A restart joins every group that was only heard of: a descriptor that a peer
    sends in a group exchange, and that the merge applies, does not enter the
    node's groups, so items of the group are refused; but it is in the store,
    and a later start takes every stored group for one of the node's own, after
    which the node replicates the group and accepts its items from anyone. *)
Theorem restart_joins_heard_group `{Crypto} `{NodeIdentity} `{HashIter} `{WireFormats} `{KL : KeyLib} base58 st i
    env readable peer theirs desc ch n n' w c f f' ini :
  node_wf (st_addr_text st) i n -> sqlite_up env (nd_db n) -> (gd_id desc ∉ nd_groups n) ->
  (merge_one env desc (nd_db n)).2 = Upserted ->
  step st (LNetwork env readable (EvBehaviour
    (BExchangeRequest peer {| gx_groups := theirs; gx_descriptors := Some [desc] |} ch))) n = Some n' ->
  f_db f = nd_db n' -> no_fault (w_env w) -> run_node base58 w c f = (f', Ok ini) ->
  accepts (nd_groups n') None (gd_id desc) = false
  /\ (gd_id desc ∈ our_groups (ni_governor ini))
  /\ accepts (current_groups (ni_app ini)) None (gd_id desc) = true.
Proof.
  intros Hw Hup Hnew Hm Hs Hf Hfault Hrun. pose proof (step_wf st i _ _ _ Hs Hw) as (_ & Hdb & _)%node_wf_iff.
  cbn [step count_connections handle_event handle_behaviour_event] in Hs. unfold on_exchange_request, merge_offered in Hs.
  cbn [gx_descriptors] in Hs.
  destruct (merge_one env desc (nd_db n)) as [d1 ms] eqn:Hmerge. cbn [snd] in Hm. subst ms.
  pose proof (upserted_rows_kept env desc _ _ Hmerge) as [Hl1 _].
  destruct (merge_one_inv env desc _ _ _ (proj2 Hup _) (proj1 Hup) Hmerge) as [_ Hinv].
  destruct Hinv as (_ & _ & _ & row & Hrow & _); [done|].
  assert (merge_descriptors env [desc] (nd_db n) = (d1, {| mr_upserted := [gd_id desc]; mr_tombstoned := [] |})) as Hmd.
  { unfold merge_descriptors. cbn [foldl]. by rewrite Hmerge. }
  cbn [sw_db swarm_view] in Hs. rewrite Hmd in Hs. pose proof (build_rows_kept env (st_entity_id st) d1) as [Hl2 Hk].
  destruct (build_descriptors env (st_entity_id st) d1) as [d2 descs]. cbn [fst] in Hl2, Hk.
  destruct (Hk (gd_id desc)) as [row2 Hrow2]; [by eexists|]. injection Hs as <-. cbn in Hf, Hdb.
  destruct (start_loads_groups base58 w c f f' ini (gd_id desc) row2) as (Hin & Hgov & _);
    [by rewrite Hf|rewrite Hf, Hl2, Hl1; apply Hup|done|done|by rewrite Hf|].
  split_and!; [by apply contains_false|done|by apply contains_true].
Qed.

(** ** Examples *)

Definition ex_setting : Setting := {|
  st_role := Keeper; st_entity_id := "vault"; st_relay := initial_relay_ctx keeper_config;
  st_engine := {| re_config := repl_config keeper_config; re_entity_id := "vault" |};
  st_parse_culture := fun _ => None; st_placeholder_id := fun a => a; st_addr_text := fun _ => EmptyString;
  st_fts_match := fun _ _ _ => Ok [] |}.

(** A peer connects and is heard of, an item is written and announced, the governor
    ticks and the buffer is flushed, and the second connection of the peer comes
    and goes. *)
Definition ex_labels : list Label :=
  [ LNetwork ex_env true (EvConnected "p" [] 1); LEvent 5 (fun _ => 0);
    LApi ex_env 6 (cli_headers "abc123") (RL2Write (ex_write "i9" "g")); LWrite ex_env "2027-01-01T00:00:00Z";
    LTick {| at_unban := 7; at_reap := 7; at_cold := 7; at_hot := 7; at_demote := 7; at_churn := 7 |} 7 (fun _ => None) (fun _ => 1);
    LNetwork ex_env true (EvConnected "p" [] 2); LFlush 8 true; LNetwork ex_env true (EvClosed "p" 1); LCommand ex_env 1 ].

Abbreviation ex_run ls := (@run toy_crypto toy_identity sorted_iter toy_wire ex_setting ls (first_node ex_init)) (only parsing).

Lemma node_integrity_witness : ex_started = (ex_files1, Ok ex_init) /\ @db_wf toy_crypto (nd_db (ex_run ex_labels)).
Proof.
  split; [exact ex_started_eq|].
  exact (proj1 (@node_integrity toy_crypto toy_identity sorted_iter toy_wire toy_keys _ ex_setting _ _ (ex_files ex_db) _ _ ex_labels
    (aw_db _ _ ex_app_wf) ex_started_eq)).
Defined.

Lemma node_pool_in_step_witness :
  ex_started = (ex_files1, Ok ex_init) /\ nd_events (ex_run ex_labels) = [] /\ is_Some (nd_pool (ex_run ex_labels) !! "p"%string)
  /\ 0 < connections (ex_run ex_labels) "p".
Proof.
  split; [exact ex_started_eq|].
  assert (nd_events (ex_run ex_labels) = []) as He by (vm_compute; reflexivity).
  assert (is_Some (nd_pool (ex_run ex_labels) !! "p"%string)) as Hp by (vm_compute; eexists; reflexivity).
  split; [exact He|]. split; [exact Hp|].
  apply (@node_pool_in_step toy_crypto toy_identity sorted_iter toy_wire toy_keys _ ex_setting _ _ (ex_files ex_db) _ _ ex_labels
    (aw_db _ _ ex_app_wf) ex_started_eq); [vm_compute; repeat split|assumption..].
Defined.

(** An unsigned descriptor of a group that the node does not know. *)
Definition ex_heard : GroupDescriptor := {|
  gd_id := "x"; gd_culture := "chatty"; gd_updated_at := "2027"; gd_checksum := @compute_checksum toy_crypto "x" "chatty";
  gd_owner_id := None; gd_owner_pubkey := None; gd_signature := None |}.

Definition ex_exchange : Label :=
  LNetwork ex_env true (EvBehaviour (BExchangeRequest "p" {| gx_groups := []; gx_descriptors := Some [ex_heard] |} 1)).

Abbreviation ex_heard_step := (@step toy_crypto toy_identity sorted_iter toy_wire ex_setting ex_exchange (first_node ex_init)) (only parsing).

(** The node after the exchange. *)
Definition ex_heard_node : Node := default (first_node ex_init) ex_heard_step.

Lemma ex_heard_step_eq : ex_heard_step = Some ex_heard_node.
Proof. reflexivity. Qed.

Lemma ex_rejoined_ok : is_ok (ex_start ex_world2 keeper_config (ex_files (nd_db ex_heard_node))).2 = true.
Proof. vm_compute. reflexivity. Qed.

Lemma restart_joins_heard_group_witness :
  ex_heard_step = Some ex_heard_node
  /\ exists f2 i2, ex_start ex_world2 keeper_config (ex_files (nd_db ex_heard_node)) = (f2, Ok i2)
    /\ accepts (nd_groups ex_heard_node) None "x" = false /\ accepts (current_groups (ni_app i2)) None "x" = true.
Proof.
  split; [exact ex_heard_step_eq|]. pose proof (pair_ok _ ex_rejoined_ok) as E2. eexists _, _. split; [exact E2|].
  refine (let H := @restart_joins_heard_group toy_crypto toy_identity sorted_iter toy_wire toy_keys _ ex_setting
    (identity (ni_app ex_init)) _ _ _ _ ex_heard _ _ _ _ _ _ _ _ _ _ _ _ ex_heard_step_eq _ _ E2 in
    conj (proj1 H) (proj2 (proj2 H))).
  - apply (@first_node_wf toy_crypto sorted_iter toy_keys ex_setting).
    exact (@start_app_wf toy_crypto sorted_iter toy_keys _ _ _ (ex_files ex_db) _ _ (aw_db _ _ ex_app_wf) ex_started_eq).
  - split; [vm_compute; reflexivity|intros name; reflexivity].
  - apply contains_false. vm_compute. reflexivity.
  - vm_compute. reflexivity.
  - reflexivity.
  - intros name. reflexivity.
Defined.
