(* ===== verification/NodeRounds.v ===== *)
(** * No round of a node waits for nothing

    While the replication task waits in a sync round none of its other arms is
    served, so a lost answer would stop pushes, retries and all later rounds.
    In every state that a started node reaches, the request of the waiting round
    is in the command queue, outstanding at libp2p, or answered by an answer of
    the right kind; and libp2p's report on an outstanding request, be it a
    response or a failure, lets the round go on ([waiting_round_goes_on]). *)

From S2P Require Import Prelude Float64 Protocol Governor Storage StorageProps Search Json Envelope ItemStore Replication.
From S2P Require Import PeerPool Config SwarmTask SwarmProps ReplicationTask SyncRound Api ApiProps GovernorTask GovernorTaskProps.
From S2P Require Import Startup StartupProps Node NodeProps.

(** ** Channels *)

(** The response channel of a round's request; [fetch]: a fetch request. *)
Definition chan_of (fetch : bool) (c : SwarmCommand) : option Chan :=
  match fetch, c with
  | false, CmdSync _ _ tx => Some tx
  | true, CmdFetch _ _ tx => Some tx
  | _, _ => None
  end.

(** That of a request of the governor task. *)
Definition other_chan (c : SwarmCommand) : option Chan :=
  match c with
  | CmdPeerShare _ _ tx | CmdGroupExchange _ _ tx => Some tx
  | _ => None
  end.

Definition pending_of (fetch : bool) (s : Swarm) : gmap ReqId Chan := if fetch then pending_fetch s else pending_sync s.

Definition wants_items (r : Round) : bool := match rd_waiting r with ForItems _ _ _ => true | _ => false end.

(** An answer that a round can use. *)
Definition fits (fetch : bool) (a : result Response string) : bool :=
  match fetch, a with
  | _, Err _ => true
  | false, Ok (RsSync _) => true
  | true, Ok (RsFetch _) => true
  | _, _ => false
  end.

Definition outstanding (fetch : bool) (ch : Chan) (n : Node) : Prop :=
  (exists c, c ∈ nd_cmds n /\ chan_of fetch c = Some ch) \/ (exists rid, pending_of fetch (nd_swarm n) !! rid = Some ch).

(** The channels in use: those of rounds are odd and were made before, those of the
    governor task are even; the channel of the waiting round belongs to a request
    of the kind it waits for.  A round in which the task panicked has no request. *)
Record channels_ok (n : Node) : Prop := {
  ch_round : forall fetch ch, outstanding fetch ch n ->
    Z.odd ch = true /\ ch < round_chan n /\ (forall r, nd_round n = Some r -> rd_chan r = ch -> wants_items r = fetch /\ is_gone r = false);
  ch_other : forall ch,
    (exists c, c ∈ nd_cmds n /\ other_chan c = Some ch) \/ (exists rid, pending_peer_share (nd_swarm n) !! rid = Some ch)
    \/ (exists rid, pending_group_exchange (nd_swarm n) !! rid = Some ch) -> Z.odd ch = false;
  ch_waiting : forall r, nd_round n = Some r -> Z.odd (rd_chan r) = true;
  ch_alive : forall r, nd_round n = Some r -> is_gone r = false -> outstanding (wants_items r) (rd_chan r) n \/ is_Some (nd_reply n);
  ch_fits : forall r a, nd_round n = Some r -> nd_reply n = Some a -> is_gone r = false /\ fits (wants_items r) a = true;
}.

(** ** Steps that only send *)

(** Commands that are not requests of a round. *)
Definition quiet (c : SwarmCommand) : Prop :=
  (forall fetch, chan_of fetch c = None) /\ (forall ch, other_chan c = Some ch -> Z.odd ch = false).

Lemma sends_quietly n n' more :
  nd_cmds n' = nd_cmds n ++ more -> Forall quiet more -> nd_swarm n' = nd_swarm n -> nd_round n' = nd_round n ->
  nd_reply n' = nd_reply n -> nd_chans n' = nd_chans n -> channels_ok n -> channels_ok n'.
Proof.
  intros Hc Hq Hs Hr Ha Hk [H1 H2 H3 H4 H5]. rewrite Forall_forall in Hq.
  assert (forall fetch ch, outstanding fetch ch n' <-> outstanding fetch ch n) as Ho.
  { intros fetch ch. unfold outstanding. rewrite Hc, Hs. split; (intros [(c & Hin & He)|?]; [|by right]); left; exists c; (split; [|done]).
    - apply elem_of_app in Hin as [|Hin]; [done|]. apply Hq in Hin as [Hn _]. by rewrite Hn in He.
    - apply elem_of_app. by left. }
  unfold round_chan in *. split; unfold round_chan; rewrite ?Hr, ?Ha, ?Hk, ?Hs.
  - intros fetch ch Hout%Ho. by apply H1.
  - intros ch [(c & Hin & He)|?]; [|by apply H2; right]. rewrite Hc in Hin. apply elem_of_app in Hin as [Hin|Hin].
    + apply H2. left. eauto.
    + by eapply Hq.
  - exact H3.
  - intros r Hn Hg. rewrite Ho. by apply H4.
  - exact H5.
Qed.

(** The commands of the governor task: dials, disconnects, exchanges and discovery. *)
Definition governing (c : SwarmCommand) : Prop := quiet c /\ match c with CmdPush _ _ => False | _ => True end.

Lemma governing_quiet l : Forall governing l -> Forall quiet l.
Proof. intros Hl. eapply Forall_impl; [exact Hl|]. by intros c []. Qed.

Lemma governs_even tx peer c :
  other_chan c = Some (gov_chan tx peer) -> (forall fetch, chan_of fetch c = None) -> governing c.
Proof.
  intros Hc Hn. split; [|by destruct c]. split; [done|]. intros ch. rewrite Hc. intros [= <-]. unfold gov_chan. by rewrite Z.odd_mul.
Qed.

Lemma governs_dial addr : governing (CmdDial addr).
Proof. repeat split; [by intros []|done]. Qed.

Lemma governs_disconnect peer : governing (CmdDisconnect peer).
Proof. repeat split; [by intros []|done]. Qed.

Lemma governs_exchange peer req tx p : governing (CmdGroupExchange peer req (gov_chan tx p)).
Proof. apply (governs_even tx p); [done|by intros []]. Qed.

Lemma dials_govern ids s : Forall governing (dial_promoted ids s).2.
Proof.
  unfold dial_promoted. assert (Forall governing (@nil SwarmCommand)) as H0 by constructor. revert H0.
  generalize (@nil SwarmCommand) as out. revert s. induction ids as [|id ids IH]; intros s out Hout; [done|]. cbn [foldl].
  unfold dial_step at 2. destruct (_ ≫= _); apply IH; [|done]. apply Forall_app. split; [done|]. constructor; [apply governs_dial|constructor].
Qed.

Lemma tick_governs `{HashIter} ph c now shared resolve tx s : Forall governing (on_tick ph c now shared resolve (gov_chan tx) s).1.2.
Proof.
  unfold on_tick. destruct (tick _ _) as [g actions]. destruct (apply_governor_actions _ _) as [pool gone].
  pose proof (dials_govern (connect actions) (gt_set_pool pool (gt_set_gov g s))) as Hd. destruct (dial_promoted _ _) as [s1 dials].
  cbn [fst snd] in *. repeat (apply Forall_app; split); [|done|..].
  - apply Forall_fmap, Forall_true. intros p. apply governs_disconnect.
  - unfold redial_bootnodes. case_match; [|constructor]. apply Forall_fmap, Forall_true. intros p. apply governs_dial.
  - unfold periodic_exchange. case_match; [|constructor]. apply Forall_fmap, Forall_true. intros p. apply governs_exchange.
Qed.

Lemma event_governs `{HashIter} now shared tx e s : Forall governing (on_event now shared (gov_chan tx) e s).2.
Proof.
  destruct e; try constructor. cbn [on_event]. unfold on_connected. destruct (take_pending _ _). constructor; [apply governs_exchange|constructor].
Qed.

Lemma discover_governs `{HashIter} shuffle tx s : Forall governing (discover_requests shuffle (gov_chan tx) s).
Proof. apply Forall_fmap, Forall_true. intros h. apply (governs_even tx (ph_node_id h)); [done|by intros []]. Qed.

Lemma batches_quiet open peers batches s : Forall quiet (send_batches open peers batches s).2.
Proof.
  unfold send_batches. match goal with |- context [foldl ?f (s, []) batches] => set (F := f) end.
  assert (forall b s out, Forall quiet out -> Forall quiet (F (s, out) b).2) as HF.
  { intros b. unfold F. clear F s. induction peers as [|p ps IH]; intros s out Hs; [done|]. cbn [foldl].
    destruct open; apply IH; [|done]. apply Forall_app. split; [done|]. repeat constructor; [by intros []|done]. }
  clearbody F. assert (Forall quiet (@nil SwarmCommand)) as H0 by constructor. revert H0.
  generalize (@nil SwarmCommand) as out. revert s. induction batches as [|b bs IH]; intros s out Hs; [done|].
  cbn [foldl]. specialize (HF b s out Hs). destruct (F (s, out) b) as [s' out']. by apply IH.
Qed.

Lemma flush_quiet `{HashIter} now open s : Forall quiet (on_flush now open s).2.
Proof.
  unfold on_flush. assert (Forall quiet (@nil SwarmCommand)) as H0 by constructor. revert H0.
  generalize (rt_set_buffer ∅ s) as s0, (@nil SwarmCommand) as out.
  induction (hash_iter (write_buffer s)) as [|gi l IH]; intros s0 out Hs; [done|]. cbn [foldl].
  assert (Forall quiet (flush_group now open gi.1 gi.2 s0).2) as Hf.
  { unfold flush_group. case_bool_decide; [constructor|]. case_bool_decide; [constructor|].
    pose proof (batches_quiet open (active_peers_for_group_or_relays gi.1 (rt_pool s0)) (split_into_batches gi.2) s0) as Hb.
    by destruct (send_batches _ _ _ _). }
  destruct (flush_group _ _ _ _ _) as [s1 o]. apply IH. by apply Forall_app.
Qed.

Lemma retry_quiet `{HashIter} now open s : Forall quiet (on_retry now open s).2.
Proof.
  unfold on_retry. assert (Forall quiet (foldl (retry_step now open) (s, [], []) (pending_pushes s)).1.2) as Hr.
  { assert (Forall quiet (@nil SwarmCommand)) as H0 by constructor. revert H0.
    generalize (@nil SwarmCommand) as out, (@nil PendingPush) as keep. generalize (pending_pushes s) as l.
    intros l. revert s. induction l as [|p l IH]; intros s out keep Hs; [done|]. cbn [foldl].
    assert (Forall quiet (retry_step now open (s, out, keep) p).1.2) as Hp.
    { unfold retry_step, retry_one. destruct (now <? pp_next_at p); [done|]. case_bool_decide.
      - destruct (_ <=? _); cbn; by rewrite app_nil_r.
      - pose proof (batches_quiet open (active_peers_for_group_or_relays (pp_group_id p) (rt_pool s))
          (split_into_batches (pp_items p)) s) as Hb.
        destruct (send_batches _ _ _ _) as [s1 o]. destruct (_ <=? _); by apply Forall_app. }
    destruct (retry_step now open (s, out, keep) p) as [[s1 o1] k1]. by apply IH. }
  destruct (foldl _ _ _) as [[s1 o1] k1]. exact Hr.
Qed.

(** ** Steps of a round *)

(** The task waits on the channel of the one request it just sent, or not at all; it sends
    nothing when it panics. *)
Definition asks (tx : Chan) (p : Progress) : Prop :=
  match pg_round p with
  | None => pg_cmds p = []
  | Some r => rd_chan r = tx /\ if is_gone r then pg_cmds p = [] else exists c, pg_cmds p = [c] /\ chan_of (wants_items r) c = Some tx
  end.

Section asks.
Context `{CR : Crypto} `{HI : HashIter}.
Context (parse_culture : string -> option GroupCulture) (env : SqlEnv) (eng : ReplicationEngine) (tx : Chan) (draw : string -> nat).

Lemma next_group_asks now is_relay groups todo s : asks tx (next_group parse_culture env eng tx draw now is_relay groups todo s).
Proof.
  revert s. induction todo as [|gid rest IH]; intros s; [done|]. cbn [next_group]. destruct (not_yet_due now s gid); [apply IH|].
  destruct (schedule_group _ _ _ _ _ _) as [s1 since]. destruct (choose_partner _ _ _ _); [|apply IH]. split; [done|by eexists].
Qed.

Lemma ask_next_asks r latest todo c s : asks tx (ask_next parse_culture env eng tx draw r latest todo c s).
Proof. destruct todo; [apply next_group_asks|]. split; [done|by eexists]. Qed.

Lemma on_headers_asks r a s : asks tx (on_headers parse_culture env eng tx draw r a s).
Proof.
  destruct a; cbn [on_headers]; try apply next_group_asks. destruct (list_group_items _ _ _ _ _).2; [|apply next_group_asks].
  case_bool_decide; [apply next_group_asks|]. destruct (chunks _ _); [apply ask_next_asks|done].
Qed.

Lemma on_items_asks r latest more c a s : asks tx (on_items parse_culture env eng tx draw r latest more c a s).
Proof. destruct a; cbn [on_items]; try apply next_group_asks. destruct (foldl _ _ _). apply ask_next_asks. Qed.

Lemma start_bootstrap_asks is_relay shared gid s : asks tx (start_bootstrap eng tx draw is_relay shared gid s).
Proof. unfold start_bootstrap. destruct (choose_partner _ _ _ _); [|done]. split; [done|by eexists]. Qed.

End asks.

Lemma chan_of_kind fetch fetch' c ch ch' : chan_of fetch c = Some ch -> chan_of fetch' c = Some ch' -> fetch = fetch' /\ ch = ch'.
Proof. destruct fetch, fetch', c; try done; intros [= ->] [= ->]; done. Qed.

(** Every request that is sent belongs to the round that waits. *)
Lemma asks_sent tx p c :
  asks tx p -> c ∈ pg_cmds p -> exists r, pg_round p = Some r /\ is_gone r = false /\ pg_cmds p = [c] /\ chan_of (wants_items r) c = Some tx.
Proof.
  unfold asks. intros Hp Hin. destruct (pg_round p) as [r|]; [|rewrite Hp in Hin; by apply elem_of_nil in Hin].
  destruct Hp as [_ Hp]. destruct (is_gone r) eqn:Eg; [rewrite Hp in Hin; by apply elem_of_nil in Hin|].
  destruct Hp as (c' & Hcs & Hc'). rewrite Hcs in Hin. apply list_elem_of_singleton in Hin as ->. by exists r.
Qed.

Lemma put_progress_channels p n : asks (round_chan n) p -> channels_ok n -> channels_ok (put_progress p n).
Proof.
  intros Hp [H1 H2 H3 H4 H5].
  assert (round_chan (put_progress p n) = round_chan n + 2) as Hk by (unfold round_chan; cbn; lia).
  assert (Z.odd (round_chan n) = true) as Hodd by (unfold round_chan; by rewrite Z.odd_add, Z.odd_mul).
  assert (forall fetch ch, outstanding fetch ch (put_progress p n) -> outstanding fetch ch n
    \/ (exists r, pg_round p = Some r /\ wants_items r = fetch /\ is_gone r = false /\ ch = round_chan n)) as Ho.
  { intros fetch ch [(c & Hin & Hc)|Hpen]; [|by left; right]. cbn in Hin. apply elem_of_app in Hin as [Hin|Hin]; [left; left; eauto|].
    destruct (asks_sent _ _ _ Hp Hin) as (r & Hr & Hg & _ & Hc'). destruct (chan_of_kind _ _ _ _ _ Hc' Hc) as [<- <-]. right. eauto. }
  split; rewrite ?Hk.
  - intros fetch ch Hout. destruct (Ho _ _ Hout) as [Hold|(r & Hr & Hw & Hg & ->)].
    + destruct (H1 _ _ Hold) as (Hod & Hlt & _). split_and!; [done|lia|]. intros r Hr Hch. cbn in Hr. unfold asks in Hp. rewrite Hr in Hp. lia.
    + split_and!; [done|lia|]. intros r' Hr' _. cbn in Hr'. rewrite Hr in Hr'. by injection Hr' as <-.
  - intros ch [(c & Hin & Hc)|Hpen]; [|by apply H2; right]. cbn in Hin. apply elem_of_app in Hin as [Hin|Hin]; [apply H2; left; eauto|].
    destruct (asks_sent _ _ _ Hp Hin) as (r & _ & _ & _ & Hc'). by destruct (wants_items r), c.
  - intros r Hr. cbn in Hr. unfold asks in Hp. rewrite Hr in Hp. by destruct Hp as [-> _].
  - intros r Hr Hg. cbn in Hr. unfold asks in Hp. rewrite Hr, Hg in Hp. destruct Hp as (-> & c & Hcs & Hc). left. left. exists c.
    split; [|done]. cbn. rewrite Hcs. apply elem_of_app. right. by left.
  - done.
Qed.

(** ** Steps of the swarm task *)

Definition replies (out : list Output) : list (Chan * result Response string) :=
  omap (fun o => match o with OReply tx a => Some (tx, a) | _ => None end) out.

Lemma take_reply_replies r out reply :
  take_reply (Some r) out reply = foldl (fun reply ta => if ta.1 =? rd_chan r then Some ta.2 else reply) reply (replies out).
Proof. unfold take_reply. revert reply. induction out as [|[] out IH]; intros reply; cbn; auto. Qed.

Lemma take_reply_none round out reply : replies out = [] -> take_reply round out reply = reply.
Proof. destruct round as [r|]; [|done]. intros H. by rewrite take_reply_replies, H. Qed.

Inductive Kind := KShare | KSync | KFetch | KExchange.

#[export] Instance Kind_eq_dec : EqDecision Kind.
Proof. solve_decision. Defined.

Definition kind_pending (k : Kind) (s : Swarm) : gmap ReqId Chan :=
  match k with
  | KShare => pending_peer_share s
  | KSync => pending_sync s
  | KFetch => pending_fetch s
  | KExchange => pending_group_exchange s
  end.

(** What libp2p reports on an outbound request. *)
Definition report (e : NetEvent) : option (Kind * ReqId * result Response string) :=
  match e with
  | EvBehaviour e =>
      match e with
      | BShareResponse rid peers => Some (KShare, rid, Ok (RsPeerShare peers))
      | BShareFailure rid error => Some (KShare, rid, Err error)
      | BSyncResponse rid r => Some (KSync, rid, Ok (RsSync r))
      | BSyncFailure rid error => Some (KSync, rid, Err error)
      | BFetchResponse rid r => Some (KFetch, rid, Ok (RsFetch r))
      | BFetchFailure rid error => Some (KFetch, rid, Err error)
      | BExchangeResponse rid r => Some (KExchange, rid, Ok (RsGroupExchange r))
      | BExchangeFailure rid error => Some (KExchange, rid, Err error)
      | _ => None
      end
  | _ => None
  end.

(** What an event does to the outstanding requests and which answers it hands on. *)
Lemma event_pending `{Crypto} `{NodeIdentity} `{HashIter} env entity role rx addr_text e s :
  let r := handle_event env entity role rx addr_text e s in
  match report e with
  | None => (forall k, kind_pending k r.1 = kind_pending k s) /\ replies r.2 = []
  | Some (k, rid, a) =>
      (forall k', kind_pending k' r.1 = if decide (k' = k) then delete rid (kind_pending k s) else kind_pending k' s)
      /\ replies r.2 = match kind_pending k s !! rid with Some tx => [(tx, a)] | None => [] end
  end.
Proof.
  destruct e as [peer a k|peer k|peer|addr|req ch|peer req ch|b|]; cbn [report handle_event].
  1,2: by case_match.
  1,2,3: done.
  - unfold handle_push. destruct (handle_push_request _ _ _ _ _) as [d ack]. cbn. split; [by intros []|].
    by induction (forward_peers rx ack peer (sw_pool s)).
  - destruct b; cbn [handle_behaviour_event report]; unfold on_exchange_request, on_exchange_response, merge_offered, complete;
      repeat match goal with |- context [match ?x with Some descs => merge_descriptors _ _ _ | None => _ end] => destruct x end;
      repeat match goal with
      | |- context [merge_descriptors ?a ?b ?c] => destruct (merge_descriptors a b c)
      | |- context [build_descriptors ?a ?b ?c] => destruct (build_descriptors a b c)
      end; cbn;
      (split; [by intros []|]); by repeat match goal with |- context [match ?x with Some _ => _ | None => _ end] => destruct x end.
  - by split.
Qed.

Lemma command_pending `{Crypto} `{NodeIdentity} `{HashIter} env entity rid c s :
  let r := handle_command env entity rid c s in
  (forall fetch, pending_of fetch r.1 = match chan_of fetch c with Some tx => <[rid := tx]> (pending_of fetch s) | None => pending_of fetch s end)
  /\ (forall ch, (exists i, pending_peer_share r.1 !! i = Some ch) \/ (exists i, pending_group_exchange r.1 !! i = Some ch) ->
        other_chan c = Some ch \/ (exists i, pending_peer_share s !! i = Some ch) \/ (exists i, pending_group_exchange s !! i = Some ch))
  /\ replies r.2 = [].
Proof.
  assert (forall (m : gmap ReqId Chan) (P : Chan -> Prop) tx ch, (exists i, <[rid := tx]> m !! i = Some ch) ->
    Some tx = Some ch \/ exists i, m !! i = Some ch) as Hi.
  { intros m P tx ch [i Hi]. destruct (decide (rid = i)) as [->|Hne]; [rewrite lookup_insert_eq in Hi; by left|].
    rewrite lookup_insert_ne in Hi by done. right. eauto. }
  destruct c as [| |peer req tx|peer req tx|peer req tx| |peer req tx]; cbn [handle_command]; try (split_and!; [by intros []|by auto|done]).
  - split_and!; [by intros []| |done]. intros ch [Hc|Hc]; [|by auto]. apply (Hi _ (fun _ => True)) in Hc as [[= <-]|]; auto.
  - destruct (match gx_descriptors req with None => _ | Some _ => _ end) as [d req']. cbn. split_and!; [by intros []| |done].
    intros ch [Hc|Hc]; [by auto|]. apply (Hi _ (fun _ => True)) in Hc as [[= <-]|]; auto.
Qed.

Lemma command_channels env entity rid c rest n `{Crypto} `{NodeIdentity} `{HashIter} :
  nd_cmds n = c :: rest -> (forall fetch, pending_of fetch (nd_swarm n) !! rid = None) ->
  channels_ok n -> channels_ok (put_swarm (handle_command env entity rid c (swarm_view n)) (set_cmds rest n)).
Proof.
  intros Hc Hfresh [K1 K2 K3 K4 K5]. destruct (command_pending env entity rid c (swarm_view n)) as (Hp & Hother & Hrep).
  set (r := handle_command env entity rid c (swarm_view n)) in *.
  assert (forall fetch ch, outstanding fetch ch (put_swarm r (set_cmds rest n)) <-> outstanding fetch ch n) as Ho.
  { intros fetch ch. unfold outstanding. rewrite Hc. cbn [put_swarm nd_cmds nd_swarm set_cmds]. rewrite Hp.
    change (pending_of fetch (swarm_view n)) with (pending_of fetch (nd_swarm n)). split.
    - intros [(c' & Hin & He)|[i Hi]]; [left; exists c'; split; [by right|done]|].
      destruct (chan_of fetch c) as [tx|] eqn:E; [|right; eauto]. destruct (decide (rid = i)) as [->|Hne].
      + rewrite lookup_insert_eq in Hi. left. exists c. split; [left|congruence].
      + rewrite lookup_insert_ne in Hi by done. right. eauto.
    - intros [(c' & [->|Hin]%elem_of_cons & He)|[i Hi]].
      + right. rewrite He. exists rid. by rewrite lookup_insert_eq.
      + left. eauto.
      + right. exists i. destruct (chan_of fetch c); [|done]. rewrite lookup_insert_ne; [done|]. intros ->. by rewrite Hfresh in Hi. }
  split; cbn [put_swarm nd_round nd_reply nd_chans set_cmds]; rewrite ?(take_reply_none _ _ _ Hrep).
  - intros fetch ch Hout%Ho. by apply K1.
  - intros ch [(c' & Hin & He)|Hpen]; apply K2; [left; exists c'; rewrite Hc; split; [by right|done]|].
    destruct (Hother ch Hpen) as [He|Hold]; [left; exists c; rewrite Hc; split; [left|done]|by right].
  - exact K3.
  - intros x Hx Hg. rewrite Ho. by apply K4.
  - exact K5.
Qed.

(** The kind of requests whose answer a waiting round gets. *)
Definition kind_of (fetch : bool) : Kind := if fetch then KFetch else KSync.

Lemma pending_of_kind fetch s : pending_of fetch s = kind_pending (kind_of fetch) s.
Proof. by destruct fetch. Qed.

Lemma report_fits e fetch rid a : report e = Some (kind_of fetch, rid, a) -> fits fetch a = true.
Proof. destruct fetch, e as [| | | | | |[]|]; try done; by intros [= <- <-]. Qed.

Lemma event_channels env entity role rx addr_text e conns n `{Crypto} `{NodeIdentity} `{HashIter} :
  channels_ok n -> channels_ok (put_swarm (handle_event env entity role rx addr_text e (swarm_view n)) (set_conns conns n)).
Proof.
  intros Hok. pose proof Hok as [K1 K2 K3 K4 K5]. pose proof (event_pending env entity role rx addr_text e (swarm_view n)) as He.
  set (r := handle_event env entity role rx addr_text e (swarm_view n)) in *. cbv zeta in He.
  assert (forall k i ch, kind_pending k r.1 !! i = Some ch -> kind_pending k (nd_swarm n) !! i = Some ch) as Hsub.
  { intros k i ch. destruct (report e) as [[[k' rid] a]|].
    - destruct He as [-> _]. destruct (decide (k = k')) as [->|]; [|by destruct k]. rewrite lookup_delete_Some. intros [_ ?]. by destruct k'.
    - destruct He as [-> _]. by destruct k. }
  split; cbn [put_swarm nd_round nd_reply nd_chans set_conns].
  - intros fetch ch Hout. apply K1. destruct Hout as [Hc|[i Hi]]; [by left|right]. exists i. rewrite pending_of_kind in *. by apply Hsub.
  - intros ch [Hc|[[i Hi]|[i Hi]]]; apply K2; [by left|right; left|right; right]; exists i.
    + by apply (Hsub KShare).
    + by apply (Hsub KExchange).
  - exact K3.
  - intros x Hx Hg. rewrite Hx, take_reply_replies. destruct (K4 x Hx Hg) as [Hout|[a Ha]].
    + destruct Hout as [Hc|[i Hi]]; [by left; left|]. rewrite pending_of_kind in Hi.
      destruct (report e) as [[[k rid] a]|]; destruct He as [Hk Hrep].
      * destruct (decide (kind_of (wants_items x) = k)) as [Hkk|Hne].
        -- destruct (decide (rid = i)) as [->|Hni].
           ++ right. rewrite Hrep, <- Hkk. change (kind_pending _ (swarm_view n)) with (kind_pending (kind_of (wants_items x)) (swarm_view n)).
              replace (kind_pending (kind_of (wants_items x)) (swarm_view n) !! i) with (Some (rd_chan x)) by (by destruct (wants_items x)).
              cbn. rewrite Z.eqb_refl. by eexists.
           ++ left. right. exists i. rewrite pending_of_kind. cbn. rewrite Hk, decide_True by done. rewrite lookup_delete_ne by done.
              rewrite <- Hkk. by destruct (wants_items x).
        -- left. right. exists i. rewrite pending_of_kind. cbn. rewrite Hk, decide_False by done. by destruct (wants_items x).
      * left. right. exists i. rewrite pending_of_kind. cbn. rewrite Hk. by destruct (wants_items x).
    + right. rewrite Ha. generalize (replies r.2) as l. assert (is_Some (Some a)) as Hs by done. revert Hs. generalize (Some a) as o.
      intros o Ho l. revert o Ho. induction l as [|ta l IH]; intros o Ho; [done|]. cbn. apply IH. by destruct (ta.1 =? rd_chan x).
  - intros x a Hx. rewrite Hx, take_reply_replies. destruct (report e) as [[[k rid] a']|] eqn:Er; destruct He as [Hk Hrep];
      rewrite Hrep; [|by apply K5].
    destruct (kind_pending k (swarm_view n) !! rid) as [tx|] eqn:Htx; [|by apply K5]. cbn [foldl fst snd].
    destruct (Z.eqb_spec tx (rd_chan x)) as [->|_]; [|by apply K5]. intros [= <-].
    specialize (K3 x Hx). destruct k.
    + rewrite (K2 (rd_chan x)) in K3; [done|]. right; left. by exists rid.
    + destruct (K1 false (rd_chan x)) as (_ & _ & Hw); [right; by exists rid|]. destruct (Hw x Hx eq_refl) as [-> Hg]. split; [done|]. by apply (report_fits e false rid).
    + destruct (K1 true (rd_chan x)) as (_ & _ & Hw); [right; by exists rid|]. destruct (Hw x Hx eq_refl) as [-> Hg]. split; [done|]. by apply (report_fits e true rid).
    + rewrite (K2 (rd_chan x)) in K3; [done|]. right; right. by exists rid.
Qed.

(** ** Every step *)

Section every_step.
Context `{CR : Crypto} `{NI : NodeIdentity} `{HI : HashIter} `{WF : WireFormats}.
Context (st : Setting).

(** libp2p gives every request an identifier that no outstanding one has. *)
Definition fresh_request (l : Label) (n : Node) : Prop :=
  match l with
  | LCommand _ rid => forall fetch, pending_of fetch (nd_swarm n) !! rid = None
  | _ => True
  end.

Lemma keeps_channels n n' :
  nd_cmds n' = nd_cmds n -> nd_swarm n' = nd_swarm n -> nd_round n' = nd_round n ->
  nd_reply n' = nd_reply n -> nd_chans n' = nd_chans n -> channels_ok n -> channels_ok n'.
Proof. intros Hc. apply (sends_quietly n n' []); [by rewrite app_nil_r|constructor]. Qed.

Lemma repl_arm_channels arm n n' :
  (forall s, Forall quiet (arm s).2) -> repl_arm arm n = Some n' -> channels_ok n -> channels_ok n'.
Proof.
  intros Harm. unfold repl_arm. destruct (nd_round n) eqn:E; [done|]. intros [= <-].
  by apply (sends_quietly n _ (arm (update_gauges (repl_view n))).2).
Qed.

Lemma round_arm_channels arm n n' :
  (forall s, asks (round_chan n) (arm s)) -> round_arm arm n = Some n' -> channels_ok n -> channels_ok n'.
Proof. intros Harm. unfold round_arm. destruct (nd_round n); [done|]. intros [= <-]. by apply put_progress_channels. Qed.

Lemma step_channels l n n' : fresh_request l n -> step st l n = Some n' -> channels_ok n -> channels_ok n'.
Proof.
  intros Hf Hs Hok. destruct l; cbn [step] in Hs.
  - injection Hs as <-. by apply (keeps_channels n).
  - destruct (nd_cmds n) as [|c rest] eqn:E; [done|]. injection Hs as <-. by apply command_channels.
  - destruct (count_connections _ _); [|done]. injection Hs as <-. by apply event_channels.
  - destruct (nd_events n) as [|e rest]; [done|]. injection Hs as <-. by eapply (sends_quietly n); [reflexivity|apply governing_quiet, event_governs|..].
  - destruct (drop_old _); [|done]. injection Hs as <-. by apply (keeps_channels n).
  - injection Hs as <-. by eapply (sends_quietly n); [reflexivity|apply governing_quiet, tick_governs|..].
  - injection Hs as <-. by eapply (sends_quietly n); [reflexivity|constructor|..].
  - injection Hs as <-. by eapply (sends_quietly n); [reflexivity|constructor|..].
  - injection Hs as <-. by eapply (sends_quietly n); [reflexivity|constructor|..].
  - injection Hs as <-. by eapply (sends_quietly n); [reflexivity|apply governing_quiet, discover_governs|..].
  - injection Hs as <-. by eapply (sends_quietly n); [reflexivity|constructor|..].
  - destruct (recv_write (nd_app n)) as [[w app]|]; [|done]. eapply repl_arm_channels; [|exact Hs|by apply (keeps_channels n)]. constructor.
  - destruct (lose_writes _); [|done]. injection Hs as <-. by apply (keeps_channels n).
  - eapply repl_arm_channels; [|exact Hs|done]. intros s. apply flush_quiet.
  - eapply repl_arm_channels; [|exact Hs|done]. intros s. apply retry_quiet.
  - eapply round_arm_channels; [|exact Hs|done]. intros s. apply next_group_asks.
  - destruct (recv_bootstrap (nd_app n)) as [[gid app]|]; [|done].
    eapply round_arm_channels; [|exact Hs|by apply (keeps_channels n)]. intros s. apply start_bootstrap_asks.
  - unfold resume, answered in Hs. destruct (nd_round n) as [r|]; [|done]. destruct (nd_reply n) as [a|]; [|done].
    apply fmap_Some_1 in Hs as (p & Hp & ->). assert (channels_ok (settle_channels p n)) as Hok'.
    { destruct (settle_cases p n) as [->| ->]; [done|by apply (keeps_channels n)]. }
    apply put_progress_channels; [|done]. assert (round_chan (settle_channels p n) = round_chan n) as -> by (by destruct (settle_cases p n) as [->| ->]).
    destruct (rd_waiting r), a as [[]|]; try done; apply Some_inj in Hp; subst p; apply on_headers_asks || apply on_items_asks.
  - eapply repl_arm_channels; [|exact Hs|done]. constructor.
Qed.

(** Runs in which libp2p numbers requests as it does. *)
Fixpoint numbered (ls : list Label) (n : Node) : Prop :=
  match ls with
  | [] => True
  | l :: ls => fresh_request l n /\ numbered ls (default n (step st l n))
  end.

Lemma run_channels ls n : numbered ls n -> channels_ok n -> channels_ok (run st ls n).
Proof.
  unfold run. revert n. induction ls as [|l ls IH]; intros n Ho Hok; [done|]. destruct Ho as [Hf Ho]. cbn [foldl].
  destruct (step st l n) eqn:E; cbn [default] in *; apply IH; [done|by eapply step_channels|done..].
Qed.

Lemma resume_defined n r a :
  nd_round n = Some r -> nd_reply n = Some a -> is_gone r = false /\ fits (wants_items r) a = true ->
  forall env draw, is_Some (step st (LResume env draw) n).
Proof.
  intros Hr Ha [Hg Hf] env draw. cbn [step]. unfold resume, answered. rewrite Hr, Ha. apply fmap_is_Some. unfold wants_items in Hf. unfold is_gone in Hg.
  destruct (rd_waiting r), a as [[]|]; try done; by eexists.
Qed.

Lemma no_reply_stuck env draw n : nd_reply n = None -> ~ is_Some (step st (LResume env draw) n).
Proof. intros Hn. cbn [step]. unfold resume, answered. rewrite Hn. destruct (nd_round n); by intros []. Qed.

Lemma first_channels i : channels_ok (first_node i).
Proof.
  split; try done; cbn.
  - intros fetch ch [(c & Hin & _)|[rid Hrid]]; [by apply elem_of_nil in Hin|]. by destruct fetch.
  - intros ch [(c & Hin & _)|[[rid Hrid]|[rid Hrid]]]; [by apply elem_of_nil in Hin|done..].
Qed.

End every_step.

(** ** Panics *)

Section panics.
Context `{CR : Crypto} `{NI : NodeIdentity} `{HI : HashIter} `{WF : WireFormats}.
Context (st : Setting).

(** The task panics only when its batch size is zero. *)
Definition panic_reason (round : option Round) : Prop :=
  forall r, round = Some r -> is_gone r = true -> engine_max_batch_size (st_engine st) <= 0.

Section pieces.
Context (parse_culture : string -> option GroupCulture) (env : SqlEnv) (tx : Chan) (draw : string -> nat).

Lemma next_group_reason now is_relay groups todo s :
  panic_reason (pg_round (next_group parse_culture env (st_engine st) tx draw now is_relay groups todo s)).
Proof.
  revert s. induction todo as [|gid rest IH]; intros s; [done|]. cbn [next_group]. destruct (not_yet_due now s gid); [apply IH|].
  destruct (schedule_group _ _ _ _ _ _) as [s1 since]. destruct (choose_partner _ _ _ _); [by intros r [= <-]|apply IH].
Qed.

Lemma ask_next_reason r latest todo c s : panic_reason (pg_round (ask_next parse_culture env (st_engine st) tx draw r latest todo c s)).
Proof. destruct todo; [apply next_group_reason|by intros r' [= <-]]. Qed.

Lemma on_headers_reason r a s : panic_reason (pg_round (on_headers parse_culture env (st_engine st) tx draw r a s)).
Proof.
  destruct a; cbn [on_headers]; try apply next_group_reason. destruct (list_group_items _ _ _ _ _).2; [|apply next_group_reason].
  case_bool_decide; [apply next_group_reason|]. destruct (chunks _ _) eqn:E; [apply ask_next_reason|]. intros _ _ _.
  unfold chunks in E. destruct (Z.to_nat _) eqn:En; [lia|done].
Qed.

Lemma on_items_reason r latest more c a s : panic_reason (pg_round (on_items parse_culture env (st_engine st) tx draw r latest more c a s)).
Proof. destruct a; cbn [on_items]; try apply next_group_reason. destruct (foldl _ _ _). apply ask_next_reason. Qed.

Lemma start_bootstrap_reason is_relay shared gid s : panic_reason (pg_round (start_bootstrap (st_engine st) tx draw is_relay shared gid s)).
Proof. unfold start_bootstrap. destruct (choose_partner _ _ _ _); [by intros r [= <-]|done]. Qed.

End pieces.

(** A round changes only when the replication task begins or goes on with one. *)
Lemma step_round l n n' :
  step st l n = Some n' ->
  nd_round n' = nd_round n
  \/ panic_reason (nd_round n') /\ (nd_round n = None \/ exists r a, nd_round n = Some r /\ nd_reply n = Some a /\ is_gone r = false).
Proof.
  intros Hs. destruct l; cbn [step] in Hs; try (injection Hs as <-; by left); unfold repl_arm, round_arm in Hs.
  all: try (by repeat (case_match; simplify_eq/=; try done; try (left; congruence))).
  - apply fmap_Some_1 in Hs as (x & _ & ->). by left.
  - apply fmap_Some_1 in Hs as (x & _ & ->). by left.
  - destruct (nd_round n) eqn:E; [done|]. injection Hs as <-. right. split; [apply next_group_reason|by left].
  - destruct (recv_bootstrap _) as [[gid app]|]; [|done]. cbn [nd_round set_app] in Hs. destruct (nd_round n) eqn:E; [done|].
    injection Hs as <-. right. split; [apply start_bootstrap_reason|by left].
  - unfold resume, answered in Hs. destruct (nd_round n) as [r|] eqn:Er; [|done]. destruct (nd_reply n) as [a|]; [|done].
    apply fmap_Some_1 in Hs as (p & Hp & ->). right. cbn [put_progress nd_round].
    split; [|right; exists r, a; split_and!; [done|done|unfold is_gone; by destruct (rd_waiting r)]].
    destruct (rd_waiting r), a as [[]|]; try done; apply Some_inj in Hp; subst p; apply on_headers_reason || apply on_items_reason.
Qed.

Lemma run_panics ls n : panic_reason (nd_round n) -> panic_reason (nd_round (run st ls n)).
Proof.
  unfold run. revert n. induction ls as [|l ls IH]; intros n Hn; [done|]. cbn [foldl]. apply IH.
  destruct (step st l n) as [n'|] eqn:E; cbn [from_option id]; [|done]. destruct (step_round _ _ _ E) as [->|[? _]]; done.
Qed.

(** After a panic nothing of the replication task ever runs again. *)
Lemma panic_is_final ls n r : nd_round n = Some r -> is_gone r = true -> nd_round (run st ls n) = Some r.
Proof.
  unfold run. revert n. induction ls as [|l ls IH]; intros n Hr Hg; [done|]. cbn [foldl].
  destruct (step st l n) as [n'|] eqn:E; cbn [from_option id]; [|by apply IH]. apply IH; [|done].
  destruct (step_round _ _ _ E) as [->|[_ [Hn|(r' & a & Hr' & _ & Hg')]]]; [done|congruence..].
Qed.

(** Departure: with a configured batch size of zero the first header that is new to the
    node makes the replication task panic. *)
Lemma zero_batch_panics env draw n r x local :
  engine_max_batch_size (st_engine st) = 0 -> nd_round n = Some r -> rd_waiting r = ForHeaders -> nd_reply n = Some (Ok (RsSync x)) ->
  (list_group_items env (rd_group r) (rd_since r) 0 (nd_db n)).2 = Ok local -> diff_headers local (srs_items x) <> [] ->
  exists n' r', step st (LResume env draw) n = Some n' /\ nd_round n' = Some r' /\ is_gone r' = true
    /\ forall ls, nd_round (run st ls n') = Some r'.
Proof.
  intros Hb Hr Hw Ha Hl Hd. cbn [step]. unfold resume, answered. rewrite Hr, Ha, Hw. cbn [fmap option_fmap option_map].
  eexists _, (rd_wait (round_chan n) Gone r). split; [reflexivity|]. cbn [on_headers]. change (rt_db (repl_view n)) with (nd_db n).
  rewrite Hb, Hl, bool_decide_eq_false_2 by done. cbn [chunks Z.to_nat put_progress nd_round pg_round].
  split; [done|]. split; [done|]. intros ls. by apply panic_is_final.
Qed.

End panics.

(** [C15] A waiting round always goes on: in every state that a started node reaches
    and in which the replication task waits in a sync round (serving none of its
    other arms), either the answer is there and the round can go on, or its
    request is in the command queue, or it is outstanding at libp2p, and then
    whatever libp2p reports on it, a response or a failure, lets the round go on.
    The one exception is a task that has panicked in the round: this happens only
    when the configured batch size is zero, and then the task stays gone whatever
    follows.  Asked of libp2p: a new request's identifier is not that of an
    outstanding one. *)
Theorem waiting_round_goes_on `{Crypto} `{NodeIdentity} `{HashIter} `{WireFormats} st i ls r :
  numbered st ls (first_node i) ->
  let n := run st ls (first_node i) in
  nd_round n = Some r ->
  if is_gone r then engine_max_batch_size (st_engine st) <= 0 /\ forall more, nd_round (run st more n) = Some r
  else (forall env draw, is_Some (step st (LResume env draw) n))
    \/ (exists c, c ∈ nd_cmds n /\ chan_of (wants_items r) c = Some (rd_chan r))
    \/ (exists rid, pending_of (wants_items r) (nd_swarm n) !! rid = Some (rd_chan r)
          /\ forall e a env readable, report e = Some (kind_of (wants_items r), rid, a) ->
               exists n', step st (LNetwork env readable e) n = Some n' /\ forall env draw, is_Some (step st (LResume env draw) n')).
Proof.
  intros Hn n Hr. destruct (is_gone r) eqn:Eg.
  { split; [by apply (run_panics st ls (first_node i) ltac:(done) r)|]. intros more. by apply panic_is_final. }
  destruct (run_channels st ls _ Hn (first_channels i)) as [K1 K2 K3 K4 K5]. fold n in K1, K2, K3, K4, K5.
  destruct (K4 r Hr Eg) as [[Hc|[rid Hrid]]|[a Ha]]; [by right; left| |left; by eapply resume_defined; eauto].
  right; right. exists rid. split; [done|]. intros e a env readable He.
  assert (count_connections e (nd_conns n) = Some (nd_conns n)) as Hcount by (by destruct e).
  cbn [step]. rewrite Hcount. eexists. split; [reflexivity|].
  pose proof (event_pending env (st_entity_id st) (st_role st) (relay_ctx st readable n) (st_addr_text st) e (swarm_view n)) as Hp.
  cbv zeta in Hp. rewrite He in Hp. destruct Hp as [_ Hrep].
  apply (resume_defined st _ r a); [done| |split; [done|by eapply report_fits]].
  cbn [put_swarm nd_reply set_conns nd_round]. rewrite Hr, take_reply_replies, Hrep.
  replace (kind_pending (kind_of (wants_items r)) (swarm_view n) !! rid) with (Some (rd_chan r)) by (by destruct (wants_items r)).
  cbn. by rewrite Z.eqb_refl.
Qed.

(** ** Example *)

(** A peer connects, says that it is in the group, becomes Hot, and a sync starts. *)
Definition ex_sync_labels : list Label :=
  [ LNetwork ex_env true (EvConnected "p" [] 1); LEvent 5 (fun _ => 0); LCommand ex_env 1; LExchangeGroups "p" ["g"%string];
    LTick {| at_unban := 7; at_reap := 7; at_cold := 7; at_hot := 7; at_demote := 7; at_churn := 7 |} 7 (fun _ => None) (fun _ => 1);
    LSync ex_env (fun _ => O) 8; LCommand ex_env 2 ].

Lemma ex_waiting_eq :
  exists r, nd_round (ex_run ex_sync_labels) = Some r /\ wants_items r = false /\ rd_chan r = 1 /\ is_gone r = false.
Proof. vm_compute. eexists. repeat split; reflexivity. Qed.

Lemma waiting_round_goes_on_witness :
  exists rid, pending_of false (nd_swarm (ex_run ex_sync_labels)) !! rid = Some 1.
Proof.
  destruct ex_waiting_eq as (r & Hr & Hw & Hc & Hg).
  pose proof (@waiting_round_goes_on toy_crypto toy_identity sorted_iter toy_wire ex_setting ex_init ex_sync_labels r) as Hgo.
  cbv zeta in Hgo. rewrite Hg in Hgo. destruct Hgo as [H|[(c & Hin & _)|(rid & Hrid & _)]].
  - vm_compute. repeat split; intros []; reflexivity.
  - exact Hr.
  - destruct (@no_reply_stuck toy_crypto toy_identity sorted_iter toy_wire ex_setting ex_env (fun _ => O) (ex_run ex_sync_labels)); [vm_compute; reflexivity|apply H].
  - destruct (not_elem_of_nil c). cut (nd_cmds (ex_run ex_sync_labels) = []); [intros <-; exact Hin|vm_compute; reflexivity].
  - rewrite Hw, Hc in Hrid. exists rid. exact Hrid.
Defined.
