(* ===== verification/Cluster.v ===== *)
(** * A network of nodes

    Several nodes that run the same code, each the transition system of [Node.v]
    with its own setting and key, and the packets between them.  Only packets
    that carry items matter here: the pushes that a node sends
    ([SendPush] commands and the forwarding of relays) and the answers to fetch
    requests.  The packets stay on the wire: one may arrive once, several times,
    late or never, and an answer may arrive at any member; so what holds here
    holds for the ordered, acknowledged streams of libp2p.  Everything else that
    the network brings a node is arbitrary: headers, group exchanges, shared
    peers, failures, and requests of outsiders. *)

From S2P Require Import Prelude Float64 Protocol Governor Storage StorageProps Search Json Envelope ItemStore Replication.
From S2P Require Import PeerPool Config SwarmTask ReplicationTask SyncRound Api GovernorTask Startup Node.

#[export] Instance FetchedItem_eq_dec : EqDecision FetchedItem.
Proof. solve_decision. Defined.

#[export] Instance MemoryPushRequest_eq_dec : EqDecision MemoryPushRequest.
Proof. solve_decision. Defined.

#[export] Instance FetchResponse_eq_dec : EqDecision FetchResponse.
Proof. solve_decision. Defined.

(** A push on its way from one node to another, and the answer to a fetch request. *)
Inductive Packet :=
| PPush (src dst : NodeId) (req : MemoryPushRequest)
| PItems (resp : FetchResponse).

#[export] Instance Packet_eq_dec : EqDecision Packet.
Proof. solve_decision. Defined.

Record Cluster := { cl_nodes : gmap NodeId Node; cl_wire : list Packet }.

(** What a node puts on the wire. *)
Definition sent (src : NodeId) (out : list Output) : list Packet :=
  omap (fun o => match o with
                 | ORequest dst (RqPush req) => Some (PPush src dst req)
                 | OResponse _ (RsFetch resp) => Some (PItems resp)
                 | _ => None
                 end) out.

(** Items come from the wire. *)
Definition carried (wire : list Packet) (dst : NodeId) (l : Label) : bool :=
  match l with
  | LNetwork _ _ (EvPush src req _) => contains wire (PPush src dst req)
  | LNetwork _ _ (EvBehaviour (BFetchResponse _ resp)) => contains wire (PItems resp)
  | _ => true
  end.

Section cluster.
Context `{CR : Crypto} `{HI : HashIter} `{WF : WireFormats}.
Context (st : NodeId -> Setting) (key : NodeId -> NodeIdentity).

(** A step of the node [a]. *)
Definition cstep (al : NodeId * Label) (c : Cluster) : option Cluster :=
  let '(a, l) := al in
  match cl_nodes c !! a with
  | None => None
  | Some n =>
      if carried (cl_wire c) a l then
        (fun n' => {| cl_nodes := <[a := n']> (cl_nodes c);
                      cl_wire := cl_wire c ++ sent a (@outputs CR (key a) HI (st a) l n) |})
        <$> @step CR (key a) HI WF (st a) l n
      else None
  end.

(** A run: the steps that are not possible are skipped. *)
Definition crun (als : list (NodeId * Label)) (c : Cluster) : Cluster := foldl (fun c al => default c (cstep al c)) c als.

End cluster.
