(* ===== verification/ClusterProps.v ===== *)
(** * Where items come from

    In a network of nodes that run this code, whatever the order and fate of the
    packets, every item that any node stores, announces, queues, pushes or
    serves was put in by an authorised API request at one of the nodes, or was
    in one of the databases at the start, with exactly this content; and every
    deletion that is spread was requested ([items_have_an_origin]).  The
    stores of all nodes stay in order ([crun_wf]). *)

From S2P Require Import Prelude Float64 Protocol Governor Storage StorageProps Search Json Envelope EnvelopeProps ItemStore Replication.
From S2P Require Import PeerPool Config SwarmTask SwarmProps ReplicationTask ReplicationTaskProps SyncRound Api ApiProps GovernorTask GovernorTaskProps.
From S2P Require Import Startup StartupProps Node NodeProps NodeRounds Cluster.

(** ** What of an item is followed *)

Record Stamp := {
  sp_id : string;
  sp_type : string;
  sp_data : bytes;
  sp_group : string;
  sp_parent : option string;
  sp_copy : bool;
}.

Definition stamp_of_write (w : L2ItemWrite) : Stamp :=
  {| sp_id := lw_id w; sp_type := lw_item_type w; sp_data := lw_data w; sp_group := default EmptyString (lw_group_id w);
     sp_parent := lw_parent_id w; sp_copy := lw_is_copy w |}.

Definition stamp_of_row (r : L2ItemRow) : Stamp :=
  {| sp_id := l2_id r; sp_type := l2_item_type r; sp_data := l2_data r; sp_group := default EmptyString (l2_group_id r);
     sp_parent := l2_parent_id r; sp_copy := l2_is_copy r |}.

Definition stamp_of_item (x : FetchedItem) : Stamp :=
  {| sp_id := fi_item_id x; sp_type := fi_item_type x; sp_data := fi_encrypted_blob x; sp_group := fi_group_id x;
     sp_parent := fi_parent_id x; sp_copy := fi_is_copy x |}.

Definition stamp_of_notification (w : WriteNotification) : Stamp :=
  {| sp_id := wn_item_id w; sp_type := wn_item_type w; sp_data := wn_data w; sp_group := default EmptyString (wn_group_id w);
     sp_parent := wn_parent_id w; sp_copy := wn_is_copy w |}.

(** What a request asks to be stored or deleted. *)
Definition requested `{WireFormats} (req : ApiRequest) (p : Stamp) : Prop :=
  match req with
  | RL2Write r => exists data, json_to_vec (l2w_data r) = Ok data /\ type_ok (l2w_item_type r) = true
      /\ p = stamp_of_write (write_of_request EmptyString r data)
  | RL2Delete r => sp_id p = l2d_item_id r /\ sp_type p = TOMBSTONE /\ sp_data p = []
  | _ => False
  end.

(** ** The store *)

Section sound.
Context `{CR : Crypto} `{HI : HashIter} `{WF : WireFormats}.
Context (P : Stamp -> Prop).

Definition db_sound (d : Db) : Prop := map_Forall (fun _ row => P (stamp_of_row row)) (l2_items d).

Lemma frame_stmt {A} env name (body : Db -> result (Db * A) SqlError) :
  (forall d d' a, body d = Ok (d', a) -> l2_items d' = l2_items d) -> preserves db_sound (stmt env name body).
Proof. intros Hb. apply preserves_stmt. intros d d' a Hd E. unfold db_sound. by rewrite (Hb d d' a E). Qed.

(** Statements that leave the items alone. *)
Ltac frame :=
  repeat (apply preserves_bind; [first [apply preserves_lock | apply frame_stmt; let E := fresh in intros ? ? ? E; repeat case_match; by simplify_eq]
                                |intros ?]);
  apply frame_stmt; let E := fresh in intros ? ? ? E; repeat case_match; by simplify_eq.

Lemma write_item_sound env w : (type_ok (lw_item_type w) = true -> P (stamp_of_write w)) -> preserves db_sound (write_l2_item env w).
Proof.
  intros Hw. apply preserves_bind; [apply preserves_lock|]. intros _. apply preserves_stmt. intros d d' a Hd E.
  destruct (type_ok _) eqn:Et, (visibility_ok _); [|done..]. cbn in E. simplify_eq. specialize (Hw eq_refl). unfold db_sound. cbn. by apply map_Forall_insert_2.
Qed.

Lemma delete_item_sound env i : preserves db_sound (delete_l2_item env i).
Proof.
  apply preserves_bind; [apply preserves_lock|]. intros _. apply preserves_stmt. intros d d' a Hd [= <- _].
  unfold db_sound. cbn. by apply map_Forall_delete.
Qed.

Lemma write_group_sound env i n c p : preserves db_sound (write_group env i n c p).
Proof. frame. Qed.
Lemma update_posture_sound env g e p : preserves db_sound (update_member_posture env g e p).
Proof. frame. Qed.

Lemma tame_sound : tame db_sound.
Proof. split; intros; [apply write_group_sound|frame|apply update_posture_sound|frame|apply delete_item_sound|frame]. Qed.

Lemma admits_sound x : P (stamp_of_item x) -> admits db_sound x.
Proof. intros Hx env. by apply write_item_sound; intros _. Qed.

Lemma write_l1_sound env u x : preserves db_sound (write_l1 env u x).
Proof. frame. Qed.
Lemma delete_l1_sound env u : preserves db_sound (delete_l1 env u).
Proof. frame. Qed.
Lemma add_member_sound env g e r : preserves db_sound (add_member env g e r).
Proof. unfold add_member, ensure_l1_stub. frame. Qed.
Lemma remove_member_sound env g e : preserves db_sound (remove_member env g e).
Proof. frame. Qed.
Lemma register_device_sound env v : preserves db_sound (register_device env v).
Proof. unfold register_device, device_stmt. frame. Qed.
Lemma revoke_device_sound env e v : preserves db_sound (revoke_device env e v).
Proof. unfold revoke_device, device_stmt. frame. Qed.

Definition items_sound (l : list FetchedItem) : Prop := Forall (fun x => P (stamp_of_item x)) l.

Lemma items_admitted l x : items_sound l -> x ∈ l -> admits db_sound x.
Proof. unfold items_sound. rewrite Forall_forall. intros Hl Hx. apply admits_sound. by apply Hl. Qed.

(** A fetch request is answered from the store. *)
Lemma served_sound env req d : db_sound d -> items_sound (frs_items (handle_fetch_request env req d)).
Proof.
  intros Hd. apply Forall_forall. intros x Hx. cbn in Hx. apply list_elem_of_omap in Hx as (id & _ & Hx).
  destruct (read_l2_item env id d).2 as [[row|]|] eqn:E; try done. injection Hx as <-.
  unfold read_l2_item, bind, db_lock, query, stmt in E. destruct (lock_poisoned d); [done|]. destruct (fault env _); [done|].
  injection E as E. exact (Hd id row E).
Qed.

(** ** The API *)

(** The notifications that are not yet handled. *)
Definition notes_sound (s : AppState) : Prop :=
  forall c, write_notify s = Some c -> Forall (fun w => P (stamp_of_notification w)) (bc_sent c).

Definition app_sound (s : AppState) : Prop := db_sound (storage s) /\ notes_sound s.

Lemma recv_write_notes s w s' : recv_write s = Some (w, s') -> notes_sound s -> P (stamp_of_notification w) /\ notes_sound s'.
Proof.
  unfold recv_write, notes_sound. intros Hr Hs. destruct (write_notify s) as [[k [|w' ws]]|]; [done| |done]. injection Hr as -> <-.
  specialize (Hs _ eq_refl). apply Forall_cons in Hs as [Hw Hs]. split; [done|]. by intros c [= <-].
Qed.

Lemma lose_writes_notes s s' : lose_writes s = Some s' -> notes_sound s -> notes_sound s'.
Proof.
  unfold lose_writes, drop_old, notes_sound. intros Hr Hs. destruct (write_notify s) as [c|]; [|done].
  apply fmap_Some_1 in Hr as (l & Hl & ->). case_match; [|done]. injection Hl as <-. intros c' [= <-]. cbn. by apply Forall_drop, Hs.
Qed.

Lemma recv_bootstrap_notes s gid s' : recv_bootstrap s = Some (gid, s') -> notes_sound s -> notes_sound s'.
Proof. unfold recv_bootstrap. intros Hr Hs. destruct (bootstrap_sync s) as [[? ? [|? ?]]|]; [done| |done]. by injection Hr as _ <-. Qed.

Lemma notes_hang_up s : notes_sound (hang_up s).
Proof. unfold notes_sound, hang_up. cbn. destruct (write_notify s); [|done]. by intros c [= <-]. Qed.

Lemma call_sound {A} (m : M A) : preserves db_sound m -> runs app_sound (fun _ => True) (call m).
Proof. intros Hm s. split; [|done]. intros [Hd Hw]. unfold call. specialize (Hm _ Hd). by destruct (m (storage s)) as [d r]. Qed.

(** An item that was written has a type that the schema allows. *)
Lemma write_type env w s : match (call (write_l2_item env w) s).2 with Ok _ => type_ok (lw_item_type w) = true | Err _ => True end.
Proof.
  unfold call, write_l2_item, bind, db_lock, stmt. destruct (lock_poisoned _); [done|]. destruct (fault env _); [done|].
  by destruct (type_ok _), (visibility_ok _).
Qed.

Lemma log_sound env e : runs app_sound (fun _ => True) (log env e).
Proof.
  intros s. unfold log. destruct (call_sound _ (tm_log _ tame_sound env e) s) as [HI' _]. by destruct (call _ s).
Qed.

Lemma notify_sound w s : P (stamp_of_notification w) -> app_sound s -> app_sound (notify w s).
Proof.
  intros Hp [Hd Hw]. split; [done|]. intros c. cbn. destruct (write_notify s) as [c0|] eqn:E; [|done]. intros [= <-].
  specialize (Hw c0 E). unfold bc_send. case_match; [done|]. cbn. apply Forall_app. split; [done|]. by repeat constructor.
Qed.

#[local] Hint Resolve write_l1_sound delete_l1_sound add_member_sound remove_member_sound register_device_sound
  revoke_device_sound delete_item_sound write_group_sound update_posture_sound : cordelia.

Ltac sound_state :=
  solve [ done
        | match goal with H : app_sound ?s |- _ => destruct H; by split end
        | match goal with H : app_sound ?s |- app_sound (set_storage _ ?s) =>
            destruct H as [Hd Hw]; split; [by apply (remove_all_members_wf db_sound (tm_posture _ tame_sound))|exact Hw] end ].

Ltac sound_runs :=
  repeat lazymatch goal with
  | |- runs _ _ (api_bind (call _) _) =>
      eapply runs_bind; [apply call_sound; solve [auto 10 with cordelia] | intros ? _; cbv beta]
  | |- runs _ _ (api_bind (log _ _) _) => eapply runs_bind; [apply log_sound | intros ? _; cbv beta]
  | |- runs _ _ (api_bind (get _) _) => eapply runs_bind; [apply runs_get | intros ? _; cbv beta]
  | |- runs _ _ (api_bind (modify _) _) =>
      eapply runs_bind; [apply runs_modify; intros ? ?; repeat case_match; sound_state | intros ? _; cbv beta]
  | |- runs _ _ (respond _) => apply runs_respond; done
  | |- runs _ _ (match ?x with _ => _ end) => destruct x
  end.

(** A request stores and announces only what it asks for. *)
Lemma router_sound fts_match env now h req s :
  (forall p, authorised h s -> requested req p -> P p) -> app_sound s -> app_sound (router fts_match env now h req s).1.
Proof.
  intros Hreq Hs. destruct (check_auth_spec h s) as [[_ Ha]|[_ Hn]].
  2: { destruct (router_authed fts_match env now (identity s) h req) as (m & -> & _). unfold authed.
       destruct (check_auth_spec h s) as [[_ Ha]|[-> _]]; [by destruct Hn|done]. }
  assert (forall p, requested req p -> P p) as HP by (intros p; by apply Hreq). clear Hreq.
  revert s Hs Ha. assert (forall m, router fts_match env now h req = authed h m -> runs app_sound (fun _ => True) m ->
    forall s, app_sound s -> authorised h s -> app_sound (router fts_match env now h req s).1) as Hgo.
  { intros m -> Hm s Hs Ha. rewrite authed_ok by done. by apply (proj1 (Hm s)). }
  destruct req; (eapply Hgo; [reflexivity|]); cbv zeta;
    unfold read_l1, list_l1_users, read_l2_item, read_l2_item_meta, list_groups, read_group, list_members, list_group_items;
    try solve [sound_runs].
  - destruct (json_to_vec (l2w_data r)) as [data|e] eqn:E; [|by apply runs_respond]. case_match; [by apply runs_respond|].
    assert (forall entity, type_ok (l2w_item_type r) = true -> P (stamp_of_write (write_of_request entity r data))) as Hw.
    { intros entity Ht. apply HP. exists data. by split. }
    eapply runs_bind; [apply runs_get|]. intros entity _.
    eapply (runs_bind _ (fun x => match x with Ok _ => type_ok (l2w_item_type r) = true | Err _ => True end)).
    { intros s. split; [|apply write_type]. intros Hs. apply (call_sound _ (write_item_sound env (write_of_request entity r data) (Hw entity)) s), Hs. }
    intros [u|e] Ht; [|by apply runs_respond].
    eapply runs_bind; [|intros ? _; by apply runs_respond]. apply runs_modify. intros s Hs. apply notify_sound; [exact (Hw entity Ht)|done].
  - eapply runs_bind; [apply call_sound; auto 10 with cordelia|]. intros meta _.
    eapply runs_bind; [apply call_sound; auto 10 with cordelia|]. intros [[]|e] _; [|by apply runs_respond..].
    eapply runs_bind; [|intros ? _; by apply runs_respond]. apply runs_modify. intros s Hs. repeat case_match; try done.
    apply notify_sound; [|done]. by apply HP.
Qed.

End sound.

(** ** The queues of the replication task *)

(** The pieces of a round do not touch the queues. *)
Definition queues (s : Repl) : gmap string (list FetchedItem) * list PendingPush := (write_buffer s, pending_pushes s).

Section queues.
Context `{CR : Crypto} `{HI : HashIter}.
Context (parse_culture : string -> option GroupCulture) (env : SqlEnv) (eng : ReplicationEngine) (tx : Chan) (draw : string -> nat).

Lemma record_round_queues gid r s : queues (record_round gid r s) = queues s.
Proof. by destruct r as [[]|]. Qed.

Lemma next_group_queues now is_relay groups todo s :
  queues (pg_repl (next_group parse_culture env eng tx draw now is_relay groups todo s)) = queues s.
Proof.
  revert s. induction todo as [|gid rest IH]; intros s; [done|]. cbn [next_group]. destruct (not_yet_due now s gid); [apply IH|].
  unfold schedule_group. destruct (choose_partner _ _ _ _); [done|]. by rewrite IH, record_round_queues.
Qed.

Lemma finish_queues r res s : queues (pg_repl (finish parse_culture env eng tx draw r res s)) = queues s.
Proof. unfold finish. by rewrite next_group_queues, record_round_queues. Qed.

Lemma ask_next_queues r latest todo c s : queues (pg_repl (ask_next parse_culture env eng tx draw r latest todo c s)) = queues s.
Proof. destruct todo; [exact (finish_queues r _ _)|done]. Qed.

Lemma on_headers_queues r a s : queues (pg_repl (on_headers parse_culture env eng tx draw r a s)) = queues s.
Proof.
  destruct a; cbn [on_headers]; try apply finish_queues. destruct (list_group_items _ _ _ _ _).2; [|apply finish_queues].
  case_bool_decide; [apply finish_queues|]. destruct (chunks _ _); [exact (ask_next_queues r _ _ _ _)|done].
Qed.

Lemma on_items_queues r latest more c a s : queues (pg_repl (on_items parse_culture env eng tx draw r latest more c a s)) = queues s.
Proof. destruct a; cbn [on_items]; try apply finish_queues. destruct (foldl _ _ _). exact (ask_next_queues r _ _ _ _). Qed.

Lemma start_bootstrap_queues is_relay shared gid s : queues (pg_repl (start_bootstrap eng tx draw is_relay shared gid s)) = queues s.
Proof. unfold start_bootstrap. destruct (choose_partner _ _ _ _); [done|exact (record_round_queues gid _ _)]. Qed.

End queues.

Section queues_sound.
Context `{CR : Crypto} `{HI : HashIter}.
Context (P : Stamp -> Prop).
Abbreviation isound := (items_sound P) (only parsing).

Definition queues_sound (q : gmap string (list FetchedItem) * list PendingPush) : Prop :=
  map_Forall (fun _ l => isound l) q.1 /\ Forall (fun p => isound (pp_items p)) q.2.

(** What the commands carry. *)
Definition cmd_sound (c : SwarmCommand) : Prop := match c with CmdPush _ req => isound (mpr_items req) | _ => True end.

Lemma batches_sound items batch : isound items -> batch ∈ split_into_batches items -> isound batch.
Proof.
  intros Hi Hb. unfold items_sound in *. rewrite Forall_forall in *. intros x Hx. apply Hi.
  rewrite <- (proj1 (split_batches_spec items)). apply list_elem_of_In, in_concat. exists batch. by rewrite <- !list_elem_of_In.
Qed.

Lemma send_sound open peers batches s :
  (forall b, b ∈ batches -> isound b) ->
  queues (send_batches open peers batches s).1 = queues s /\ Forall cmd_sound (send_batches open peers batches s).2.
Proof.
  unfold send_batches. match goal with |- context [foldl ?f (s, []) batches] => set (F := f) end. intros Hb.
  assert (forall b s out, isound b -> Forall cmd_sound out -> queues (F (s, out) b).1 = queues s /\ Forall cmd_sound (F (s, out) b).2) as HF.
  { clear. intros b s out Hb. unfold F. clear F. revert s out. induction peers as [|p ps IH]; intros s out Hs; [done|]. cbn [foldl].
    destruct open; [|by apply IH].
    match goal with |- context [foldl _ (?s', ?o') ps] => destruct (IH s' o') as [Hq Hc] end; [|by split].
    apply Forall_app. split; [done|]. by repeat constructor. }
  clearbody F. assert (Forall cmd_sound []) as H0 by constructor. revert H0.
  generalize (@nil SwarmCommand) as out. revert s Hb. induction batches as [|b bs IH]; intros s Hb out Hs; [done|].
  cbn [foldl]. destruct (HF b s out) as [Hq Hc]; [apply Hb; left|done|]. destruct (F (s, out) b) as [s' out']. cbn [fst snd] in *.
  destruct (IH s') with out' as [Hq' Hc']; [intros x Hx; apply Hb; by right|done|]. split; [by rewrite Hq'|done].
Qed.

Lemma flush_group_sound now open gid items s :
  isound items -> queues_sound (queues s) ->
  queues_sound (queues (flush_group now open gid items s).1) /\ Forall cmd_sound (flush_group now open gid items s).2.
Proof.
  intros Hi [Hb Hp]. unfold flush_group. case_bool_decide; [by split|].
  assert (forall s', queues s' = queues s -> queues_sound (queues (rt_set_pending (pending_pushes s' ++ [first_retry now gid items]) s'))) as He.
  { intros s' [= Hwb Hpp]. split; cbn; rewrite ?Hwb, ?Hpp; [done|]. apply Forall_app. split; [done|]. by repeat constructor. }
  case_bool_decide; [split; [by apply He|constructor]|].
  destruct (send_sound open (active_peers_for_group_or_relays gid (rt_pool s)) (split_into_batches items) s) as [Hq Hc].
  { intros b. by apply batches_sound. }
  destruct (send_batches _ _ _ _) as [s1 out]. split; [|done]. by apply He.
Qed.

Lemma flush_sound now open s :
  queues_sound (queues s) -> queues_sound (queues (on_flush now open s).1) /\ Forall cmd_sound (on_flush now open s).2.
Proof.
  intros [Hb Hp]. unfold on_flush.
  assert (forall gi, gi ∈ hash_iter (write_buffer s) -> isound gi.2) as Hl.
  { intros [g l] Hin. rewrite hash_iter_perm in Hin. apply elem_of_map_to_list in Hin. exact (Hb g l Hin). }
  assert (queues_sound (queues (rt_set_buffer ∅ s))) as H0 by (by split). revert H0.
  assert (Forall cmd_sound []) as Ho by constructor. revert Ho.
  generalize (rt_set_buffer ∅ s) as s0, (@nil SwarmCommand) as out. clear Hb Hp.
  induction (hash_iter (write_buffer s)) as [|gi l IH]; intros s0 out Ho Hs; [done|]. cbn [foldl].
  destruct (flush_group_sound now open gi.1 gi.2 s0) as [Hq Hc]; [apply Hl; left|done|].
  destruct (flush_group _ _ _ _ _) as [s1 o]. apply IH; [intros x Hx; apply Hl; by right|by apply Forall_app|done].
Qed.

Lemma retry_step_sound now open s out keep p :
  isound (pp_items p) -> Forall (fun p => isound (pp_items p)) keep -> Forall cmd_sound out ->
  let r := retry_step now open (s, out, keep) p in
  queues r.1.1 = queues s /\ Forall cmd_sound r.1.2 /\ Forall (fun p => isound (pp_items p)) r.2.
Proof.
  intros Hp Hk Ho. unfold retry_step, retry_one. destruct (now <? pp_next_at p).
  { split_and!; [done|done|]. apply Forall_app. split; [done|]. by repeat constructor. }
  match goal with |- context [let '(_, _) := ?x in _] => assert (queues x.1 = queues s /\ Forall cmd_sound x.2) as [Hq Hc];
    [|destruct x as [s1 o]] end.
  { case_bool_decide; [by split; [|constructor]|]. apply send_sound. intros b. by apply batches_sound. }
  cbn [fst snd] in *. destruct (_ <=? _); cbn; (split_and!; [done|by apply Forall_app|apply Forall_app; split; [done|by repeat constructor]]).
Qed.

Lemma retry_sound now open s :
  queues_sound (queues s) -> queues_sound (queues (on_retry now open s).1) /\ Forall cmd_sound (on_retry now open s).2.
Proof.
  intros [Hb Hp]. unfold on_retry.
  assert (let r := foldl (retry_step now open) (s, [], []) (pending_pushes s) in
    write_buffer r.1.1 = write_buffer s /\ Forall cmd_sound r.1.2 /\ Forall (fun p => isound (pp_items p)) r.2) as Hr.
  { cbn [queues snd] in Hp. clear Hb. revert Hp. generalize (pending_pushes s) as l. intros l.
    assert (Forall cmd_sound []) as Ho by constructor. assert (Forall (fun p => isound (pp_items p)) []) as Hk by constructor.
    revert Ho Hk. generalize (@nil SwarmCommand) as out, (@nil PendingPush) as keep. revert s.
    induction l as [|p l IH]; intros s out keep Ho Hk Hl; [done|]. apply Forall_cons in Hl as [Hp Hl]. cbn [foldl].
    destruct (retry_step_sound now open s out keep p Hp Hk Ho) as (Hq & Hc & Hk').
    destruct (retry_step now open (s, out, keep) p) as [[s1 o1] k1]. cbn [fst snd] in *. injection Hq as Hw _. rewrite <- Hw. by apply IH. }
  destruct (foldl _ _ _) as [[s1 o1] k1]. destruct Hr as (Hw & Hc & Hk). split; [|done]. split; [|done]. cbn in *. by rewrite Hw.
Qed.

(** A notification becomes an item with the same stamp. *)
Lemma notification_sound parse_culture env eng rfc w s :
  P (stamp_of_notification w) -> queues_sound (queues s) ->
  queues_sound (queues (on_write_notification parse_culture env eng rfc w s)).
Proof.
  intros Hw [Hb Hp]. unfold on_write_notification. destruct (wn_group_id w) as [gid|] eqn:Eg; [|by split].
  unfold on_local_write. destruct (MAX_ITEM_BYTES <? _); [by split|]. destruct (strategy _); [|by split]. split; [|done]. cbn. apply map_Forall_insert_2; [|done].
  apply Forall_app. split; [|repeat constructor].
  - destruct (write_buffer s !! gid) as [l|] eqn:E; [exact (Hb gid l E)|constructor].
  - unfold stamp_of_notification in Hw. by rewrite Eg in Hw.
Qed.

End queues_sound.

(** ** A node *)

(** The items that a label brings in from the network. *)
Definition brought (l : Label) : list FetchedItem :=
  match l with
  | LNetwork _ _ (EvPush _ req _) => mpr_items req
  | LNetwork _ _ (EvBehaviour (BFetchResponse _ resp)) => frs_items resp
  | _ => []
  end.

Section node_sound.
Context `{CR : Crypto} `{NI : NodeIdentity} `{HI : HashIter} `{WF : WireFormats}.
Context (P : Stamp -> Prop) (st : Setting).

Record node_sound (n : Node) : Prop := {
  ns_db : db_sound P (nd_db n);
  ns_notes : notes_sound P (nd_app n);
  ns_queues : queues_sound P (queues (nd_repl n));
  ns_cmds : Forall (cmd_sound P) (nd_cmds n);
  ns_reply : forall r, nd_reply n = Some (Ok (RsFetch r)) -> items_sound P (frs_items r);
}.

Definition packet_sound (pk : Packet) : Prop :=
  match pk with
  | PPush _ _ req => items_sound P (mpr_items req)
  | PItems r => items_sound P (frs_items r)
  end.

Lemma view_sound n : node_sound n -> app_sound P (app_view (st_addr_text st) n).
Proof. intros [Hd Hn _ _ _]. unfold app_view. destruct (peer_count_by_state _). by split. Qed.

Lemma set_app_sound app n : notes_sound P app -> node_sound n -> node_sound (set_app app n).
Proof. by intros Ha []. Qed.

Lemma put_gov_sound r n : Forall governing r.2 -> node_sound n -> node_sound (put_gov r n).
Proof.
  intros Hq [Hd Hn Hu Hc Hr]. split; [done..| |done]. apply Forall_app. split; [done|].
  eapply Forall_impl; [exact Hq|]. intros c [_ Hc']. by destruct c.
Qed.

Lemma repl_arm_sound arm n n' :
  (forall s, db_sound P (rt_db s) -> db_sound P (rt_db (arm s).1)) ->
  (forall s, queues_sound P (queues s) -> queues_sound P (queues (arm s).1) /\ Forall (cmd_sound P) (arm s).2) ->
  repl_arm arm n = Some n' -> node_sound n -> node_sound n'.
Proof.
  intros Hdb Hq. unfold repl_arm. destruct (nd_round n); [done|]. intros [= <-] [Hd Hn Hu Hc Hr].
  destruct (Hq (update_gauges (repl_view n)) Hu) as [Hu' Hc']. split; [by apply Hdb|done|done|by apply Forall_app|done].
Qed.

Lemma put_progress_sound tx p n :
  db_sound P (rt_db (pg_repl p)) -> queues (pg_repl p) = queues (nd_repl n) -> asks tx p -> node_sound n -> node_sound (put_progress p n).
Proof.
  intros Hd' Hq Ha [Hd Hn Hu Hc Hr]. split; [done|done|cbn; by rewrite Hq| |done]. apply Forall_app. split; [done|].
  rewrite Forall_forall. intros c Hin. destruct (asks_sent _ _ _ Ha Hin) as (r & _ & _ & _ & Hc'). by destruct (wants_items r), c.
Qed.

Lemma round_arm_sound tx arm n n' :
  (forall s, db_sound P (rt_db s) -> db_sound P (rt_db (pg_repl (arm s)))) ->
  (forall s, queues (pg_repl (arm s)) = queues s) -> (forall s, asks tx (arm s)) ->
  round_arm arm n = Some n' -> node_sound n -> node_sound n'.
Proof.
  intros Hdb Hq Ha. unfold round_arm. destruct (nd_round n); [done|]. intros [= <-] Hn.
  apply (put_progress_sound tx); [apply Hdb, (ns_db n Hn)|by rewrite Hq|done|done].
Qed.

(** An answer in hand came with a report of libp2p. *)
Lemma event_reply_sound env entity role rx addr_text e conns n r :
  (forall rid resp, e = EvBehaviour (BFetchResponse rid resp) -> items_sound P (frs_items resp)) -> node_sound n ->
  nd_reply (put_swarm (handle_event env entity role rx addr_text e (swarm_view n)) (set_conns conns n)) = Some (Ok (RsFetch r)) ->
  items_sound P (frs_items r).
Proof.
  intros He Hn. cbn [put_swarm nd_reply set_conns nd_round]. destruct (nd_round n) as [x|]; [|apply (ns_reply n Hn)].
  rewrite take_reply_replies. pose proof (event_pending env entity role rx addr_text e (swarm_view n)) as Hp. cbv zeta in Hp.
  destruct (report e) as [[[k rid] a]|] eqn:Er; destruct Hp as [_ ->]; [|apply (ns_reply n Hn)].
  destruct (kind_pending k (swarm_view n) !! rid) as [tx|]; [|apply (ns_reply n Hn)]. cbn [foldl fst snd].
  destruct (tx =? rd_chan x); [|apply (ns_reply n Hn)]. intros [= ->].
  destruct e as [| | | | | |[]|]; try done. injection Er as _ -> ->. by eapply He.
Qed.

Lemma handle_reply_sound env entity rid c rest n :
  nd_reply (put_swarm (handle_command env entity rid c (swarm_view n)) (set_cmds rest n)) = nd_reply n.
Proof. destruct (command_pending env entity rid c (swarm_view n)) as (_ & _ & Hr). cbn. by apply take_reply_none. Qed.

Lemma db_repl_sound s : db_sound P (rt_db s) <-> repl_wf (db_sound P) (fun _ => True) s.
Proof. unfold repl_wf. tauto. Qed.

(** A request to the API. *)
Lemma api_sound env now h req n :
  (forall p, authorised h (nd_app n) -> requested req p -> P p) -> node_sound n ->
  node_sound (put_app (router (st_fts_match st) env now h req (app_view (st_addr_text st) n)).1 n).
Proof.
  intros Hreq Hn. pose proof (view_sound n Hn) as Hv. apply (router_sound P (st_fts_match st) env now h req) in Hv as [Hd Hw].
  - destruct (router _ _ _ _ _ _) as [s r]. destruct Hn as [_ _ Hu Hc Hr]. by split.
  - intros p Ha. apply Hreq. revert Ha. unfold app_view, authorised. by destruct (peer_count_by_state _).
Qed.

(** A command to the swarm task. *)
Lemma command_sound env rid c rest n :
  nd_cmds n = c :: rest -> swarm_wf (db_sound P) (swarm_view n) -> node_sound n ->
  node_sound (put_swarm (handle_command env (st_entity_id st) rid c (swarm_view n)) (set_cmds rest n)).
Proof.
  intros E Hsw [Hd Hw Hu Hc Hr]. split; [|exact Hw|exact Hu| |].
  - by apply (handle_command_wf (db_sound P) (tame_sound P)).
  - rewrite E in Hc. by apply Forall_cons in Hc as [_ Hc].
  - rewrite handle_reply_sound. exact Hr.
Qed.

(** An event of libp2p. *)
Lemma network_sound env readable e conns n :
  items_sound P (brought (LNetwork env readable e)) -> swarm_wf (db_sound P) (swarm_view n) -> node_sound n ->
  node_sound (put_swarm (handle_event env (st_entity_id st) (st_role st) (relay_ctx st readable n) (st_addr_text st) e (swarm_view n))
    (set_conns conns n)).
Proof.
  intros Hb Hsw Hn. split; [|apply (ns_notes n Hn)|apply (ns_queues n Hn)|apply (ns_cmds n Hn)|].
  - apply (handle_event_wf (db_sound P) (tame_sound P)); [|done]. intros x Hx _.
    apply (items_admitted P (brought (LNetwork env readable e))); [done|]. destruct e; try (by apply elem_of_nil in Hx). exact Hx.
  - intros r. apply event_reply_sound; [|done]. intros rid resp ->. exact Hb.
Qed.

(** The round goes on with its answer. *)
Lemma resume_sound env draw n n' : resume st env draw n = Some n' -> node_sound n -> node_sound n'.
Proof.
  intros Hs Hn. unfold resume, answered in Hs. destruct (nd_round n) as [r|]; [|done]. destruct (nd_reply n) as [a|] eqn:Ea; [|done].
  apply fmap_Some_1 in Hs as (p & Hp & ->). pose proof (ns_db n Hn) as Hd. pose proof (ns_reply n Hn) as Hr. rewrite Ea in Hr.
  assert (db_sound P (rt_db (pg_repl p)) /\ queues (pg_repl p) = queues (repl_view n) /\ asks (round_chan n) p) as (H1 & H2 & H3).
  { destruct (rd_waiting r), a as [[]|]; try done; apply Some_inj in Hp; subst p;
      (split_and!; [apply db_repl_sound|apply on_headers_queues || apply on_items_queues|apply on_headers_asks || apply on_items_asks]).
    - apply on_headers_wf. by apply db_repl_sound.
    - apply on_headers_wf. by apply db_repl_sound.
    - apply on_items_wf; [apply tame_sound| |by apply db_repl_sound].
      intros x Hx _. by apply (items_admitted P (frs_items r0)); [apply Hr|].
    - apply on_items_wf; [apply tame_sound| |by apply db_repl_sound]. intros x Hx _. by apply elem_of_nil in Hx. }
  destruct (settle_cases p n) as [->| ->]; apply (put_progress_sound (round_chan n)); try done.
  apply set_app_sound; [apply notes_hang_up|done].
Qed.

Lemma step_sound i l n n' :
  items_sound P (brought l) ->
  (forall env now h req p, l = LApi env now h req -> authorised h (nd_app n) -> requested req p -> P p) ->
  step st l n = Some n' -> node_wf (st_addr_text st) i n -> node_sound n -> node_sound n'.
Proof.
  intros Hb Hreq Hs Hwf Hn. pose proof (proj1 (proj2 (proj2 (proj1 (node_wf_iff st i n) Hwf)))) as Hg.
  assert (swarm_wf (db_sound P) (swarm_view n)) as Hsw by (split; [apply (ns_db n Hn)|exact Hg]).
  destruct l; cbn [step] in Hs.
  - injection Hs as <-. apply api_sound; [|done]. intros p. exact (Hreq env now h req p eq_refl).
  - destruct (nd_cmds n) as [|c rest] eqn:E; [done|]. injection Hs as <-. by apply command_sound.
  - destruct (count_connections _ _) as [conns|]; [|done]. injection Hs as <-. by apply network_sound.
  - destruct (nd_events n) as [|e rest]; [done|]. injection Hs as <-. apply put_gov_sound; [apply event_governs|by destruct Hn].
  - destruct (drop_old _); [|done]. injection Hs as <-. by destruct Hn.
  - injection Hs as <-. apply put_gov_sound; [apply tick_governs|done].
  - injection Hs as <-. by apply put_gov_sound; [constructor|].
  - injection Hs as <-. by apply put_gov_sound; [constructor|].
  - injection Hs as <-. by apply put_gov_sound; [constructor|].
  - injection Hs as <-. apply put_gov_sound; [apply discover_governs|done].
  - injection Hs as <-. by apply put_gov_sound; [constructor|].
  - destruct (recv_write (nd_app n)) as [[w app]|] eqn:E; [|done]. destruct (recv_write_notes P _ w app E (ns_notes n Hn)) as [Hw Hn'].
    eapply repl_arm_sound; [| |exact Hs|by apply set_app_sound].
    + intros s Hd. cbn [fst]. apply db_repl_sound. by apply write_notification_wf.
    + intros s Hq. split; [by apply notification_sound|constructor].
  - destruct (lose_writes (nd_app n)) eqn:E; [|done]. injection Hs as <-. apply set_app_sound; [|done]. eapply lose_writes_notes; [exact E|apply (ns_notes n Hn)].
  - eapply repl_arm_sound; [| |exact Hs|done]; intros s; [|apply flush_sound]. rewrite !db_repl_sound. by apply flush_wf.
  - eapply repl_arm_sound; [| |exact Hs|done]; intros s; [|apply retry_sound]. rewrite !db_repl_sound. by apply retry_wf.
  - eapply round_arm_sound; [| | |exact Hs|done]; intros s; [|apply next_group_queues|apply next_group_asks].
    rewrite !db_repl_sound. by apply start_tick_wf.
  - destruct (recv_bootstrap (nd_app n)) as [[gid app]|] eqn:E; [|done].
    eapply round_arm_sound; [intros s|intros s; apply start_bootstrap_queues|intros s; apply start_bootstrap_asks|exact Hs|].
    + rewrite !db_repl_sound. by apply start_bootstrap_wf.
    + apply set_app_sound; [|done]. eapply recv_bootstrap_notes; [exact E|apply (ns_notes n Hn)].
  - by eapply resume_sound.
  - eapply repl_arm_sound; [| |exact Hs|done]; intros s.
    + intros Hd. cbn [fst]. apply db_repl_sound. apply gc_wf; [apply tame_sound|]. by apply db_repl_sound.
    + intros Hq. split; [exact Hq|constructor].
Qed.

(** What a node puts on the wire it holds, or has just received. *)
Lemma outputs_sound src l n : items_sound P (brought l) -> node_sound n -> Forall packet_sound (sent src (outputs st l n)).
Proof.
  intros Hb Hn. destruct l; try constructor; cbn [outputs].
  - pose proof (ns_cmds n Hn) as Hc. destruct (nd_cmds n) as [|c rest]; [constructor|]. apply Forall_cons in Hc as [Hc _].
    destruct c; try constructor; [exact Hc|constructor|]. cbn [handle_command]. destruct (gx_descriptors req); [constructor|].
    destruct (build_descriptors _ _ _). constructor.
  - destruct (count_connections _ _); [|constructor].
    destruct e as [| | | | |peer req ch|b|]; cbn [handle_event]; try (case_match; constructor); try constructor.
    + unfold handle_push. destruct (handle_push_request _ _ _ _ _) as [d ack]. cbn.
      induction (forward_peers _ ack peer _) as [|x l IH]; [constructor|]. cbn. constructor; [exact Hb|exact IH].
    + destruct b; cbn [handle_behaviour_event]; unfold on_exchange_request, on_exchange_response, merge_offered, complete;
        repeat match goal with
        | |- context [match ?x with Some descs => merge_descriptors _ _ _ | None => _ end] => destruct x
        | |- context [merge_descriptors ?a ?b ?c] => destruct (merge_descriptors a b c)
        | |- context [build_descriptors ?a ?b ?c] => destruct (build_descriptors a b c)
        | |- context [match ?x with Some _ => [_] | None => [] end] => destruct x
        end; cbn; repeat constructor.
      apply served_sound, (ns_db n Hn).
Qed.

End node_sound.

(** ** The network *)

Section cluster.
Context `{CR : Crypto} `{HI : HashIter} `{WF : WireFormats}.
Context (st : NodeId -> Setting) (key : NodeId -> NodeIdentity).

(** Every node keeps its state in order and the identity it started with. *)
Definition cluster_wf (c0 c : Cluster) : Prop :=
  forall a n, cl_nodes c !! a = Some n ->
    exists n0, cl_nodes c0 !! a = Some n0 /\ node_wf (st_addr_text (st a)) (identity (nd_app n0)) n.

Definition cluster_sound (P : Stamp -> Prop) (c : Cluster) : Prop :=
  (forall a n, cl_nodes c !! a = Some n -> node_sound P n) /\ Forall (packet_sound P) (cl_wire c).

Lemma cstep_inv a l c c' :
  cstep st key (a, l) c = Some c' ->
  exists n n', cl_nodes c !! a = Some n /\ carried (cl_wire c) a l = true /\ @step CR (key a) HI WF (st a) l n = Some n'
    /\ c' = {| cl_nodes := <[a := n']> (cl_nodes c); cl_wire := cl_wire c ++ sent a (@outputs CR (key a) HI (st a) l n) |}.
Proof.
  unfold cstep. destruct (cl_nodes c !! a) as [n|]; [|done]. destruct (carried _ _ _); [|done].
  intros (n' & Hs & ->)%fmap_Some_1. eauto 10.
Qed.

Lemma cstep_wf c0 al c c' : cstep st key al c = Some c' -> cluster_wf c0 c -> cluster_wf c0 c'.
Proof.
  destruct al as [a l]. intros (n & n' & Hn & _ & Hs & ->)%cstep_inv Hwf b m. cbn.
  destruct (decide (a = b)) as [<-|Hne]; [|rewrite lookup_insert_ne by done; apply Hwf].
  rewrite lookup_insert_eq. intros [= <-]. destruct (Hwf a n Hn) as (n0 & Hn0 & Hw). exists n0. split; [done|].
  by eapply (@step_wf CR (key a)).
Qed.

Lemma carried_sound P wire a l : Forall (packet_sound P) wire -> carried wire a l = true -> items_sound P (brought l).
Proof.
  rewrite Forall_forall. intros Hw Hc. destruct l; try constructor.
  destruct e as [| | | | |peer req ch|[]|]; try constructor; cbn in *; apply contains_true in Hc; exact (Hw _ Hc).
Qed.

(** The request was authorised: it carries the token that the node started with. *)
Definition authorised_at (c0 : Cluster) (a : NodeId) (h : Headers) : Prop :=
  exists n0, cl_nodes c0 !! a = Some n0 /\ authorised h (nd_app n0).

Lemma cstep_sound P c0 a l c c' :
  (forall env now h req p, l = LApi env now h req -> authorised_at c0 a h -> requested req p -> P p) ->
  cstep st key (a, l) c = Some c' -> cluster_wf c0 c -> cluster_sound P c -> cluster_sound P c'.
Proof.
  intros Hreq (n & n' & Hn & Hcar & Hs & ->)%cstep_inv Hwf [Hall Hwire].
  pose proof (carried_sound P _ a l Hwire Hcar) as Hb. specialize (Hall a n Hn) as Hsn. split.
  - intros b m. cbn. destruct (decide (a = b)) as [<-|Hne]; [|rewrite lookup_insert_ne by done; apply Hall].
    rewrite lookup_insert_eq. intros [= <-]. destruct (Hwf a n Hn) as (n0 & Hn0 & Hw).
    eapply (@step_sound CR (key a)); [exact Hb| |exact Hs|exact Hw|exact Hsn].
    intros env now h req p Hl Ha. apply (Hreq env now h req p Hl). exists n0. split; [done|].
    apply node_wf_iff in Hw as (Hid & _). injection Hid as _ _ Htok. unfold authorised in *. by rewrite <- Htok.
  - cbn. apply Forall_app. split; [done|]. by apply (@outputs_sound CR (key a)).
Qed.

Lemma crun_wf c0 als c : cluster_wf c0 c -> cluster_wf c0 (crun st key als c).
Proof.
  unfold crun. revert c. induction als as [|al als IH]; intros c Hc; [done|]. cbn [foldl]. apply IH.
  destruct (cstep st key al c) eqn:E; [by eapply cstep_wf|done].
Qed.

Lemma crun_sound P c0 als c :
  (forall a env now h req p, (a, LApi env now h req) ∈ als -> authorised_at c0 a h -> requested req p -> P p) ->
  cluster_wf c0 c -> cluster_sound P c -> cluster_sound P (crun st key als c).
Proof.
  unfold crun. revert c. induction als as [|[a l] als IH]; intros c Hreq Hwf Hs; [done|]. cbn [foldl].
  assert (forall a env now h req p, (a, LApi env now h req) ∈ als -> authorised_at c0 a h -> requested req p -> P p) as Hreq'.
  { intros b env now h req p Hin. eapply Hreq. by right. }
  destruct (cstep st key (a, l) c) as [c'|] eqn:E; [|by apply IH]. apply IH; [done|by eapply cstep_wf|].
  eapply cstep_sound; [|exact E|done|done]. intros env now h req p ->. eapply Hreq. left.
Qed.

(** The nodes at their start: nothing is on the wire, queued or announced yet. *)
Definition starting (c0 : Cluster) : Prop :=
  cl_wire c0 = []
  /\ forall a n, cl_nodes c0 !! a = Some n ->
       exists i, n = first_node i /\ app_wf (identity (ni_app i)) (ni_app i)
         /\ forall c, write_notify (ni_app i) = Some c -> bc_sent c = [].

Lemma starting_wf c0 : starting c0 -> cluster_wf c0 c0.
Proof.
  intros [_ Hs] a n Hn. exists n. split; [done|]. destruct (Hs a n Hn) as (i & -> & Hi & _).
  apply node_wf_iff. destruct Hi as [_ Hd Hg Hb]. split_and!; [done|done| |done].
  cbn. unfold current_groups. destruct (shared_groups (ni_app i)); [by apply Hg|apply NoDup_nil_2].
Qed.

(** Some node holds the item at the start. *)
Definition initially (c0 : Cluster) (p : Stamp) : Prop :=
  exists a n id row, cl_nodes c0 !! a = Some n /\ l2_items (nd_db n) !! id = Some row /\ stamp_of_row row = p.

(** An authorised request of the run asked for it. *)
Definition put_in (c0 : Cluster) (als : list (NodeId * Label)) (p : Stamp) : Prop :=
  exists a env now h req, (a, LApi env now h req) ∈ als /\ authorised_at c0 a h /\ requested req p.

Lemma starting_sound P c0 : (forall p, initially c0 p -> P p) -> starting c0 -> cluster_sound P c0.
Proof.
  intros Hp [Hw Hs]. split; [|rewrite Hw; constructor]. intros a n Hn. destruct (Hs a n Hn) as (i & -> & Hi & Hnote).
  split; try done; cbn.
  - intros id row Hrow. apply Hp. by exists a, (first_node i), id, row.
  - intros c Hc. rewrite (Hnote c Hc). constructor.
Qed.

End cluster.

(** [C7] Nothing comes from nowhere: in a network of started nodes, after any
    interleaving of their steps, with packets delayed, repeated, reordered or lost
    and with arbitrary requests, headers and group exchanges from outsiders, every
    item in the store of any node, every item on the wire and every notification
    not yet handled has the identifier, type, content, group, parent and copy
    mark of an item that an authorised API request at one of the nodes asked to
    store, or that was in one of the databases at the start; and every tombstone
    on the wire was asked for by an authorised request to delete that item. *)
Theorem items_have_an_origin `{Crypto} `{HashIter} `{WireFormats} st key c0 als :
  starting c0 ->
  let c := crun st key als c0 in
  let origin p := initially c0 p \/ put_in c0 als p in
  (forall a n id row, cl_nodes c !! a = Some n -> l2_items (nd_db n) !! id = Some row -> origin (stamp_of_row row))
  /\ (forall src dst req x, PPush src dst req ∈ cl_wire c -> x ∈ mpr_items req -> origin (stamp_of_item x))
  /\ (forall resp x, PItems resp ∈ cl_wire c -> x ∈ frs_items resp -> origin (stamp_of_item x))
  /\ (forall p, origin p -> sp_type p = TOMBSTONE ->
        exists a env now h r, (a, LApi env now h (RL2Delete r)) ∈ als /\ authorised_at c0 a h /\ l2d_item_id r = sp_id p).
Proof.
  intros Hs0 c origin.
  assert (cluster_sound origin c) as [Hn Hw].
  { apply (crun_sound st key origin c0); [|by apply starting_wf|apply starting_sound; [by left|done]].
    intros a env now h req p Hin Ha Hr. right. by exists a, env, now, h, req. }
  pose proof (starting_wf st c0 Hs0) as Hwf0.
  rewrite Forall_forall in Hw. split_and!.
  - intros a n id row Ha Hrow. exact (ns_db _ _ (Hn a n Ha) id row Hrow).
  - intros src dst req x Hp Hx. specialize (Hw _ Hp). cbn in Hw. unfold items_sound in Hw. rewrite Forall_forall in Hw. by apply Hw.
  - intros resp x Hp Hx. specialize (Hw _ Hp). cbn in Hw. unfold items_sound in Hw. rewrite Forall_forall in Hw. by apply Hw.
  - intros p [(a & n & id & row & Ha & Hrow & <-)|(a & env & now & h & req & Hin & Hau & Hr)] Ht.
    + destruct (Hwf0 a n Ha) as (_ & _ & (_ & Hd & _)%node_wf_iff). destruct Hd as [Hitems].
      destruct (Hitems id row Hrow) as [_ _ Hty _]. cbn in Ht. by rewrite Ht in Hty.
    + destruct req; try done; cbn in Hr.
      * destruct Hr as (data & _ & Hty & ->). cbn in Ht. by rewrite Ht in Hty.
      * exists a, env, now, h, r. by destruct Hr as (Hid & _).
Qed.

(** ** Example *)

(** Two nodes; the first is asked to store an item, and its push arrives at the second. *)
Definition ex_cluster : Cluster :=
  {| cl_nodes := <["a"%string := first_node ex_init]> {["p"%string := first_node ex_init]}; cl_wire := [] |}.

Definition ex_push : MemoryPushRequest := {| mpr_items := [
  {| fi_item_id := "i9"; fi_item_type := "entity"; fi_encrypted_blob := [Byte.x67]; fi_checksum := "g"; fi_author_id := "vault";
     fi_group_id := "g"; fi_key_version := 3; fi_parent_id := None; fi_is_copy := false; fi_updated_at := "2027-01-01T00:00:00Z" |}] |}.

Definition ex_actions : list (NodeId * Label) :=
  (pair "a"%string <$> [ LNetwork ex_env true (EvConnected "p" [] 1); LEvent 5 (fun _ => 0); LExchangeGroups "p" ["g"%string];
    LApi ex_env 6 (cli_headers "abc123") (RL2Write (ex_write "i9" "g")); LWrite ex_env "2027-01-01T00:00:00Z"; LFlush 8 true;
    LCommand ex_env 1; LCommand ex_env 2 ])
  ++ [("p"%string, LNetwork ex_env true (EvPush "a" ex_push 1))].

Abbreviation ex_after :=
  (@crun toy_crypto sorted_iter toy_wire (fun _ => ex_setting) (fun _ => toy_identity) ex_actions ex_cluster) (only parsing).

Definition ex_peer : Node := default (first_node ex_init) (cl_nodes ex_after !! "p"%string).

Lemma ex_peer_eq : cl_nodes ex_after !! "p"%string = Some ex_peer.
Proof. vm_compute. reflexivity. Qed.

Lemma ex_peer_has : is_Some (l2_items (nd_db ex_peer) !! "i9"%string).
Proof. vm_compute. eexists. reflexivity. Qed.

Lemma ex_starting : @starting toy_crypto ex_cluster.
Proof.
  split; [reflexivity|]. intros a n Hn. exists ex_init.
  assert (n = first_node ex_init) as ->.
  { unfold ex_cluster in Hn. cbn in Hn. apply lookup_insert_Some in Hn as [[_ <-]|[_ [_ <-]%lookup_singleton_Some]]; reflexivity. }
  split; [reflexivity|]. split.
  - exact (@start_app_wf toy_crypto sorted_iter toy_keys _ _ _ (ex_files ex_db) _ _ (aw_db _ _ ex_app_wf) ex_started_eq).
  - vm_compute. intros c [= <-]. reflexivity.
Qed.

Lemma items_have_an_origin_witness :
  exists row, l2_items (nd_db ex_peer) !! "i9"%string = Some row
    /\ (initially ex_cluster (stamp_of_row row) \/ @put_in toy_wire ex_cluster ex_actions (stamp_of_row row)).
Proof.
  destruct ex_peer_has as [row Hrow]. exists row. split; [exact Hrow|].
  destruct (@items_have_an_origin toy_crypto sorted_iter toy_wire (fun _ => ex_setting) (fun _ => toy_identity) ex_cluster ex_actions
    ex_starting) as [H _].
  exact (H _ _ _ _ ex_peer_eq Hrow).
Defined.
