(* ===== verification/Isolation.v ===== *)
(** * Groups that a node keeps out

    Items are replicated within groups: a node is to store only items of the
    groups that it takes part in.  [group_isolation] shows this of every state
    that a started node reaches, whatever its peers send: a personal or keeper
    node stores items of its own groups only, an explicit relay also those of its
    allowed groups, and no relay stores items of a blocked group, unless the
    owner of the node, with the API token, creates the group or writes the item.
    The invariant is [apart]: the store, the list of groups and the waiting sync
    round are free of the group, and the sets of a relay refuse it. *)

From S2P Require Import Prelude Float64 Protocol Governor Storage StorageProps Search Json Envelope EnvelopeProps ItemStore Replication.
From S2P Require Import PeerPool Config SwarmTask SwarmProps ReplicationTask SyncRound Api ApiProps GovernorTask Startup StartupProps.
From S2P Require Import Node NodeProps NodeRounds Cluster ClusterProps.

(** ** The group is refused *)

(** What a row of the group [g] would violate.  (The stamp of a tombstone may name any
    group: tombstones are not stored.) *)
Definition outside (g : GroupId) (p : Stamp) : Prop := sp_type p = TOMBSTONE \/ sp_group p <> g.

(** The role and the relay sets do not admit [g], whatever peers announce. *)
Definition shut_out (role : NodeRole) (rx : RelayCtx) (learned : option (gset string)) (g : GroupId) : Prop :=
  match rx_posture rx with
  | None => role <> Relay
  | Some Explicit => g ∈ rx_blocked rx \/ (learned = None /\ g ∉ default ∅ (rx_accepted rx))
  | Some _ => g ∈ rx_blocked rx
  end.

(** A round that was begun without the group. *)
Definition without (g : GroupId) (r : Round) : Prop :=
  (g ∉ rd_groups r) /\ rd_accept r = accept_set (rd_is_relay r) (rd_groups r).

Lemma without_refuses g r : without g r -> accepts (rd_groups r) (accept_test r) g = false.
Proof.
  intros [Hg Ha]. unfold accepts, accept_test. rewrite Ha. unfold accept_set. destruct (rd_is_relay r); cbn.
  - apply bool_decide_eq_false_2. by rewrite elem_of_list_to_set.
  - by apply contains_false.
Qed.

(** Items that are not refused are outside of the group. *)
Lemma accepted_outside gs relay g x : accepts gs relay g = false -> accepts gs relay (fi_group_id x) = true -> outside g (stamp_of_item x).
Proof. intros Hg Hx. right. cbn. intros <-. congruence. Qed.

Lemma relay_refuses role rx learned g gs :
  shut_out role rx learned g -> (g ∉ gs) ->
  forall readable, accepts gs (relay_check {| rx_posture := rx_posture rx;
    rx_accepted := match learned with Some l => Some l | None => rx_accepted rx end;
    rx_accepted_readable := readable; rx_blocked := rx_blocked rx |}) g = false.
Proof.
  unfold shut_out, accepts, relay_check, accepted_snap. cbn. intros Hs Hg readable.
  destruct (rx_posture rx) as [[| |]|]; [| | |by apply contains_false].
  1,2: by rewrite bool_decide_eq_true_2.
  case_bool_decide; [done|]. cbn. destruct Hs as [Hs|[-> Hs]]; [done|].
  destruct (rx_accepted rx) as [s|]; [|done]. cbn in *. destruct readable; apply bool_decide_eq_false_2; [done|apply not_elem_of_empty].
Qed.

Section groups.
Context `{CR : Crypto} `{HI : HashIter} (env : SqlEnv).

Lemma extend_groups_in x groups more : x ∈ extend_groups groups more -> x ∈ groups \/ x ∈ more.
Proof.
  unfold extend_groups. revert groups. induction more as [|y more IH]; intros groups Hx; [by left|]. cbn [foldl] in Hx.
  apply IH in Hx as [Hx|Hx]; [|right; by right]. destruct (contains groups y); [by left|].
  apply elem_of_app in Hx as [Hx|Hx%list_elem_of_singleton]; [by left|]. right. subst. left.
Qed.

(** The groups of the rows in the store. *)
Lemma stored_groups_outside g d gs :
  g <> EmptyString -> db_sound (outside g) d -> db_wf d -> (list_stored_group_ids env d).2 = Ok gs -> g ∉ gs.
Proof.
  intros Hne Hd Hwf Hgs Hin. unfold list_stored_group_ids, bind, db_lock, query, stmt in Hgs.
  destruct (lock_poisoned d); [done|]. destruct (fault env _); [done|]. injection Hgs as <-.
  apply elem_of_remove_dups, list_elem_of_omap in Hin as (row & Hrow & Hg).
  unfold values in Hrow. apply list_elem_of_fmap in Hrow as ([id row'] & -> & Hin). rewrite hash_iter_perm in Hin.
  apply elem_of_map_to_list in Hin. cbn in Hg. destruct (Hd id row' Hin) as [Ht|Ht]; cbn in Ht.
  - destruct Hwf as [Hitems]. destruct (Hitems id row' Hin) as [_ _ Hty _]. by rewrite Ht in Hty.
  - by rewrite Hg in Ht.
Qed.

Lemma tick_groups_outside role rx learned g shared d :
  g <> EmptyString -> shut_out role rx learned g -> db_sound (outside g) d -> db_wf d -> (g ∉ shared) ->
  g ∉ groups_to_sync env shared (bool_decide (role = Relay)) learned (rx_blocked rx) d.
Proof.
  intros Hne Hs Hd Hwf Hg Hin. unfold groups_to_sync in Hin. apply elem_of_filterb in Hin as [Hb Hin].
  apply negb_true_iff, bool_decide_eq_false in Hb. case_bool_decide as Hr; [|done].
  unfold shut_out in Hs. destruct (rx_posture rx) as [[| |]|]; [done|done| |done]. destruct Hs as [Hs|[-> _]]; [done|].
  destruct (list_stored_group_ids env d).2 as [stored|e] eqn:E; [|done].
  apply extend_groups_in in Hin as [Hin|Hin]; [done|]. by eapply stored_groups_outside.
Qed.

End groups.

(** ** Rounds *)

Section rounds.
Context `{CR : Crypto} `{HI : HashIter}.
Context (parse_culture : string -> option GroupCulture) (env : SqlEnv) (eng : ReplicationEngine) (tx : Chan) (draw : string -> nat).
Context (g : GroupId).

Definition waits_without (p : Progress) : Prop := forall r, pg_round p = Some r -> without g r.

Lemma next_group_without now is_relay groups todo s :
  (g ∉ groups) -> waits_without (next_group parse_culture env eng tx draw now is_relay groups todo s).
Proof.
  intros Hg. revert s. induction todo as [|gid rest IH]; intros s; [done|]. cbn [next_group].
  destruct (not_yet_due now s gid); [apply IH|]. destruct (schedule_group _ _ _ _ _ _) as [s' since].
  destruct (choose_partner _ _ _ _); [|apply IH]. by intros r [= <-].
Qed.

Lemma finish_without r res s : without g r -> waits_without (finish parse_culture env eng tx draw r res s).
Proof. intros [Hg _]. by apply next_group_without. Qed.

Lemma ask_next_without r latest todo c s : without g r -> waits_without (ask_next parse_culture env eng tx draw r latest todo c s).
Proof. intros Hr. destruct todo; [by apply finish_without|]. by intros r' [= <-]. Qed.

Lemma on_headers_without r a s : without g r -> waits_without (on_headers parse_culture env eng tx draw r a s).
Proof.
  intros Hr. destruct a; cbn [on_headers]; try by apply finish_without.
  destruct (list_group_items _ _ _ _ _).2; [|by apply finish_without]. case_bool_decide; [by apply finish_without|].
  destruct (chunks _ _); [by apply ask_next_without|by intros r' [= <-]].
Qed.

Lemma on_items_without r latest more c a s : without g r -> waits_without (on_items parse_culture env eng tx draw r latest more c a s).
Proof.
  intros Hr. destruct a; cbn [on_items]; try by apply finish_without. destruct (foldl _ _ _). by apply ask_next_without.
Qed.

Lemma start_bootstrap_without is_relay shared gid s : (g ∉ shared) -> waits_without (start_bootstrap eng tx draw is_relay shared gid s).
Proof. intros Hg. unfold start_bootstrap. destruct (choose_partner _ _ _ _); [|done]. by intros r [= <-]. Qed.

End rounds.

(** ** The list of groups *)

Section listed.
Context `{CR : Crypto} `{NI : NodeIdentity} `{HI : HashIter} `{WF : WireFormats}.

(** The swarm task only takes groups away. *)
Lemma drop_tombstoned_in x gone gs : x ∈ drop_tombstoned gone gs -> x ∈ gs.
Proof.
  unfold drop_tombstoned. revert gs. induction gone as [|y gone IH]; intros gs Hx; [done|]. cbn [foldl] in Hx.
  apply IH in Hx. by apply elem_of_filterb in Hx as [_ Hx].
Qed.

Lemma behaviour_groups env entity gs e s : sw_groups (handle_behaviour_event env entity gs e s).1.1 = sw_groups s.
Proof.
  destruct e; cbn [handle_behaviour_event]; unfold on_exchange_request, on_exchange_response, merge_offered;
    repeat match goal with
    | |- context [match ?x with Some descs => merge_descriptors _ _ _ | None => _ end] => destruct x
    | |- context [complete ?m ?i ?r] => destruct (complete m i r)
    | |- context [merge_descriptors ?a ?b ?c] => destruct (merge_descriptors a b c)
    | |- context [build_descriptors ?a ?b ?c] => destruct (build_descriptors a b c)
    end; done.
Qed.

Lemma event_groups env entity role rx addr_text e s x :
  x ∈ sw_groups (handle_event env entity role rx addr_text e s).1 -> x ∈ sw_groups s.
Proof.
  destruct e; try done; cbn [handle_event].
  - unfold handle_push. by destruct (handle_push_request _ _ _ _ _).
  - match goal with |- context [handle_behaviour_event ?a ?b ?c ?d ?f] => pose proof (behaviour_groups a b c d f) as Hb;
      destruct (handle_behaviour_event a b c d f) as [[s' out] mr] end. cbn in *. rewrite Hb. apply drop_tombstoned_in.
Qed.

Lemma command_groups env entity rid cmd s : sw_groups (handle_command env entity rid cmd s).1 = sw_groups s.
Proof.
  destruct cmd as [| | | | | |peer req tx]; try done. cbn [handle_command]. destruct (gx_descriptors req); [done|].
  by destruct (build_descriptors _ _ _).
Qed.

(** The API adds a group only when it is created. *)
Definition unlisted (g : GroupId) (s : AppState) : Prop := g ∉ current_groups s.

Lemma call_unlisted {A} g (m : M A) : runs (unlisted g) (fun _ => True) (call m).
Proof. intros s. split; [|done]. intros Hs. unfold call. by destruct (m (storage s)). Qed.

Lemma log_unlisted g env e : runs (unlisted g) (fun _ => True) (log env e).
Proof. intros s. unfold log. destruct (call_unlisted g (log_access env e) s) as [Hi _]. by destruct (call _ s). Qed.

Lemma retain_unlisted g gid s : unlisted g s -> unlisted g (set_shared_groups (retain_other gid <$> shared_groups s) s).
Proof.
  unfold unlisted, current_groups. cbn. intros Hs. destruct (shared_groups s) as [gs|]; [|done]. cbn in *.
  intros Hin. by apply elem_of_filterb in Hin as [_ Hin].
Qed.

Lemma push_unlisted g gid s : gid <> g -> unlisted g s -> unlisted g (set_shared_groups (push_group gid <$> shared_groups s) s).
Proof.
  unfold unlisted, current_groups. cbn. intros Hne Hs. destruct (shared_groups s) as [gs|]; [|done]. cbn in *.
  unfold push_group. case_match; [done|]. rewrite elem_of_app, list_elem_of_singleton. by intros [?|<-].
Qed.

Ltac unlisted_runs :=
  repeat lazymatch goal with
  | |- runs _ _ (api_bind (call _) _) => eapply runs_bind; [apply call_unlisted | intros ? _; cbv beta]
  | |- runs _ _ (api_bind (log _ _) _) => eapply runs_bind; [apply log_unlisted | intros ? _; cbv beta]
  | |- runs _ _ (api_bind (get _) _) => eapply runs_bind; [apply runs_get | intros ? _; cbv beta]
  | |- runs _ _ (api_bind (modify _) _) =>
      eapply runs_bind; [apply runs_modify; intros ? ?; repeat case_match; solve [done | by apply retain_unlisted | by apply push_unlisted]
                        | intros ? _; cbv beta]
  | |- runs _ _ (respond _) => apply runs_respond; done
  | |- runs _ _ (match ?x with _ => _ end) => destruct x
  end.

Lemma router_unlisted fts_match env now h req s g :
  (forall r, req = RGroupsCreate r -> authorised h s -> gc_group_id r <> g) -> unlisted g s ->
  unlisted g (router fts_match env now h req s).1.
Proof.
  intros Hreq Hs. assert (forall m, router fts_match env now h req = authed h m -> (authorised h s -> runs (unlisted g) (fun _ => True) m) ->
    unlisted g (router fts_match env now h req s).1) as Hgo.
  { intros m -> Hm. destruct (check_auth_spec h s) as [[_ Ha]|[Hc _]].
    - rewrite authed_ok by done. by apply (proj1 (Hm Ha s)).
    - unfold authed. by rewrite Hc. }
  destruct req; (eapply Hgo; [reflexivity|intros Ha]); cbv zeta; try solve [unlisted_runs].
  assert (gc_group_id r <> g) by (by apply Hreq). unlisted_runs.
Qed.

End listed.

(** ** A node *)

Section apart.
Context `{CR : Crypto} `{NI : NodeIdentity} `{HI : HashIter} `{WF : WireFormats}.
Context (st : Setting) (g : GroupId).

Record apart (n : Node) : Prop := {
  ap_db : db_sound (outside g) (nd_db n);
  ap_notes : notes_sound (outside g) (nd_app n);
  ap_groups : g ∉ nd_groups n;
  ap_round : forall r, nd_round n = Some r -> without g r;
  ap_shut : shut_out (st_role st) (st_relay st) (gt_learned (nd_gov n)) g;
}.

(** Only a dynamic relay learns groups. *)
Definition learns_alike (s s' : GovTask) : Prop := gt_learned s = None -> gt_learned s' = None.

Lemma shut_alike role rx s s' : learns_alike s s' -> shut_out role rx (gt_learned s) g -> shut_out role rx (gt_learned s') g.
Proof. intros Hl. unfold shut_out. destruct (rx_posture rx) as [[| |]|]; try done. intros [?|[? ?]]; [by left|right]. split; [by apply Hl|done]. Qed.

Lemma put_gov_apart r n : learns_alike (nd_gov n) r.1 -> apart n -> apart (put_gov r n).
Proof. intros Hl [Hd Hn Hg Hr Hs]. split; [done..|]. by eapply shut_alike. Qed.

Lemma event_learns now shared tx e s : learns_alike s (on_event now shared tx e s).1.
Proof.
  unfold learns_alike. intros Hs. destruct e; try done; cbn [on_event].
  - unfold on_connected. by destruct (take_pending _ _).
  - cbn [fst]. unfold on_identify. cbv zeta. case_bool_decide; [done|]. destruct (pool_get _ _); [|done]. by case_bool_decide.
  - cbn [fst]. unfold on_dial_failure. by case_match.
Qed.

Lemma dials_learn ids s : gt_learned (dial_promoted ids s).1 = gt_learned s.
Proof.
  unfold dial_promoted. generalize (@nil SwarmCommand) as out. revert s. induction ids as [|id ids IH]; intros s out; [done|].
  cbn [foldl]. unfold dial_step at 2. case_match; by rewrite IH.
Qed.

Lemma tick_learns c now shared resolve tx s : learns_alike s (on_tick (st_placeholder_id st) c now shared resolve tx s).1.1.
Proof.
  intros Hs. unfold on_tick. destruct (tick _ _) as [g' a]. destruct (apply_governor_actions _ _) as [pool gone].
  pose proof (dials_learn (connect a) (gt_set_pool pool (gt_set_gov g' s))) as Hd.
  destruct (dial_promoted _ _) as [s1 dials]. cbn [fst] in *. unfold retry_bootnodes. destruct (_ && _); [|by rewrite <- Hs].
  destruct (foldl _ _ _) as [[g2 un] res]. by rewrite <- Hs.
Qed.

Lemma learn_alike b theirs s : learns_alike s (exchange_learn b theirs s).
Proof. unfold learns_alike, exchange_learn. intros Hs. by rewrite Hs. Qed.

Lemma put_repl_apart arm n n' :
  (forall s, db_sound (outside g) (rt_db s) -> db_sound (outside g) (rt_db (arm s).1)) -> repl_arm arm n = Some n' -> apart n -> apart n'.
Proof.
  intros Harm. unfold repl_arm. destruct (nd_round n); [done|]. intros [= <-] [Hd Hn Hg Hr Hs]. split; [|done..].
  by apply (Harm (update_gauges (repl_view n))).
Qed.

Lemma put_progress_apart p n : db_sound (outside g) (rt_db (pg_repl p)) -> waits_without g p -> apart n -> apart (put_progress p n).
Proof. by intros Hp Hw [Hd Hn Hg _ Hs]. Qed.

Lemma round_arm_apart arm n n' :
  (forall s, rt_db s = nd_db n -> db_sound (outside g) (rt_db (pg_repl (arm s))) /\ waits_without g (arm s)) ->
  round_arm arm n = Some n' -> apart n -> apart n'.
Proof.
  intros Harm. unfold round_arm. destruct (nd_round n); [done|]. intros [= <-] Hn.
  destruct (Harm (update_gauges (repl_view n)) eq_refl). by apply put_progress_apart.
Qed.

Lemma set_app_apart app n : notes_sound (outside g) app -> apart n -> apart (set_app app n).
Proof. by intros Ha []. Qed.

(** The owner of the node does not bring the group in. *)
Definition keeps_out (app : AppState) (l : Label) : Prop :=
  match l with
  | LApi _ _ h (RGroupsCreate r) => authorised h app -> gc_group_id r <> g
  | LApi _ _ h (RL2Write r) => authorised h app -> wm_group_id (default no_meta (l2w_meta r)) <> Some g
  | _ => True
  end.

Lemma api_apart env now h req n :
  g <> EmptyString -> keeps_out (nd_app n) (LApi env now h req) -> apart n ->
  apart (put_app (router (st_fts_match st) env now h req (app_view (st_addr_text st) n)).1 n).
Proof.
  intros Hne Hk [Hd Hn Hg Hr Hs]. set (v := app_view (st_addr_text st) n).
  assert (authorised h v -> authorised h (nd_app n)) as Hau by (unfold v, app_view, authorised; by destruct (peer_count_by_state _)).
  assert (app_sound (outside g) (router (st_fts_match st) env now h req v).1) as [Hd' Hn'].
  { apply router_sound.
    - intros p Ha Hp. destruct req; try done.
      + destruct Hp as (data & _ & _ & ->). right. cbn in *. intros <-. apply (Hk (Hau Ha)).
        by destruct (wm_group_id _).
      + destruct Hp as (_ & Ht & _). by left.
    - unfold v, app_view. destruct (peer_count_by_state _). by split. }
  assert (unlisted g (router (st_fts_match st) env now h req v).1) as Hu.
  { apply router_unlisted; [intros r -> Ha; by apply Hk, Hau|]. unfold v, app_view. by destruct (peer_count_by_state _). }
  split; [done|done| |done|done]. exact Hu.
Qed.

Lemma network_apart env readable e conns n :
  NoDup (nd_groups n) -> apart n ->
  apart (put_swarm (handle_event env (st_entity_id st) (st_role st) (relay_ctx st readable n) (st_addr_text st) e (swarm_view n)) (set_conns conns n)).
Proof.
  intros Hnd [Hd Hn Hg Hr Hs]. split; [|done| |done|done].
  - apply (handle_event_wf (db_sound (outside g)) (tame_sound (outside g))); [|done]. intros x _ Hx. apply admits_sound.
    eapply accepted_outside; [|exact Hx]. by apply (relay_refuses (st_role st) (st_relay st) (gt_learned (nd_gov n))).
  - intros Hin. by apply event_groups in Hin.
Qed.

Lemma resume_apart env draw n n' : resume st env draw n = Some n' -> apart n -> apart n'.
Proof.
  intros Hs Hn. unfold resume, answered in Hs. destruct (nd_round n) as [r|] eqn:Er; [|done]. destruct (nd_reply n) as [a|]; [|done].
  apply fmap_Some_1 in Hs as (p & Hp & ->). pose proof (ap_db n Hn) as Hd. pose proof (ap_round n Hn r Er) as Hr.
  assert (forall x, accepts (rd_groups r) (accept_test r) (fi_group_id x) = true -> admits (db_sound (outside g)) x) as Hx.
  { intros x Hx. apply admits_sound. eapply accepted_outside; [|exact Hx]. by apply without_refuses. }
  assert (apart (settle_channels p n)) as Hn'.
  { destruct (settle_cases p n) as [->| ->]; [done|]. apply set_app_apart; [apply notes_hang_up|done]. }
  apply put_progress_apart; [| |done];
    (destruct (rd_waiting r), a as [[]|]; try done; apply Some_inj in Hp; subst p); try (by apply on_headers_without); try (by apply on_items_without);
    apply db_repl_sound; (apply on_headers_wf || (apply on_items_wf; [apply tame_sound|by auto|])); by apply db_repl_sound.
Qed.

Lemma step_apart i l n n' :
  g <> EmptyString -> keeps_out (nd_app n) l -> step st l n = Some n' -> node_wf (st_addr_text st) i n -> apart n -> apart n'.
Proof.
  intros Hne Hk Hs (_ & Hwf & Hnd & _)%node_wf_iff Hn. pose proof (ap_db n Hn) as Hd. destruct l; cbn [step] in Hs.
  - injection Hs as <-. by apply api_apart.
  - destruct (nd_cmds n) as [|c rest]; [done|]. injection Hs as <-. destruct Hn as [_ Hw Hg Hr Hsh]. split; [|done| |done|done].
    + by apply (handle_command_wf (db_sound (outside g)) (tame_sound (outside g))).
    + cbn. by rewrite command_groups.
  - destruct (count_connections _ _) as [conns|]; [|done]. injection Hs as <-. by apply network_apart.
  - destruct (nd_events n) as [|e rest]; [done|]. injection Hs as <-. apply put_gov_apart; [apply event_learns|by destruct Hn].
  - destruct (drop_old _); [|done]. injection Hs as <-. by destruct Hn.
  - injection Hs as <-. apply put_gov_apart; [apply tick_learns|done].
  - injection Hs as <-. apply put_gov_apart; [by intros Hl|done].
  - injection Hs as <-. apply put_gov_apart; [by intros Hl|done].
  - injection Hs as <-. apply put_gov_apart; [apply learn_alike|done].
  - injection Hs as <-. apply put_gov_apart; [by intros Hl|done].
  - injection Hs as <-. apply put_gov_apart; [by intros Hl|done].
  - destruct (recv_write (nd_app n)) as [[w app]|] eqn:E; [|done]. eapply put_repl_apart; [|exact Hs|apply set_app_apart; [by eapply recv_write_notes, (ap_notes n Hn)|done]].
    intros s Hs'. cbn [fst]. apply db_repl_sound, write_notification_wf. by apply db_repl_sound.
  - destruct (lose_writes (nd_app n)) eqn:E; [|done]. injection Hs as <-. apply set_app_apart; [|done]. by eapply lose_writes_notes, (ap_notes n Hn).
  - eapply put_repl_apart; [|exact Hs|done]. intros s. rewrite !(db_repl_sound (outside g)). by apply flush_wf.
  - eapply put_repl_apart; [|exact Hs|done]. intros s. rewrite !(db_repl_sound (outside g)). by apply retry_wf.
  - eapply round_arm_apart; [|exact Hs|done]. intros s Es. split; [apply db_repl_sound, start_tick_wf, db_repl_sound; by rewrite Es|].
    apply next_group_without. rewrite Es. apply (tick_groups_outside env (st_role st) (st_relay st)); [done|apply (ap_shut n Hn)|done|done|apply (ap_groups n Hn)].
  - destruct (recv_bootstrap (nd_app n)) as [[gid app]|] eqn:E; [|done]. eapply round_arm_apart; [|exact Hs|apply set_app_apart; [by eapply recv_bootstrap_notes, (ap_notes n Hn)|done]].
    intros s Es. split; [|apply start_bootstrap_without, (ap_groups n Hn)]. apply db_repl_sound, start_bootstrap_wf, db_repl_sound. by rewrite Es.
  - by eapply resume_apart.
  - eapply put_repl_apart; [|exact Hs|done]. intros s Hs'. cbn [fst]. apply db_repl_sound, gc_wf; [apply tame_sound|]. by apply db_repl_sound.
Qed.

End apart.

Lemma run_apart `{Crypto} `{NodeIdentity} `{HashIter} `{WireFormats} st g i ls n :
  g <> EmptyString -> node_wf (st_addr_text st) i n ->
  (forall app l, identity app = i -> l ∈ ls -> keeps_out g app l) -> apart st g n -> apart st g (run st ls n).
Proof.
  intros Hne. unfold run. revert n. induction ls as [|l ls IH]; intros n Hwf Hk Hn; [done|]. cbn [foldl].
  assert (forall app l, identity app = i -> l ∈ ls -> keeps_out g app l) as Hk' by (intros app x Ha Hx; apply Hk; [done|by right]).
  destruct (step st l n) as [n'|] eqn:E; [|by apply IH]. apply IH; [by eapply step_wf|done|].
  eapply step_apart; [done| |done|done|done]. apply Hk; [by apply node_wf_iff in Hwf as [? _]|left].
Qed.

(** Whether a request is authorised depends on the token alone. *)
Lemma keeps_out_same g app app' l : identity app = identity app' -> keeps_out g app l -> keeps_out g app' l.
Proof. intros [= _ _ Ht]. unfold keeps_out, authorised. destruct l as [env now h []| | | | | | | | | | | | | | | | | |]; by rewrite ?Ht. Qed.

(** What the configuration says of a group that is to stay out. *)
Definition configured_out (c : NodeConfig) (g : GroupId) : Prop :=
  match relay_posture_val c with
  | None => True
  | Some Explicit => (g ∉ relay_allowed_groups c) \/ g ∈ relay_blocked_groups c
  | Some _ => g ∈ relay_blocked_groups c
  end.

Lemma start_shut_out c g : configured_out c g -> shut_out (cfg_role c) (initial_relay_ctx c) (relay_learned_groups c) g.
Proof.
  unfold configured_out, shut_out. cbn. unfold relay_learned_groups, relay_accepted_groups, relay_posture_val.
  case_bool_decide; [|done]. destruct (cfg_relay_posture c); [done..|]. rewrite bool_decide_eq_false_2 by done.
  intros [?|?]; [by right|by left].
Qed.

(** ** Theorems *)

(** [C8] Group isolation: take a group that is not among those a node starts with,
    of which its database has no items, and which, on an explicit relay, is not
    allowed or, on the other relays, is blocked.  As long as no request with the
    node's token creates the group or writes an item to it, the node never
    stores an item of it and never takes part in it, whatever its peers push,
    announce, answer or offer and in whatever order its tasks run: not by a
    push, a sync round, a bootstrap, a group exchange or a learned group. *)
Theorem group_isolation `{Crypto} `{NodeIdentity} `{HashIter} `{WireFormats} `{KL : KeyLib} base58 st w c f f' i ls g :
  db_wf (f_db f) -> run_node base58 w c f = (f', Ok i) -> st_role st = cfg_role c -> st_relay st = ni_relay i ->
  g <> EmptyString -> (g ∉ current_groups (ni_app i)) ->
  configured_out c g ->
  (forall id row, l2_items (storage (ni_app i)) !! id = Some row -> l2_group_id row <> Some g) ->
  Forall (keeps_out g (ni_app i)) ls ->
  let n := run st ls (first_node i) in
  (forall id row, l2_items (nd_db n) !! id = Some row -> l2_group_id row <> Some g) /\ g ∉ nd_groups n.
Proof.
  intros Hd Hrun Hrole Hrelay Hne Hg Hp Hrows Hk n.
  pose proof (start_app_wf _ _ _ _ _ _ Hd Hrun) as Happ. pose proof (first_node_wf st _ Happ) as Hwf.
  assert (apart st g (first_node i)) as Ha.
  { apply run_node_ok in Hrun as (id & token & d & [_ _ _ _ (listen & ext & t & _ & ->)]). split; try done.
    - intros k row Hrow. right. cbn. specialize (Hrows k row Hrow). destruct (l2_group_id row); cbn; congruence.
    - intros ch [= <-]. constructor.
    - rewrite Hrelay, Hrole. cbn [first_node nd_gov]. rewrite (proj2 (assemble_task base58 w c id token (f_db f') listen ext t)). by apply start_shut_out. }
  apply (run_apart st g (identity (ni_app i)) ls) in Ha as Hn; [|done|done|].
  2: { intros app l Happ' Hl. rewrite Forall_forall in Hk. by eapply keeps_out_same; [|apply Hk]. }
  split; [|apply (ap_groups _ _ _ Hn)]. intros id row Hrow Hgr. destruct (ap_db _ _ _ Hn id row Hrow) as [Ht|Ht]; cbn in Ht.
  - apply (run_wf st _ ls), node_wf_iff in Hwf as (_ & Hd' & _). destruct Hd' as [Hitems].
    destruct (Hitems id row Hrow) as [_ _ Hty _]. by rewrite Ht in Hty.
  - by rewrite Hgr in Ht.
Qed.

(** ** Example *)

(** A keeper of the group "g"; a peer pushes an item of the group "x" and names it in an
    exchange, and the keeper is asked to store an item of its own group. *)
Definition ex_foreign_push : MemoryPushRequest := {| mpr_items := [
  {| fi_item_id := "i9"; fi_item_type := "entity"; fi_encrypted_blob := [Byte.x67]; fi_checksum := @sha256_hex toy_crypto [Byte.x67];
     fi_author_id := "mallory"; fi_group_id := "x"; fi_key_version := 3; fi_parent_id := None; fi_is_copy := false;
     fi_updated_at := "2027-01-01T00:00:00Z" |}] |}.

Definition ex_foreign_labels : list Label :=
  [ LNetwork ex_env true (EvConnected "p" [] 1); LEvent 5 (fun _ => 0); LExchangeGroups "p" ["x"%string];
    LNetwork ex_env true (EvPush "p" ex_foreign_push 1); ex_exchange;
    LApi ex_env 6 (cli_headers "abc123") (RL2Write (ex_write "i8" "g")) ].

Lemma group_isolation_witness :
  ex_started = (ex_files1, Ok ex_init) /\ "x"%string ∉ nd_groups (ex_run ex_foreign_labels).
Proof.
  split; [exact ex_started_eq|].
  apply (@group_isolation toy_crypto toy_identity sorted_iter toy_wire toy_keys _ ex_setting _ keeper_config (ex_files ex_db) _ _ ex_foreign_labels
    "x"%string (aw_db _ _ ex_app_wf) ex_started_eq).
  - reflexivity.
  - vm_compute. reflexivity.
  - discriminate.
  - apply contains_false. vm_compute. reflexivity.
  - exact I.
  - apply map_Forall_to_list. apply Forall_forall. vm_compute map_to_list. intros [k row] Hin.
    repeat (apply elem_of_cons in Hin as [[= -> ->]|Hin]; [discriminate|]). by apply elem_of_nil in Hin.
  - repeat constructor. discriminate.
Defined.

(** ** A round outlives its group *)

(** The groups of a round are those at its beginning: a group that is deleted through the
    API while the node waits for the partner's answers gets the items all the same. *)
Definition ex_late_item : FetchedItem :=
  {| fi_item_id := "i9"; fi_item_type := "entity"; fi_encrypted_blob := [Byte.x67]; fi_checksum := @sha256_hex toy_crypto [Byte.x67];
     fi_author_id := "bob"; fi_group_id := "g"; fi_key_version := 1; fi_parent_id := None; fi_is_copy := false;
     fi_updated_at := "2027-01-01T00:00:00Z" |}.

Definition ex_late_header : ItemHeader :=
  {| ih_item_id := "i9"; ih_item_type := "entity"; ih_checksum := fi_checksum ex_late_item; ih_updated_at := "2027-01-01T00:00:00Z";
     ih_author_id := "bob"; ih_is_deletion := false |}.

Definition ex_late_labels : list Label := ex_sync_labels ++
  [ LApi ex_env 9 (cli_headers "abc123") (RGroupsDelete {| gdl_group_id := "g" |});
    LNetwork ex_env true (EvBehaviour (BSyncResponse 2 {| srs_items := [ex_late_header]; srs_has_more := false |}));
    LResume ex_env (fun _ => O); LCommand ex_env 3;
    LNetwork ex_env true (EvBehaviour (BFetchResponse 3 {| frs_items := [ex_late_item] |}));
    LResume ex_env (fun _ => O) ].

Lemma deleted_group_refilled :
  let n := ex_run ex_late_labels in
  nd_groups (ex_run ex_sync_labels) = ["dead"; "g"; "new"]%string /\ nd_groups n = ["dead"; "new"]%string
  /\ l2_group_id <$> l2_items (nd_db n) !! "i9"%string = Some (Some "g"%string).
Proof. vm_compute. repeat split. Qed.
