(* ===== verification/Shutdown.v ===== *)
(** * Shutting down

    On Ctrl-C [run_node] (main.rs) sends on the shutdown channel and waits for the
    tasks.  A task leaves its loop when it is in its [select!] again.  The swarm
    and governor tasks are there after every arm; the replication task may be
    waiting for an answer in a sync round.  As long as anyone holds the sender of
    the round's response channel the task stays there; a request that is queued
    or outstanding at the swarm task is such a holder.  When the swarm task
    leaves its loop its command queue and its tables of outstanding requests are
    dropped ([swarm_exit]): the response channel is closed and the round fails,
    the requests that the rest of the tick would send cannot be sent, and the
    task is back in its loop ([shutdown_ends_round]): the wait for the tasks
    ends, and nothing that was stored is touched. *)

From S2P Require Import Prelude Float64 Protocol Governor Storage StorageProps Search Json Envelope ItemStore Replication PeerPool Config.
From S2P Require Import SwarmTask SwarmProps EnvelopeProps ReplicationTask SyncRound Api ApiProps GovernorTask Startup StartupProps.
From S2P Require Import Node NodeProps NodeRounds Cluster ClusterProps.

(** A node that is shutting down: whether its swarm task still runs. *)
Record Closing := { cl_node : Node; cl_swarm : bool }.

(** The swarm task leaves its loop: the commands that it did not receive and the requests
    that are outstanding are dropped, and with them their response channels. *)
Definition swarm_exit (c : Closing) : Closing :=
  let n := cl_node c in
  let s := nd_swarm n in {|
  cl_swarm := false;
  cl_node := {|
    nd_db := nd_db n; nd_groups := nd_groups n; nd_gov := nd_gov n;
    nd_swarm := {| sw_db := sw_db s; sw_groups := sw_groups s; sw_pool := sw_pool s; pending_peer_share := ∅; pending_sync := ∅;
                   pending_fetch := ∅; pending_group_exchange := ∅ |};
    nd_repl := nd_repl n; nd_app := nd_app n; nd_cmds := []; nd_events := nd_events n; nd_conns := nd_conns n;
    nd_round := nd_round n; nd_reply := nd_reply n; nd_chans := nd_chans n;
  |}
|}.

(** The response channel that a command carries. *)
Definition response_chan (c : SwarmCommand) : option Chan :=
  match c with
  | CmdSync _ _ tx | CmdFetch _ _ tx | CmdPeerShare _ _ tx | CmdGroupExchange _ _ tx => Some tx
  | _ => None
  end.

(** Somebody holds the sender of the channel: a queued command or an outstanding request. *)
Definition held (ch : Chan) (n : Node) : bool :=
  existsb (fun c => bool_decide (response_chan c = Some ch)) (nd_cmds n)
  || existsb (fun m => existsb (fun ic => bool_decide (ic.2 = ch)) (map_to_list m))
       [pending_peer_share (nd_swarm n); pending_sync (nd_swarm n); pending_fetch (nd_swarm n); pending_group_exchange (nd_swarm n)].

(** Nobody receives commands any more. *)
Definition gone : PeerAnswers := {| ask_sync _ := SendFailed _; ask_fetch _ := SendFailed _ |}.

Section closed.
Context `{CR : Crypto} `{HI : HashIter}.
Context (parse_culture : string -> option GroupCulture) (env : SqlEnv) (eng : ReplicationEngine) (tx : Chan) (draw : string -> nat).

(** The response channel of the waiting request is closed; a task that panicked does not
    wait. *)
Definition on_closed (r : Round) (s : Repl) : option Progress :=
  match rd_waiting r with
  | ForHeaders => Some (on_headers parse_culture env eng tx draw r (ResponseClosed _) s)
  | ForItems latest more c => Some (on_items parse_culture env eng tx draw r latest more c (ResponseClosed _) s)
  | Gone => None
  end.

(** What the shutdown must not disturb: the store and the queues. *)
Definition kept (s s' : Repl) : Prop := rt_db s' = rt_db s /\ queues s' = queues s.

Lemma kept_trans s1 s2 s3 : kept s1 s2 -> kept s2 s3 -> kept s1 s3.
Proof. intros [H1 H2] [H3 H4]. split; congruence. Qed.

Lemma record_kept gid r s : kept s (record_round gid r s).
Proof. by destruct r as [[]|]. Qed.

(** Without a swarm task the groups that are left fail one by one; [k] bounds the requests. *)
Lemma groups_fail now is_relay groups todo s k :
  (length todo <= k)%nat ->
  exists s', drive parse_culture env eng tx draw (fun _ => gone) k (next_group parse_culture env eng tx draw now is_relay groups todo s)
    = Some (s', true) /\ kept s s'.
Proof.
  revert s k. induction todo as [|gid rest IH]; intros s k Hk; [exists s; by destruct k|]. cbn [length] in Hk. cbn [next_group].
  destruct (not_yet_due now s gid); [apply IH; lia|]. destruct (schedule_group _ _ _ now gid s) as [s1 since] eqn:E.
  assert (kept s s1) as H1 by (by injection E as <- _). destruct (choose_partner _ _ _ _) as [h|].
  - destruct k as [|k]; [lia|]. cbn [drive pg_round new_round rd_waiting pg_cmds pg_repl gone ask_sync on_headers]. unfold finish.
    destruct (IH (record_round gid (Err SyncSendFailed) s1) k) as (s' & Hd & Hs'); [lia|]. exists s'. split; [exact Hd|].
    eapply kept_trans; [exact H1|]. eapply kept_trans; [apply record_kept|exact Hs'].
  - destruct (IH (record_round gid (Ok None) s1) k) as (s' & Hd & Hs'); [lia|]. exists s'. split; [exact Hd|].
    eapply kept_trans; [exact H1|]. eapply kept_trans; [apply record_kept|exact Hs'].
Qed.

(** So does a round that has just sent a request, and the rest of its tick. *)
Lemma sent_round_fails p :
  asks tx p -> exists k out, drive parse_culture env eng tx draw (fun _ => gone) k p = Some out /\ kept (pg_repl p) out.1
    /\ out.2 = match pg_round p with Some r => negb (is_gone r) | None => true end.
Proof.
  unfold asks, is_gone. destruct p as [s [r|] cmds]; cbn [pg_round pg_cmds pg_repl]; [|intros _; by exists 0%nat, (s, true)].
  intros [_ Hc]. destruct (rd_waiting r) as [|latest more c|] eqn:Ew.
  3: { exists 0%nat, (s, false). cbn. by rewrite Ew. }
  all: destruct Hc as (cmd & -> & Hc); unfold wants_items in Hc; rewrite Ew in Hc; destruct cmd; try done.
  - destruct (groups_fail (rd_now r) (rd_is_relay r) (rd_groups r) (rd_rest r) (record_round (rd_group r) (Err SyncSendFailed) s) (length (rd_rest r)) ltac:(lia))
      as (s' & Hd & Hk). exists (S (length (rd_rest r))), (s', true). cbn [drive pg_round pg_cmds pg_repl]. rewrite Ew.
    split; [exact Hd|]. split; [|done]. eapply kept_trans; [apply record_kept|exact Hk].
  - destruct (groups_fail (rd_now r) (rd_is_relay r) (rd_groups r) (rd_rest r) (record_round (rd_group r) (Err FetchSendFailed) s) (length (rd_rest r)) ltac:(lia))
      as (s' & Hd & Hk). exists (S (length (rd_rest r))), (s', true). cbn [drive pg_round pg_cmds pg_repl]. rewrite Ew.
    split; [exact Hd|]. split; [|done]. eapply kept_trans; [apply record_kept|exact Hk].
Qed.

(** A closed channel fails the waiting round and the rest of its tick. *)
Lemma closed_round_ends r s p :
  on_closed r s = Some p -> asks tx p /\ kept s (pg_repl p) /\ match pg_round p with Some r => is_gone r = false | None => True end.
Proof.
  unfold on_closed. assert (forall res, let p := finish parse_culture env eng tx draw r res s in
    asks tx p /\ kept s (pg_repl p) /\ match pg_round p with Some r => is_gone r = false | None => True end) as Hf.
  { intros res. cbv zeta. split; [apply next_group_asks|]. unfold finish.
    assert (kept s (record_round (rd_group r) res s)) as Hk by apply record_kept. revert Hk.
    generalize (record_round (rd_group r) res s) as s1. induction (rd_rest r) as [|gid rest IH]; intros s1 Hk; [done|]. cbn [next_group].
    destruct (not_yet_due _ s1 gid); [by apply IH|]. destruct (schedule_group _ _ _ _ gid s1) as [s2 since] eqn:E.
    assert (kept s s2) as H2 by (injection E as <- _; by destruct Hk). destruct (choose_partner _ _ _ _); [done|].
    apply IH. eapply kept_trans; [exact H2|apply record_kept]. }
  destruct (rd_waiting r); intros [= <-]; apply Hf.
Qed.

End closed.

(** ** The replication task winds down *)

Section winding.
Context `{CR : Crypto} `{NI : NodeIdentity} `{HI : HashIter} `{WF : WireFormats}.
Context (st : Setting) (env : SqlEnv) (draw : string -> nat).

(** What wakes the waiting task once the swarm task is gone: an answer that has arrived, or
    that its response channel is closed because nobody holds the sender; [None]: it still
    waits, or the swarm task still runs and the node goes on by its steps. *)
Definition woken (r : Round) (c : Closing) : option Progress :=
  let n := cl_node c in
  if cl_swarm c then None
  else
    match nd_reply n with
    | Some a => answered st env draw r a n
    | None =>
        if held (rd_chan r) n then None
        else on_closed (st_parse_culture st) env (st_engine st) (round_chan n) draw r (repl_view n)
    end.

(** The replication task from where it is to its loop, where it receives the shutdown, or to
    its end by a panic; the swarm task is gone, so that its sends fail.  [None]: it still
    waits, or the fuel, which bounds its sends, is too small. *)
Definition wind_down (fuel : nat) (c : Closing) : option Closing :=
  let n := cl_node c in
  match nd_round n with
  | None => Some c
  | Some r =>
      if is_gone r then Some c
      else
        match woken r c with
        | None => None
        | Some p =>
            match drive (st_parse_culture st) env (st_engine st) (round_chan n) draw (fun _ => gone) fuel p with
            | None => None
            | Some (s, alive) =>
                let p := {| pg_repl := s; pg_round := if alive then None else pg_round p; pg_cmds := [] |} in
                Some {| cl_node := put_progress p (settle_channels p n); cl_swarm := cl_swarm c |}
            end
        end
  end.

(** The replication task waits as long as anyone holds its response channel. *)
Lemma waits_for_swarm fuel c r :
  nd_round (cl_node c) = Some r -> is_gone r = false -> nd_reply (cl_node c) = None -> held (rd_chan r) (cl_node c) = true ->
  wind_down fuel c = None.
Proof. intros Hr Hg Ha Hh. unfold wind_down, woken. rewrite Hr, Hg, Ha, Hh. by destruct (cl_swarm c). Qed.

(** The end of the swarm task closes every response channel. *)
Lemma exit_closes ch c : held ch (cl_node (swarm_exit c)) = false.
Proof. done. Qed.

Lemma exit_wf i c : node_wf (st_addr_text st) i (cl_node c) -> node_wf (st_addr_text st) i (cl_node (swarm_exit c)).
Proof. by rewrite !node_wf_iff. Qed.

(** A woken task comes to its loop, unless it panics on the answer it was woken with. *)
Lemma woken_winds_down c r p :
  nd_round (cl_node c) = Some r -> is_gone r = false -> woken r c = Some p -> asks (round_chan (cl_node c)) p ->
  exists fuel c', wind_down fuel c = Some c' /\ nd_db (cl_node c') = rt_db (pg_repl p)
    /\ nd_round (cl_node c') = match pg_round p with Some r => if is_gone r then Some r else None | None => None end
    /\ nd_app (cl_node c') = nd_app (settle_channels p (cl_node c)) /\ nd_groups (cl_node c') = nd_groups (cl_node c).
Proof.
  intros Hr Hg Hw Ha.
  destruct (sent_round_fails (st_parse_culture st) env (st_engine st) _ draw p Ha) as (k & [s alive] & Hd & [Hk _] & Hal).
  cbn [fst snd] in Hk, Hal. exists k. unfold wind_down. rewrite Hr, Hg, Hw, Hd. eexists. split; [reflexivity|].
  cbn [cl_node put_progress nd_db nd_round nd_app nd_groups pg_repl pg_round]. split; [exact Hk|]. rewrite Hal.
  unfold settle_channels. cbn [pg_round]. destruct (pg_round p) as [r'|]; [|done]. by destruct (is_gone r') eqn:Eg; cbn [negb]; rewrite ?Eg.
Qed.

End winding.

(** ** Theorems *)

(** [C36] A shutdown comes to its end: in whatever state a started node is when its
    swarm task leaves its loop, the replication task comes back to its own loop,
    where it receives the shutdown, within finitely many sends and without
    waiting for anyone: an answer that has already arrived is used, and otherwise
    the end of the swarm task has dropped every holder of the round's response
    channel, so that the waiting round and every other round of the tick fail.
    The only other end is a panic on an answer, when the configured batch size is
    zero.  The database is in order, and unless an answer was in hand it is the
    one that the node had, so that a restart finds everything that was stored. *)
Theorem shutdown_ends_round `{Crypto} `{NodeIdentity} `{HashIter} `{WireFormats} `{KL : KeyLib} base58 st env draw w c f f' i ls :
  db_wf (f_db f) -> run_node base58 w c f = (f', Ok i) -> numbered st ls (first_node i) ->
  let n := run st ls (first_node i) in
  exists fuel c', wind_down st env draw fuel (swarm_exit {| cl_node := n; cl_swarm := true |}) = Some c'
    /\ match nd_round (cl_node c') with
       | None => True
       | Some r => is_gone r = true /\ engine_max_batch_size (st_engine st) <= 0
       end
    /\ db_wf (nd_db (cl_node c')) /\ (nd_reply n = None -> nd_db (cl_node c') = nd_db n).
Proof.
  intros Hd Hrun Hnum n. pose proof (first_node_wf st _ (start_app_wf _ _ _ _ _ _ Hd Hrun)) as Hw.
  apply (run_wf st _ ls) in Hw. fold n in Hw. apply node_wf_iff in Hw as (_ & Hdb & _).
  pose proof (run_channels st ls _ Hnum (first_channels i)) as Hch. pose proof (run_panics st ls (first_node i) ltac:(done)) as Hpan.
  fold n in Hch, Hpan. set (c0 := swarm_exit {| cl_node := n; cl_swarm := true |}).
  destruct (nd_round n) as [r|] eqn:Er.
  2: { exists 0%nat, c0. unfold wind_down. change (nd_round (cl_node c0)) with (nd_round n). by rewrite Er. }
  destruct (is_gone r) eqn:Eg.
  { exists 0%nat, c0. unfold wind_down. change (nd_round (cl_node c0)) with (nd_round n). rewrite Er, Eg.
    split; [done|]. split; [|done]. split; [done|by apply (Hpan r)]. }
  destruct (nd_reply n) as [a|] eqn:Ea.
  - destruct (ch_fits n Hch r a Er Ea) as [_ Hfit].
    assert (exists p, woken st env draw r c0 = Some p /\ asks (round_chan n) p /\ panic_reason st (pg_round p)
      /\ repl_wf db_wf (fun _ => True) (pg_repl p)) as (p & Hp & Hask & Hreason & Hdb' & _).
    { unfold woken. change (nd_reply (cl_node c0)) with (nd_reply n). rewrite Ea. unfold answered, is_gone, wants_items, fits in *.
      assert (repl_wf db_wf (fun _ => True) (repl_view (cl_node c0))) as Hwf by done.
      destruct (rd_waiting r), a as [[]|]; try done; eexists; (split; [reflexivity|]); (split; [apply on_headers_asks || apply on_items_asks|]);
        (split; [apply on_headers_reason || apply on_items_reason|]);
        ((by apply on_headers_wf) || (by apply on_items_wf; [apply tame_wf|intros; apply admits_wf|])). }
    destruct (woken_winds_down st env draw c0 r p Er Eg Hp Hask) as (k & c' & Hwd & Hdb'' & Hround & _).
    exists k, c'. split; [exact Hwd|]. rewrite Hround, Hdb''. split; [|done]. destruct (pg_round p) as [r'|] eqn:Ep; [|done].
    destruct (is_gone r') eqn:Eg'; [|done]. split; [done|by apply (Hreason r')].
  - assert (exists p, woken st env draw r c0 = Some p /\ on_closed (st_parse_culture st) env (st_engine st) (round_chan n) draw r (repl_view n) = Some p)
      as (p & Hp & Hcl).
    { unfold woken. change (nd_reply (cl_node c0)) with (nd_reply n). rewrite Ea. unfold c0. rewrite exit_closes. cbn [swarm_exit cl_swarm].
      unfold on_closed, is_gone in *. destruct (rd_waiting r); [by eexists..|done]. }
    destruct (closed_round_ends _ _ _ _ _ _ _ _ Hcl) as (Hask & [Hdb' _] & Hng).
    destruct (woken_winds_down st env draw c0 r p Er Eg Hp Hask) as (k & c' & Hwd & Hdb'' & Hround & _).
    exists k, c'. split; [exact Hwd|]. rewrite Hround, Hdb'', Hdb'. split; [|done]. destruct (pg_round p) as [r'|]; [|done]. by rewrite Hng.
Qed.

(** ** Example *)

(** The node stops while it waits for headers; if the table of outstanding requests outlived
    the swarm task, the replication task would stay in the round. *)
Lemma ex_still_waiting fuel :
  @wind_down toy_crypto sorted_iter ex_setting ex_env (fun _ => O) fuel {| cl_node := ex_run ex_sync_labels; cl_swarm := false |} = None.
Proof.
  destruct ex_waiting_eq as (r & Hr & _ & Hc & Hg). apply (@waits_for_swarm toy_crypto sorted_iter _ _ _ _ _ r); cbn [cl_node]; [exact Hr|exact Hg|vm_compute; reflexivity|].
  rewrite Hc. vm_compute. reflexivity.
Qed.

Lemma shutdown_ends_round_witness :
  is_Some (nd_round (ex_run ex_sync_labels)) /\ nd_reply (ex_run ex_sync_labels) = None
  /\ exists fuel c', @wind_down toy_crypto sorted_iter ex_setting ex_env (fun _ => O) fuel (swarm_exit {| cl_node := ex_run ex_sync_labels; cl_swarm := true |}) = Some c'
       /\ nd_db (cl_node c') = nd_db (ex_run ex_sync_labels).
Proof.
  assert (nd_reply (ex_run ex_sync_labels) = None) as Hn by (vm_compute; reflexivity).
  split; [vm_compute; eexists; reflexivity|]. split; [exact Hn|].
  destruct (@shutdown_ends_round toy_crypto toy_identity sorted_iter toy_wire toy_keys _ ex_setting ex_env (fun _ => O) _ _ (ex_files ex_db) _ _
    ex_sync_labels (aw_db _ _ ex_app_wf) ex_started_eq) as (k & c' & Hw & _ & _ & Hd).
  - vm_compute. repeat split; intros []; reflexivity.
  - exists k, c'. split; [exact Hw|exact (Hd Hn)].
Defined.
