(* ===== verification/Convergence.v ===== *)
(** * Repeated anti-entropy makes replicas agree

    Nodes that hold a group and run full anti-entropy rounds with each other, in
    any order, while nobody writes.  A round merges, item by item, the partner's
    version into the node's own: it is taken if the node has none, or if it
    differs and is strictly newer ([full_round_merges]).  Replicas may
    overtake each other on the way, because a version with a known content is
    not taken even if it is newer; still, after finitely many passes in which
    every node asks every other, all of them agree on every item, and the newest
    version has won ([mesh_converges]). *)

From S2P Require Import Prelude Float64 Protocol Governor Storage StorageProps Search Json Envelope ItemStore Replication.
From S2P Require Import ReplicationProps PeerPool Config SwarmTask SwarmProps ReplicationTask ReplicationTaskProps AntiEntropy.
From S2P Require Import SyncRound Api ApiProps GovernorTask GovernorTaskProps Startup StartupProps Node NodeProps NodeRounds Cluster ClusterProps.

(** ** Versions *)

(** The version of an item: its timestamp and its checksum. *)
Abbreviation Version := (string * string)%type (only parsing).

Definition version_of (r : L2ItemRow) : Version := (l2_updated_at r, default EmptyString (l2_checksum r)).

Definition version (d : Db) (id : string) : option Version := version_of <$> l2_items d !! id.

(** Last writer wins between different contents. *)
Definition merge_version (new old : option Version) : option Version :=
  match new, old with
  | None, _ => old
  | Some n, None => Some n
  | Some n, Some o => if String.eqb o.2 n.2 then old else if str_lt o.1 n.1 then new else old
  end.

(** *** Abstract replicas *)

Section abstract.
#[local] Open Scope nat_scope.
Context (N : list NodeId).

(** A step merges the version of [a] into that of [b]. *)
Definition astep (ba : NodeId * NodeId) (v : NodeId -> option Version) (x : NodeId) : option Version :=
  if String.eqb x ba.1 then merge_version (v ba.2) (v ba.1) else v x.

Definition arun (steps : list (NodeId * NodeId)) (v : NodeId -> option Version) : NodeId -> option Version :=
  foldl (fun v ba => astep ba v) v steps.

Definition on_nodes (steps : list (NodeId * NodeId)) : Prop := forall ba, ba ∈ steps -> ba.1 ∈ N /\ ba.2 ∈ N.

(** Every node asks every other one. *)
Definition full_pass (steps : list (NodeId * NodeId)) : Prop := forall b a, b ∈ N -> a ∈ N -> b <> a -> (b, a) ∈ steps.

Definition same (v v' : NodeId -> option Version) : Prop := forall x, v x = v' x.

(** All replicas have the same content, or none has the item. *)
Definition agree (v : NodeId -> option Version) : Prop := forall b a, b ∈ N -> a ∈ N -> snd <$> v b = snd <$> v a.

Context (L : list Version).

(** All versions are among [L]. *)
Definition within (v : NodeId -> option Version) : Prop := forall b, b ∈ N -> forall p, v b = Some p -> p ∈ L.

Lemma astep_within b a v : b ∈ N -> a ∈ N -> within v -> within (astep (b, a) v).
Proof.
  intros Hb Ha Hv x Hx p. unfold astep. cbn. destruct (String.eqb_spec x b) as [->|]; [|by apply Hv].
  unfold merge_version. destruct (v a) as [n|] eqn:En, (v b) as [o|] eqn:Eo; try done; repeat case_match; intros [= <-]; eauto.
Qed.

Lemma arun_within steps v : on_nodes steps -> within v -> within (arun steps v).
Proof.
  unfold arun. revert v. induction steps as [|[b a] steps IH]; intros v Hs Hv; [done|]. cbn [foldl].
  apply IH; [intros ba Hba; apply Hs; by right|]. destruct (Hs (b, a)) as [Hb Ha]; [left|]. by apply astep_within.
Qed.

(** How far a version has come: the number of timestamps up to its own. *)
Definition rank (p : option Version) : nat :=
  match p with None => 0 | Some p => S (length (filterb (fun q => str_le q.1 p.1) L)) end.

Definition progress (v : NodeId -> option Version) : nat := foldr (fun b n => rank (v b) + n) 0 N.

Lemma rank_bound p : rank p <= S (length L).
Proof. destruct p; cbn; [|lia]. apply le_n_S. apply length_filter. Qed.

Lemma progress_bound v : progress v <= length N * S (length L).
Proof. unfold progress. induction N as [|b l IH]; [done|]. cbn. pose proof (rank_bound (v b)). lia. Qed.

Lemma rank_lt o n : n ∈ L -> str_lt o.1 n.1 = true -> rank (Some o) < rank (Some n).
Proof.
  intros Hn Hlt. cbn. apply le_n_S. apply (length_filterb_lt _ _ L n); [|done|apply str_le_refl|].
  - intros q Hq. by eapply str_le_trans, str_lt_le.
  - rewrite str_lt_not_le in Hlt. by apply negb_true_iff in Hlt.
Qed.

(** A merge that changes something gets further. *)
Lemma merge_rank new old :
  (forall p, new = Some p -> p ∈ L) -> merge_version new old = old \/ rank old < rank (merge_version new old).
Proof.
  intros Hn. unfold merge_version. destruct new as [n|], old as [o|]; try by left.
  - destruct (String.eqb o.2 n.2); [by left|]. destruct (str_lt o.1 n.1) eqn:E; [|by left]. right. apply rank_lt; [by apply Hn|done].
  - right. cbn. lia.
Qed.

Lemma astep_progress b a v :
  b ∈ N -> a ∈ N -> within v -> same (astep (b, a) v) v \/ progress v < progress (astep (b, a) v).
Proof.
  intros Hb Ha Hv. destruct (merge_rank (v a) (v b)) as [Heq|Hlt]; [by eapply Hv| |].
  - left. intros x. unfold astep. cbn. by destruct (String.eqb_spec x b) as [->|].
  - right. unfold progress. clear Ha Hv.
    assert (forall l, foldr (fun x n => rank (v x) + n) 0 l <= foldr (fun x n => rank (astep (b, a) v x) + n) 0 l)%nat as Hle.
    { induction l as [|x l IH]; [done|]. cbn. unfold astep at 1. cbn. destruct (String.eqb_spec x b) as [->|]; lia. }
    induction N as [|x l IH]; [by apply elem_of_nil in Hb|]. cbn. specialize (Hle l).
    unfold astep at 1. cbn. destruct (String.eqb_spec x b) as [->|Hne]; [lia|].
    apply elem_of_cons in Hb as [->|Hb]; [done|]. specialize (IH Hb). lia.
Qed.

Lemma same_astep ba v v' : same v v' -> same (astep ba v) (astep ba v').
Proof. intros H x. unfold astep. by rewrite !H. Qed.

Lemma same_arun steps v v' : same v v' -> same (arun steps v) (arun steps v').
Proof. unfold arun. revert v v'. induction steps as [|ba steps IH]; intros v v' H; [done|]. cbn [foldl]. by apply IH, same_astep. Qed.

Lemma same_progress v v' : same v v' -> progress v = progress v'.
Proof. intros H. unfold progress. induction N as [|b l IH]; [done|]. cbn. by rewrite H, IH. Qed.

(** A sequence of steps either gets further or changes nothing at any of its steps. *)
Lemma arun_progress steps v :
  on_nodes steps -> within v ->
  progress v < progress (arun steps v)
  \/ (same (arun steps v) v /\ forall b a, (b, a) ∈ steps -> merge_version (v a) (v b) = v b).
Proof.
  revert v. induction steps as [|[b a] steps IH]; intros v Hs Hv.
  { right. split; [done|]. intros ? ? []%elem_of_nil. }
  destruct (Hs (b, a)) as [Hb Ha]; [left|]. assert (on_nodes steps) as Hs' by (intros x Hx; apply Hs; by right).
  pose proof (astep_within b a v Hb Ha Hv) as Hv'. unfold arun. cbn [foldl]. fold (arun steps (astep (b, a) v)).
  destruct (astep_progress b a v Hb Ha Hv) as [Hsame|Hlt]; destruct (IH _ Hs' Hv') as [Hl|[Hsm Hst]].
  - left. by rewrite <- (same_progress _ _ Hsame).
  - right. split; [intros x; by rewrite Hsm|]. intros b' a' [[= -> ->]|Hin]%elem_of_cons.
    + specialize (Hsame b). unfold astep in Hsame. cbn in Hsame. by rewrite String.eqb_refl in Hsame.
    + specialize (Hst b' a' Hin). by rewrite !Hsame in Hst.
  - left. lia.
  - left. by rewrite (same_progress _ _ Hsm).
Qed.

(** Different contents have different timestamps. *)
Context (HL : forall p q, p ∈ L -> q ∈ L -> p.1 = q.1 -> p.2 = q.2).

(** A full pass that changes nothing finds the replicas in agreement. *)
Lemma still_agrees steps v :
  within v -> full_pass steps -> (forall b a, (b, a) ∈ steps -> merge_version (v a) (v b) = v b) -> agree v.
Proof.
  intros Hv Hf Hst b a Hb Ha. destruct (decide (b = a)) as [->|Hne]; [done|].
  pose proof (Hst b a (Hf b a Hb Ha Hne)) as H1. pose proof (Hst a b (Hf a b Ha Hb (not_eq_sym Hne))) as H2.
  destruct (v b) as [o|] eqn:Eb, (v a) as [n|] eqn:Ea; try done. cbn in *. f_equal.
  destruct (String.eqb_spec o.2 n.2) as [->|Hd]; [done|]. destruct (String.eqb_spec n.2 o.2) as [->|_]; [done|].
  destruct (str_lt o.1 n.1) eqn:L1; [by injection H1 as ->|]. destruct (str_lt n.1 o.1) eqn:L2; [by injection H2 as ->|].
  rewrite str_lt_not_le in L1, L2. apply negb_false_iff in L1, L2.
  apply (HL o n); [by eapply (Hv b)|by eapply (Hv a)|by apply str_le_antisym].
Qed.

Lemma agree_kept steps v : on_nodes steps -> agree v -> agree (arun steps v).
Proof.
  unfold arun. revert v. induction steps as [|[b a] steps IH]; intros v Hs Hv; [done|]. cbn [foldl].
  apply IH; [intros x Hx; apply Hs; by right|]. destruct (Hs (b, a)) as [Hb Ha]; [left|]. cbn in Hb, Ha.
  assert (same (astep (b, a) v) v) as Hsame; [|intros x y Hx Hy; rewrite !Hsame; by apply Hv].
  intros x. unfold astep. cbn. destruct (String.eqb_spec x b) as [->|]; [|done].
  specialize (Hv b a Hb Ha). destruct (v b) as [o|], (v a) as [n|]; try done. cbn in *. injection Hv as ->. by rewrite String.eqb_refl.
Qed.

(** Enough passes. *)
Lemma passes_agree passes v :
  Forall on_nodes passes -> Forall full_pass passes -> within v -> length N * S (length L) < progress v + length passes ->
  agree (arun (concat passes) v).
Proof.
  revert v. induction passes as [|p ps IH]; intros v Ho Hf Hv Hlen.
  { pose proof (progress_bound v). cbn in Hlen. lia. }
  apply Forall_cons in Ho as [Hop Ho]. apply Forall_cons in Hf as [Hfp Hf].
  cbn [concat]. unfold arun. rewrite foldl_app. fold (arun p v). fold (arun (concat ps) (arun p v)).
  destruct (arun_progress p v Hop Hv) as [Hlt|[Hsame Hst]].
  - apply IH; [done|done|by apply arun_within|]. cbn in Hlen. lia.
  - apply agree_kept.
    + clear - Ho. induction Ho as [|q qs Hq _ IH]; [by intros ? ?%elem_of_nil|]. cbn. intros x [Hx|Hx]%elem_of_app; auto.
    + pose proof (still_agrees p v Hv Hfp Hst) as Ha. intros b a Hb Haa. rewrite !Hsame. by apply Ha.
Qed.

(** A newest version stays where it is. *)
Lemma newest_kept steps v h p :
  on_nodes steps -> h ∈ N -> within v -> (forall q, q ∈ L -> str_le q.1 p.1 = true) -> v h = Some p -> arun steps v h = Some p.
Proof.
  intros Hs Hh Hv Hmax. unfold arun. revert v Hv. induction steps as [|[b a] steps IH]; intros v Hv Hp; [done|]. cbn [foldl].
  destruct (Hs (b, a)) as [Hb Ha]; [left|]. cbn in Hb, Ha.
  apply IH; [intros x Hx; apply Hs; by right|by apply astep_within|].
  unfold astep. cbn. destruct (String.eqb_spec h b) as [->|]; [|done]. rewrite Hp. unfold merge_version.
  destruct (v a) as [n|] eqn:En; [|done]. destruct (String.eqb p.2 n.2); [done|].
  rewrite str_lt_not_le, (Hmax n) by (by eapply Hv). done.
Qed.

End abstract.

(** ** One full round *)

Section round.
Context `{CR : Crypto} `{HI : HashIter}.
Context (env : SqlEnv) (eng : ReplicationEngine) (gid : GroupId) (ids : gset string).
Context (Hnf : no_fault env) (Hbatch : Z.of_nat (size ids) <= engine_max_batch_size eng) (Hpos : 0 < engine_max_batch_size eng).

(** The identifiers [ids] are those of the group's items, and these are within the size limit. *)
Definition of_group (p : Stamp) : Prop :=
  (sp_id p ∈ ids <-> sp_group p = gid) /\ (sp_id p ∈ ids -> Z.of_nat (length (sp_data p)) <= MAX_ITEM_BYTES).

Record replica_ok (d : Db) : Prop := {
  ro_wf : db_wf d;
  ro_lock : lock_poisoned d = false;
  ro_items : db_sound of_group d;
}.

Lemma replica_up d : replica_ok d -> sqlite_up env d.
Proof. intros Hd. split; [apply (ro_lock d Hd)|done]. Qed.

Lemma receive_ok gs rel x d : of_group (stamp_of_item x) -> replica_ok d -> replica_ok (@on_receive _ Db (sqlite_store env) x gs rel d).1.
Proof.
  intros Hx Hd. pose proof (receive_up (LAWS := sqlite_store_laws env) gs rel x d (replica_up d Hd)) as [Hl _].
  destruct Hd as [Hw _ Hs]. split; [|exact Hl|].
  - apply (on_receive_wf db_wf tame_wf); [intros _; apply admits_wf|done].
  - apply (on_receive_wf _ (tame_sound of_group)); [intros _; by apply admits_sound|done].
Qed.

Lemma version_view d id : version d id = (fun c => (c_updated_at c, default EmptyString (c_checksum c))) <$> (content_of <$> l2_items d) !! id.
Proof. unfold version. rewrite lookup_fmap. by destruct (l2_items d !! id). Qed.

(** Receiving an acceptable item merges its version. *)
Lemma receive_version gs rel x d :
  replica_ok d -> acceptable gs rel x = true ->
  version (@on_receive _ Db (sqlite_store env) x gs rel d).1 (fi_item_id x)
  = merge_version (Some (fi_updated_at x, fi_checksum x)) (version d (fi_item_id x)).
Proof.
  intros Hd Hx. pose proof (receive_acceptable (LAWS := sqlite_store_laws env) gs rel x d (replica_up d Hd) Hx) as [Hv _].
  cbn [store_view sqlite_store_laws] in Hv. rewrite (version_view (on_receive _ _ _ _).1), Hv. clear Hv.
  assert (sha256_hex (fi_encrypted_blob x) = fi_checksum x) as Hck by (apply andb_prop in Hx as [_ Hc]; by apply validated_checksum).
  unfold version. rewrite lookup_fmap. destruct (l2_items d !! fi_item_id x) as [row|] eqn:Hrow; cbn.
  - destruct (dw_items _ (ro_wf d Hd) _ _ Hrow) as [_ Hc _ _]. rewrite Hc. cbn.
    destruct (String.eqb_spec (checksum (l2_data row)) (fi_checksum x)) as [Heq|Hne].
    + rewrite bool_decide_true by congruence. cbn. rewrite lookup_fmap, Hrow. done.
    + rewrite bool_decide_false by congruence. cbn. destruct (str_lt _ _); [|by rewrite lookup_fmap, Hrow].
      rewrite lookup_insert_eq. cbn. by rewrite Hck.
  - rewrite lookup_insert_eq. cbn. by rewrite Hck.
Qed.

Lemma receive_other gs rel x d id :
  id <> fi_item_id x -> version (@on_receive _ Db (sqlite_store env) x gs rel d).1 id = version d id.
Proof.
  intros Hid. pose proof (receive_effect (LAWS := sqlite_store_laws env) gs rel x d) as [Ho _].
  cbn [store_view sqlite_store_laws] in Ho. by rewrite !version_view, (Ho id Hid).
Qed.

Lemma merge_again n o : merge_version (Some n) (merge_version (Some n) o) = merge_version (Some n) o.
Proof.
  destruct o as [o|]; cbn; [|by rewrite String.eqb_refl].
  destruct (String.eqb o.2 n.2) eqn:E; cbn; [by rewrite E|]. destruct (str_lt o.1 n.1) eqn:E2; cbn; [by rewrite String.eqb_refl|by rewrite E, E2].
Qed.

Abbreviation delivered gs rel l d := (@deliver CR Db (sqlite_store env) gs rel l d) (only parsing).

Lemma deliver_ok gs rel l d : (forall x, x ∈ l -> of_group (stamp_of_item x)) -> replica_ok d -> replica_ok (delivered gs rel l d).
Proof.
  unfold deliver. revert d. induction l as [|x l IH]; intros d Hl Hd; [done|]. cbn [foldl].
  apply IH; [intros y Hy; apply Hl; by right|]. apply receive_ok; [apply Hl; left|done].
Qed.

Lemma deliver_other gs rel l d id : (forall x, x ∈ l -> fi_item_id x <> id) -> version (delivered gs rel l d) id = version d id.
Proof.
  unfold deliver. revert d. induction l as [|x l IH]; intros d Hl; [done|]. cbn [foldl].
  rewrite IH by (intros y Hy; apply Hl; by right). apply receive_other. apply not_eq_sym, Hl. left.
Qed.

(** Delivering items of which those with this identifier are the same. *)
Lemma deliver_version gs rel x l d :
  (forall y, y ∈ l -> of_group (stamp_of_item y)) -> (forall y, y ∈ l -> fi_item_id y = fi_item_id x -> y = x) ->
  acceptable gs rel x = true -> x ∈ l -> replica_ok d ->
  version (delivered gs rel l d) (fi_item_id x) = merge_version (Some (fi_updated_at x, fi_checksum x)) (version d (fi_item_id x)).
Proof.
  intros Hl Hsame Hx Hin Hd.
  assert (forall l d, replica_ok d -> (forall y, y ∈ l -> of_group (stamp_of_item y)) ->
    (forall y, y ∈ l -> fi_item_id y = fi_item_id x -> y = x) ->
    version (delivered gs rel l d) (fi_item_id x) = version d (fi_item_id x)
    \/ version (delivered gs rel l d) (fi_item_id x) = merge_version (Some (fi_updated_at x, fi_checksum x)) (version d (fi_item_id x))) as Hor.
  { clear Hl Hsame Hin d Hd l. unfold deliver. induction l as [|y l IH]; intros d Hd Hl Hs; [by left|]. cbn [foldl].
    assert (replica_ok (@on_receive _ Db (sqlite_store env) y gs rel d).1) as Hd' by (apply receive_ok; [apply Hl; left|done]).
    assert (version (@on_receive _ Db (sqlite_store env) y gs rel d).1 (fi_item_id x) = version d (fi_item_id x)
      \/ version (@on_receive _ Db (sqlite_store env) y gs rel d).1 (fi_item_id x)
         = merge_version (Some (fi_updated_at x, fi_checksum x)) (version d (fi_item_id x))) as Hy.
    { destruct (decide (fi_item_id y = fi_item_id x)) as [Heq|Hne]; [|left; by apply receive_other, not_eq_sym].
      rewrite (Hs y (list_elem_of_here _ _) Heq). right. by apply receive_version. }
    destruct (IH _ Hd') as [->| ->]; [intros z Hz; apply Hl; by right|intros z Hz; apply Hs; by right|done|].
    right. destruct Hy as [->| ->]; [done|apply merge_again]. }
  revert d Hd. induction l as [|y l IH]; intros d Hd; [by apply elem_of_nil in Hin|]. change (delivered gs rel (y :: l) d) with (delivered gs rel l (@on_receive _ Db (sqlite_store env) y gs rel d).1).
  assert (replica_ok (@on_receive _ Db (sqlite_store env) y gs rel d).1) as Hd' by (apply receive_ok; [apply Hl; left|done]).
  apply elem_of_cons in Hin as [<-|Hin].
  - destruct (Hor l _ Hd') as [->| ->]; [intros z Hz; apply Hl; by right|intros z Hz; apply Hsame; by right|by apply receive_version|].
    rewrite receive_version by done. apply merge_again.
  - rewrite IH; [|intros z Hz; apply Hl; by right|intros z Hz; apply Hsame; by right|done|done].
    destruct (decide (fi_item_id y = fi_item_id x)) as [Heq|Hne]; [|by rewrite receive_other by (by apply not_eq_sym)].
    rewrite (Hsame y (list_elem_of_here _ _) Heq), receive_version by done. apply merge_again.
Qed.

(** The group's items fit the batch. *)
Lemma group_fits d : replica_ok d -> (map_count (in_group_since gid None) (l2_items d) <= Z.to_nat (engine_max_batch_size eng))%nat.
Proof.
  intros [Hw _ Hs]. enough (map_count (in_group_since gid None) (l2_items d) <= size ids)%nat by lia. apply map_count_le_size.
  intros id row Hrow Hin. apply andb_prop in Hin as [Hg%bool_decide_eq_true _].
  destruct (Hs id row Hrow) as [[_ Hid] _]. rewrite <- (iw_key _ _ (dw_items _ Hw _ _ Hrow)). apply Hid. cbn. by rewrite Hg.
Qed.

(** A row whose header is known locally, with the same checksum, has its content there. *)
Lemma known_version dA d id row n :
  replica_ok d -> item_wf id row -> l2_items dA !! id = Some row ->
  needs_fetch (header_map (header_of <$> take n (group_rows gid None d))) (header_of row) = false ->
  version d id = merge_version (version dA id) (version d id).
Proof.
  intros HB [Hkey Hck _ _] Hrow Hn. cbn in Hkey. unfold needs_fetch in Hn.
  destruct (header_map _ !! ih_item_id (header_of row)) as [c|] eqn:Hm; [|done].
  apply negb_false_iff, String.eqb_eq in Hn. apply header_map_inv in Hm as (h & Hh & Hhid & Hc).
  apply list_elem_of_fmap in Hh as (rowB & -> & (_ & idB & HrB)%elem_of_take_in%elem_of_group_rows).
  destruct (dw_items _ (ro_wf _ HB) idB rowB HrB) as [HkB HckB _ _]. cbn in *.
  assert (idB = id) as -> by congruence. unfold version. rewrite HrB, Hrow. cbn. unfold header_of in Hn, Hc. cbn in *.
  unfold version_of. rewrite HckB, Hck in *. cbn in *. by rewrite (proj2 (String.eqb_eq _ _)) by congruence.
Qed.

(** A full round is the merge of the partner's versions, for every item of the group. *)
Lemma full_round_merges is_relay gs dA s :
  gid <> EmptyString -> gid ∈ gs -> replica_ok dA -> replica_ok (rt_db s) ->
  let r := sync_with env eng (honest_peer env dA) gid gs None (accept_set is_relay gs) s in
  replica_ok (rt_db r.1) /\ forall id, id ∈ ids -> version (rt_db r.1) id = merge_version (version dA id) (version (rt_db s) id).
Proof.
  intros Hne Hgs HA HB r. pose proof (dw_items _ (ro_wf dA HA)) as HwA.
  destruct (sync_with_honest env eng env dA gid gs None (accept_set is_relay gs) s Hnf (ro_lock dA HA) (replica_up _ HB) Hpos) as [_ Hdb].
  cbv zeta in Hdb. fold r in Hdb. set (relay := _ <$> accept_set is_relay gs) in Hdb.
  rewrite (take_ge (group_rows gid None dA)) in Hdb by (rewrite length_group_rows; by apply group_fits).
  set (local := header_of <$> take _ _) in Hdb. set (l := omap (served dA) _) in Hdb.
  assert (forall x, x ∈ l -> exists row, x = fetched_of_row row /\ l2_items dA !! fi_item_id x = Some row) as Hl.
  { intros x Hx. apply list_elem_of_omap in Hx as (id & _ & Hx). pose proof (served_id dA HwA id x Hx) as Hid.
    unfold served in Hx. apply fmap_Some_1 in Hx as (row & Hrow & ->). exists row. split; [done|]. by rewrite Hid. }
  assert (forall x, x ∈ l -> of_group (stamp_of_item x)) as Hs.
  { intros x Hx. destruct (Hl x Hx) as (row & -> & Hrow). exact (ro_items dA HA _ _ Hrow). }
  rewrite Hdb. split; [by apply deliver_ok|]. intros id Hid.
  destruct (l2_items dA !! id) as [row|] eqn:Hrow.
  2: { unfold version at 2. rewrite Hrow. cbn. apply deliver_other. intros x Hx <-. destruct (Hl x Hx) as (row & _ & Hr). congruence. }
  pose proof (HwA id row Hrow) as [Hkey Hck _ _]. cbn in Hkey.
  assert (l2_group_id row = Some gid) as Hg.
  { destruct (ro_items dA HA id row Hrow) as [[Hin _] _]. cbn in Hin. rewrite Hkey in Hin. specialize (Hin Hid).
    destruct (l2_group_id row); cbn in Hin; congruence. }
  assert (version dA id = Some (fi_updated_at (fetched_of_row row), fi_checksum (fetched_of_row row))) as Hv.
  { unfold version. by rewrite Hrow. }
  destruct (needs_fetch (header_map local) (header_of row)) eqn:Hn.
  - rewrite Hv. rewrite <- Hkey at 1 2. change (l2_id row) with (fi_item_id (fetched_of_row row)).
    apply deliver_version; [done| | | |done].
    + intros y Hy Hyid. destruct (Hl y Hy) as (row' & -> & Hr). rewrite Hyid in Hr. cbn in Hr. rewrite Hkey in Hr. congruence.
    + apply (served_acceptable dA HwA _ _ id row gid); [done| |done|by apply accept_own].
      destruct (ro_items dA HA id row Hrow) as [_ Hsz]. cbn in Hsz. rewrite Hkey in Hsz. by apply Hsz.
    + apply list_elem_of_omap. exists id. split; [|unfold served; by rewrite Hrow].
      unfold diff_headers. apply list_elem_of_fmap. exists (header_of row). split; [done|]. apply elem_of_filterb. split; [done|].
      apply list_elem_of_fmap. exists row. split; [done|]. apply elem_of_group_rows. split; [|by eexists].
      unfold in_group_since. by rewrite Hg, bool_decide_true.
  - rewrite deliver_other.
    + exact (known_version dA (rt_db s) id row _ HB (HwA id row Hrow) Hrow Hn).
    + intros x Hx Hxid. apply list_elem_of_omap in Hx as (j & Hj & Hx). pose proof (served_id dA HwA j x Hx) as Hjx.
      rewrite Hxid in Hjx. subst j. apply list_elem_of_fmap in Hj as (h & Hh & [Hnf' Hpage]%elem_of_filterb).
      apply list_elem_of_fmap in Hpage as (row' & -> & (_ & id' & Hr')%elem_of_group_rows).
      pose proof (iw_key _ _ (HwA id' row' Hr')) as Hk'. cbn in Hh, Hk'. assert (row' = row) as -> by congruence. congruence.
Qed.

End round.

(** ** Many rounds *)

Section mesh.
Context `{CR : Crypto} `{HI : HashIter}.
Context (env : SqlEnv) (eng : ReplicationEngine) (gid : GroupId) (ids : gset string).
(** the groups of each node and whether it is a relay *)
Context (groups : NodeId -> list GroupId) (relay : NodeId -> bool).

(** Every node answers from its own store; nobody else answers. *)
Definition mesh_answers (c : gmap NodeId Repl) (a : NodeId) : PeerAnswers :=
  match c !! a with
  | Some s => honest_peer env (rt_db s)
  | None => {| ask_sync _ := RequestFailed _ "unreachable"; ask_fetch _ := RequestFailed _ "unreachable" |}
  end.

(** A full round of the node [b], with the partner that the index [i] draws. *)
Definition full_round (bi : NodeId * nat) (c : gmap NodeId Repl) : gmap NodeId Repl :=
  let '(b, i) := bi in
  match c !! b with
  | None => c
  | Some s =>
      <[b := (run_anti_entropy env eng (mesh_answers c) i gid (groups b) None (relay b) (accept_set (relay b) (groups b)) s).1]> c
  end.

Definition rounds (bis : list (NodeId * nat)) (c : gmap NodeId Repl) : gmap NodeId Repl := foldl (fun c bi => full_round bi c) c bis.

(** Who asks whom. *)
Definition partner (c : gmap NodeId Repl) (bi : NodeId * nat) : option (NodeId * NodeId) :=
  match c !! bi.1 with
  | None => None
  | Some s =>
      match choose_partner (relay bi.1) bi.2 gid (rt_pool s) with
      | None => None
      | Some h => if decide (is_Some (c !! ph_node_id h)) then Some (bi.1, ph_node_id h) else None
      end
  end.

Definition pairs (c : gmap NodeId Repl) (bis : list (NodeId * nat)) : list (NodeId * NodeId) := omap (partner c) bis.

Definition mesh_ok (c : gmap NodeId Repl) : Prop :=
  forall b s, c !! b = Some s -> replica_ok gid ids (rt_db s) /\ gid ∈ groups b.

Definition versions (c : gmap NodeId Repl) (id : string) (b : NodeId) : option Version :=
  match c !! b with Some s => version (rt_db s) id | None => None end.

Lemma sync_with_pool peer gs since acc s : rt_pool (sync_with env eng peer gid gs since acc s).1 = rt_pool s.
Proof.
  unfold sync_with. destruct (ask_sync _ _); try done. destruct (list_group_items _ _ _ _ _).2; [|done]. case_bool_decide; [done|].
  destruct (chunks _ _); [|done]. by destruct (fetch_chunks _ _ _ _ _ _) as [d []].
Qed.

Lemma full_round_pool bi c x : rt_pool <$> full_round bi c !! x = rt_pool <$> c !! x.
Proof.
  destruct bi as [b i]. unfold full_round. destruct (c !! b) as [s|] eqn:E; [|done].
  destruct (decide (b = x)) as [<-|Hne]; [|by rewrite lookup_insert_ne]. rewrite lookup_insert_eq, E. cbn. f_equal.
  unfold run_anti_entropy. destruct (choose_partner _ _ _ _); [apply sync_with_pool|done].
Qed.

(** Partners stay the same, because rounds leave the pools alone. *)
Lemma partner_kept c c' bi : (forall x, rt_pool <$> c' !! x = rt_pool <$> c !! x) -> partner c' bi = partner c bi.
Proof.
  intros Hp. unfold partner. pose proof (Hp bi.1) as Hb. destruct (c' !! bi.1) as [s'|], (c !! bi.1) as [s|]; try done.
  injection Hb as ->. destruct (choose_partner _ _ _ _) as [h|]; [|done]. specialize (Hp (ph_node_id h)).
  destruct (c' !! ph_node_id h), (c !! ph_node_id h); done.
Qed.

Context (Hnf : no_fault env) (Hbatch : Z.of_nat (size ids) <= engine_max_batch_size eng) (Hpos : 0 < engine_max_batch_size eng).
Context (Hgid : gid <> EmptyString).

Lemma full_round_effect bi c :
  mesh_ok c ->
  mesh_ok (full_round bi c)
  /\ forall id, id ∈ ids ->
       same (versions (full_round bi c) id) (match partner c bi with Some ba => astep ba (versions c id) | None => versions c id end).
Proof.
  destruct bi as [b i]. intros Hok. unfold full_round, partner. cbn [fst snd]. destruct (c !! b) as [s|] eqn:Eb; [|done].
  destruct (Hok b s Eb) as [HB Hgb]. unfold run_anti_entropy.
  destruct (choose_partner (relay b) i gid (rt_pool s)) as [h|]; cbn [fst]; [|by rewrite insert_id].
  unfold mesh_answers. destruct (c !! ph_node_id h) as [sa|] eqn:Ea.
  2: { rewrite decide_False by (intros [? ?]; done). cbn [sync_with ask_sync fst]. by rewrite insert_id. }
  rewrite decide_True by done. destruct (Hok _ _ Ea) as [HA _].
  destruct (full_round_merges env eng gid ids Hnf Hbatch Hpos (relay b) (groups b) (rt_db sa) s Hgid Hgb HA HB) as [Hro Hv].
  split.
  - intros x t. destruct (decide (b = x)) as [<-|Hne]; [|rewrite lookup_insert_ne by done; apply Hok].
    rewrite lookup_insert_eq. by intros [= <-].
  - intros id Hid x. unfold astep, versions. cbn [fst snd]. destruct (String.eqb_spec x b) as [->|Hne].
    + by rewrite lookup_insert_eq, Ea, Eb, Hv.
    + by rewrite lookup_insert_ne.
Qed.

Lemma rounds_effect bis c id :
  mesh_ok c -> id ∈ ids -> mesh_ok (rounds bis c) /\ same (versions (rounds bis c) id) (arun (pairs c bis) (versions c id)).
Proof.
  intros Hok Hid. revert c Hok. induction bis as [|bi bis IH]; intros c Hok; [done|]. unfold rounds. cbn [foldl].
  destruct (full_round_effect bi c Hok) as [Hok' Hv]. destruct (IH _ Hok') as [Hok'' Hv'']. split; [done|].
  assert (pairs (full_round bi c) bis = pairs c bis) as Hp.
  { unfold pairs. clear. induction bis as [|x bis IH]; [done|]. cbn. rewrite IH. by rewrite (partner_kept c _ x (full_round_pool bi c)). }
  intros x. rewrite Hv'', Hp. unfold pairs. cbn [omap list_omap]. destruct (partner c bi) as [ba|].
  - cbn [arun foldl]. exact (same_arun _ _ _ (Hv id Hid) x).
  - exact (same_arun _ _ _ (Hv id Hid) x).
Qed.

Definition nodes (c : gmap NodeId Repl) : list NodeId := elements (dom c).

Lemma elem_of_nodes c b : b ∈ nodes c <-> is_Some (c !! b).
Proof. unfold nodes. by rewrite elem_of_elements, elem_of_dom. Qed.

Lemma pairs_on_nodes c bis : on_nodes (nodes c) (pairs c bis).
Proof.
  intros ba Hba. apply list_elem_of_omap in Hba as (bi & _ & Hp). unfold partner in Hp. destruct (c !! bi.1) as [s|] eqn:E; [|done].
  destruct (choose_partner _ _ _ _) as [h|]; [|done]. case_decide as Hh; [|done]. injection Hp as <-. cbn.
  rewrite !elem_of_nodes. split; [by rewrite E|done].
Qed.

End mesh.

(** [C5] Repeated anti-entropy converges: several nodes hold a group, in stores that
    are in order; the group's items fit a batch, are within the size limit and
    do not share identifiers with other groups; and two different contents of an
    item never have the same timestamp.  Nobody writes, statements do not fail,
    and the nodes run full rounds with partners that their pools offer, in any
    order, grouped into passes in which every node asks every other.  After more
    than n (n + 1) passes, n being the number of nodes, all nodes hold every item
    with the same checksum (the SHA-256 of its data), which is that of the newest
    version any of them held at the start. *)
Theorem mesh_converges `{Crypto} `{HashIter} env eng gid ids groups relay c0 passes :
  no_fault env -> Z.of_nat (size ids) <= engine_max_batch_size eng -> 0 < engine_max_batch_size eng -> gid <> EmptyString ->
  mesh_ok gid ids groups c0 ->
  (forall id b b' s s' p p', c0 !! b = Some s -> c0 !! b' = Some s' -> version (rt_db s) id = Some p ->
     version (rt_db s') id = Some p' -> p.1 = p'.1 -> p.2 = p'.2) ->
  Forall (fun bis => full_pass (nodes c0) (pairs gid relay c0 bis)) passes ->
  (size c0 * S (size c0) < length passes)%nat ->
  let c := rounds env eng gid groups relay (concat passes) c0 in
  forall id, id ∈ ids ->
    (forall b b' s s', c !! b = Some s -> c !! b' = Some s' -> snd <$> version (rt_db s) id = snd <$> version (rt_db s') id)
    /\ (forall h s0 p, c0 !! h = Some s0 -> version (rt_db s0) id = Some p ->
          (forall b s q, c0 !! b = Some s -> version (rt_db s) id = Some q -> str_le q.1 p.1 = true) ->
          forall b s, c !! b = Some s -> snd <$> version (rt_db s) id = Some p.2).
Proof.
  intros Hnf Hbatch Hpos Hgid Hok Hties Hpass Hlen c id Hid.
  destruct (rounds_effect env eng gid ids groups relay Hnf Hbatch Hpos Hgid (concat passes) c0 id Hok Hid) as [_ Hv]. fold c in Hv.
  set (N := nodes c0). set (L := omap (versions c0 id) N).
  assert (within N L (versions c0 id)) as Hwithin by (intros b Hb p Hp; apply list_elem_of_omap; eauto).
  assert (forall p, p ∈ L -> exists b s, c0 !! b = Some s /\ version (rt_db s) id = Some p) as HL.
  { intros p (b & _ & Hp)%list_elem_of_omap. unfold versions in Hp. destruct (c0 !! b) as [s|] eqn:E; [eauto|done]. }
  assert (pairs gid relay c0 (concat passes) = concat (pairs gid relay c0 <$> passes)) as Hpairs.
  { unfold pairs. clear. induction passes as [|p ps IH]; [done|]. cbn. by rewrite omap_app, IH. }
  assert (forall b, is_Some (c !! b) -> b ∈ N) as Hdom.
  { intros b [s Hs]. apply elem_of_nodes. unfold c, rounds in Hs. clear - Hs. revert c0 Hs.
    induction (concat passes) as [|bi bis IH]; intros c0 Hs; [by eexists|]. specialize (IH _ Hs).
    pose proof (full_round_pool env eng gid groups relay bi c0 b) as Hp. destruct IH as [s' Hs']. rewrite Hs' in Hp. by destruct (c0 !! b). }
  assert (agree N (versions c id)) as Hagree.
  { intros b a Hb Ha. rewrite !Hv, Hpairs. apply (passes_agree N L); [|apply Forall_fmap, Forall_true; intros; apply pairs_on_nodes| |done| |done|done].
    - intros p q (b1 & s1 & E1 & V1)%HL (b2 & s2 & E2 & V2)%HL. exact (Hties id b1 b2 s1 s2 p q E1 E2 V1 V2).
    - by apply Forall_fmap.
    - rewrite length_fmap. assert (length N = size c0) as HN by (unfold N, nodes; by rewrite <- size_dom).
      assert (length L <= length N)%nat by (unfold L; clear; induction N as [|x l IH]; cbn; [lia|]; destruct (versions c0 id x); cbn; lia).
      rewrite HN in *. nia. }
  assert (forall b s, c !! b = Some s -> versions c id b = version (rt_db s) id) as Hvc by (intros b s Hs; unfold versions; by rewrite Hs).
  split.
  - intros b b' s s' Hs Hs'. rewrite <- (Hvc b s Hs), <- (Hvc b' s' Hs'). apply Hagree; apply Hdom; by eexists.
  - intros h s0 p Hh Hp Hmax b s Hs. rewrite <- (Hvc b s Hs).
    assert (versions c id h = Some p) as Hhp.
    { rewrite Hv. apply (newest_kept N L); [apply pairs_on_nodes|by apply elem_of_nodes; eexists|done| |unfold versions; by rewrite Hh].
      intros q (b1 & s1 & E1 & V1)%HL. by eapply Hmax. }
    rewrite (Hagree b h), Hhp; [done|apply Hdom; by eexists|by apply elem_of_nodes; eexists].
Qed.

(** [C38] There is no tie-break: when two nodes hold different contents of an item with
    the same timestamp, the newest there is, no number of full rounds between any
    nodes brings them together: both keep what they have. *)
Theorem tied_versions_stay_apart `{Crypto} `{HashIter} env eng gid ids groups relay c0 bis id h h' s s' t k k' :
  no_fault env -> Z.of_nat (size ids) <= engine_max_batch_size eng -> 0 < engine_max_batch_size eng -> gid <> EmptyString ->
  mesh_ok gid ids groups c0 -> id ∈ ids ->
  c0 !! h = Some s -> c0 !! h' = Some s' -> version (rt_db s) id = Some (t, k) -> version (rt_db s') id = Some (t, k') ->
  (forall b s q, c0 !! b = Some s -> version (rt_db s) id = Some q -> str_le q.1 t = true) ->
  let c := rounds env eng gid groups relay bis c0 in
  exists s1 s1', c !! h = Some s1 /\ c !! h' = Some s1' /\ version (rt_db s1) id = Some (t, k) /\ version (rt_db s1') id = Some (t, k').
Proof.
  intros Hnf Hbatch Hpos Hgid Hok Hid Hs Hs' Hp Hp' Hmax c.
  destruct (rounds_effect env eng gid ids groups relay Hnf Hbatch Hpos Hgid bis c0 id Hok Hid) as [_ Hv]. fold c in Hv.
  set (N := nodes c0). set (L := omap (versions c0 id) N).
  assert (within N L (versions c0 id)) as Hwithin by (intros b Hb p Hb'; apply list_elem_of_omap; eauto).
  assert (forall q, q ∈ L -> str_le q.1 t = true) as HL.
  { intros q (b & _ & Hq)%list_elem_of_omap. unfold versions in Hq. destruct (c0 !! b) as [sb|] eqn:E; [by eapply Hmax|done]. }
  assert (forall x sx kx, c0 !! x = Some sx -> version (rt_db sx) id = Some (t, kx) ->
    exists s1, c !! x = Some s1 /\ version (rt_db s1) id = Some (t, kx)) as Hkeep.
  { intros x sx kx Hx Hvx. assert (versions c id x = Some (t, kx)) as Hc.
    { rewrite Hv. apply (newest_kept N L); [apply pairs_on_nodes|by apply elem_of_nodes; eexists|done|done|unfold versions; by rewrite Hx]. }
    unfold versions in Hc. destruct (c !! x) as [s1|]; [eauto|done]. }
  destruct (Hkeep h s k Hs Hp) as (s1 & H1 & V1). destruct (Hkeep h' s' k' Hs' Hp') as (s1' & H1' & V1'). eauto 10.
Qed.

(** Anti-entropy brings deleted items back: an item that is deleted at a node,
    and that a partner still holds, is fetched and stored again by the next full
    round with that partner, in the partner's version: a deletion leaves nothing
    behind that a comparison of headers could see. *)
Theorem anti_entropy_revives_deleted `{Crypto} `{HashIter} env eng gid ids is_relay gs dA s d' id p :
  no_fault env -> Z.of_nat (size ids) <= engine_max_batch_size eng -> 0 < engine_max_batch_size eng -> gid <> EmptyString ->
  gid ∈ gs -> replica_ok gid ids dA -> replica_ok gid ids (rt_db s) -> id ∈ ids ->
  version dA id = Some p -> delete_l2_item env id (rt_db s) = (d', Ok true) ->
  version d' id = None
  /\ version (rt_db (sync_with env eng (honest_peer env dA) gid gs None (accept_set is_relay gs) (rt_set_db d' s)).1) id = Some p.
Proof.
  intros Hnf Hbatch Hpos Hgid Hgs HA HB Hid Hp Hdel.
  assert (d' = (delete_l2_item env id (rt_db s)).1) as Hd' by (by rewrite Hdel).
  assert (version d' id = None) as Hnone.
  { rewrite Hd'. unfold delete_l2_item. rewrite with_lock by apply (ro_lock _ _ _ HB). unfold stmt. rewrite Hnf. cbn.
    unfold version. cbn. by rewrite lookup_delete_eq. }
  assert (replica_ok gid ids d') as HB'.
  { rewrite Hd'. destruct HB as [Hw Hl Hi]. split; [by apply delete_item_wf| |by apply delete_item_sound].
    unfold delete_l2_item. rewrite with_lock by done. unfold stmt. by rewrite Hnf. }
  split; [done|].
  destruct (full_round_merges env eng gid ids Hnf Hbatch Hpos is_relay gs dA (rt_set_db d' s) Hgid Hgs HA HB') as [_ Hv].
  rewrite (Hv id Hid). cbn [rt_db rt_set_db]. by rewrite Hp, Hnone.
Qed.

(** ** Example *)

(** The second node has a newer version of one item and lacks the other. *)
Definition ex_db2 : Db :=
  foldl (fun d op => @run_op toy_crypto ex_env op d) empty_db
    [OpEnsureSchema; OpWriteGroup "g" "G" "{}" "{}"; OpWriteItem (ex_item "i1" "2026-01-03" [Byte.x09])]%string.

Definition ex_mesh_node (d : Db) (peer : NodeId) : Repl :=
  rt_set_pool {[peer := ex_handle peer Hot]} (no_repl d).

Definition ex_mesh : gmap NodeId Repl :=
  <["h1"%string := ex_mesh_node ex_db "h2"]> {["h2"%string := ex_mesh_node ex_db2 "h1"]}.

Definition ex_passes : list (list (NodeId * nat)) := replicate 7 [("h1"%string, 0%nat); ("h2"%string, 0%nat)].

Lemma ex_mesh_inv b s : ex_mesh !! b = Some s -> s = ex_mesh_node ex_db "h2" \/ s = ex_mesh_node ex_db2 "h1".
Proof. unfold ex_mesh. intros [[_ <-]|[_ [_ <-]%lookup_singleton_Some]]%lookup_insert_Some; [by left|by right]. Qed.

(** The rows of the two stores. *)
Lemma ex_row_inv d id row :
  d = ex_db \/ d = ex_db2 -> l2_items d !! id = Some row ->
  id ∈ ["i1"; "i2"]%string /\ l2_id row = id /\ l2_group_id row = Some "g"%string /\ (length (l2_data row) = 1)%nat
  /\ version_of row ∈ [("2026-01-02", @checksum toy_crypto [Byte.x01]); ("2026-01-01", @checksum toy_crypto [Byte.x02]);
                       ("2026-01-03", @checksum toy_crypto [Byte.x09])]%string.
Proof.
  intros [->| ->] Hrow; apply elem_of_map_to_list in Hrow; vm_compute in Hrow;
    repeat (apply elem_of_cons in Hrow as [[= -> ->]|Hrow];
      [vm_compute; split_and!; (reflexivity || (repeat (apply list_elem_of_here || apply list_elem_of_further)))|]); by apply elem_of_nil in Hrow.
Qed.

Lemma ex_replica_ok d : d = ex_db \/ d = ex_db2 -> @replica_ok toy_crypto "g" {["i1"%string; "i2"%string]} d.
Proof.
  intros Hd. split.
  - destruct Hd as [->| ->]; repeat apply run_op_wf; apply empty_db_wf.
  - by destruct Hd as [->| ->].
  - intros id row Hrow. destruct (ex_row_inv d id row Hd Hrow) as (Hin & Hid & Hg & Hlen & _).
    split; cbn; rewrite Hid, ?Hg, ?Hlen; [|by intros _; vm_compute]. split; [done|]. intros _.
    apply elem_of_cons in Hin as [->| ->%list_elem_of_singleton]; set_solver.
Qed.

Lemma ex_mesh_ok : @mesh_ok toy_crypto "g" {["i1"%string; "i2"%string]} (fun _ => ["g"%string]) ex_mesh.
Proof. intros b s [->| ->]%ex_mesh_inv; (split; [|left]); apply ex_replica_ok; [by left|by right]. Qed.

Abbreviation ex_mesh_after :=
  (@rounds toy_crypto sorted_iter ex_env (ex_engine 10) "g" (fun _ => ["g"%string]) (fun _ => false) (concat ex_passes) ex_mesh) (only parsing).

Lemma ex_mesh_after_node : is_Some (ex_mesh_after !! "h1"%string).
Proof. vm_compute. eexists. reflexivity. Qed.

Lemma mesh_converges_witness :
  exists s, ex_mesh_after !! "h1"%string = Some s
    /\ snd <$> version (rt_db s) "i1"%string = Some (@checksum toy_crypto [Byte.x09]).
Proof.
  destruct ex_mesh_after_node as [s0 Hs0]. exists s0. split; [exact Hs0|].
  destruct (@mesh_converges toy_crypto sorted_iter ex_env (ex_engine 10) "g" {["i1"%string; "i2"%string]} (fun _ => ["g"%string])
    (fun _ => false) ex_mesh ex_passes) with "i1"%string as [_ H].
  - intros name. reflexivity.
  - vm_compute. discriminate.
  - reflexivity.
  - discriminate.
  - exact ex_mesh_ok.
  - clear. intros id b b' s s' p p' Hs Hs' Hp Hp' Heq.
    assert (forall b s p, ex_mesh !! b = Some s -> version (rt_db s) id = Some p ->
      p ∈ [("2026-01-02", @checksum toy_crypto [Byte.x01]); ("2026-01-01", @checksum toy_crypto [Byte.x02]);
           ("2026-01-03", @checksum toy_crypto [Byte.x09])]%string) as Hall.
    { clear. intros b s p Hs Hp. unfold version in Hp. apply fmap_Some_1 in Hp as (row & Hrow & ->).
      eapply (ex_row_inv (rt_db s)); [|exact Hrow]. apply ex_mesh_inv in Hs as [->| ->]; [by left|by right]. }
    pose proof (Hall _ _ _ Hs Hp) as H1. pose proof (Hall _ _ _ Hs' Hp') as H2. vm_compute in H1, H2.
    repeat (apply elem_of_cons in H1 as [->|H1]; [repeat (apply elem_of_cons in H2 as [->|H2]; [by vm_compute in Heq|])|]);
      by apply elem_of_nil in H1 || by apply elem_of_nil in H2.
  - clear. apply Forall_replicate; intros b a Hb Ha Hne; vm_compute in Hb, Ha;
      apply elem_of_cons in Hb as [->| ->%list_elem_of_singleton]; apply elem_of_cons in Ha as [->| ->%list_elem_of_singleton];
      try done; vm_compute; repeat (apply list_elem_of_here || apply list_elem_of_further).
  - vm_compute. lia.
  - clear. set_solver.
  - refine (H "h2"%string (ex_mesh_node ex_db2 "h1") ("2026-01-03", @checksum toy_crypto [Byte.x09])%string _ _ _ "h1"%string s0 Hs0);
      [reflexivity|vm_compute; reflexivity|].
    clear. intros b s q Hs Hq. unfold version in Hq. apply fmap_Some_1 in Hq as (row & Hrow & ->).
    assert (rt_db s = ex_db \/ rt_db s = ex_db2) as Hd by (apply ex_mesh_inv in Hs as [->| ->]; [by left|by right]).
    destruct (ex_row_inv _ _ _ Hd Hrow) as (_ & _ & _ & _ & Hv). revert Hv. generalize (version_of row). intros v Hv.
    repeat (apply elem_of_cons in Hv as [->|Hv]; [vm_compute; reflexivity|]). by apply elem_of_nil in Hv.
Defined.

Definition ex_deleted : Db := (delete_l2_item ex_env "i1" ex_db).1.

Lemma anti_entropy_revives_deleted_witness :
  version (rt_db (@sync_with toy_crypto sorted_iter ex_env (ex_engine 10) (@honest_peer sorted_iter ex_env ex_db2) "g" ["g"%string] None None
    (rt_set_db ex_deleted (ex_mesh_node ex_db "h2"))).1) "i1"%string = Some ("2026-01-03"%string, @checksum toy_crypto [Byte.x09]).
Proof.
  apply (@anti_entropy_revives_deleted toy_crypto sorted_iter ex_env (ex_engine 10) "g" {["i1"%string; "i2"%string]} false ["g"%string]
    ex_db2 (ex_mesh_node ex_db "h2") ex_deleted "i1" ("2026-01-03"%string, @checksum toy_crypto [Byte.x09])).
  - intros name. reflexivity.
  - vm_compute. discriminate.
  - reflexivity.
  - discriminate.
  - left.
  - apply ex_replica_ok. by right.
  - apply ex_replica_ok. by left.
  - set_solver.
  - vm_compute. reflexivity.
  - vm_compute. reflexivity.
Defined.

(** Two versions of one second. *)
Definition ex_tied_db : Db :=
  foldl (fun d op => @run_op toy_crypto ex_env op d) empty_db
    [OpEnsureSchema; OpWriteGroup "g" "G" "{}" "{}"; OpWriteItem (ex_item "i1" "2026-01-03" [Byte.x08])]%string.

Definition ex_tied_mesh : gmap NodeId Repl :=
  <["h1"%string := ex_mesh_node ex_tied_db "h2"]> {["h2"%string := ex_mesh_node ex_db2 "h1"]}.

Lemma ex_tied_row d id row :
  d = ex_tied_db \/ d = ex_db2 -> l2_items d !! id = Some row ->
  id = "i1"%string /\ l2_id row = id /\ l2_group_id row = Some "g"%string /\ (length (l2_data row) = 1)%nat /\ l2_updated_at row = "2026-01-03"%string.
Proof.
  intros [->| ->] Hrow; apply elem_of_map_to_list in Hrow; vm_compute in Hrow;
    (apply elem_of_cons in Hrow as [[= -> ->]|Hrow]; [split_and!; reflexivity|by apply elem_of_nil in Hrow]).
Qed.

Lemma ex_tied_inv b s : ex_tied_mesh !! b = Some s -> rt_db s = ex_tied_db \/ rt_db s = ex_db2.
Proof. unfold ex_tied_mesh. intros [[_ <-]|[_ [_ <-]%lookup_singleton_Some]]%lookup_insert_Some; [by left|by right]. Qed.

Lemma ex_tied_ok : @mesh_ok toy_crypto "g" {["i1"%string]} (fun _ => ["g"%string]) ex_tied_mesh.
Proof.
  intros b s Hd%ex_tied_inv. split; [|left]. split.
  - destruct Hd as [-> | ->]; repeat apply run_op_wf; apply empty_db_wf.
  - by destruct Hd as [-> | ->].
  - intros id row Hrow. destruct (ex_tied_row _ id row Hd Hrow) as (-> & Hid & Hg & Hlen & _).
    split; cbn; rewrite Hid, ?Hg, ?Hlen; [|by intros _; vm_compute]. set_solver.
Qed.

Lemma tied_versions_stay_apart_witness :
  exists s1 s1', let c := @rounds toy_crypto sorted_iter ex_env (ex_engine 10) "g" (fun _ => ["g"%string]) (fun _ => false) (concat ex_passes)
      ex_tied_mesh in
    c !! "h1"%string = Some s1 /\ c !! "h2"%string = Some s1'
    /\ version (rt_db s1) "i1"%string <> version (rt_db s1') "i1"%string.
Proof.
  destruct (@tied_versions_stay_apart toy_crypto sorted_iter ex_env (ex_engine 10) "g" {["i1"%string]} (fun _ => ["g"%string])
    (fun _ => false) ex_tied_mesh (concat ex_passes) "i1" "h1" "h2" (ex_mesh_node ex_tied_db "h2") (ex_mesh_node ex_db2 "h1")
    "2026-01-03" (@checksum toy_crypto [Byte.x08]) (@checksum toy_crypto [Byte.x09])) as (s1 & s1' & H1 & H2 & V1 & V2).
  - intros name. reflexivity.
  - vm_compute. discriminate.
  - reflexivity.
  - discriminate.
  - exact ex_tied_ok.
  - set_solver.
  - reflexivity.
  - reflexivity.
  - vm_compute. reflexivity.
  - vm_compute. reflexivity.
  - intros b s q Hs Hq. unfold version in Hq. apply fmap_Some_1 in Hq as (row & Hrow & ->).
    destruct (ex_tied_row _ _ _ (ex_tied_inv b s Hs) Hrow) as (_ & _ & _ & _ & Hu). cbn. rewrite Hu. apply str_le_refl.
  - exists s1, s1'. split; [exact H1|]. split; [exact H2|]. rewrite V1, V2. vm_compute. discriminate.
Defined.
