(* ===== verification/Sha256.v ===== *)
(** * SHA-256

    The hash of FIPS 180-4 and lower-case hexadecimal, for running the tests of
    the code: an instance of what the crates [sha2] and [hex] compute.  No theorem
    depends on it; the theorems hold for every instance of [Crypto]. *)

From S2P Require Import Prelude Protocol Base64.

Definition mask32 (x : Z) : Z := Z.land x (2 ^ 32 - 1).
Definition add32 (x y : Z) : Z := mask32 (x + y).
Definition rotr (n x : Z) : Z := Z.lor (Z.shiftr x n) (mask32 (Z.shiftl x (32 - n))).

Definition ch (x y z : Z) : Z := Z.lxor (Z.land x y) (Z.land (Z.lxor x (2 ^ 32 - 1)) z).
Definition maj (x y z : Z) : Z := Z.lxor (Z.lxor (Z.land x y) (Z.land x z)) (Z.land y z).
Definition big_sigma0 (x : Z) : Z := Z.lxor (Z.lxor (rotr 2 x) (rotr 13 x)) (rotr 22 x).
Definition big_sigma1 (x : Z) : Z := Z.lxor (Z.lxor (rotr 6 x) (rotr 11 x)) (rotr 25 x).
Definition small_sigma0 (x : Z) : Z := Z.lxor (Z.lxor (rotr 7 x) (rotr 18 x)) (Z.shiftr x 3).
Definition small_sigma1 (x : Z) : Z := Z.lxor (Z.lxor (rotr 17 x) (rotr 19 x)) (Z.shiftr x 10).

(** The constants as the standard defines them: the first 32 bits of the fractional
    parts of the cube roots of the first 64 primes, and of the square roots of
    the first 8. *)
Definition is_prime (n : Z) : bool := forallb (fun d => negb (n mod d =? 0)) (seqZ 2 (Z.sqrt n - 1)).
Definition primes : list Z := take 64 (filterb is_prime (seqZ 2 400)).

(** The integer cube root, bit by bit from the 40th. *)
Definition cube_root (n : Z) : Z :=
  foldl (fun r i => let r' := r + 2 ^ i in if r' * r' * r' <=? n then r' else r) 0 (rev (seqZ 0 41)).

Definition round_constants : list Z := (fun p => mask32 (cube_root (p * 2 ^ 96))) <$> primes.
Definition initial_hash : list Z := (fun p => mask32 (Z.sqrt (p * 2 ^ 64))) <$> take 8 primes.

(** [n] bytes of a number, the most significant first. *)
Definition be_bytes (n : nat) (x : Z) : list Z := (fun i => Z.land (Z.shiftr x (8 * Z.of_nat i)) 255) <$> rev (seq 0 n).

Definition be_word (l : list Z) : Z := foldl (fun acc b => acc * 256 + b) 0 l.

Definition padded (msg : list Z) : list Z :=
  let zeros := Z.to_nat ((55 - Z.of_nat (length msg)) mod 64) in
  msg ++ [0x80] ++ replicate zeros 0 ++ be_bytes 8 (8 * Z.of_nat (length msg)).

(** Consecutive parts of [n] elements. *)
Definition parts (n : nat) (l : list Z) : list (list Z) := reshape (replicate (length l / n) n) l.

(** The message schedule, the latest word first. *)
Definition extend_schedule (w : list Z) : list Z :=
  let at_ i := default 0 (w !! i) in
  add32 (add32 (small_sigma1 (at_ 1%nat)) (at_ 6%nat)) (add32 (small_sigma0 (at_ 14%nat)) (at_ 15%nat)) :: w.

Definition schedule (block : list Z) : list Z :=
  rev (Nat.iter 48 extend_schedule (rev (be_word <$> parts 4 block))).

Definition sha_round (st : list Z) (kw : Z * Z) : list Z :=
  match st with
  | [a; b; c; d; e; f; g; h] =>
      let t1 := add32 (add32 (add32 h (big_sigma1 e)) (add32 (ch e f g) kw.1)) kw.2 in
      let t2 := add32 (big_sigma0 a) (maj a b c) in
      [add32 t1 t2; a; b; c; add32 d t1; e; f; g]
  | _ => st
  end.

Definition compress (hash block : list Z) : list Z :=
  zip_with add32 hash (foldl sha_round hash (zip round_constants (schedule block))).

Definition sha256_bytes (msg : bytes) : bytes :=
  byte_of <$> (foldl compress initial_hash (parts 64 (padded (byte_val <$> msg))) ≫= be_bytes 4).

(** ** Hexadecimal *)

Definition hex_digit (n : Z) : Ascii.ascii := char_of (if n <? 10 then n + 48 else n + 87).

Fixpoint hex_text (l : bytes) : string :=
  match l with
  | [] => EmptyString
  | b :: l => String (hex_digit (byte_val b / 16)) (String (hex_digit (byte_val b mod 16)) (hex_text l))
  end.

Definition hex_val (c : Ascii.ascii) : option Z :=
  let n := char_val c in
  if (48 <=? n) && (n <=? 57) then Some (n - 48)
  else if (97 <=? n) && (n <=? 102) then Some (n - 87)
  else if (65 <=? n) && (n <=? 70) then Some (n - 55)
  else None.

Fixpoint hex_bytes (s : string) : option bytes :=
  match s with
  | EmptyString => Some []
  | String c (String c' rest) =>
      match hex_val c, hex_val c' with
      | Some x, Some y => cons (byte_of (x * 16 + y)) <$> hex_bytes rest
      | _, _ => None
      end
  | _ => None
  end.

Lemma hex_digit_roundtrip n : 0 <= n < 16 -> hex_val (hex_digit n) = Some n.
Proof.
  intros Hn. assert (forallb (fun k => bool_decide (hex_val (hex_digit k) = Some k)) (seqZ 0 16) = true) as H by by vm_compute.
  rewrite forallb_forall in H. apply (bool_decide_eq_true_1 _), H, list_elem_of_In, elem_of_seqZ. lia.
Qed.

Lemma hex_roundtrip l : hex_bytes (hex_text l) = Some l.
Proof.
  induction l as [|b l IH]; [done|]. cbn [hex_text hex_bytes]. pose proof (byte_val_range b).
  rewrite !hex_digit_roundtrip, IH by (split; [apply Z.div_pos || apply Z.mod_pos_bound | apply Z.div_lt_upper_bound || apply Z.mod_pos_bound]; lia).
  cbn. by rewrite (byte_of_val b) by (rewrite Z.mul_comm, <- Z.div_mod; lia).
Qed.

(** The code's hash with the signatures of [toy_crypto]. *)
Definition sha_crypto : Crypto := {|
  sha256 := sha256_bytes; hex_encode := hex_text; hex_decode := hex_bytes;
  ed25519_verify key msg sig := bool_decide (sig = key ++ msg);
|}.

(** The first example of the standard, and the empty text. *)
Example sha256_abc :
  hex_text (sha256_bytes (str_bytes "abc")) = "ba7816bf8f01cfea414140de5dae2223b00361a396177a9cb410ff61f20015ad"%string
  /\ hex_text (sha256_bytes []) = "e3b0c44298fc1c149afbf4c8996fb92427ae41e4649b934ca495991b7852b855"%string.
Proof. by vm_compute. Qed.
