(* ===== verification/Testing.v ===== *)
(** * Running the code's unit tests on the model

    The files after this one translate the test modules of the crates: a test is
    a boolean that runs the same calls on the model and checks the same
    assertions, and a lemma per module evaluates all of them.  They show that
    the definitions behave on these inputs as the authors of the code expect of
    theirs.  The clock stands still in a test unless the test moves it;
    a test that traverses a hash map is run with two orders of traversal. *)

From S2P Require Import Prelude Governor.

(** [assert_eq!] *)
Definition assert_eq {A} `{EqDecision A} (x y : A) : bool := bool_decide (x = y).

(** [is_some], [is_none] and the like on the results of a test. *)
Definition is_some {A} (o : option A) : bool := match o with Some _ => true | None => false end.
Definition is_none {A} (o : option A) : bool := negb (is_some o).

(** [assert!(o.unwrap() ...)]: a test that unwraps nothing fails. *)
Definition unwrap_and {A} (o : option A) (P : A -> bool) : bool := match o with Some a => P a | None => false end.

(** Maps are traversed in the opposite order of [sorted_iter]. *)
Definition reversed_iter : HashIter.
Proof.
  refine {| hash_iter V m := rev (map_to_list m); hash_set_iter s := rev (elements s) |}.
  - intros V m. symmetry. apply Permutation_rev.
  - intros s. symmetry. apply Permutation_rev.
Defined.

(** A test under both orders. *)
Definition in_both_orders (test : HashIter -> bool) : bool := test sorted_iter && test reversed_iter.

(** All clock readings of a tick are the same. *)
Definition still (now : Instant) : TickClock := {|
  at_unban := now; at_reap := now; at_cold := now; at_hot := now; at_demote := now; at_churn := now;
|}.

Definition all_pass (tests : list bool) : bool := forallb id tests.
