(* ===== verification/TestGovernor.v ===== *)
(** * The tests of the governor

    The test module of [cordelia-governor/src/lib.rs].  [make_peer_id] derives
    identities from key pairs of libp2p; here it is a parameter, and the tests
    are run with different texts for different bytes. *)

From stdpp Require Import pretty.
From S2P Require Import Prelude Float64 Protocol Governor Testing.

#[local] Open Scope string_scope.
#[local] Open Scope Z_scope.

Section tests.
Context `{HI : HashIter}.
Context (make_peer_id : Z -> NodeId) (now : Instant).

Definition make_addr : list Multiaddr := [[Ip4 127 0 0 1; OtherProto "udp/9474"; OtherProto "quic-v1"]].

(** [GovernorTargets { hot_min, warm_min, ..Default::default() }] *)
Definition targets_with (hot warm : nat) : GovernorTargets := {|
  hot_min := hot; hot_max := hot_max default_targets; warm_min := warm; warm_max := warm_max default_targets;
  cold_max := cold_max default_targets; gt_churn_interval_secs := gt_churn_interval_secs default_targets;
  churn_fraction := churn_fraction default_targets;
|}.

(** [gov.peers.get_mut(&id).unwrap().field = x] of an entry that is there. *)
Abbreviation force := modify_peer (only parsing).

Definition test_add_peer : bool :=
  let gov := new_governor now default_targets ["g1"] in
  let gov := add_peer now (make_peer_id 1) make_addr ["g1"] gov in
  assert_eq (counts gov) (0, 0, 1, 0)%nat.

Definition test_promote_to_warm : bool :=
  let gov := new_governor now default_targets ["g1"] in
  let gov := foldl (fun gov i => add_peer now (make_peer_id i) make_addr ["g1"] gov) gov (seqZ 0 15) in
  let '(_, actions) := tick (still now) gov in
  negb (assert_eq (connect actions) []).

Definition test_promote_warm_to_hot : bool :=
  let gov := new_governor now (targets_with 2 0) ["g1"] in
  let gov := foldl (fun gov i => mark_connected now (make_peer_id i) (add_peer now (make_peer_id i) make_addr ["g1"] gov))
               gov (seqZ 0 5) in
  let '(hot, warm, _, _) := counts gov in
  assert_eq hot 0%nat && assert_eq warm 5%nat
  && let '(gov, actions) := tick (still now) gov in
     let '(hot, _, _, _) := counts gov in
     (2 <=? hot)%nat && negb (assert_eq (transitions actions) []).

Definition test_ban_peer : bool :=
  let gov := new_governor now default_targets [] in
  let id := make_peer_id 1 in
  let gov := add_peer now id make_addr [] gov in
  let gov := ban_peer now id "protocol violation" gov in
  unwrap_and (peer_state gov id) is_banned
  && let gov := ban_peer now id "repeat offense" gov in
     unwrap_and (peer_state gov id) (fun s => match s with Banned _ _ escalation => escalation =? 2 | _ => false end).

Definition test_hot_peers_for_group : bool :=
  let gov := new_governor now default_targets ["g1"; "g2"] in
  let id1 := make_peer_id 1 in
  let id2 := make_peer_id 2 in
  let gov := add_peer now id1 make_addr ["g1"] gov in
  let gov := add_peer now id2 make_addr ["g2"] gov in
  let gov := force id1 (set_state Hot) gov in
  let gov := force id2 (set_state Hot) gov in
  assert_eq (node_id <$> hot_peers_for_group gov "g1") [id1].

Definition test_replace_node_id : bool :=
  let gov := new_governor now default_targets ["g1"] in
  let old_id := make_peer_id 99 in
  let new_id := make_peer_id 1 in
  let gov := add_peer now old_id make_addr [] gov in
  is_some (peer_info gov old_id) && is_none (peer_info gov new_id)
  && let '(gov, replaced) := replace_node_id old_id new_id ["g1"] gov in
     replaced && is_none (peer_info gov old_id) && is_some (peer_info gov new_id)
     && unwrap_and (peer_info gov new_id) (fun p => assert_eq (groups p) ["g1"]).

Definition test_peer_score : bool :=
  let peer := new_peer now (make_peer_id 1) make_addr [] in
  let peer := set_connected_since (Some (now - from_secs 100)) peer in
  let peer := set_items_delivered 50 peer in
  let peer := set_rtt_ms (Some (f64_of_Z 10)) peer in
  f64_gt (score now peer) (f64_of_Z 0).

Definition test_mark_disconnected : bool :=
  let gov := new_governor now default_targets ["g1"] in
  let id := make_peer_id 1 in
  let gov := add_peer now id make_addr ["g1"] gov in
  let gov := mark_disconnected now id gov in
  assert_eq (peer_state gov id) (Some Cold)
  && unwrap_and (peer_info gov id) (fun p => disconnect_count p =? 0)
  && let gov := mark_connected now id gov in
     assert_eq (peer_state gov id) (Some Warm)
     && let gov := mark_disconnected now id gov in
        assert_eq (peer_state gov id) (Some Cold)
        && unwrap_and (peer_info gov id) (fun p =>
             is_none (connected_since p) && (disconnect_count p =? 1) && is_some (last_disconnected p))
        && let gov := mark_connected now id gov in
           let gov := force id (set_state Hot) gov in
           let gov := mark_disconnected now id gov in
           assert_eq (peer_state gov id) (Some Cold)
           && unwrap_and (peer_info gov id) (fun p => disconnect_count p =? 2).

Definition test_reconnect_backoff_values : bool :=
  assert_eq (reconnect_backoff 0) 0
  && assert_eq (reconnect_backoff 1) (from_secs 60)
  && assert_eq (reconnect_backoff 2) (from_secs 120)
  && assert_eq (reconnect_backoff 3) (from_secs 240)
  && assert_eq (reconnect_backoff 4) (from_secs 480)
  && assert_eq (reconnect_backoff 5) (from_secs 900)
  && assert_eq (reconnect_backoff 6) (from_secs 900)
  && assert_eq (reconnect_backoff 99) (from_secs 900).

Definition test_backoff_prevents_immediate_reconnect : bool :=
  let gov := new_governor now (targets_with (hot_min default_targets) 5) ["g1"] in
  let id := make_peer_id 1 in
  let gov := add_peer now id make_addr ["g1"] gov in
  let gov := mark_connected now id gov in
  let gov := mark_disconnected now id gov in
  let '(_, actions) := tick (still now) gov in
  negb (contains (connect actions) id).

Definition test_backoff_allows_reconnect_after_expiry : bool :=
  let gov := new_governor now (targets_with (hot_min default_targets) 5) ["g1"] in
  let id := make_peer_id 1 in
  let gov := add_peer now id make_addr ["g1"] gov in
  let gov := mark_connected now id gov in
  let gov := mark_disconnected now id gov in
  let gov := force id (set_last_disconnected (Some (now - from_secs 120))) gov in
  let '(_, actions) := tick (still now) gov in
  contains (connect actions) id.

Definition test_hot_promotion_resets_disconnect_count : bool :=
  let gov := new_governor now (targets_with 1 0) ["g1"] in
  let id := make_peer_id 1 in
  let gov := add_peer now id make_addr ["g1"] gov in
  let gov := mark_connected now id gov in
  let gov := force id (set_disconnect_count 3) gov in
  let '(gov, _) := tick (still now) gov in
  unwrap_and (peer_info gov id) (fun peer => assert_eq (state peer) Hot && (disconnect_count peer =? 0)).

Definition test_no_oscillation_after_reap : bool :=
  let gov := new_governor now (targets_with 2 0) ["g1"] in
  let id0 := make_peer_id 0 in
  let id1 := make_peer_id 1 in
  let id2 := make_peer_id 2 in
  let gov := foldl (fun gov id => mark_connected now id (add_peer now id make_addr ["g1"] gov)) gov [id0; id1; id2] in
  let gov := force id0 (set_state Hot) gov in
  let gov := force id1 (set_state Hot) gov in
  let gov := force id0 (set_last_activity (now - from_secs 100)) gov in
  let '(gov, actions) := tick (still now) gov in
  unwrap_and (peer_info gov id0) (fun peer0 => assert_eq (state peer0) Warm && is_some (demoted_at peer0))
  && negb (existsb (fun '(id, _, to) => assert_eq id id0 && assert_eq to "hot") (transitions actions)).

Definition test_dial_policy_all : bool :=
  let gov := with_dial_policy now (targets_with (hot_min default_targets) 5) ["g1"] DialAll in
  let relay_id := make_peer_id 1 in
  let personal_id := make_peer_id 2 in
  let gov := add_peer now relay_id make_addr ["g1"] gov in
  let gov := set_peer_relay relay_id true gov in
  let gov := add_peer now personal_id make_addr ["g1"] gov in
  let '(_, actions) := tick (still now) gov in
  contains (connect actions) relay_id && contains (connect actions) personal_id.

Definition test_dial_policy_relays_only : bool :=
  let gov := with_dial_policy now (targets_with (hot_min default_targets) 5) ["g1"] RelaysOnly in
  let relay_id := make_peer_id 1 in
  let personal_id := make_peer_id 2 in
  let gov := add_peer now relay_id make_addr ["g1"] gov in
  let gov := set_peer_relay relay_id true gov in
  let gov := add_peer now personal_id make_addr ["g1"] gov in
  let '(_, actions) := tick (still now) gov in
  contains (connect actions) relay_id && negb (contains (connect actions) personal_id).

Definition test_dial_policy_trusted_only : bool :=
  let trusted_id := make_peer_id 1 in
  let untrusted_id := make_peer_id 2 in
  let gov := with_dial_policy now (targets_with (hot_min default_targets) 5) ["g1"] (TrustedOnly [trusted_id]) in
  let gov := add_peer now trusted_id make_addr ["g1"] gov in
  let gov := set_peer_relay trusted_id true gov in
  let gov := add_peer now untrusted_id make_addr ["g1"] gov in
  let gov := set_peer_relay untrusted_id true gov in
  let '(_, actions) := tick (still now) gov in
  contains (connect actions) trusted_id && negb (contains (connect actions) untrusted_id).

Definition test_replace_does_not_overwrite_active_peer : bool :=
  let gov := new_governor now default_targets ["g1"] in
  let placeholder_id := make_peer_id 99 in
  let real_id := make_peer_id 1 in
  let gov := add_peer now placeholder_id make_addr [] gov in
  let gov := set_peer_relay placeholder_id true gov in
  let gov := add_peer now real_id make_addr ["g1"] gov in
  let gov := mark_connected now real_id gov in
  assert_eq (peer_state gov real_id) (Some Warm)
  && let '(gov, replaced) := replace_node_id placeholder_id real_id ["g1"] gov in
     replaced
     && unwrap_and (peer_info gov real_id) (fun peer => assert_eq (state peer) Warm && is_relay peer)
     && is_none (peer_info gov placeholder_id).

Definition test_relay_flag_preserved_on_replace : bool :=
  let gov := new_governor now default_targets ["g1"] in
  let old_id := make_peer_id 99 in
  let new_id := make_peer_id 1 in
  let gov := add_peer now old_id make_addr [] gov in
  let gov := set_peer_relay old_id true gov in
  let '(gov, _) := replace_node_id old_id new_id ["g1"] gov in
  unwrap_and (peer_info gov new_id) is_relay.

Definition test_reap_then_promote_after_cooldown : bool :=
  let gov := new_governor now (targets_with 1 0) ["g1"] in
  let id := make_peer_id 1 in
  let gov := add_peer now id make_addr ["g1"] gov in
  let gov := mark_connected now id gov in
  let gov := force id (set_demoted_at (Some (now - from_secs 100))) gov in
  let '(gov, _) := tick (still now) gov in
  unwrap_and (peer_info gov id) (fun peer => assert_eq (state peer) Hot).

Definition governor_tests : bool := all_pass [
  test_add_peer; test_promote_to_warm; test_promote_warm_to_hot; test_ban_peer; test_hot_peers_for_group;
  test_replace_node_id; test_peer_score; test_mark_disconnected; test_reconnect_backoff_values;
  test_backoff_prevents_immediate_reconnect; test_backoff_allows_reconnect_after_expiry;
  test_hot_promotion_resets_disconnect_count; test_no_oscillation_after_reap; test_dial_policy_all;
  test_dial_policy_relays_only; test_dial_policy_trusted_only; test_replace_does_not_overwrite_active_peer;
  test_relay_flag_preserved_on_replace; test_reap_then_promote_after_cooldown].

End tests.

(** Every test of the governor passes on the model. *)
Lemma governor_tests_pass : in_both_orders (fun it => @governor_tests it (fun b => "peer-" +:+ pretty b) (from_secs 1000)) = true.
Proof. vm_compute. reflexivity. Qed.
