(* ===== verification/TestStorage.v ===== *)
(** * The tests of the store

    The test module of [cordelia-storage/src/lib.rs].  A test is a computation
    on the store that fails where the test panics: a call that is unwrapped and
    returns an error, a missing row, or an assertion that does not hold. *)

From S2P Require Import Prelude Protocol Governor Storage SwarmTask Sha256 Testing.

#[local] Open Scope string_scope.
#[local] Open Scope Z_scope.

(** [assert!] and [Option::unwrap] in a test on a store. *)
Definition ensure (b : bool) : M unit := if b then ret tt else fail (Io "assertion failed").
Definition unwrap_some {A} (m : M (option A)) : M A :=
  let! o := m in match o with Some a => ret a | None => fail (Io "unwrap of None") end.

Section tests.
Context `{CR : Crypto} `{HI : HashIter} (env : SqlEnv).

(** [test_db]: a new database; the test is over when it fails. *)
Definition test_db (test : M unit) : bool :=
  match create_new env empty_db with
  | Ok d => match (test d).2 with Ok _ => true | Err _ => false end
  | Err _ => false
  end.

Definition test_l1_read_write : bool := test_db (
  let! r := read_l1 env "test-user" in
  let! _ := ensure (is_none r) in
  let! _ := write_l1 env "test-user" (str_bytes "hello") in
  let! data := unwrap_some (read_l1 env "test-user") in
  let! _ := ensure (assert_eq data (str_bytes "hello")) in
  let! _ := write_l1 env "test-user" (str_bytes "updated") in
  let! data := unwrap_some (read_l1 env "test-user") in
  ensure (assert_eq data (str_bytes "updated"))).

Definition test_l2_item_crud : bool := test_db (
  let item := {|
    lw_id := "test-item-1"; lw_item_type := "entity"; lw_data := str_bytes "encrypted-blob"; lw_owner_id := Some "russell";
    lw_visibility := "private"; lw_group_id := None; lw_author_id := Some "russell"; lw_key_version := 1;
    lw_parent_id := None; lw_is_copy := false; lw_updated_at := None;
  |} in
  let! _ := write_l2_item env item in
  let! row := unwrap_some (read_l2_item env "test-item-1") in
  let! _ := ensure (assert_eq (l2_id row) "test-item-1") in
  let! _ := ensure (assert_eq (l2_item_type row) "entity") in
  let! _ := ensure (assert_eq (l2_data row) (str_bytes "encrypted-blob")) in
  let! _ := ensure (is_some (l2_checksum row)) in
  let! deleted := delete_l2_item env "test-item-1" in
  let! _ := ensure deleted in
  let! r := read_l2_item env "test-item-1" in
  ensure (is_none r)).

(** The INSERT statements of the test below: new rows, the other columns with the
    defaults of the schema. *)
Definition insert_group (id name culture policy : string) : M unit :=
  stmt env "insert_group" (fun d =>
    Ok (set_groups_t (<[id := upsert_group (sql_now env) id name culture policy None]> (groups_t d)) d, tt)).

Definition insert_member (gid entity role : string) : M unit :=
  stmt env "insert_member" (fun d =>
    if negb (role_ok role) then Err CheckFailed
    else if bool_decide (is_Some (groups_t d !! gid)) && bool_decide (is_Some (l1_hot d !! entity))
    then Ok (set_group_members (<[(gid, entity) := upsert_member (sql_now env) gid entity role None]> (group_members d)) d, tt)
    else Err ForeignKeyFailed).

Definition test_groups_and_members : bool := test_db (
  let! _ := write_l1 env "russell" (str_bytes "{}") in
  let! _ := write_l1 env "martin" (str_bytes "{}") in
  let! _ := db_lock in
  let! _ := insert_group "team-1" "Team One" "{}" "{}" in
  let! _ := insert_member "team-1" "russell" "owner" in
  let! _ := insert_member "team-1" "martin" "member" in
  let! group := unwrap_some (read_group env "team-1") in
  let! _ := ensure (assert_eq (gr_name group) "Team One") in
  let! members := list_members env "team-1" in
  let! _ := ensure (assert_eq (length members) 2%nat) in
  let! membership := unwrap_some (get_membership env "team-1" "russell") in
  ensure (assert_eq (gm_role membership) "owner")).

Definition test_list_group_items : bool := test_db (
  let item := {|
    lw_id := "grp-item-1"; lw_item_type := "learning"; lw_data := str_bytes "blob"; lw_owner_id := Some "russell";
    lw_visibility := "group"; lw_group_id := Some "seed-drill"; lw_author_id := Some "russell"; lw_key_version := 1;
    lw_parent_id := None; lw_is_copy := false; lw_updated_at := None;
  |} in
  let! _ := write_l2_item env item in
  let! headers := list_group_items env "seed-drill" None 100 in
  ensure (assert_eq (ih_item_id <$> headers) ["grp-item-1"])).

Definition test_access_log : bool := test_db (
  let! _ := log_access env {|
    al_entity_id := "russell"; al_action := "read"; al_resource_type := "l2_item"; al_resource_id := Some "item-1";
    al_group_id := None; al_detail := None;
  |} in
  let! _ := db_lock in
  let! count := query env "count_access_log" (fun d => length (access_log d)) in
  ensure (assert_eq count 1%nat)).

Definition eagerness_json (e : string) : string := "{" ++ quoted "broadcast_eagerness" ++ ":" ++ quoted e ++ "}".

Definition test_write_group : bool := test_db (
  let! _ := write_group env "grp-1" "Test Group" (eagerness_json "chatty") "{}" in
  let! group := unwrap_some (read_group env "grp-1") in
  let! _ := ensure (assert_eq (gr_name group) "Test Group") in
  let! _ := ensure (str_contains (gr_culture group) "chatty") in
  let! _ := write_group env "grp-1" "Updated Name" (eagerness_json "moderate") "{}" in
  let! group2 := unwrap_some (read_group env "grp-1") in
  let! _ := ensure (assert_eq (gr_name group2) "Updated Name") in
  let! groups := list_groups env in
  ensure (assert_eq (length groups) 1%nat)).

Definition test_add_remove_member : bool := test_db (
  let! _ := write_l1 env "alice" (str_bytes "{}") in
  let! _ := write_l1 env "bob" (str_bytes "{}") in
  let! _ := write_group env "grp-m" "Member Test" "{}" "{}" in
  let! _ := add_member env "grp-m" "alice" "member" in
  let! _ := add_member env "grp-m" "bob" "viewer" in
  let! members := list_members env "grp-m" in
  let! _ := ensure (assert_eq (length members) 2%nat) in
  let! alice := unwrap_some (get_membership env "grp-m" "alice") in
  let! _ := ensure (assert_eq (gm_role alice) "member") in
  let! _ := ensure (assert_eq (gm_posture alice) (Some "active")) in
  let! _ := add_member env "grp-m" "alice" "admin" in
  let! alice2 := unwrap_some (get_membership env "grp-m" "alice") in
  let! _ := ensure (assert_eq (gm_role alice2) "admin") in
  let! removed := remove_member env "grp-m" "bob" in
  let! _ := ensure removed in
  let! removed := remove_member env "grp-m" "bob" in
  let! _ := ensure (negb removed) in
  let! members := list_members env "grp-m" in
  let! _ := ensure (assert_eq (length members) 1%nat) in
  let! _ := add_member env "grp-m" "bob" "member" in
  let! bob := unwrap_some (get_membership env "grp-m" "bob") in
  let! _ := ensure (assert_eq (gm_role bob) "member") in
  let! _ := ensure (assert_eq (gm_posture bob) (Some "active")) in
  let! members := list_members env "grp-m" in
  ensure (assert_eq (length members) 2%nat)).

Definition frank_json : bytes := str_bytes ("{" ++ quoted "name" ++ ":" ++ quoted "Frank" ++ "}").

Definition test_add_member_auto_creates_l1_stub : bool := test_db (
  let! _ := write_group env "grp-lazy" "Lazy FK Test" "{}" "{}" in
  let! r := read_l1 env "eve" in
  let! _ := ensure (is_none r) in
  let! _ := add_member env "grp-lazy" "eve" "member" in
  let! l1 := unwrap_some (read_l1 env "eve") in
  let! _ := ensure (assert_eq l1 (str_bytes "{}")) in
  let! eve := unwrap_some (get_membership env "grp-lazy" "eve") in
  let! _ := ensure (assert_eq (gm_role eve) "member") in
  let! _ := write_l1 env "frank" frank_json in
  let! _ := add_member env "grp-lazy" "frank" "admin" in
  let! frank_l1 := unwrap_some (read_l1 env "frank") in
  ensure (assert_eq frank_l1 frank_json)).

Definition test_update_member_posture : bool := test_db (
  let! _ := write_l1 env "carol" (str_bytes "{}") in
  let! _ := write_group env "grp-p" "Posture Test" "{}" "{}" in
  let! _ := add_member env "grp-p" "carol" "member" in
  let! updated := update_member_posture env "grp-p" "carol" "emcon" in
  let! _ := ensure updated in
  let! carol := unwrap_some (get_membership env "grp-p" "carol") in
  let! _ := ensure (assert_eq (gm_posture carol) (Some "emcon")) in
  let! updated := update_member_posture env "grp-p" "nobody" "silent" in
  ensure (negb updated)).

Definition test_delete_group : bool := test_db (
  let! _ := write_l1 env "dave" (str_bytes "{}") in
  let! _ := write_group env "grp-d" "Delete Test" "{}" "{}" in
  let! _ := add_member env "grp-d" "dave" "owner" in
  let! deleted := delete_group env "grp-d" in
  let! _ := ensure deleted in
  let! r := read_group env "grp-d" in
  let! _ := ensure (is_none r) in
  let! members := list_members env "grp-d" in
  let! _ := ensure (assert_eq (length members) 0%nat) in
  let! deleted := delete_group env "grp-d" in
  ensure (negb deleted)).

Definition entity_write (id visibility : string) (gid : option string) (data : bytes) : L2ItemWrite := {|
  lw_id := id; lw_item_type := "entity"; lw_data := data; lw_owner_id := None; lw_visibility := visibility;
  lw_group_id := gid; lw_author_id := None; lw_key_version := 1; lw_parent_id := None; lw_is_copy := false;
  lw_updated_at := None;
|}.

Definition test_list_stored_group_ids : bool := test_db (
  let! ids := list_stored_group_ids env in
  let! _ := ensure (assert_eq ids []) in
  let! _ := write_l2_item env (entity_write "a" "group" (Some "group-alpha") (str_bytes "blob")) in
  let! _ := write_l2_item env (entity_write "b" "group" (Some "group-alpha") (str_bytes "blob")) in
  let! _ := write_l2_item env (entity_write "c" "group" (Some "group-bravo") (str_bytes "blob")) in
  let! _ := write_l2_item env (entity_write "d" "private" None (str_bytes "blob")) in
  let! ids := list_stored_group_ids env in
  let ids := sort_by str_cmp ids in
  ensure (assert_eq ids ["group-alpha"; "group-bravo"])).

Definition test_checksum_computed_on_write : bool := test_db (
  let data := str_bytes "test data for checksum" in
  let! _ := write_l2_item env (entity_write "chk-1" "private" None data) in
  let! row := unwrap_some (read_l2_item env "chk-1") in
  ensure (assert_eq (l2_checksum row) (Some (checksum data)))).

Definition test_device_crud : bool := test_db (
  let! _ := db_lock in
  let! _ := stmt env "schema_v5" schema_v5 in
  let device := {|
    dv_device_id := "dev-001"; dv_entity_id := "russell"; dv_device_name := Some "Russell's MacBook"; dv_device_type := "node";
    dv_auth_token_hash := "abc123hash"; dv_created_at := EmptyString; dv_last_seen_at := None; dv_revoked_at := None;
  |} in
  let! _ := register_device env device in
  let! devices := list_devices env "russell" in
  let! _ := ensure (assert_eq (dv_device_id <$> devices) ["dev-001"]) in
  let! _ := ensure (assert_eq (dv_device_name <$> devices) [Some "Russell's MacBook"]) in
  let! found := unwrap_some (get_device_by_token_hash env "abc123hash") in
  let! _ := ensure (assert_eq (dv_device_id found) "dev-001") in
  let! revoked := revoke_device env "russell" "dev-001" in
  let! _ := ensure revoked in
  let! revoked := revoke_device env "russell" "dev-001" in
  let! _ := ensure (negb revoked) in
  let! found := get_device_by_token_hash env "abc123hash" in
  let! _ := ensure (is_none found) in
  let! devices2 := list_devices env "russell" in
  ensure (match devices2 with [dev] => is_some (dv_revoked_at dev) | _ => false end)).

Definition storage_tests : bool := all_pass [
  test_l1_read_write; test_l2_item_crud; test_groups_and_members; test_list_group_items; test_access_log; test_write_group;
  test_add_remove_member; test_add_member_auto_creates_l1_stub; test_update_member_posture; test_delete_group;
  test_list_stored_group_ids; test_checksum_computed_on_write; test_device_crud].

End tests.

(** Every test of the store passes on the model. *)
Lemma storage_tests_pass :
  in_both_orders (fun it => @storage_tests sha_crypto it
    {| sql_now := "2026-02-01 10:00:00"; sql_days_ago := fun _ => "2026-01-25 10:00:00"; fault := fun _ => None |}) = true.
Proof. vm_compute. reflexivity. Qed.
