(* ===== verification/TestReplication.v ===== *)
(** * The tests of the replication engine

    The test modules of [cordelia-replication/src/lib.rs] and
    [cordelia-replication/src/engine.rs], on the SQLite store. *)

From S2P Require Import Prelude Protocol Governor Storage ItemStore Replication Testing TestStorage.

#[local] Open Scope string_scope.
#[local] Open Scope Z_scope.

#[local] Instance ReplicationStrategy_eq_dec : EqDecision ReplicationStrategy.
Proof. solve_decision. Defined.

(** [GroupCulture { broadcast_eagerness, ..Default::default() }] *)
Definition culture_with (eagerness : string) : GroupCulture := {|
  broadcast_eagerness := eagerness; ttl_default := ttl_default default_culture;
  notification_policy := notification_policy default_culture; departure_policy := departure_policy default_culture;
|}.

(** ** lib.rs *)

Definition test_culture_strategy : bool :=
  assert_eq (strategy (culture_with "chatty")) EagerPush
  && assert_eq (strategy (culture_with "moderate")) EagerPush
  && assert_eq (strategy default_culture) EagerPush
  && assert_eq (strategy (culture_with "taciturn")) Passive.

Section lib_tests.
Context `{CR : Crypto}.

(** The items of the tests differ in these fields; key version 1, no parent, no copy. *)
Definition test_item (id ty : string) (blob : bytes) (author gid ts : string) : FetchedItem := {|
  fi_item_id := id; fi_item_type := ty; fi_encrypted_blob := blob; fi_checksum := checksum blob; fi_author_id := author;
  fi_group_id := gid; fi_key_version := 1; fi_parent_id := None; fi_is_copy := false; fi_updated_at := ts;
|}.

Definition with_checksum (sum : string) (x : FetchedItem) : FetchedItem := {|
  fi_item_id := fi_item_id x; fi_item_type := fi_item_type x; fi_encrypted_blob := fi_encrypted_blob x; fi_checksum := sum;
  fi_author_id := fi_author_id x; fi_group_id := fi_group_id x; fi_key_version := fi_key_version x;
  fi_parent_id := fi_parent_id x; fi_is_copy := fi_is_copy x; fi_updated_at := fi_updated_at x;
|}.

Definition test_validate_checksum : bool :=
  let item := test_item "test" "entity" (str_bytes "test blob") "russell" "seed-drill" "2026-01-29T00:00:00Z" in
  validate_checksum item && negb (validate_checksum (with_checksum "wrong" item)).

End lib_tests.

Definition test_header (id ty sum ts author : string) : ItemHeader := {|
  ih_item_id := id; ih_item_type := ty; ih_checksum := sum; ih_updated_at := ts; ih_author_id := author; ih_is_deletion := false;
|}.

Definition test_diff_headers : bool :=
  let local := [test_header "a" "entity" "hash_a" "2026-01-01" "r"; test_header "b" "entity" "hash_b" "2026-01-01" "r"] in
  let remote := [test_header "a" "entity" "hash_a" "2026-01-01" "r"; test_header "b" "entity" "hash_b_new" "2026-01-02" "r";
                 test_header "c" "learning" "hash_c" "2026-01-01" "m"] in
  assert_eq (diff_headers local remote) ["b"; "c"].

Definition test_sync_intervals : bool :=
  assert_eq (sync_interval_secs EagerPush 900) (Some 60) && assert_eq (sync_interval_secs Passive 900) (Some 900).

(** ** engine.rs *)

Definition default_engine : ReplicationEngine := {| re_config := default_replication_config; re_entity_id := "russell" |}.

Section engine_tests.
Context `{CR : Crypto} (env : SqlEnv) (now : string).

Definition local_write (eagerness id : string) (data : bytes) (parent : option string) (copy : bool) : OutboundAction :=
  on_local_write default_engine now "seed-drill" (culture_with eagerness) id "entity" data 1 parent copy.

Definition test_on_local_write_eager : bool :=
  match local_write "chatty" "item-1" (str_bytes "blob") None false with
  | BroadcastItem group_id item =>
      assert_eq group_id "seed-drill" && assert_eq (fi_item_id item) "item-1"
      && assert_eq (fi_encrypted_blob item) (str_bytes "blob")
  | NoAction => false
  end.

Definition test_on_local_write_moderate_maps_to_chatty : bool :=
  match local_write "moderate" "item-1" (str_bytes "blob") None false with
  | BroadcastItem group_id item => assert_eq group_id "seed-drill" && assert_eq (fi_item_id item) "item-1"
  | NoAction => false
  end.

Definition is_no_action (a : OutboundAction) : bool := match a with NoAction => true | _ => false end.

(** One byte more than an item may have, and as many as it may. *)
Definition oversized : bytes := replicate (S (Z.to_nat MAX_ITEM_BYTES)) Byte.x00.
Definition at_limit : bytes := replicate (Z.to_nat MAX_ITEM_BYTES) Byte.xab.

Definition test_on_local_write_oversized_suppressed : bool :=
  is_no_action (local_write "chatty" "big-item" oversized None false).

Definition test_on_local_write_passive : bool :=
  is_no_action (local_write "taciturn" "item-1" (str_bytes "blob") None false).

Definition test_on_local_write_propagates_cow_fields : bool :=
  match local_write "chatty" "copy-1" (str_bytes "blob") (Some "parent-abc") true with
  | BroadcastItem _ item => assert_eq (fi_parent_id item) (Some "parent-abc") && fi_is_copy item
  | NoAction => false
  end.

(** [engine.on_receive] on the store of the test. *)
Definition receive_in_test (item : FetchedItem) (groups : list GroupId) (relay : option (GroupId -> bool)) : M ReceiveOutcome :=
  fun d => let '(d, outcome) := @on_receive CR Db (sqlite_store env) item groups relay d in (d, Ok outcome).

Definition is_stored (o : ReceiveOutcome) : bool := match o with Stored => true | _ => false end.
Definition is_duplicate (o : ReceiveOutcome) : bool := match o with Duplicate => true | _ => false end.
Definition is_rejected (o : ReceiveOutcome) : bool := match o with Rejected _ => true | _ => false end.

(** The text of this reason contains [Not My Problem]. *)
Definition is_too_large (o : ReceiveOutcome) : bool := match o with Rejected (TooLarge _) => true | _ => false end.

Definition test_on_receive_rejected_oversized : bool := test_db env (
  let item := test_item "big" "entity" oversized "attacker" "seed-drill" "2026-02-01T00:00:00Z" in
  let! result := receive_in_test item ["seed-drill"] None in
  ensure (is_too_large result)).

Definition test_on_receive_max_size_item_accepted : bool := test_db env (
  let item := test_item "just-right" "entity" at_limit "russell" "seed-drill" "2026-02-01T00:00:00Z" in
  let! result := receive_in_test item ["seed-drill"] None in
  ensure (is_stored result)).

Definition test_on_receive_rejected_not_member : bool := test_db env (
  let item := test_item "test" "entity" (str_bytes "blob") "martin" "unknown-group" "2026-01-29T00:00:00Z" in
  let! result := receive_in_test item ["seed-drill"] None in
  ensure (is_rejected result)).

Definition test_on_receive_stored : bool := test_db env (
  let item := test_item "test-1" "entity" (str_bytes "encrypted-blob") "martin" "seed-drill" "2026-01-29T00:00:00Z" in
  let! result := receive_in_test item ["seed-drill"] None in
  let! _ := ensure (is_stored result) in
  let! result2 := receive_in_test item ["seed-drill"] None in
  ensure (is_duplicate result2)).

Definition test_on_receive_relay_accepts_any_group : bool := test_db env (
  let item := test_item "relay-1" "entity" (str_bytes "relay-blob") "alpha-agent" "alpha-internal" "2026-02-01T00:00:00Z" in
  let! result := receive_in_test item [] None in
  let! _ := ensure (is_rejected result) in
  let! result := receive_in_test item [] (Some (fun _ => true)) in
  ensure (is_stored result)).

Definition test_on_receive_relay_rejects_unknown_group : bool := test_db env (
  let item := test_item "edge-1" "entity" (str_bytes "edge-blob") "alpha-agent" "alpha-internal" "2026-02-01T00:00:00Z" in
  let dynamic := fun group_id => assert_eq group_id "shared-xorg" in
  let! result := receive_in_test item [] (Some dynamic) in
  let! _ := ensure (is_rejected result) in
  let xorg_item := test_item "edge-2" "entity" (str_bytes "edge-blob") "alpha-agent" "shared-xorg" "2026-02-01T00:00:00Z" in
  let! result := receive_in_test xorg_item [] (Some dynamic) in
  ensure (is_stored result)).

Definition test_on_receive_tombstone_deletes_item : bool := test_db env (
  let item := test_item "doomed-1" "entity" (str_bytes "will-be-deleted") "russell" "seed-drill" "2026-02-01T00:00:00Z" in
  let! result := receive_in_test item ["seed-drill"] None in
  let! _ := ensure (is_stored result) in
  let! row := read_l2_item env "doomed-1" in
  let! _ := ensure (is_some row) in
  let tombstone := test_item "doomed-1" TOMBSTONE [] "russell" "seed-drill" "2026-02-09T00:00:00Z" in
  let! result := receive_in_test tombstone ["seed-drill"] None in
  let! _ := ensure (is_stored result) in
  let! row := read_l2_item env "doomed-1" in
  ensure (is_none row)).

Definition test_on_receive_tombstone_for_missing_item : bool := test_db env (
  let tombstone := test_item "never-existed" TOMBSTONE [] "russell" "seed-drill" "2026-02-09T00:00:00Z" in
  let! result := receive_in_test tombstone ["seed-drill"] None in
  ensure (is_duplicate result)).

Definition test_on_receive_lww_preserves_original_timestamp : bool := test_db env (
  let v3 := test_item "lww-item" "learning" (str_bytes "v3-bravo-wins") "bravo" "g1" "2026-02-01T00:00:02Z" in
  let! result := receive_in_test v3 ["g1"] None in
  let! _ := ensure (is_stored result) in
  let! stored := unwrap_some (read_l2_item env "lww-item") in
  let! _ := ensure (assert_eq (l2_updated_at stored) "2026-02-01T00:00:02Z") in
  let v2 := test_item "lww-item" "learning" (str_bytes "v2-alpha-stale") "alpha" "g1" "2026-02-01T00:00:01Z" in
  let! result := receive_in_test v2 ["g1"] None in
  let! _ := ensure (is_duplicate result) in
  let! final_item := unwrap_some (read_l2_item env "lww-item") in
  let! _ := ensure (assert_eq (l2_data final_item) (str_bytes "v3-bravo-wins")) in
  ensure (assert_eq (l2_updated_at final_item) "2026-02-01T00:00:02Z")).

Definition test_on_receive_tombstone_rejected_not_member : bool := test_db env (
  let tombstone := test_item "foreign-1" TOMBSTONE [] "attacker" "foreign-group" "2026-02-09T00:00:00Z" in
  let! result := receive_in_test tombstone ["seed-drill"] None in
  ensure (is_rejected result)).

Definition replication_tests : bool := all_pass [
  test_culture_strategy; test_validate_checksum; test_diff_headers; test_sync_intervals;
  test_on_local_write_eager; test_on_local_write_moderate_maps_to_chatty; test_on_local_write_oversized_suppressed;
  test_on_local_write_passive; test_on_local_write_propagates_cow_fields; test_on_receive_rejected_oversized;
  test_on_receive_max_size_item_accepted; test_on_receive_rejected_not_member; test_on_receive_stored;
  test_on_receive_relay_accepts_any_group; test_on_receive_relay_rejects_unknown_group; test_on_receive_tombstone_deletes_item;
  test_on_receive_tombstone_for_missing_item; test_on_receive_lww_preserves_original_timestamp;
  test_on_receive_tombstone_rejected_not_member].

End engine_tests.

(** Every test of the replication engine passes on the model. *)
Lemma replication_tests_pass :
  @replication_tests toy_crypto
    {| sql_now := "2026-02-01 10:00:00"; sql_days_ago := fun _ => "2026-01-25 10:00:00"; fault := fun _ => None |}
    "2026-02-01T10:00:00+00:00" = true.
Proof. vm_compute. reflexivity. Qed.
