(* ===== verification/TestNode.v ===== *)
(** * The tests of the era parameters, the configuration and the peer pool

    The test modules of [cordelia-protocol/src/era.rs],
    [cordelia-node/src/config.rs] and [cordelia-node/src/peer_pool.rs].  The TOML
    parser is not part of the model: a test that parses a file starts from its
    tables; the test that prints one is left out. *)

From Stdlib Require Import SpecFloat.
From S2P Require Import Prelude Float64 Protocol Governor PeerPool Config Testing.

#[local] Open Scope string_scope.
#[local] Open Scope Z_scope.

(** ** era.rs *)

Definition test_era_0_invariants : bool :=
  let era := ERA_0 in
  assert_eq (era_id era) 0
  && (keepalive_interval_secs era <? quic_idle_timeout_secs era)
  && (keepalive_interval_secs era <? dead_timeout_secs era)
  && (dead_timeout_secs era <? stale_timeout_secs era)
  && (0 <? churn_per_mille era) && (churn_per_mille era <? 1000).

Definition f64_EPSILON : f64 := f64_div (f64_of_Z 1) (f64_of_Z (2 ^ 52)).

Definition test_churn_fraction : bool :=
  let fifth := f64_div (f64_of_Z 1) (f64_of_Z 5) in
  f64_gt f64_EPSILON (SFabs (SFsub 53 1024 (era_churn_fraction ERA_0) fifth)).

Definition test_stale_timeout_is_6_hours : bool := assert_eq (stale_timeout_secs ERA_0) 21600.

Definition test_message_fits_multiple_items : bool :=
  let worst_case_wire := max_item_bytes ERA_0 * 4 / 3 + 200 in
  let items_per_message := max_message_bytes ERA_0 / worst_case_wire in
  10 <=? items_per_message.

Definition test_max_item_bytes_is_16kb : bool := assert_eq (max_item_bytes ERA_0) (16 * 1024).

Definition test_max_message_bytes_is_512kb : bool := assert_eq (max_message_bytes ERA_0) (512 * 1024).

Definition test_push_retry_backoffs : bool :=
  let era := ERA_0 in
  assert_eq (push_retry_count era) 4
  && assert_eq (push_retry_backoffs era) [5; 15; 60; 300]
  && let last := push_retry_backoffs era !! Z.to_nat (push_retry_count era - 1) in
     assert_eq last (Some (sync_interval_moderate_secs era)).

(** ** config.rs *)

(** A [node] table with a role, and one with every key of the tests. *)
Definition role_table (role : option string) : NodeTable := {|
  tn_identity_key := None; tn_api_transport := None; tn_api_socket := None; tn_api_addr := None; tn_database := None;
  tn_entity_id := None; tn_role := role; tn_groups := None;
|}.

Definition full_table (entity : string) (role : option string) : NodeTable := {|
  tn_identity_key := Some "~/.cordelia/node.key"; tn_api_transport := Some "http"; tn_api_socket := None;
  tn_api_addr := Some "127.0.0.1:9473"; tn_database := Some "~/cordelia/memory/cordelia.db";
  tn_entity_id := Some entity; tn_role := role; tn_groups := None;
|}.

Definition network_table (bootnodes trusted : option (list BootnodeEntry)) : NetworkTable := {|
  tw_listen_addr := Some "0.0.0.0:9474"; tw_bootnodes := bootnodes; tw_trusted_relays := trusted; tw_external_addr := None;
|}.

Definition tables (node : NodeTable) (network : option NetworkTable) (relay : option RelayTable) : ConfigTables := {|
  tc_node := Some node; tc_network := network; tc_governor := None; tc_replication := None; tc_relay := relay;
|}.

(** The test continues with the configuration, if there is one. *)
Definition with_config (t : ConfigTables) (test : NodeConfig -> bool) : bool :=
  match config_of_tables t with Ok cfg => test cfg | Err _ => false end.

Definition test_default_config : bool :=
  let cfg := default_config in
  assert_eq (gvs_hot_min (cfg_governor cfg)) 2%nat && assert_eq (gvs_hot_max (cfg_governor cfg)) 20%nat
  && assert_eq (rps_max_batch_size (cfg_replication cfg)) 100.

Definition test_parse_toml : bool :=
  with_config {|
    tc_node := Some (full_table "russell" None);
    tc_network := Some (network_table (Some [{| bn_addr := "russell.cordelia.seeddrill.ai:9474" |};
                                             {| bn_addr := "martin.cordelia.seeddrill.ai:9474" |}]) None);
    tc_governor := Some {| tg_hot_min := Some 2%nat; tg_hot_max := Some 20%nat; tg_warm_min := Some 10%nat;
                           tg_warm_max := Some 50%nat; tg_cold_max := None; tg_churn_interval_secs := None;
                           tg_churn_fraction := None |};
    tc_replication := Some {| tp_sync_interval_moderate_secs := Some 300; tp_sync_interval_taciturn_secs := None;
                              tp_tombstone_retention_days := Some 7; tp_max_batch_size := None |};
    tc_relay := None |}
  (fun cfg =>
     assert_eq (ns_entity_id (cfg_node cfg)) "russell"
     && assert_eq (length (nw_bootnodes (cfg_network cfg))) 2%nat
     && assert_eq (bn_addr <$> head (nw_bootnodes (cfg_network cfg))) (Some "russell.cordelia.seeddrill.ai:9474")
     && assert_eq (gvs_hot_min (cfg_governor cfg)) 2%nat).

Definition test_default_role_is_personal : bool :=
  assert_eq (cfg_role default_config) Personal && assert_eq (ns_role (cfg_node default_config)) "personal".

Definition test_parse_relay_role : bool :=
  with_config (tables (full_table "boot1" (Some "relay")) (Some (network_table None None)) None)
    (fun cfg => assert_eq (cfg_role cfg) Relay).

Definition test_parse_keeper_with_trusted_relays : bool :=
  with_config (tables (full_table "vault" (Some "keeper"))
      (Some (network_table None (Some [{| bn_addr := "boot1.cordelia.seeddrill.ai:9474" |};
                                       {| bn_addr := "boot2.cordelia.seeddrill.ai:9474" |}]))) None)
    (fun cfg => assert_eq (cfg_role cfg) Keeper && assert_eq (length (nw_trusted_relays (cfg_network cfg))) 2%nat).

Definition test_effective_governor_targets_personal : bool :=
  let eff := effective_governor_targets default_config in
  (gvs_hot_max eff <=? 5)%nat && (gvs_warm_max eff <=? 10)%nat.

Definition test_effective_governor_targets_relay : bool :=
  with_config (tables (role_table (Some "relay")) None None) (fun cfg =>
    let eff := effective_governor_targets cfg in
    assert_eq (gvs_hot_max eff) 20%nat && assert_eq (gvs_warm_max eff) 50%nat).

Definition relay_table (posture : option string) (allowed blocked : option (list string)) : RelayTable :=
  {| tr_posture := posture; tr_allowed_groups := allowed; tr_blocked_groups := blocked |}.

Definition test_relay_posture_default_dynamic : bool :=
  with_config (tables (role_table (Some "relay")) None None) (fun cfg => assert_eq (cfg_relay_posture cfg) Dynamic).

Definition test_relay_posture_transparent : bool :=
  with_config (tables (role_table (Some "relay")) None (Some (relay_table (Some "transparent") None None)))
    (fun cfg => assert_eq (cfg_relay_posture cfg) Transparent).

Definition test_relay_posture_explicit_with_groups : bool :=
  with_config (tables (role_table (Some "relay")) None
      (Some (relay_table (Some "explicit") (Some ["alpha-internal"; "shared-xorg"]) (Some ["blacklisted"]))))
    (fun cfg =>
       assert_eq (cfg_relay_posture cfg) Explicit
       && bool_decide ("alpha-internal" ∈ relay_allowed_groups cfg)
       && bool_decide ("shared-xorg" ∈ relay_allowed_groups cfg)
       && bool_decide ("blacklisted" ∈ relay_blocked_groups cfg)).

Definition test_personal_node_ignores_relay_section : bool :=
  with_config (tables (role_table (Some "personal")) None (Some (relay_table (Some "transparent") None None)))
    (fun cfg => assert_eq (cfg_relay_posture cfg) Dynamic).

(** The posture that a text parses to. *)
Definition parsed_posture (s : string) : option RelayPosture :=
  match posture_from_str s with Ok p => Some p | Err _ => None end.

Definition test_relay_posture_parse : bool :=
  assert_eq (parsed_posture "transparent") (Some Transparent) && assert_eq (parsed_posture "dynamic") (Some Dynamic)
  && assert_eq (parsed_posture "explicit") (Some Explicit) && is_none (parsed_posture "unknown").

(** ** peer_pool.rs *)

Section pool_tests.
(** the random identity of a test *)
Context (peer : NodeId).

Definition test_peer_pool_new : bool :=
  let '(pool, _) := pool_new ["g1"] in assert_eq (pool_len pool) 0%nat.

Definition test_intersection_without_relay : bool :=
  let '(pool, ctx) := pool_new ["g1"; "g2"] in
  let pool := pool_insert ctx peer [] ["g2"; "g3"] Hot 1 false pool in
  unwrap_and (pool_get peer pool) (fun handle => assert_eq (ph_group_intersection handle) ["g2"]).

Definition test_intersection_includes_relay_learned_groups : bool :=
  let '(pool, ctx) := pool_new_relay ["g1"] {["g-learned"]} in
  let pool := pool_insert ctx peer [] ["g1"; "g-learned"; "g-unknown"] Hot 1 false pool in
  unwrap_and (pool_get peer pool) (fun handle =>
    contains (ph_group_intersection handle) "g1" && contains (ph_group_intersection handle) "g-learned"
    && negb (contains (ph_group_intersection handle) "g-unknown")).

(** The learned groups are shared with the pool: it sees the group that is added. *)
Definition test_update_peer_groups_uses_relay_learned : bool :=
  let '(pool, ctx) := pool_new_relay ["g1"] ∅ in
  let pool := pool_insert ctx peer [] ["g-new"] Hot 1 false pool in
  unwrap_and (pool_get peer pool) (fun handle => assert_eq (ph_group_intersection handle) [])
  && let ctx := {| pg_our_groups := pg_our_groups ctx; pg_learned := Some {["g-new"]} |} in
     let pool := update_peer_groups ctx peer ["g-new"] pool in
     unwrap_and (pool_get peer pool) (fun handle => assert_eq (ph_group_intersection handle) ["g-new"]).

End pool_tests.

Definition node_tests : bool := all_pass [
  test_era_0_invariants; test_churn_fraction; test_stale_timeout_is_6_hours; test_message_fits_multiple_items;
  test_max_item_bytes_is_16kb; test_max_message_bytes_is_512kb; test_push_retry_backoffs;
  test_default_config; test_parse_toml; test_default_role_is_personal; test_parse_relay_role;
  test_parse_keeper_with_trusted_relays; test_effective_governor_targets_personal; test_effective_governor_targets_relay;
  test_relay_posture_default_dynamic; test_relay_posture_transparent; test_relay_posture_explicit_with_groups;
  test_personal_node_ignores_relay_section; test_relay_posture_parse;
  test_peer_pool_new; test_intersection_without_relay "peer"; test_intersection_includes_relay_learned_groups "peer";
  test_update_peer_groups_uses_relay_learned "peer"].

(** Every test of the parameters, the configuration and the pool passes on the model. *)
Lemma node_tests_pass : node_tests = true.
Proof. vm_compute. reflexivity. Qed.
