(* ===== verification/TestCrypto.v ===== *)
(** * The tests of the envelope, the identity and the messages

    The test modules of [cordelia-crypto/src/lib.rs],
    [cordelia-crypto/src/identity.rs] and [cordelia-protocol/src/messages.rs].
    The tests run with SHA-256 and base64 themselves, and with a stream cipher
    and key derivation built from SHA-256 in the places of AES-GCM and scrypt.
    A message is read from its JSON value; a test that looks at the JSON text
    looks at the text that [json_text] prints.  Tests of ring's signatures and
    of JSON parsing alone are left out. *)

From stdpp Require Import pretty.
From S2P Require Import Prelude Protocol Base64 Governor Storage Json Wire Envelope EnvelopeProps SwarmTask Sha256 Testing.

#[local] Open Scope string_scope.
#[local] Open Scope Z_scope.

(** ** The third-party code of a run *)

Definition xor_byte (x y : Byte.byte) : Byte.byte := byte_of (Z.lxor (byte_val x) (byte_val y)).

(** The key stream: the hashes of key, nonce and block number. *)
Definition key_stream (k n : bytes) (len : nat) : bytes :=
  take len (seqZ 0 (Z.of_nat (len / 32 + 1)) ≫= fun i => sha256_bytes (k ++ n ++ [byte_of i])).

Definition stream_xor (k n l : bytes) : bytes := zip_with xor_byte l (key_stream k n (length l)).
Definition stream_tag (k n c : bytes) : bytes := take TAG_LEN (sha256_bytes (k ++ n ++ c)).

Definition sha_lib : CryptoLib := {|
  scrypt_params _ _ _ _ := Ok tt;
  scrypt pass salt _ _ _ n := Ok (take n (sha256_bytes (pass ++ salt)));
  unbound_key k := if (length k =? KEY_LENGTH)%nat then Some k else None;
  seal k n p := let c := stream_xor k n p in Some (c ++ stream_tag k n c)%list;
  open k n x :=
    let c := take (length x - TAG_LEN) x in
    if bool_decide (drop (length x - TAG_LEN) x = stream_tag k n c) then Some (stream_xor k n c) else None;
  b64_encode := encode64;
  b64_decode s := match decode64 s with Some b => Ok b | None => Err "invalid base64" end;
|}.

(** ** lib.rs of the crypto crate *)

Section crypto_tests.
Context `{CR : Crypto} `{CL : CryptoLib}.
(** what the random generator gives *)
Context (salt iv1 iv2 : bytes).

(** [provider.unlock(..).unwrap()] and what follows. *)
Definition unlocked (pass : string) (test : Aes256GcmProvider -> bool) : bool :=
  match unlock (str_bytes pass) salt provider_new with
  | (p, Ok _) => test p
  | (_, Err _) => false
  end.

Definition unwrap_result {A E} (r : result A E) (test : A -> bool) : bool :=
  match r with Ok a => test a | Err _ => false end.

Definition test_round_trip : bool :=
  unlocked "test-passphrase" (fun provider =>
    let plaintext := str_bytes "hello cordelia" in
    unwrap_result (encrypt (Some iv1) plaintext provider) (fun encrypted =>
      ep_encrypted encrypted && assert_eq (ep_version encrypted) 1
      && unwrap_result (decrypt encrypted provider) (fun decrypted => assert_eq decrypted plaintext))).

Definition test_unique_iv_per_encryption : bool :=
  unlocked "test" (fun provider =>
    unwrap_result (encrypt (Some iv1) (str_bytes "same data") provider) (fun e1 =>
    unwrap_result (encrypt (Some iv2) (str_bytes "same data") provider) (fun e2 =>
      negb (assert_eq (ep_iv e1) (ep_iv e2)) && negb (assert_eq (ep_ciphertext e1) (ep_ciphertext e2))))).

Definition test_wrong_key_fails : bool :=
  unlocked "key-one" (fun enc =>
    unwrap_result (encrypt (Some iv1) (str_bytes "secret") enc) (fun payload =>
      unlocked "key-two" (fun dec => negb (is_ok (decrypt payload dec))))).

(** The first byte of the ciphertext is changed. *)
Definition tamper (l : bytes) : bytes := match l with b :: l => xor_byte b Byte.xff :: l | [] => [] end.

Definition test_tampered_ciphertext_fails : bool :=
  unlocked "test" (fun provider =>
    unwrap_result (encrypt (Some iv1) (str_bytes "data") provider) (fun payload =>
    unwrap_result (b64_decode (ep_ciphertext payload)) (fun ct =>
      let payload := {| ep_encrypted := ep_encrypted payload; ep_version := ep_version payload; ep_iv := ep_iv payload;
                        ep_auth_tag := ep_auth_tag payload; ep_ciphertext := b64_encode (tamper ct) |} in
      negb (is_ok (decrypt payload provider))))).

Definition test_derive_key_deterministic : bool :=
  let salt := replicate 32 Byte.x42 in
  unwrap_result (derive_key (str_bytes "same-pass") salt) (fun k1 =>
  unwrap_result (derive_key (str_bytes "same-pass") salt) (fun k2 => assert_eq k1 k2)).

Definition test_encrypted_payload_detection : bool :=
  let val := Object [("_encrypted", Bool true); ("version", Number 1); ("iv", Str "AAAA"); ("authTag", Str "BBBB");
                     ("ciphertext", Str "CCCC")] in
  is_encrypted val && negb (is_encrypted (Object [("name", Str "test")])).

Definition test_sha256_hex : bool :=
  let hash := sha256_hex (str_bytes "hello") in
  assert_eq (String.length hash) 64%nat
  && assert_eq hash "2cf24dba5fb0a30e26e83b2ac5b9e29e1b161e5c1fa7425e73043362938b9824".

End crypto_tests.

(** ** identity.rs *)

Section identity_tests.
Context `{KL : KeyLib} `{!EqDecision PeerId} `{!EqDecision KeyPair}.
(** the documents that ring generates *)
Context (doc doc' : bytes).

Definition test_deterministic_peer_id : bool :=
  unwrap_result (generate (Ok doc)) (fun id =>
  unwrap_result (to_libp2p_keypair id) (fun kp => assert_eq (to_peer_id kp) (nk_peer_id id))).

(** Equal key pairs have equal public keys. *)
Definition test_load_or_create : bool :=
  let path := {| kf_content := None; kf_read_error := None; kf_mkdir_error := None; kf_write_error := None |} in
  let '(path, r1) := load_or_create (Ok doc) path in
  let '(path, r2) := load_or_create (Ok doc') path in
  unwrap_result r1 (fun id1 => unwrap_result r2 (fun id2 =>
    assert_eq (nk_peer_id id1) (nk_peer_id id2) && assert_eq (nk_keypair id1) (nk_keypair id2))).

Definition test_libp2p_keypair_roundtrip : bool :=
  unwrap_result (generate (Ok doc)) (fun id =>
  unwrap_result (to_libp2p_keypair id) (fun kp =>
    let peer_id := to_peer_id kp in assert_eq peer_id (nk_peer_id id))).

Definition test_seed_extraction : bool :=
  let seed := from_finished (extract_ed25519_seed doc) (extract_in_bounds doc) in
  is_some seed && unwrap_and seed (fun seed => assert_eq (length seed) 32%nat).

End identity_tests.

(** ** messages.rs *)

(** The compact text of a value, as far as the messages need it: quotes and
    backslashes are escaped; there are no floats and no control characters. *)
Fixpoint escaped (s : string) : string :=
  match s with
  | EmptyString => EmptyString
  | String c rest =>
      if (char_val c =? 34) || (char_val c =? 92) then String (char_of 92) (String c (escaped rest)) else String c (escaped rest)
  end.

Fixpoint json_text (v : Value) : string :=
  match v with
  | Null => "null"
  | Bool b => if b then "true" else "false"
  | Number n => pretty n
  | Float _ => EmptyString
  | Str s => quoted (escaped s)
  | Array l => "[" +:+ String.concat "," (map json_text l) +:+ "]"
  | Object ms => "{" +:+ String.concat "," (map (fun kv => quoted (escaped kv.1) +:+ ":" +:+ json_text kv.2) ms) +:+ "}"
  end.

Definition moderate_culture : string := "{" +:+ quoted "broadcast_eagerness" +:+ ":" +:+ quoted "moderate" +:+ "}".
Definition chatty_culture : string := "{" +:+ quoted "broadcast_eagerness" +:+ ":" +:+ quoted "chatty" +:+ "}".

Section message_tests.
Context `{CR : Crypto} `{B64 : Base64}.

Definition small_item (id : string) (blob : bytes) (gid : string) : FetchedItem := {|
  fi_item_id := id; fi_item_type := "entity"; fi_encrypted_blob := blob; fi_checksum := "abc"; fi_author_id := "russell";
  fi_group_id := gid; fi_key_version := 1; fi_parent_id := None; fi_is_copy := false;
  fi_updated_at := "2026-01-29T00:00:00Z";
|}.

Definition test_fetched_item_blob_base64 : bool :=
  let blob := [Byte.x01; Byte.x02; Byte.x03; Byte.x04] in
  let json := enc fetched_item (small_item "test" blob "seed-drill") in
  str_contains (json_text json) "AQIDBA=="
  && unwrap_and (dec fetched_item json) (fun decoded => assert_eq (fi_encrypted_blob decoded) blob).

Definition test_peer_share_roundtrip : bool :=
  let json := enc peer_share_request {| psr_max_peers := 10 |} in
  unwrap_and (dec peer_share_request json) (fun decoded => assert_eq (psr_max_peers decoded) 10).

Definition test_sync_request_roundtrip : bool :=
  let json := enc sync_request {| sr_group_id := "g1"; sr_since := None; sr_limit := 100 |} in
  unwrap_and (dec sync_request json) (fun decoded =>
    assert_eq (sr_group_id decoded) "g1" && assert_eq (sr_limit decoded) 100).

Definition test_memory_push_request_roundtrip : bool :=
  let json := enc memory_push_request {| mpr_items := [small_item "x" [byte_of 42] "g1"] |} in
  unwrap_and (dec memory_push_request json) (fun decoded => assert_eq (fi_item_id <$> mpr_items decoded) ["x"]).

Definition test_group_exchange_roundtrip : bool :=
  let json := enc group_exchange {| gx_groups := ["g1"; "g2"]; gx_descriptors := None |} in
  unwrap_and (dec group_exchange json) (fun decoded =>
    assert_eq (gx_groups decoded) ["g1"; "g2"] && is_none (gx_descriptors decoded)).

Definition unsigned_descriptor (id culture sum : string) : GroupDescriptor := {|
  gd_id := id; gd_culture := culture; gd_updated_at := "2026-02-03T00:00:00Z"; gd_checksum := sum; gd_owner_id := None;
  gd_owner_pubkey := None; gd_signature := None;
|}.

Definition test_group_exchange_with_descriptors : bool :=
  let sum := compute_checksum "g1" moderate_culture in
  let json := enc group_exchange {| gx_groups := ["g1"]; gx_descriptors := Some [unsigned_descriptor "g1" moderate_culture sum] |} in
  unwrap_and (dec group_exchange json) (fun decoded =>
    assert_eq (gx_groups decoded) ["g1"]
    && unwrap_and (gx_descriptors decoded) (fun descs =>
         match descs with [d] => verify_checksum d | _ => false end))
  && negb (str_contains (json_text json) "name")
  && negb (str_contains (json_text json) "owner_id")
  && negb (str_contains (json_text json) "signature").

Definition test_group_exchange_backward_compat : bool :=
  let old_json := Object [("groups", Array [Str "g1"; Str "g2"])] in
  unwrap_and (dec group_exchange old_json) (fun decoded =>
    assert_eq (gx_groups decoded) ["g1"; "g2"] && is_none (gx_descriptors decoded)).

Definition test_group_descriptor_checksum : bool :=
  let sum := compute_checksum "test" "{}" in
  verify_checksum (unsigned_descriptor "test" "{}" sum)
  && negb (verify_checksum (unsigned_descriptor "test" chatty_culture sum)).

Definition test_group_descriptor_signing_payload : bool :=
  let desc := unsigned_descriptor "g1" "{}" "ignored" in
  assert_eq (signing_payload desc) (str_bytes ("g1" +:+ newline +:+ "{}" +:+ newline +:+ "2026-02-03T00:00:00Z")).

Definition message_tests : bool := all_pass [
  test_fetched_item_blob_base64; test_peer_share_roundtrip; test_sync_request_roundtrip; test_memory_push_request_roundtrip;
  test_group_exchange_roundtrip; test_group_exchange_with_descriptors; test_group_exchange_backward_compat;
  test_group_descriptor_checksum; test_group_descriptor_signing_payload].

End message_tests.

Section all_crypto.
Context `{CR : Crypto} `{CL : CryptoLib}.

Definition crypto_tests (salt iv1 iv2 : bytes) : bool := all_pass [
  test_round_trip salt iv1; test_unique_iv_per_encryption salt iv1 iv2; test_wrong_key_fails salt iv1;
  test_tampered_ciphertext_fails salt iv1; test_derive_key_deterministic; test_encrypted_payload_detection; test_sha256_hex].

End all_crypto.

Definition identity_tests `{KeyLib} `{!EqDecision PeerId} `{!EqDecision KeyPair} (doc doc' : bytes) : bool := all_pass [
  test_deterministic_peer_id doc; test_load_or_create doc doc'; test_libp2p_keypair_roundtrip doc; test_seed_extraction doc].

(** Keys are their seeds. *)
Definition seed_keys : KeyLib := {|
  KeyPair := bytes; PeerId := bytes;
  keypair_from_pkcs8 b := match from_finished (extract_ed25519_seed b) (extract_in_bounds b) with Some seed => Ok seed | None => Err "invalid document" end;
  ed25519_from_bytes b := Ok b;
  to_peer_id b := sha256_bytes b;
|}.

(** Documents in ring's layout. *)
Definition ring_document (b : Byte.byte) : bytes :=
  ring_prefix Byte.x53 Byte.x01 ++ replicate 32 b ++ [Byte.xa1; Byte.x23; Byte.x03; Byte.x21; Byte.x00] ++ sha256_bytes [b].

(** Every test of the envelope, the identity and the messages passes on the model. *)
Lemma crypto_tests_pass :
  @crypto_tests sha_crypto sha_lib (replicate 32 Byte.x11) (replicate 12 Byte.x01) (replicate 12 Byte.x02) = true
  /\ @identity_tests seed_keys _ _ (ring_document Byte.x07) (ring_document Byte.x08) = true
  /\ @message_tests sha_crypto standard_base64 = true.
Proof. split_and!; vm_compute; reflexivity. Qed.
