(* ===== verification/Mesh.v ===== *)
(** * A mesh of nodes that runs

    The nodes of [Node.v], started by [run_node] and connected by a network that
    keeps its promises: dials reach the node that listens on the address,
    requests and responses arrive, in order.  Time passes in rounds of ten
    seconds, the period of the governor; within a round the tasks run until
    nothing is left to do.  Everything a node does here is a step of [Node.v], so
    that what holds of every run holds of these.  The integration tests of
    [TestIntegration.v] run on it. *)

From S2P Require Import Prelude Float64 Protocol Governor Storage Search Json Envelope ItemStore Replication PeerPool Config SwarmTask.
From S2P Require Import ReplicationTask SyncRound Api GovernorTask Startup Node NodeProps.

(** ** State *)

Record Member := {
  mb_setting : Setting;
  mb_key : NodeIdentity;
  mb_listen : Multiaddr;
  mb_resolve : BootnodeEntry -> option Multiaddr;
  mb_node : Node;
}.

(** What is under way: something that libp2p will report to a node, a connection from the
    first node to the second, the end of their connections, and steps of spawned parts. *)
Inductive Item :=
| Report (dst : NodeId) (e : NetEvent)
| Connect (src dst : NodeId) (addr : Multiaddr)
| Close (src dst : NodeId)
| Spawned (a : NodeId) (l : Label).

Record Mesh := {
  ms_members : gmap NodeId Member;
  ms_now : Instant;
  (** the next request identifier, and for each request who asked whom; a request's
      response channel has the same number *)
  ms_next : Z;
  ms_asked : gmap Z (NodeId * NodeId);
  ms_items : list Item;
}.

Definition set_items (l : list Item) (m : Mesh) : Mesh :=
  {| ms_members := ms_members m; ms_now := ms_now m; ms_next := ms_next m; ms_asked := ms_asked m; ms_items := l |}.
Definition add_items (l : list Item) (m : Mesh) : Mesh := set_items (ms_items m ++ l) m.
Definition set_member (a : NodeId) (mb : Member) (m : Mesh) : Mesh :=
  {| ms_members := <[a := mb]> (ms_members m); ms_now := ms_now m; ms_next := ms_next m; ms_asked := ms_asked m; ms_items := ms_items m |}.
Definition set_clock (t : Instant) (m : Mesh) : Mesh :=
  {| ms_members := ms_members m; ms_now := t; ms_next := ms_next m; ms_asked := ms_asked m; ms_items := ms_items m |}.
(** A request gets its identifier. *)
Definition ask (src dst : NodeId) (m : Mesh) : Z * Mesh :=
  (ms_next m, {| ms_members := ms_members m; ms_now := ms_now m; ms_next := ms_next m + 1;
                 ms_asked := <[ms_next m := (src, dst)]> (ms_asked m); ms_items := ms_items m |}).

Definition with_node (n : Node) (mb : Member) : Member :=
  {| mb_setting := mb_setting mb; mb_key := mb_key mb; mb_listen := mb_listen mb; mb_resolve := mb_resolve mb; mb_node := n |}.

(** ** The network *)

(** A request at its receiver, and a response at the asker. *)
Definition arrives (src : NodeId) (ch : Chan) (r : Request) : NetEvent :=
  match r with
  | RqPeerShare r => EvPeerShareRequest r ch
  | RqSync r => EvBehaviour (BSyncRequest r ch)
  | RqFetch r => EvBehaviour (BFetchRequest r ch)
  | RqPush r => EvPush src r ch
  | RqGroupExchange r => EvBehaviour (BExchangeRequest src r ch)
  end.

Definition returns (rid : ReqId) (r : Response) : NetEvent :=
  EvBehaviour match r with
              | RsPeerShare l => BShareResponse rid l
              | RsSync r => BSyncResponse rid r
              | RsFetch r => BFetchResponse rid r
              | RsPush _ => BOther
              | RsGroupExchange r => BExchangeResponse rid r
              end.

Definition listens_on (addr : Multiaddr) (m : Mesh) : option NodeId :=
  fst <$> head (filter (fun am : NodeId * Member => mb_listen am.2 = addr) (map_to_list (ms_members m))).

Section mesh.
Context `{CR : Crypto} `{HI : HashIter} `{WF : WireFormats} (env : SqlEnv) (rfc3339_now : string).

(** What the spawned part of the governor task does with the answer to its request. *)
Definition spawned (a peer : NodeId) (r : result Response string) (n : Node) (m : Mesh) : list Item :=
  match r with
  | Ok (RsGroupExchange x) =>
      Spawned a <$> [ LExchangeGroups peer (gxr_groups x);
                      LExchangeRegister (ms_now m) peer (exchange_addrs peer (nd_gov n)) (gxr_groups x);
                      LExchangeLearn (known_relay (gt_gov (nd_gov n)) peer) (gxr_groups x) ]
  | Ok (RsPeerShare l) =>
      [Spawned a (LDiscovered (fun id => Some id) (fun t => Some [OtherProto t]) a (ms_now m) l)]
  | _ => []
  end.

(** Where an output of the node [a] goes; [l] is the step that gave it. *)
Definition dispatch (a : NodeId) (l : Label) (n : Node) (m : Mesh) (o : Output) : Mesh :=
  match o with
  | ODial addr =>
      add_items [match listens_on addr m with Some b => Connect a b addr | None => Report a (EvDialError None) end] m
  | ODisconnect peer => add_items [Close a peer] m
  | ORequest dst r => let '(rid, m) := ask a dst m in add_items [Report dst (arrives a rid r)] m
  | OResponse ch r =>
      match ms_asked m !! ch with Some (src, _) => add_items [Report src (returns ch r)] m | None => m end
  | OReply _ r =>
      match l with
      | LNetwork _ _ (EvBehaviour (BExchangeResponse rid _)) | LNetwork _ _ (EvBehaviour (BShareResponse rid _)) =>
          match ms_asked m !! rid with Some (_, peer) => add_items (spawned a peer r n m) m | None => m end
      | _ => m
      end
  | OEvent _ => m
  end.

(** A step of a node; one that is not possible does nothing. *)
Definition perform (a : NodeId) (l : Label) (m : Mesh) : Mesh :=
  match ms_members m !! a with
  | None => m
  | Some mb =>
      match @step CR (mb_key mb) HI WF (mb_setting mb) l (mb_node mb) with
      | None => m
      | Some n =>
          foldl (dispatch a l n) (set_member a (with_node n mb) m) (@outputs CR (mb_key mb) HI (mb_setting mb) l (mb_node mb))
      end
  end.

Definition connections_of (a peer : NodeId) (m : Mesh) : Z :=
  match ms_members m !! a with Some mb => default 0 (nd_conns (mb_node mb) !! peer) | None => 0 end.

Definition net (e : NetEvent) : Label := LNetwork env true e.

Definition listen_of (a : NodeId) (m : Mesh) : Multiaddr := match ms_members m !! a with Some mb => mb_listen mb | None => [] end.

(** Both ends hear of a connection, and of each other's addresses. *)
Definition connect (src dst : NodeId) (addr : Multiaddr) (m : Mesh) : Mesh :=
  let m := perform src (net (EvConnected dst addr (connections_of src dst m + 1))) m in
  let m := perform dst (net (EvConnected src [OtherProto "ephemeral"] (connections_of dst src m + 1))) m in
  let m := perform src (net (EvBehaviour (BIdentify dst [listen_of dst m] addr "cordelia"))) m in
  perform dst (net (EvBehaviour (BIdentify src [listen_of src m] addr "cordelia"))) m.

Fixpoint close_all (fuel : nat) (a peer : NodeId) (m : Mesh) : Mesh :=
  match fuel with
  | O => m
  | S fuel =>
      if connections_of a peer m <=? 0 then m
      else close_all fuel a peer (perform a (net (EvClosed peer (connections_of a peer m - 1))) m)
  end.

Definition deliver_item (i : Item) (m : Mesh) : Mesh :=
  match i with
  | Report dst e => perform dst (net e) m
  | Connect src dst addr => if String.eqb src dst then perform src (net (EvDialError None)) m else connect src dst addr m
  | Close src dst => close_all (Z.to_nat (connections_of dst src m)) dst src (close_all (Z.to_nat (connections_of src dst m)) src dst m)
  | Spawned a l => perform a l m
  end.

(** ** The tasks *)

(** What a node does next by itself. *)
Definition own_step (m : Mesh) (n : Node) : option Label :=
  match nd_events n, nd_cmds n, nd_reply n, nd_round n with
  | _ :: _, _, _, _ => Some (LEvent (ms_now m) (fun _ => 0))
  | [], c :: _, _, _ => Some (LCommand env (ms_next m))
  | [], [], Some _, Some _ => Some (LResume env (fun _ => O))
  | [], [], _, None =>
      match recv_write (nd_app n), recv_bootstrap (nd_app n) with
      | Some _, _ => Some (LWrite env rfc3339_now)
      | None, Some _ => Some (LBootstrap (fun _ => O))
      | None, None => None
      end
  | _, _, _, _ => None
  end.

Definition busy_node (m : Mesh) : option (NodeId * Label) :=
  head (omap (fun am : NodeId * Member => (fun l => (am.1, l)) <$> own_step m (mb_node am.2)) (map_to_list (ms_members m))).

(** One thing after the other until all is quiet. *)
Fixpoint settle (fuel : nat) (m : Mesh) : Mesh :=
  match fuel with
  | O => m
  | S fuel =>
      match busy_node m with
      | Some (a, l) => settle fuel (perform a l m)
      | None =>
          match ms_items m with
          | [] => m
          | i :: rest => settle fuel (deliver_item i (set_items rest m))
          end
      end
  end.

Definition SETTLE : nat := 2000.

(** The timers of a node. *)
Definition timers (a : NodeId) (m : Mesh) : Mesh :=
  match ms_members m !! a with
  | None => m
  | Some mb =>
      let t := ms_now m in
      let m := perform a (LTick {| at_unban := t; at_reap := t; at_cold := t; at_hot := t; at_demote := t; at_churn := t |} t
                            (mb_resolve mb) (fun _ => 0)) m in
      let m := perform a (LDiscover (fun l => l) (fun _ => 0)) m in
      let m := settle SETTLE m in
      let m := settle SETTLE (perform a (LFlush t true) m) in
      let m := settle SETTLE (perform a (LRetry t true) m) in
      settle SETTLE (perform a (LSync env (fun _ => O) t) m)
  end.

(** Ten seconds. *)
Definition round (m : Mesh) : Mesh :=
  let m := set_clock (ms_now m + from_secs 10) m in
  foldl (fun m a => timers a m) m (map_to_list (ms_members m)).*1.

(** Rounds until the condition holds. *)
Fixpoint wait (rounds : nat) (cond : Mesh -> bool) (m : Mesh) : option Mesh :=
  if cond m then Some m
  else match rounds with O => None | S k => wait k cond (round m) end.

Definition sleep (rounds : nat) (m : Mesh) : Mesh := Nat.iter rounds round m.

(** A request to the API of a node. *)
Definition call_api (a : NodeId) (req : ApiRequest) (m : Mesh) : option HttpResponse * Mesh :=
  match ms_members m !! a with
  | None => (None, m)
  | Some mb =>
      let n := mb_node mb in
      let h := cli_headers (bearer_token (nd_app n)) in
      (Some (router (st_fts_match (mb_setting mb)) env (ms_now m) h req (app_view (st_addr_text (mb_setting mb)) n)).2,
       settle SETTLE (perform a (LApi env (ms_now m) h req) m))
  end.

End mesh.

(** ** Every member of the mesh runs as [Node.v] says *)

Section runs.
Context `{CR : Crypto} `{HI : HashIter} `{WF : WireFormats}.

Definition ran (ls : list Label) (mb : Member) : Member :=
  with_node (@run CR (mb_key mb) HI WF (mb_setting mb) ls (mb_node mb)) mb.

(** The members of the second mesh are those of the first, after steps of their own. *)
Definition evolves (m m' : Mesh) : Prop := map_Forall2 (fun _ mb mb' => exists ls, mb' = ran ls mb) (ms_members m) (ms_members m').

Lemma with_node_id mb : with_node (mb_node mb) mb = mb.
Proof. by destruct mb. Qed.

Lemma ran_app ls ls' mb : ran ls' (ran ls mb) = ran (ls ++ ls') mb.
Proof. unfold ran, run. cbn. by rewrite foldl_app. Qed.

#[export] Instance evolves_preorder : PreOrder evolves.
Proof.
  split.
  - intros m a. destruct (_ !! a); constructor. exists []. symmetry. apply with_node_id.
  - intros m1 m2 m3 H12 H23 a. specialize (H12 a). specialize (H23 a).
    destruct H12 as [mb1 mb2 [ls ->]|]; inversion H23 as [? mb3 [ls' ->]|]; subst; constructor.
    exists (ls ++ ls'). apply ran_app.
Qed.

Lemma evolves_members m m' : ms_members m' = ms_members m -> evolves m m'.
Proof. intros Hm. transitivity m; [done|]. unfold evolves at 1. rewrite Hm. apply (reflexivity (R := evolves) m). Qed.

Lemma dispatch_members a l n m o : ms_members (dispatch a l n m o) = ms_members m.
Proof. destruct o; cbn; repeat case_match; done. Qed.

Lemma foldl_evolves {A} (f : Mesh -> A -> Mesh) (xs : list A) m : (forall m x, evolves m (f m x)) -> evolves m (foldl f m xs).
Proof. intros Hf. revert m. induction xs as [|x xs IH]; intros m; [done|]. cbn. transitivity (f m x); [apply Hf|apply IH]. Qed.

Lemma perform_evolves a l m : evolves m (perform a l m).
Proof.
  unfold perform. destruct (ms_members m !! a) as [mb|] eqn:Ha; [|done].
  destruct (step _ l _) as [n|] eqn:Hs; [|done].
  transitivity (set_member a (with_node n mb) m).
  - intros b. cbn. destruct (decide (a = b)) as [<-|Hb].
    + rewrite lookup_insert_eq, Ha. constructor. exists [l]. unfold ran, run. cbn. by rewrite Hs.
    + rewrite lookup_insert_ne by done. apply (reflexivity (R := evolves) m).
  - apply foldl_evolves. intros m' o. apply evolves_members, dispatch_members.
Qed.

Context (env : SqlEnv) (rfc3339_now : string).

Lemma close_all_evolves fuel a peer m : evolves m (close_all env fuel a peer m).
Proof.
  revert m. induction fuel as [|fuel IH]; intros m; [done|]. cbn. case_match; [done|].
  etransitivity; [apply perform_evolves|apply IH].
Qed.

Lemma deliver_item_evolves i m : evolves m (deliver_item env i m).
Proof.
  destruct i; cbn; [apply perform_evolves| | |apply perform_evolves].
  - case_match; [apply perform_evolves|]. unfold connect. do 3 (etransitivity; [|apply perform_evolves]). apply perform_evolves.
  - etransitivity; apply close_all_evolves.
Qed.

Lemma settle_evolves fuel m : evolves m (settle env rfc3339_now fuel m).
Proof.
  revert m. induction fuel as [|fuel IH]; intros m; [done|]. cbn. destruct (busy_node _ _ m) as [[a l]|].
  - etransitivity; [apply perform_evolves|apply IH].
  - destruct (ms_items m) as [|i rest]; [done|]. transitivity (set_items rest m); [by apply evolves_members|].
    etransitivity; [apply deliver_item_evolves|apply IH].
Qed.

Lemma timers_evolves a m : evolves m (timers env rfc3339_now a m).
Proof.
  unfold timers. case_match; [|done]. cbn zeta.
  repeat (etransitivity; [|apply settle_evolves]; etransitivity; [|apply perform_evolves]). apply perform_evolves.
Qed.

(** However long the mesh is left alone, each of its nodes has only taken steps of [Node.v]. *)
Lemma sleep_evolves k m : evolves m (sleep env rfc3339_now k m).
Proof.
  unfold sleep. induction k as [|k IH]; [done|]. cbn. transitivity (Nat.iter k (round env rfc3339_now) m); [done|].
  unfold round. etransitivity; [|apply foldl_evolves; intros; apply timers_evolves]. by apply evolves_members.
Qed.

Lemma wait_evolves k cond m m' : wait env rfc3339_now k cond m = Some m' -> evolves m m'.
Proof.
  revert m. induction k as [|k IH]; intros m; cbn; case_match; intros Hw; simplify_eq; [done..|].
  etransitivity; [apply (sleep_evolves 1)|by apply IH].
Qed.

(** So what every step of a node keeps is kept in the mesh. *)
Lemma evolves_wf (ids : NodeId -> string * string * string) m m' :
  evolves m m' ->
  map_Forall (fun a mb => node_wf (st_addr_text (mb_setting mb)) (ids a) (mb_node mb)) (ms_members m) ->
  map_Forall (fun a mb => node_wf (st_addr_text (mb_setting mb)) (ids a) (mb_node mb)) (ms_members m').
Proof.
  intros Hf Hm a mb' Ha. specialize (Hf a). rewrite Ha in Hf. inversion Hf as [mb ? [ls ->] Hmb|]; subst.
  exact (@run_wf CR (mb_key mb) HI WF (mb_setting mb) (ids a) ls (mb_node mb) (Hm a mb (eq_sym Hmb))).
Qed.

End runs.
