(* ===== verification/TestIntegration.v ===== *)
(** * The integration tests

    The scenarios of [cordelia-node/tests/integration] on the mesh of [Mesh.v].
    The nodes are started from configurations by [run_node], as in production:
    those that the tests start with a posture are relays with that posture, the
    others are personal nodes.  Waiting with a deadline is a number of rounds. *)

From stdpp Require Import pretty.
From S2P Require Import Prelude Float64 Base64 Protocol Governor Storage StorageProps Search Json Envelope EnvelopeProps ItemStore Replication PeerPool Config.
From S2P Require Import SwarmTask ReplicationTask SyncRound Api GovernorTask Startup Node Sha256 Testing TestCrypto Mesh.

#[local] Open Scope string_scope.
#[local] Open Scope Z_scope.

(** ** The harness *)

(** JSON values are written as their text; reading gives the text back as a string. *)
Definition text_wire : WireFormats := {|
  json_to_vec v := Ok (str_bytes (json_text v));
  json_from_slice b := Some (Str (String.string_of_list_byte b));
  base64_encode b := encode64 b;
  sqlite_error_text _ := "error";
|}.

(** The digests play no part in the scenarios: the hash of a text is the text. *)
#[local] Existing Instance toy_crypto.
#[local] Existing Instance sorted_iter.
#[local] Existing Instance text_wire.
#[local] Existing Instance seed_keys.

Record TestNode := {
  tn_name : string;
  tn_seed : Byte.byte;
  tn_groups : list string;
  tn_boot : list string;
  tn_posture : option string;
  tn_blocked : list string;
}.

(** [TestNodeBuilder::build], by configuration; the address is named after the node. *)
Definition config_of (t : TestNode) : NodeConfig := {|
  cfg_node := {| ns_identity_key := "k"; ns_api_transport := "http"; ns_api_socket := None; ns_api_addr := None;
                 ns_database := "d"; ns_entity_id := tn_name t; ns_role := match tn_posture t with Some _ => "relay" | None => "personal" end;
                 ns_groups := tn_groups t |};
  cfg_network := {| nw_listen_addr := "addr-" +:+ tn_name t; nw_bootnodes := (fun b => {| bn_addr := "addr-" +:+ b |}) <$> tn_boot t;
                    nw_trusted_relays := []; nw_external_addr := None |};
  cfg_governor := {| gvs_hot_min := 1; gvs_hot_max := 5; gvs_warm_min := 1; gvs_warm_max := 5; gvs_cold_max := 10;
                     gvs_churn_interval_secs := 3600; gvs_churn_fraction := f64_of_Z 0 |};
  cfg_replication := default_replication_section;
  cfg_relay := (fun p => {| rs_posture := p; rs_allowed_groups := []; rs_blocked_groups := tn_blocked t |}) <$> tn_posture t;
|}.

Definition world_of (t : TestNode) : World := {|
  w_home := None; w_env := ex_env; w_now := 0; w_open_error := None; w_swarm_error _ := None; w_bind_error _ := None;
  w_parse_multiaddr a := Some [OtherProto a]; w_parse_socket _ := None; w_lookup _ := Ok [];
  w_sampled_token := "test-token-" +:+ tn_name t; w_generated := Ok (ring_document (tn_seed t));
|}.

Definition fresh_files : Files := {|
  f_key := ex_key_fs;
  f_token := {| tf_content := None; tf_private := false; tf_read_error := None; tf_mkdir_error := None; tf_write_error := None; tf_chmod_error := None |};
  f_db := empty_db |}.

Definition member_of (t : TestNode) : option (NodeId * Member) :=
  match run_node hex_text (world_of t) (config_of t) fresh_files with
  | (_, Err _) => None
  | (_, Ok i) =>
      Some (Api.node_id (ni_app i), {|
        mb_setting := {| st_role := cfg_role (config_of t); st_entity_id := tn_name t; st_relay := ni_relay i; st_engine := ni_engine i;
                         st_parse_culture _ := None; st_placeholder_id := placeholder_id hex_text;
                         st_addr_text a := match a with [OtherProto s] => s | _ => EmptyString end; st_fts_match _ _ _ := Ok [] |};
        mb_key := {| public_key := replicate 32 (tn_seed t); sign m := (replicate 32 (tn_seed t) ++ m)%list |};
        mb_listen := ni_listen i; mb_resolve := resolve_bootnode (world_of t); mb_node := first_node i |})
  end.

Definition empty_mesh : Mesh := {| ms_members := ∅; ms_now := from_secs 1000; ms_next := 1; ms_asked := ∅; ms_items := [] |}.

Definition start_node (t : TestNode) (m : Mesh) : Mesh :=
  match member_of t with Some (a, mb) => set_member a mb m | None => m end.

Definition mesh_of (ts : list TestNode) : Mesh := foldl (fun m t => start_node t m) empty_mesh ts.

(** The identity of the running node with the name. *)
Definition node_named (name : string) (m : Mesh) : NodeId :=
  match filter (fun am : NodeId * Member => st_entity_id (mb_setting am.2) = name) (map_to_list (ms_members m)) with
  | (a, _) :: _ => a
  | [] => EmptyString
  end.

(** [api_peers] *)
Definition peers_of (name : string) (m : Mesh) : nat * nat :=
  match ms_members m !! node_named name m with Some mb => peer_count_by_state (nd_pool (mb_node mb)) | None => (O, O) end.

Definition hot_peers (k : nat) (a : string) (m : Mesh) : bool := (k <=? (peers_of a m).2)%nat.
Definition connected_peers (k : nat) (a : string) (m : Mesh) : bool := (k <=? (peers_of a m).1 + (peers_of a m).2)%nat.

(** A node that shuts down: the others lose their connections to it. *)
Definition stop_node (name : string) (m : Mesh) : Mesh :=
  let a := node_named name m in
  let m := foldl (fun m b => close_all ex_env (Z.to_nat (connections_of b a m)) b a m) m (map_to_list (ms_members m)).*1 in
  settle ex_env "2026-02-01T10:00:00+00:00" SETTLE
    {| ms_members := delete a (ms_members m); ms_now := ms_now m; ms_next := ms_next m; ms_asked := ms_asked m; ms_items := ms_items m |}.

(** [disconnect_peer]: a command of the test. *)
Definition disconnect_peer (name peer : string) (m : Mesh) : Mesh :=
  let a := node_named name m in
  match ms_members m !! a with
  | Some mb => set_member a (with_node (set_cmds (nd_cmds (mb_node mb) ++ [CmdDisconnect (node_named peer m)])%list (mb_node mb)) mb) m
  | None => m
  end.

Abbreviation waits secs cond := (wait ex_env "2026-02-01T10:00:00+00:00" (secs / 10) cond) (only parsing).
Abbreviation sleeps secs := (sleep ex_env "2026-02-01T10:00:00+00:00" (secs / 10)) (only parsing).
Abbreviation post a req m := (call_api ex_env "2026-02-01T10:00:00+00:00" (node_named a m) req m) (only parsing).

Definition write_request (id : string) (data : Value) (group : string) : ApiRequest :=
  RL2Write {| l2w_item_id := id; l2w_item_type := "entity"; l2w_data := data;
    l2w_meta := Some {| wm_visibility := Some "group"; wm_group_id := Some group; wm_owner_id := Some "test"; wm_author_id := Some "test";
                        wm_key_version := Some 1; wm_parent_id := None; wm_is_copy := None |} |}.

(** [api_write_item] of data that is not JSON. *)
Definition write_item (a : string) (id data group : string) (m : Mesh) : Mesh :=
  (post a (write_request id (Object [("raw", Str data)]) group) m).2.

(** The response is an object with the member. *)
Definition answers_with (name : string) (r : option HttpResponse) : bool :=
  match r with
  | Some {| body := Json (Object ms) |} => existsb (fun kv => String.eqb kv.1 name) ms
  | _ => false
  end.

Definition has_item (id : string) (a : string) (m : Mesh) : bool :=
  let r := (post a (RL2Read {| l2r_item_id := id |}) m).1 in answers_with "data" r || answers_with "type" r.

Definition passes (t : option bool) : bool := default false t.

(** [TestNodeBuilder]: a personal node, and a relay without groups. *)
Definition member (name : string) (seed : Byte.byte) (groups boot : list string) : TestNode :=
  {| tn_name := name; tn_seed := seed; tn_groups := groups; tn_boot := boot; tn_posture := None; tn_blocked := [] |}.

Definition relay (name : string) (seed : Byte.byte) (posture : string) (blocked : list string) : TestNode :=
  {| tn_name := name; tn_seed := seed; tn_groups := []; tn_boot := []; tn_posture := Some posture; tn_blocked := blocked |}.

(** [TestMesh::with_group_assignments]: every node has all earlier ones as bootnodes. *)
Fixpoint builders (names : list string) (k : Z) (groups : list (list string)) : list TestNode :=
  match groups with
  | [] => []
  | gs :: rest =>
      let name := "node-" +:+ pretty k in
      member name (byte_of (k + 1)) gs names :: builders (names ++ [name])%list (k + 1) rest
  end.

(** [TestMesh::new] *)
Definition same_groups (n : nat) (groups : list string) : list TestNode := builders [] 0 (replicate n groups).

(** [wait_full_mesh] *)
Definition full_mesh (ts : list TestNode) (m : Mesh) : bool :=
  let expected := (length ts - 1)%nat in
  forallb (fun t => if (length ts =? 2)%nat then hot_peers expected (tn_name t) m else connected_peers expected (tn_name t) m) ts.

Definition everywhere (id : string) (ts : list TestNode) (m : Mesh) : bool := forallb (fun t => has_item id (tn_name t) m) ts.
Definition nowhere (id : string) (ts : list TestNode) (m : Mesh) : bool := forallb (fun t => negb (has_item id (tn_name t) m)) ts.

(** ** convergence.rs *)

Definition test_two_node_convergence : bool := passes (
  let ts := same_groups 2 ["g1"] in
  m ← waits 90 (full_mesh ts) (mesh_of ts); Some true).

Definition test_n_node_convergence : bool := passes (
  let ts := same_groups 3 ["g1"] in
  m ← waits 90 (full_mesh ts) (mesh_of ts); Some true).

Definition test_staggered_startup : bool := passes (
  let node_a := member "node-a" Byte.x01 ["g1"] [] in
  let node_b := member "node-b" Byte.x02 ["g1"] ["node-a"] in
  let m := start_node node_b (sleeps 10 (mesh_of [node_a])) in
  m ← waits 60 (hot_peers 1 (tn_name node_a)) m;
  m ← waits 60 (hot_peers 1 (tn_name node_b)) m; Some true).

Definition test_late_joiner : bool := passes (
  let ts := same_groups 2 ["g1"] in
  m ← waits 90 (full_mesh ts) (mesh_of ts);
  let late := member "node-late" Byte.x20 ["g1"] (tn_name <$> ts) in
  let m := start_node late m in
  m ← waits 90 (fun m => forallb (fun t => connected_peers 2 (tn_name t) m) ts) m;
  m ← waits 90 (connected_peers 2 (tn_name late)) m; Some true).

Definition test_rolling_restart : bool := passes (
  let ts := same_groups 3 ["g1"] in
  m ← waits 90 (full_mesh ts) (mesh_of ts);
  removed ← last ts;
  let remaining := removelast ts in
  let m := sleeps 10 (stop_node (tn_name removed) m) in
  let rebuilt := member "node-rebuilt" Byte.x20 ["g1"] (tn_name <$> remaining) in
  let m := start_node rebuilt m in
  m ← waits 90 (fun m => forallb (fun t => connected_peers 2 (tn_name t) m) remaining) m;
  m ← waits 90 (connected_peers 2 (tn_name rebuilt)) m; Some true).

Definition test_peer_disconnect_recovery : bool := passes (
  let ts := same_groups 3 ["g1"] in
  m ← waits 90 (full_mesh ts) (mesh_of ts);
  node0 ← ts !! 0%nat; node1 ← ts !! 1%nat;
  let m := sleeps 10 (disconnect_peer (tn_name node0) (tn_name node1) m) in
  m ← waits 90 (full_mesh ts) m; Some true).

Definition test_connection_stability : bool := passes (
  let ts := same_groups 3 ["g1"] in
  m ← waits 90 (full_mesh ts) (mesh_of ts);
  let expected := 2%nat in
  let m' := sleeps 60 m in
  Some (forallb (fun t => connected_peers expected (tn_name t) m) ts
        && forallb (fun t => let '(w, h) := peers_of (tn_name t) m' in (w + h <=? expected + 1)%nat) ts)).

(** ** replication.rs *)

Definition test_item_replication_chatty : bool := passes (
  let ts := same_groups 2 ["chatty-group"] in
  m ← waits 90 (full_mesh ts) (mesh_of ts);
  node0 ← ts !! 0%nat;
  let m := write_item (tn_name node0) "item-chatty-001" "test-blob-chatty" "chatty-group" m in
  m ← waits 30 (everywhere "item-chatty-001" (tail ts)) m; Some true).

Definition test_item_replication_moderate_maps_to_chatty : bool := passes (
  let node_a := member "mod-a" Byte.x01 ["mod-group"] [] in
  let node_b := member "mod-b" Byte.x02 ["mod-group"] ["mod-a"] in
  m ← waits 60 (hot_peers 1 (tn_name node_a)) (mesh_of [node_a; node_b]);
  let m := write_item (tn_name node_a) "item-mod-001" "test-blob-moderate" "mod-group" m in
  m ← waits 60 (has_item "item-mod-001" (tn_name node_b)) m; Some true).

Definition test_group_scoped_replication : bool := passes (
  let node_a := member "scope-a" Byte.x01 ["g1"; "g2"] [] in
  let node_b := member "scope-b" Byte.x02 ["g1"] ["scope-a"] in
  let node_c := member "scope-c" Byte.x03 ["g2"] ["scope-a"] in
  m ← waits 90 (connected_peers 2 (tn_name node_a)) (mesh_of [node_a; node_b; node_c]);
  let m := write_item (tn_name node_a) "item-g1-only" "g1-data" "g1" m in
  m ← waits 60 (has_item "item-g1-only" (tn_name node_b)) m;
  Some (negb (has_item "item-g1-only" (tn_name node_c) (sleeps 20 m)))).

(** Two members of the groups that have the relay as their only bootnode. *)
Definition behind_relay (r : TestNode) (groupsA groupsB : list string) (scenario : string -> string -> string -> Mesh -> option bool) : bool :=
  passes (
  let node_a := member "fwd-a" Byte.x01 groupsA [tn_name r] in
  let node_b := member "fwd-b" Byte.x02 groupsB [tn_name r] in
  m ← waits 60 (fun m => connected_peers 2 (tn_name r) m && connected_peers 1 (tn_name node_a) m && connected_peers 1 (tn_name node_b) m)
        (mesh_of [r; node_a; node_b]);
  scenario (tn_name r) (tn_name node_a) (tn_name node_b) m).

Definition test_blind_relay_forwarding_transparent : bool :=
  behind_relay (relay "relay-t" Byte.x09 "transparent" []) ["g1"] ["g1"] (fun relay a b m =>
    let m := write_item a "relay-fwd-001" "transparent" "g1" m in
    m ← waits 60 (has_item "relay-fwd-001" b) m;
    Some (has_item "relay-fwd-001" relay m)).

Definition test_dynamic_relay_scoping : bool :=
  behind_relay (relay "relay-d" Byte.x09 "dynamic" []) ["g1"; "g2"] ["g1"] (fun relay a b m =>
    let m := sleeps 10 m in
    let m := write_item a "dyn-g1-001" "dynamic-g1" "g1" m in
    m ← waits 60 (has_item "dyn-g1-001" b) m;
    let m := sleeps 20 (write_item a "dyn-g2-001" "dynamic-g2" "g2" m) in
    Some (has_item "dyn-g2-001" relay m && negb (has_item "dyn-g2-001" b m))).

Definition test_blocked_groups : bool :=
  behind_relay (relay "relay-b" Byte.x09 "transparent" ["g1"]) ["g1"] ["g1"] (fun relay a b m =>
    let m := sleeps 20 (write_item a "blocked-001" "blocked" "g1" m) in
    Some (negb (has_item "blocked-001" relay m) && negb (has_item "blocked-001" b m))).

Definition test_replication_propagation_timing : bool := passes (
  let ts := same_groups 3 ["chatty-group"] in
  m ← waits 90 (full_mesh ts) (mesh_of ts);
  node0 ← ts !! 0%nat;
  let m := write_item (tn_name node0) "timing-item-001" "propagation-timing-test" "chatty-group" m in
  m ← waits 60 (everywhere "timing-item-001" (tail ts)) m; Some true).

Definition test_group_isolation_at_scale : bool := passes (
  let ts := builders [] 0 [["g1"; "g2"]; ["g1"]; ["g2"]] in
  m ← waits 90 (fun m => forallb (fun t => connected_peers 2 (tn_name t) m) ts) (mesh_of ts);
  node0 ← ts !! 0%nat;
  let m := write_item (tn_name node0) "g1-scale-item" "g1" "g1" m in
  m ← waits 60 (everywhere "g1-scale-item" (take 2 ts)) m;
  Some (nowhere "g1-scale-item" (drop 2 ts) (sleeps 20 m))).

Definition test_concurrent_write_convergence : bool := passes (
  let ts := same_groups 3 ["chatty-group"] in
  m ← waits 90 (full_mesh ts) (mesh_of ts);
  let m := foldl (fun m t => write_item (tn_name t) ("concurrent-" +:+ tn_name t) "concurrent-write" "chatty-group" m) m ts in
  m ← waits 60 (fun m => forallb (fun t => everywhere ("concurrent-" +:+ tn_name t) ts m) ts) m; Some true).

(** The group of the response to a request to read it, and a text of it. *)
Definition read_group_of (g : string) (a : string) (m : Mesh) : option (list (string * Value)) :=
  match (post a (RGroupsRead {| grq_group_id := g |}) m).1 with
  | Some {| body := Json (Object (("group", Object ms) :: _)) |} => Some ms
  | _ => None
  end.

Definition text_of (name : string) (ms : list (string * Value)) : option string :=
  match find (fun kv => String.eqb kv.1 name) ms with Some (_, Str s) => Some s | _ => None end.

(** The harness makes the node the owner of its groups; a node that starts does not. *)
Definition owns (a : TestNode) (g : string) (m : Mesh) : Mesh :=
  (post (tn_name a) (RGroupsAddMember (group_add_member_request g (tn_name a) (Some "owner"))) m).2.

Definition test_group_descriptor_replication : bool := passes (
  let node_a := member "desc-a" Byte.x01 ["desc-g1"] [] in
  let node_b := member "desc-b" Byte.x02 ["desc-g1"] ["desc-a"] in
  let m := owns node_b "desc-g1" (owns node_a "desc-g1" (mesh_of [node_a; node_b])) in
  m ← waits 60 (fun m => connected_peers 1 (tn_name node_a) m && connected_peers 1 (tn_name node_b) m) m;
  let m := sleeps 10 m in
  a_grp ← read_group_of "desc-g1" (tn_name node_a) m;
  b_grp ← read_group_of "desc-g1" (tn_name node_b) m;
  owner ← text_of "owner_id" a_grp; key ← text_of "owner_pubkey" a_grp; sig ← text_of "signature" a_grp;
  if decide (text_of "culture" a_grp = text_of "culture" b_grp) then
    let m := write_item (tn_name node_a) "desc-item-001" "descriptor-test" "desc-g1" m in
    m ← waits 30 (has_item "desc-item-001" (tn_name node_b)) m; Some true
  else None).

Definition test_group_descriptor_via_relay : bool :=
  behind_relay (relay "relay-g" Byte.x09 "dynamic" []) ["relay-desc-g1"] ["relay-desc-g1"] (fun relay a b m =>
    let m := sleeps 10 (owns (member "fwd-a" Byte.x01 [] []) "relay-desc-g1" m) in
    learned ← read_group_of "relay-desc-g1" relay m;
    let m := write_item a "relay-desc-001" "relay-descriptor-test" "relay-desc-g1" m in
    m ← waits 60 (has_item "relay-desc-001" b) m; Some true).

(** ** backpressure.rs *)

Definition big_data : string := String.string_of_list_byte (replicate (Z.to_nat 17000) Byte.x42).

Definition too_large (r : option HttpResponse) : bool := match r with Some resp => status_code resp =? 413 | None => false end.

Definition test_oversized_item_rejected_api : bool := passes (
  node0 ← same_groups 1 ["g1"] !! 0%nat;
  Some (too_large (post (tn_name node0) (write_request "big-item" (Object [("raw", Str big_data)]) "g1") (mesh_of [node0])).1)).

Definition test_oversized_suppressed_replication : bool := passes (
  let ts := same_groups 2 ["g1"] in
  m ← waits 90 (full_mesh ts) (mesh_of ts);
  node0 ← ts !! 0%nat; node1 ← ts !! 1%nat;
  let m := write_item (tn_name node0) "normal-item" "small-data" "g1" m in
  m ← waits 30 (has_item "normal-item" (tn_name node1)) m;
  let '(r, m) := post (tn_name node0) (write_request "big-repl-item" (Object [("raw", Str big_data)]) "g1") m in
  Some (too_large r && negb (has_item "big-repl-item" (tn_name node1) (sleeps 10 m)))).

(** ** The tests pass *)

Lemma convergence_tests_pass : all_pass [
  test_two_node_convergence; test_n_node_convergence; test_staggered_startup; test_late_joiner; test_rolling_restart;
  test_peer_disconnect_recovery; test_connection_stability] = true.
Proof. vm_compute. reflexivity. Qed.

Lemma item_replication_tests_pass : all_pass [
  test_item_replication_chatty; test_item_replication_moderate_maps_to_chatty; test_group_scoped_replication;
  test_blind_relay_forwarding_transparent; test_dynamic_relay_scoping; test_blocked_groups;
  test_group_descriptor_replication; test_group_descriptor_via_relay] = true.
Proof. vm_compute. reflexivity. Qed.

Lemma scale_tests_pass : all_pass [
  test_replication_propagation_timing; test_group_isolation_at_scale; test_concurrent_write_convergence] = true.
Proof. vm_compute. reflexivity. Qed.

Lemma backpressure_tests_pass : all_pass [test_oversized_item_rejected_api; test_oversized_suppressed_replication] = true.
Proof. vm_compute. reflexivity. Qed.
